(* ===== verification/_CoqProject ===== *)
-Q . S2P
Prelude.v
Threads.v
ReplayWindow.v
ReplayReference.v
AntiReplay.v
WindowTests.v
Cipher.v
Session.v
SessionFacts.v
SessionProperties.v
SessionThreads.v
AesGcm.v
SessionTests.v
SessionTraffic.v
ThreadedTests.v
ExpresslaneFfi.v
FfiProperties.v
FfiTests.v
ClientTypes.v
Timer.v
Conn.v
Client.v
ToyCore.v
ClientFacts.v
ClientProperties.v
ClientTests.v
ClientSchedule.v
ClientHost.v
ClientSettings.v
ClientThreads.v
Pool.v
PoolFacts.v
Arms.v
ArmsFacts.v
ArmsProperties.v
F64.v
F64Facts.v
Platform.v
Format.v
Runner.v
RunnerFacts.v
PlatformProperties.v
Report.v
Printing.v
BenchProperties.v
