(* ===== verification/Prelude.v ===== *)
(** * lightway-cffi: a verification development

    The repository is the C interface of the Lightway VPN client, three Rust
    libraries and a benchmark:

    - [lightway-expresslane]: the ExpressLane data plane.  A session holds an
      AES-256-GCM send key and staged successor, the current and previous peer
      keys, packet counters, and an anti-replay window of 8192 counters kept as
      a ring bitmap.
    - [lightway-expresslane-cffi]: the same session behind opaque handles and
      C pointers ([he_expresslane_*]).
    - the root crate [lightway-cffi]: the client ([he_client_*], [he_ssl_ctx_*],
      [he_conn_*]).  It configures and drives a [lightway-core] connection under
      a per-client lock, and bridges the core's callbacks to C: state changes,
      packets, IP configuration, keys and timers.
    - [lightway-expresslane-bench]: a Windows program that measures the session and
      alternative AEAD providers on a pool of sealed packets and prints a report
      with validity gates.

    ** Files

    - [Prelude]: outcomes ([Ret] or [Panic]), results, machine integers, bytes
      and big-endian fields, slices, and the tactics and rewrite databases.
    - [Threads]: lock words that follow the program points of threads.
    - [ReplayWindow]: the ring bitmap of [replay_window.rs] ([Ring]), the
      history of accepted counters it promises to implement ([Spec]), and their
      refinement ([Refinement], [Properties]).
    - [ReplayReference]: the frozen age-indexed window that the crate's tests use
      as oracle, and its equivalence with the ring.
    - [AntiReplay]: the interface (a class with laws) through which the session
      uses a window, with the ring and the reference as instances.
    - [WindowTests]: the tests of [replay_window.rs] on the model, evaluated or, for
      the differential harness, proved for every seed.
    - [Cipher]: [cipher.rs], [key.rs], [version.rs], [error.rs].  The [ring]
      crate is the class [Aead] with laws [AeadLaws]; a small concrete cipher
      satisfies them.
    - [Session]: [session.rs] ([Session]) and the contract of its packet
      operations ([SessionSpec]).  [SessionFacts] proves the refinement of
      [encrypt] and [decrypt]; [SessionProperties] the security and liveness
      consequences, over single calls and over traces of calls.
    - [SessionThreads]: the same calls in the steps between which other threads
      can run (its mutexes, the reader-writer lock and single atomics), as an
      executable step function and the configurations reachable with it.
    - [AesGcm]: AES-256-GCM from FIPS 197 and SP 800-38D, an instance of [Aead] that
      satisfies [AeadLaws], and the tests of [tests/] with their golden wire vectors;
      [SessionTests]: the sequential tests of the session and its types, run with
      that cipher.
    - [SessionTraffic]: programs of threads that reserve counters, encrypt and
      promote keys on one session ([Senders]) and a receiver of what they produce
      ([Delivery]); [ThreadedTests]: the two tests of the session that start
      threads.
    - [ExpresslaneFfi], [FfiProperties]: the C API of the session over a memory of
      sessions, byte buffers and out-parameters; [FfiTests]: the tests of that API.
    - [ClientTypes]: [types.rs], [version.rs], and the mappings between the
      core's and C's enumerations.
    - [Timer]: [cffi_state.rs], the two kinds of ticks and the host's one timer.
    - [Conn]: [conn.rs] and the address formatting of [cffi_ip_config.rs].
    - [Client]: [lib.rs] and the bridges [cffi_event.rs], [cffi_io.rs],
      [cffi_ip_config.rs] and [cffi_expresslane.rs].  [lightway-core] is the class
      [Core]: its operations are programs of callback requests, arbitrary but
      finite, that may end in a panic; [interp] answers the requests with the
      bridges' code.  C and the clock are the class [CEnv].
    - [ToyCore]: a small core and environment, used to evaluate the client.
    - [ClientTests]: the tests of [lib.rs], for any core that classifies its errors
      and headers as [lightway-core] does.
    - [ClientFacts], [ClientProperties]: preorders on worlds that every action of
      the client respects (frame, delivery of states, write-once fields), and the
      properties of the calls and of sequences of calls.
    - [ClientSchedule]: which ticks a nudge runs and which it keeps under an
      arbitrary core, whose callbacks schedule further ticks; [ClientSettings]: the
      setters as one family against a table of settings, and the credentials a
      client leaves in freed memory.
    - [ClientHost]: the loop of a host that nudges, waits for the published time and
      nudges again.
    - [ClientThreads]: the lock protocol of [lock_client] in steps, with thread
      tokens, waiting threads, calls nested in callbacks, and bodies that read the
      client, leave it in any state while they run and store their result.
    - [Pool], [PoolFacts]: [pool.rs] of the benchmark: the generator, the pool of
      sealed packets and the schedules.  The RustCrypto ciphers are the class
      [Providers] with laws [ProviderLaws]; [PoolFacts] instantiates them.
    - [Arms], [ArmsFacts], [ArmsProperties]: [arms.rs], one definition per arm over
      the session and the providers.
    - [F64], [F64Facts]: the double arithmetic of the report, on the Standard
      Library's [SpecFloat], with the comparisons and the sort of the code.
    - [Platform], [PlatformProperties]: [win.rs] and [cpu.rs].  The operating
      system is the class [Win32], the CPUID instruction the class [Cpuid].
    - [Runner], [RunnerFacts]: the measuring part of the benchmark's [main.rs]
      (arguments, keys, self-test, calibration, rounds); [Report]: its statistics,
      gates and derived figures.
    - [Format]: the formatting the report uses, and programs that print;
      [Printing]: the header, the report and [main], line by line;
      [BenchProperties]: properties of the run and of what is printed.

    ** What is proved

    - Anti-replay: the ring gives the answers of the history-based window on
      every sequence of counters, equals the reference window, never accepts a
      counter twice, never drops a new counter inside the window, and clears
      exactly the slots it must, the lapping jump included.
    - Session: [encrypt] and [decrypt] never panic and equal their contracts on
      every branch; round trip; packets in flight survive a key rotation
      whatever a failed attempt does to the buffer; authenticity of what is
      delivered; scrubbing on errors; no packet delivered twice in any trace;
      distinct reserved counters; the key hint is sound and stable.
    - Conformance: with AES-256-GCM as the cipher the session writes and reads the
      golden vectors of both versions byte for byte, and the crate's tests pass on
      the model, as do the tests of the two C interfaces; those that start threads
      pass for every schedule, and those of the client from every state of the
      world and with every core that meets the facts they rely on.
    - Threads on a session: every interleaving is a sequential run in the order
      of the deciding steps, so the trace properties carry over; no deadlock; the
      lock-free key hint never misleads; uncoordinated senders around key
      promotions can always finish, and a new receiver with the keys delivers all
      their packets in any order of arrival that stays inside the window, which up
      to 8192 packets always do.
    - C API: the round trip through C memory, absence of effects outside the
      output buffers, NULL handling, the life cycle of handles.
    - Client: every locking call returns and releases the lock, also when the
      core panics; re-entrant calls are refused without effect; the cached
      connection state is what C was last told; connect, disconnect (announced
      once, by the core or by the client), the verdict of each error of the core on
      the connection, and tick retries; framing and classification of ExpressLane
      packets agree.
    - Threads on a client: calls are atomic although their bodies are not, the
      owner check before the mutex decides re-entrancy exactly, and the protocol makes progress.
    - Timers: the host's timer follows the earliest deadline, and timeouts never
      wake early or overflow; a nudge runs exactly the ticks that are due, in order,
      and keeps the others, whatever the core does in them; a host that waits for
      the published times, and whose nudges succeed, gets every pending tick run,
      after its deadline and on time.
    - Settings: the setters implement a table of last accepted values and leave
      everything else alone; credentials that are given once are zeroed when their
      fields are freed, and so is the copy of the keys a key exchange hands to C; the
      clones connect makes are not when it fails to set up TLS.
    - Benchmark: pools hold what their description says and schedules stay inside
      them; all decrypt arms, and all AES encrypt arms, succeed on every packet
      and fold the same accumulator; a run whose sample vectors can be reserved
      returns and records complete passes only; [main]
      prints its header before anything is timed and reaches the end of its
      report, whose correctness gates are printed as passed whatever the clocks
      read; medians are sample elements; command-line numbers, cache geometry and
      file times are read exactly; a printed figure is the decimal nearest to the
      double it stands for.

    ** Conventions and bounds

    Integers are [Z]; additions that the release build wraps are written with
    [wrap64].  Rust's panics on out-of-range slices and mismatched copies are
    kept as [Panic], so their absence is a theorem.  Loops of the libraries run
    over a list or a fixed range, the core's programs are inductive, and threads
    are driven by schedules, so none of them uses fuel.  The benchmark has two
    [while] loops: the one that fills a slot gets the payload length as fuel, which
    [fill_loop_terminates] shows to be enough, and the warm-up, which ends when the
    clock says so, gets a fuel that [benchmark_returns] takes from the assumption
    that the clock passes the warm-up time within that many readings.  Statistics
    are proved for samples of up to [2^12] values, the most that eight rounds of
    512 samples give, because percentile indices go through doubles; pools for up
    to [2^32] slots, the range of the schedule's [u32] entries.  The hypotheses on
    lengths (8-byte session ids, 12-byte ivs, 32-byte keys) are those of the Rust
    array types; counters and flags are in range because they are [u64] and [u16].

    ** Not modelled

    - The internals of [lightway-core], wolfSSL, [ring], RustCrypto, [kernel32]
      and the CPUID instruction.
    - Of the benchmark: progress messages on the standard error, and a failing
      standard output; build stamps and the host name are parameters;
      [black_box] is the identity.
    - Weak memory: threads are interleaved on sequentially consistent memory.
      The owner word is stored and loaded with release and acquire; the key flags
      and counters are relaxed atomics that publish nothing.  The fairness of the
      locks is not modelled either.
    - Threads on the C API of the session: it adds only pointers to the session
      calls, so its model is sequential.
    - C callbacks that call the setters, which take no lock, while a call runs.
    - Undefined behaviour outside the documented contract (dangling pointers,
      use after destroy), allocation failure, and the overflow of an [Instant].
    - Build scripts, generated headers, and the pipeline's build id and wolfSSL's
      text in the version strings, which are parameters.

    ** Plan

    Done: the window, the session, its C API, timers, the client with its bridges
    and settings, threads on session and client with their traffic, the tests of
    the crates, and the benchmark with its output.  Next: threads on the C API of
    the session; setters called from callbacks while a call runs; ChaCha20-Poly1305
    as an instance of the benchmark's providers; the figures of the report as
    real-number bounds. *)

From stdpp Require Import base numbers list list_numbers option.
From Stdlib Require Import Strings.Byte.

Set Default Goal Selector "!".

(** ** Outcomes and results

    A Rust call either returns a value or panics (an out-of-range slice, a
    length mismatch in [copy_from_slice], a failed [unwrap]).  [outcome] keeps
    the two apart; [result] is Rust's [Result]. *)

Inductive outcome (A : Type) : Type :=
| Ret (a : A)
| Panic.
Arguments Ret {A} a.
Arguments Panic {A}.

Inductive result (A E : Type) : Type :=
| Ok (a : A)
| Err (e : E).
Arguments Ok {A E} a.
Arguments Err {A E} e.

#[global] Instance outcome_ret : MRet outcome := fun A a => Ret a.
#[global] Instance outcome_bind : MBind outcome := fun A B f m =>
  match m with Ret a => f a | Panic => Panic end.

(** [Result::is_ok]. *)
Definition is_ok {A E} (r : result A E) : bool :=
  match r with Ok _ => true | Err _ => false end.

(** ** Machine integers

    A [u64] is a [Z] in [0, 2^64); the wrap-around of [wrapping_add] and the
    complement [!x] are written out. *)

Declare Scope machine_scope.
Delimit Scope machine_scope with machine.

Definition u64_MAX : Z := 2 ^ 64 - 1.
Definition u16_MAX : Z := 2 ^ 16 - 1.
Definition wrap64 (z : Z) : Z := z `mod` 2 ^ 64.
Definition u64_not (z : Z) : Z := Z.lxor u64_MAX z.
Definition is_u64 (z : Z) : Prop := (0 <= z < 2 ^ 64)%Z.
Definition is_u16 (z : Z) : Prop := (0 <= z < 2 ^ 16)%Z.

Notation "x .& y" := (Z.land x y) (at level 38, left associativity) : machine_scope.
Notation "x .| y" := (Z.lor x y) (at level 39, left associativity) : machine_scope.

(** ** Bytes *)

#[global] Instance byte_eq_decision : EqDecision byte := byte_eq_dec.
#[global] Instance byte_inhabited : Inhabited byte := populate x00.

Definition byte_of_Z (z : Z) : byte :=
  match Byte.of_N (Z.to_N (z `mod` 256)) with Some b => b | None => x00 end.
Definition Z_of_byte (b : byte) : Z := Z.of_N (Byte.to_N b).

(** [to_be_bytes] of an [8 * n]-bit integer, and [from_be_bytes]. *)
Fixpoint be_bytes (n : nat) (z : Z) : list byte :=
  match n with
  | O => []
  | S n => byte_of_Z (Z.shiftr z (8 * Z.of_nat n)) :: be_bytes n z
  end.

Fixpoint be_value (l : list byte) : Z :=
  match l with
  | [] => 0
  | b :: l => Z_of_byte b * 2 ^ (8 * Z.of_nat (length l)) + be_value l
  end.

(** [u64::from_le_bytes]. *)
Definition le_value (l : list byte) : Z := be_value (reverse l).

(** ** Slices

    [slice b lo hi] is [&b[lo..hi]]; [copy_from_slice b lo hi src] is
    [b[lo..hi].copy_from_slice(src)]; [fill0 b hi] is [b[..hi].fill(0)].  Each
    panics exactly where Rust does. *)

Definition zeros (n : nat) : list byte := replicate n x00.

Definition slice (b : list byte) (lo hi : nat) : outcome (list byte) :=
  if decide (lo <= hi /\ hi <= length b) then Ret (take (hi - lo) (drop lo b)) else Panic.

Definition splice (b : list byte) (lo : nat) (src : list byte) : list byte :=
  take lo b ++ src ++ drop (lo + length src) b.

Definition copy_from_slice (b : list byte) (lo hi : nat) (src : list byte) : outcome (list byte) :=
  if decide (lo <= hi /\ hi <= length b /\ length src = hi - lo)
  then Ret (splice b lo src) else Panic.

Definition fill0 (b : list byte) (lo hi : nat) : outcome (list byte) :=
  if decide (lo <= hi /\ hi <= length b) then Ret (splice b lo (zeros (hi - lo))) else Panic.

(** ** Loops and indexing

    [for_range n body s] is [for i in 0..n { body }] on the loop's state [s];
    [vec_index v i] is [v[i]]; [expect r] is [r.expect(..)]. *)

Fixpoint for_from {St : Type} (i n : nat) (body : nat -> St -> outcome St) (st : St) : outcome St :=
  match n with
  | O => Ret st
  | S n => st ← body i st; for_from (S i) n body st
  end.

Definition for_range {St : Type} (n : nat) (body : nat -> St -> outcome St) (st : St) : outcome St :=
  for_from 0 n body st.

Definition vec_index {A : Type} (v : list A) (i : nat) : outcome A :=
  match v !! i with Some a => Ret a | None => Panic end.

(** [assert!] and [assert_eq!]. *)
Definition assert (b : bool) : outcome unit := if b then Ret tt else Panic.
Definition assert_eq {A} `{EqDecision A} (a b : A) : outcome unit := assert (bool_decide (a = b)).

Definition expect {A E : Type} (r : result A E) : outcome A :=
  match r with Ok a => Ret a | Err _ => Panic end.

Definition expect_some {A : Type} (r : option A) : outcome A :=
  match r with Some a => Ret a | None => Panic end.

(** ** Hint databases and tactics *)

Create Rewrite HintDb bits.
Create Rewrite HintDb slices.

(** Case analysis on the boolean tests of the code. *)
Ltac zbool :=
  repeat match goal with
  | H : (_ <? _)%Z = true |- _ => apply Z.ltb_lt in H
  | H : (_ <? _)%Z = false |- _ => apply Z.ltb_ge in H
  | H : (_ <=? _)%Z = true |- _ => apply Z.leb_le in H
  | H : (_ <=? _)%Z = false |- _ => apply Z.leb_gt in H
  | H : (_ =? _)%Z = true |- _ => apply Z.eqb_eq in H
  | H : (_ =? _)%Z = false |- _ => apply Z.eqb_neq in H
  | H : negb _ = true |- _ => apply negb_true_iff in H
  | H : negb _ = false |- _ => apply negb_false_iff in H
  end.

Ltac case_ifs :=
  repeat match goal with
  | |- context [if ?b then _ else _] => let E := fresh "E" in destruct b eqn:E; zbool
  end.

(** ** Lemmas on machine integers *)

Lemma wrap64_small z : is_u64 z -> wrap64 z = z.
Proof. unfold is_u64, wrap64. intros. by apply Z.mod_small. Qed.

Lemma wrap64_range z : is_u64 (wrap64 z).
Proof. unfold is_u64, wrap64. apply Z.mod_pos_bound. lia. Qed.

Lemma wrap64_add_l a b : wrap64 (wrap64 a + b) = wrap64 (a + b).
Proof. unfold wrap64. apply Zplus_mod_idemp_l. Qed.

#[export] Hint Resolve wrap64_range : core.

Lemma pow2_pos n : (0 <= n)%Z -> (0 < 2 ^ n)%Z.
Proof. intros. by apply Z.pow_pos_nonneg. Qed.

Lemma u64_MAX_ones : u64_MAX = Z.ones 64.
Proof. reflexivity. Qed.

Lemma testbit_u64_MAX i : (0 <= i < 64)%Z -> Z.testbit u64_MAX i = true.
Proof. intros. rewrite u64_MAX_ones. by apply Z.ones_spec_low. Qed.

Lemma testbit_u64_MAX_high i : (64 <= i)%Z -> Z.testbit u64_MAX i = false.
Proof. intros. rewrite u64_MAX_ones. apply Z.ones_spec_high. lia. Qed.

Lemma testbit_u64_not z i : (0 <= i < 64)%Z -> Z.testbit (u64_not z) i = negb (Z.testbit z i).
Proof. intros. unfold u64_not. rewrite Z.lxor_spec, testbit_u64_MAX by lia. by destruct (Z.testbit z i). Qed.

Lemma testbit_wrap64 z i : (0 <= i < 64)%Z -> Z.testbit (wrap64 z) i = Z.testbit z i.
Proof. intros. unfold wrap64. apply Z.mod_pow2_bits_low. lia. Qed.

Lemma testbit_high z n i : (0 <= z < 2 ^ n)%Z -> (n <= i)%Z -> (0 <= n)%Z -> Z.testbit z i = false.
Proof.
  intros. rewrite <- (Z.mod_small z (2 ^ n)) by lia. apply Z.mod_pow2_bits_high; lia.
Qed.

Lemma bits_bound n z :
  (0 <= n)%Z -> (0 <= z)%Z -> (forall i, (n <= i)%Z -> Z.testbit z i = false) -> (0 <= z < 2 ^ n)%Z.
Proof.
  intros Hn Hz Hi. replace z with (z `mod` 2 ^ n)%Z; [apply Z.mod_pos_bound; by apply pow2_pos|].
  apply Z.bits_inj'. intros i Hi0. destruct (decide (i < n)%Z).
  - by rewrite Z.mod_pow2_bits_low by lia.
  - rewrite Z.mod_pow2_bits_high, Hi by lia. done.
Qed.

Lemma is_u64_bits z : (0 <= z)%Z -> (forall i, (64 <= i)%Z -> Z.testbit z i = false) -> is_u64 z.
Proof. apply bits_bound. lia. Qed.

Lemma is_u64_land x y : is_u64 x -> (0 <= y)%Z -> is_u64 (Z.land x y).
Proof.
  intros Hx Hy. apply is_u64_bits; [apply Z.land_nonneg; unfold is_u64 in *; lia|].
  intros i Hi. rewrite Z.land_spec, (testbit_high x 64) by (unfold is_u64 in *; lia). done.
Qed.

Lemma is_u64_lor x y : is_u64 x -> is_u64 y -> is_u64 (Z.lor x y).
Proof.
  intros Hx Hy. apply is_u64_bits; [apply Z.lor_nonneg; unfold is_u64 in *; lia|].
  intros i Hi. rewrite Z.lor_spec, (testbit_high x 64), (testbit_high y 64) by (unfold is_u64 in *; lia). done.
Qed.

Lemma u64_not_nonneg z : is_u64 z -> (0 <= u64_not z)%Z.
Proof. unfold is_u64. intros. unfold u64_not. apply Z.lxor_nonneg. unfold u64_MAX. lia. Qed.

(** [x & (1 << i) != 0] is the test of bit [i]. *)
Lemma land_bit_test z i :
  (0 <= i)%Z -> negb (Z.land z (Z.shiftl 1 i) =? 0)%Z = Z.testbit z i.
Proof.
  intros Hi.
  assert (Hland : (Z.land z (Z.shiftl 1 i) = if Z.testbit z i then 2 ^ i else 0)%Z).
  { apply Z.bits_inj'. intros j Hj. rewrite Z.land_spec, Z.shiftl_1_l.
    destruct (decide (j = i)) as [->|Hne].
    - rewrite Z.pow2_bits_true by lia.
      destruct (Z.testbit z i) eqn:E; [by rewrite Z.pow2_bits_true|by rewrite Z.bits_0].
    - rewrite Z.pow2_bits_false by lia. rewrite andb_false_r.
      destruct (Z.testbit z i); [by rewrite Z.pow2_bits_false by lia|by rewrite Z.bits_0]. }
  rewrite Hland. destruct (Z.testbit z i); [|done].
  apply negb_true_iff, Z.eqb_neq. pose proof (Z.pow_pos_nonneg 2 i). lia.
Qed.

#[export] Hint Rewrite Z.land_spec Z.lor_spec Z.lxor_spec Z.bits_0 : bits.
#[export] Hint Rewrite Z.shiftl_spec Z.shiftr_spec testbit_u64_MAX testbit_u64_not testbit_wrap64 using lia : bits.

(** ** Lemmas on bytes *)

Lemma Z_of_byte_range b : (0 <= Z_of_byte b < 256)%Z.
Proof. unfold Z_of_byte. pose proof (to_N_bounded b). lia. Qed.

Lemma byte_of_Z_of_byte b : byte_of_Z (Z_of_byte b) = b.
Proof.
  unfold byte_of_Z. rewrite Z.mod_small by apply Z_of_byte_range.
  unfold Z_of_byte. by rewrite N2Z.id, of_to_N.
Qed.

Lemma Z_of_byte_of_Z z : Z_of_byte (byte_of_Z z) = (z `mod` 256)%Z.
Proof.
  unfold byte_of_Z, Z_of_byte. pose proof (Z.mod_pos_bound z 256).
  destruct (Byte.of_N (Z.to_N (z `mod` 256))) eqn:E.
  - apply to_of_N in E. rewrite E. lia.
  - apply of_N_None_iff in E. lia.
Qed.

Lemma Z_of_byte_inj b c : Z_of_byte b = Z_of_byte c -> b = c.
Proof. intros H. by rewrite <- (byte_of_Z_of_byte b), H, byte_of_Z_of_byte. Qed.

Lemma length_be_bytes n z : length (be_bytes n z) = n.
Proof. induction n; simpl; congruence. Qed.

Lemma be_value_range l : (0 <= be_value l < 2 ^ (8 * Z.of_nat (length l)))%Z.
Proof.
  induction l as [|b l IH]; [done|]. cbn [be_value length].
  rewrite Nat2Z.inj_succ, Z.mul_succ_r, Z.pow_add_r by lia.
  pose proof (Z_of_byte_range b). nia.
Qed.

Lemma be_value_be_bytes n z : be_value (be_bytes n z) = (z `mod` 2 ^ (8 * Z.of_nat n))%Z.
Proof.
  induction n as [|n IH]; [by rewrite Z.mod_1_r|].
  cbn [be_bytes be_value]. rewrite length_be_bytes, Z_of_byte_of_Z, IH, Z.shiftr_div_pow2 by lia.
  pose proof (pow2_pos (8 * Z.of_nat n) ltac:(lia)).
  rewrite Nat2Z.inj_succ, Z.mul_succ_r, Z.pow_add_r, Z.rem_mul_r by lia.
  change (2 ^ 8)%Z with 256%Z. lia.
Qed.

Lemma be_value_be_bytes_u64 z : is_u64 z -> be_value (be_bytes 8 z) = z.
Proof. intros. rewrite be_value_be_bytes. by apply Z.mod_small. Qed.

Lemma be_value_be_bytes_u16 z : is_u16 z -> be_value (be_bytes 2 z) = z.
Proof. intros. rewrite be_value_be_bytes. by apply Z.mod_small. Qed.

Lemma be_bytes_inj n z z' :
  (0 <= z < 2 ^ (8 * Z.of_nat n))%Z -> (0 <= z' < 2 ^ (8 * Z.of_nat n))%Z ->
  be_bytes n z = be_bytes n z' -> z = z'.
Proof.
  intros Hz Hz' H. apply (f_equal be_value) in H.
  rewrite !be_value_be_bytes, !Z.mod_small in H by lia. done.
Qed.

Lemma be_bytes_ext n z z' :
  (z `mod` 2 ^ (8 * Z.of_nat n) = z' `mod` 2 ^ (8 * Z.of_nat n))%Z -> be_bytes n z = be_bytes n z'.
Proof.
  induction n as [|n IH]; [done|]. cbn [be_bytes].
  pose proof (pow2_pos (8 * Z.of_nat n) ltac:(lia)).
  rewrite Nat2Z.inj_succ, Z.mul_succ_r, Z.pow_add_r by lia. rewrite !Z.rem_mul_r by lia.
  intros Hmod. pose proof (Z.mod_pos_bound z (2 ^ (8 * Z.of_nat n))) as Hz.
  pose proof (Z.mod_pos_bound z' (2 ^ (8 * Z.of_nat n))) as Hz'.
  edestruct Z.div_mod_unique as [Hhigh Hlow];
    [left; apply Hz; lia|left; apply Hz'; lia|rewrite (Z.add_comm (_ * _)), Hmod; apply Z.add_comm|].
  f_equal; [|by apply IH]. apply Z_of_byte_inj.
  rewrite !Z_of_byte_of_Z, !Z.shiftr_div_pow2 by lia. done.
Qed.

Lemma be_bytes_be_value l : be_bytes (length l) (be_value l) = l.
Proof.
  induction l as [|b l IH]; [done|]. cbn [length be_value be_bytes].
  pose proof (be_value_range l). f_equal.
  - rewrite Z.shiftr_div_pow2, Z.div_add_l, Z.div_small, Z.add_0_r by lia. apply byte_of_Z_of_byte.
  - etrans; [|exact IH]. apply be_bytes_ext.
    rewrite Z.add_comm, Z_mod_plus_full. done.
Qed.

#[export] Hint Rewrite length_be_bytes : slices.

(** ** Lemmas on slices *)

Lemma slice_ret b lo hi :
  lo <= hi -> hi <= length b -> slice b lo hi = Ret (take (hi - lo) (drop lo b)).
Proof. intros. unfold slice. by rewrite decide_True. Qed.

Lemma copy_from_slice_ret b lo hi src :
  lo <= hi -> hi <= length b -> length src = hi - lo -> copy_from_slice b lo hi src = Ret (splice b lo src).
Proof. intros. unfold copy_from_slice. by rewrite decide_True. Qed.

Lemma fill0_ret b lo hi :
  lo <= hi -> hi <= length b -> fill0 b lo hi = Ret (splice b lo (zeros (hi - lo))).
Proof. intros. unfold fill0. by rewrite decide_True. Qed.

Lemma length_zeros n : length (zeros n) = n.
Proof. apply length_replicate. Qed.

Lemma length_splice b lo src : lo + length src <= length b -> length (splice b lo src) = length b.
Proof. intros. unfold splice. rewrite !length_app, length_take, length_drop. lia. Qed.

#[export] Hint Rewrite length_zeros @length_nil @length_app @length_take @length_drop @length_replicate : slices.
#[export] Hint Rewrite length_splice using (autorewrite with slices; lia) : slices.

(** Reading back a field just written, and a field a write does not touch. *)
Lemma take_drop_splice_same b lo n src :
  lo + length src <= length b -> length src = n -> take n (drop lo (splice b lo src)) = src.
Proof.
  intros. unfold splice. rewrite drop_app_length' by (rewrite length_take; lia).
  by rewrite take_app_length'.
Qed.

Lemma take_drop_splice_before b lo src lo' n :
  lo + length src <= length b -> lo' + n <= lo ->
  take n (drop lo' (splice b lo src)) = take n (drop lo' b).
Proof.
  intros. unfold splice.
  rewrite !take_drop_commute. f_equal. rewrite take_app_le by (rewrite length_take; lia).
  rewrite take_take. f_equal. lia.
Qed.

Lemma take_drop_splice_after b lo src lo' n :
  lo + length src <= length b -> lo + length src <= lo' ->
  take n (drop lo' (splice b lo src)) = take n (drop lo' b).
Proof.
  intros. unfold splice. f_equal.
  rewrite app_assoc, drop_app_ge by (rewrite length_app, length_take; lia).
  rewrite drop_drop. f_equal. rewrite length_app, length_take. lia.
Qed.

(** A buffer as a concatenation of fields: a write at an offset skips the fields
    before it and replaces the one it starts at. *)
Lemma splice_skip a b lo src : length a <= lo -> splice (a ++ b) lo src = a ++ splice b (lo - length a) src.
Proof.
  intros. unfold splice. rewrite take_app_ge, drop_app_ge by lia.
  rewrite <- app_assoc. do 4 f_equal. lia.
Qed.

Lemma splice_here b c lo src : lo = 0 -> length src = length b -> splice (b ++ c) lo src = src ++ c.
Proof. intros -> Hlen. unfold splice. simpl. by rewrite drop_app_length'. Qed.

Lemma take_drop_skip {A} (a b : list A) lo n :
  length a <= lo -> take n (drop lo (a ++ b)) = take n (drop (lo - length a) b).
Proof. intros. by rewrite drop_app_ge. Qed.

Lemma take_drop_here {A} (a b : list A) lo n : lo = 0 -> length a = n -> take n (drop lo (a ++ b)) = a.
Proof. intros -> <-. rewrite drop_0. apply take_app_length. Qed.

(** Side conditions on field lengths. *)
Ltac lens := autorewrite with slices in *; first [lia | simpl in *; autorewrite with slices in *; lia].

(** Resolve reads and writes at field boundaries. *)
Ltac fields :=
  repeat first
    [ rewrite splice_here by lens | rewrite splice_skip by lens
    | rewrite take_drop_here by lens | rewrite take_drop_skip by lens ].

Lemma split_at {A} (l : list A) n : n <= length l -> exists a b, l = a ++ b /\ length a = n.
Proof. intros. exists (take n l), (drop n l). rewrite take_drop, length_take. split; [done|lia]. Qed.

#[global] Instance ret_inj {A} : Inj (=) (=) (@Ret A).
Proof. by intros a b [= ->]. Qed.

Lemma bind_ret {A B} (a : A) (f : A -> outcome B) : (Ret a ≫= f) = f a.
Proof. reflexivity. Qed.

(** ** Lemmas on loops *)

(** The rule of [for] loops: an invariant of the index and the state that every
    iteration re-establishes without panicking holds at the end. *)
Lemma for_from_inv {St} (P : nat -> St -> Prop) n body : forall i st,
  P i st ->
  (forall j st, i <= j < i + n -> P j st -> exists st', body j st = Ret st' /\ P (S j) st') ->
  exists st', for_from i n body st = Ret st' /\ P (i + n) st'.
Proof.
  induction n as [|n IH]; intros i st HP Hbody; simpl.
  - exists st. by rewrite Nat.add_0_r.
  - destruct (Hbody i st ltac:(lia) HP) as (st' & -> & HP'). rewrite bind_ret.
    destruct (IH (S i) st' HP') as (st'' & Hrun & Hend).
    + intros j sj Hj. apply Hbody. lia.
    + exists st''. split; [done|]. by rewrite Nat.add_succ_r.
Qed.

Lemma for_range_inv {St} (P : nat -> St -> Prop) n body st :
  P 0 st ->
  (forall j st, j < n -> P j st -> exists st', body j st = Ret st' /\ P (S j) st') ->
  exists st', for_range n body st = Ret st' /\ P n st'.
Proof. intros HP Hbody. apply (for_from_inv P n body 0 st HP). intros. apply Hbody; [lia|done]. Qed.

(** Loops whose bodies agree compute the same. *)
Lemma for_from_ext {St} n (f g : nat -> St -> outcome St) : forall i st,
  (forall j st, i <= j < i + n -> f j st = g j st) -> for_from i n f st = for_from i n g st.
Proof.
  induction n as [|n IH]; intros i st Hfg; simpl; [done|]. rewrite Hfg by lia.
  destruct (g i st); simpl; [|done]. apply IH. intros. apply Hfg. lia.
Qed.

Lemma assert_eq_ret {A} `{EqDecision A} (a b : A) : a = b -> assert_eq a b = Ret tt.
Proof. intros ->. unfold assert_eq. by rewrite bool_decide_eq_true_2. Qed.

Lemma vec_index_ret {A} (v : list A) i a : v !! i = Some a -> vec_index v i = Ret a.
Proof. intros Hi. unfold vec_index. by rewrite Hi. Qed.

#[global] Arguments be_bytes : simpl never.
#[global] Arguments zeros : simpl never.
