(* ===== verification/Threads.v ===== *)
(** * Lock words and program points

    In the models with threads a lock is a word naming its holder, and each
    thread has a program point.  [tracks] says that the word names exactly the
    thread whose program point is inside the lock's critical section; the lemmas
    keep it across a step of one thread. *)

From stdpp Require Import base numbers list option gmap sets functions.

Module Tracking.

Section Tracking.
Context {P : Type}.
Implicit Types (f : nat -> P) (h : P -> bool) (l : option nat) (X : gset nat).

(** A lock word, or a set of threads, that follows the program points. *)
Definition tracks l h f : Prop := forall t, l = Some t <-> h (f t) = true.
Definition tracks_set X h f : Prop := forall t, t ∈ X <-> h (f t) = true.

Lemma tracks_keep l h f t p : tracks l h f -> h p = h (f t) -> tracks l h (<[t := p]> f).
Proof.
  intros Hl Hp u. destruct (decide (u = t)) as [->|Hu].
  - rewrite fn_lookup_insert, Hp. apply Hl.
  - rewrite fn_lookup_insert_ne by done. apply Hl.
Qed.

Lemma tracks_acquire h f t p : tracks None h f -> h p = true -> tracks (Some t) h (<[t := p]> f).
Proof.
  intros Hl Hp u. destruct (decide (u = t)) as [->|Hu].
  - by rewrite fn_lookup_insert, Hp.
  - rewrite fn_lookup_insert_ne by done. rewrite <- (Hl u). split; congruence.
Qed.

Lemma tracks_release h f t p : tracks (Some t) h f -> h p = false -> tracks None h (<[t := p]> f).
Proof.
  intros Hl Hp u. destruct (decide (u = t)) as [->|Hu].
  - by rewrite fn_lookup_insert, Hp.
  - rewrite fn_lookup_insert_ne by done. rewrite <- (Hl u). split; congruence.
Qed.

Lemma tracks_set_keep X h f t p : tracks_set X h f -> h p = h (f t) -> tracks_set X h (<[t := p]> f).
Proof.
  intros Hl Hp u. destruct (decide (u = t)) as [->|Hu].
  - rewrite fn_lookup_insert, Hp. apply Hl.
  - rewrite fn_lookup_insert_ne by done. apply Hl.
Qed.

Lemma tracks_set_add X h f t p : tracks_set X h f -> h p = true -> tracks_set ({[t]} ∪ X) h (<[t := p]> f).
Proof.
  intros Hl Hp u. destruct (decide (u = t)) as [->|Hu].
  - rewrite fn_lookup_insert, Hp. set_solver.
  - rewrite fn_lookup_insert_ne by done. rewrite <- (Hl u). set_solver.
Qed.

Lemma tracks_set_remove X h f t p : tracks_set X h f -> h p = false -> tracks_set (X ∖ {[t]}) h (<[t := p]> f).
Proof.
  intros Hl Hp u. destruct (decide (u = t)) as [->|Hu].
  - rewrite fn_lookup_insert, Hp. set_solver.
  - rewrite fn_lookup_insert_ne by done. rewrite <- (Hl u). set_solver.
Qed.

Lemma size_add X t : t ∉ X -> size ({[t]} ∪ X) = S (size X).
Proof. intros Ht. rewrite size_union by set_solver. by rewrite size_singleton. Qed.

Lemma size_remove X t : t ∈ X -> size X = S (size (X ∖ {[t]})).
Proof.
  intros Ht. rewrite <- (size_add (X ∖ {[t]}) t) by set_solver. f_equal.
  by apply leibniz_equiv, union_difference_singleton.
Qed.

Lemma tracks_none l h f : tracks l h f -> (forall t, h (f t) = false) -> l = None.
Proof.
  intros Hl Hf. destruct l as [t|]; [|done]. specialize (Hf t). assert (h (f t) = true) by (by apply Hl). congruence.
Qed.

(** A lock word names at most one thread. *)
Lemma tracks_unique l h f t u : tracks l h f -> h (f t) = true -> h (f u) = true -> t = u.
Proof. intros Hl Ht%Hl Hu%Hl. congruence. Qed.

End Tracking.

End Tracking.
