(* ===== verification/ReplayWindow.v ===== *)
(** * The sliding replay window of [lightway-expresslane/src/replay_window.rs]

    [Module Ring] is the shipped implementation: an 8192-bit bitmap of 128
    words used as a ring indexed by the absolute wire counter.  [Module Spec]
    is the contract it promises to the session: the window is the set of
    counters accepted so far, and a counter is accepted when it is above the
    maximum, or less than 8192 below it and not yet accepted.  The refinement
    lemmas relate the two for every sequence of calls.

    [u64] arithmetic is that of the release profile ([packets_received] wraps);
    array indices are produced by a mask and are in range for every counter
    ([ring_index_lt]). *)

From stdpp Require Import base numbers list list_numbers option sets.
From S2P Require Import Prelude.

Local Open Scope Z_scope.
Local Open Scope machine_scope.

Ltac Zify.zify_post_hook ::= Z.div_mod_to_equations.

(** ** The implementation *)

Module Ring.

Definition NUM_BLOCKS : nat := 128.
Definition BLOCK_BITS : Z := 64.
Definition WINDOW_SIZE : Z := Z.of_nat NUM_BLOCKS * BLOCK_BITS.
Definition RING_MASK : Z := Z.of_nat NUM_BLOCKS - 1.
Definition BIT_MASK : Z := BLOCK_BITS - 1.

Record ReplayWindow : Type := mkReplayWindow {
  max_counter : Z;
  bitmap : list Z;
  packets_received : Z;
  initialized : bool;
}.

Definition zero_bitmap : list Z := replicate NUM_BLOCKS 0.

Definition default : ReplayWindow :=
  {| max_counter := 0; bitmap := zero_bitmap; packets_received := 0; initialized := false |}.

Definition ring_index (counter : Z) : nat := Z.to_nat ((counter / BLOCK_BITS) .& RING_MASK).

Definition bit_of (counter : Z) : Z := Z.shiftl 1 (counter .& BIT_MASK).

(** [(u64::MAX >> (63 - (hi - lo))) << lo], the left shift dropping the bits
    above 63. *)
Definition mask_between (lo hi : Z) : Z :=
  wrap64 (Z.shiftl (Z.shiftr u64_MAX (63 - (hi - lo))) lo).

Definition with_bitmap (w : ReplayWindow) (bm : list Z) : ReplayWindow :=
  {| max_counter := max_counter w; bitmap := bm;
     packets_received := packets_received w; initialized := initialized w |}.

(** [bitmap[i] &= !mask]. *)
Definition and_not_word (bm : list Z) (i : nat) (mask : Z) : list Z :=
  <[i := (bm !!! i) .& u64_not mask]> bm.

(** [for word in start..stop { bitmap[word & RING_MASK] = 0 }]. *)
Definition clear_words (bm : list Z) (start stop : Z) : list Z :=
  foldl (fun bm word => <[Z.to_nat (word .& RING_MASK) := 0]> bm) bm (seqZ start (stop - start)).

Definition clear_range (w : ReplayWindow) (lo hi : Z) : ReplayWindow :=
  let lo_word := lo / BLOCK_BITS in
  let hi_word := hi / BLOCK_BITS in
  let lo_bit := lo .& BIT_MASK in
  let hi_bit := hi .& BIT_MASK in
  if lo_word =? hi_word then
    with_bitmap w (and_not_word (bitmap w) (ring_index lo) (mask_between lo_bit hi_bit))
  else
    let bm := and_not_word (bitmap w) (ring_index lo) (mask_between lo_bit 63) in
    let bm := clear_words bm (lo_word + 1) hi_word in
    with_bitmap w (and_not_word bm (ring_index hi) (mask_between 0 hi_bit)).

Definition would_reject (w : ReplayWindow) (wire_counter : Z) : bool :=
  if negb (initialized w) then false
  else if max_counter w <? wire_counter then false
  else
    let age := max_counter w - wire_counter in
    if WINDOW_SIZE <=? age then true
    else negb ((bitmap w !!! ring_index wire_counter) .& bit_of wire_counter =? 0).

Definition commit (w : ReplayWindow) (wire_counter : Z) : bool * ReplayWindow :=
  if negb (initialized w) then
    (true,
     {| max_counter := wire_counter;
        bitmap := <[ring_index wire_counter := bit_of wire_counter]> zero_bitmap;
        packets_received := wrap64 (packets_received w + 1);
        initialized := true |})
  else if max_counter w <? wire_counter then
    let diff := wire_counter - max_counter w in
    let w1 :=
      if WINDOW_SIZE <=? diff then with_bitmap w zero_bitmap
      else if 1 <? diff then clear_range w (max_counter w + 1) (wire_counter - 1)
      else w in
    let word := ring_index wire_counter in
    (true,
     {| max_counter := wire_counter;
        bitmap := <[word := (bitmap w1 !!! word) .| bit_of wire_counter]> (bitmap w1);
        packets_received := wrap64 (packets_received w1 + 1);
        initialized := initialized w1 |})
  else
    let age := max_counter w - wire_counter in
    if WINDOW_SIZE <=? age then (false, w)
    else
      let word := ring_index wire_counter in
      let bit := bit_of wire_counter in
      if negb ((bitmap w !!! word) .& bit =? 0) then (false, w)
      else
        (true,
         {| max_counter := max_counter w;
            bitmap := <[word := (bitmap w !!! word) .| bit]> (bitmap w);
            packets_received := wrap64 (packets_received w + 1);
            initialized := initialized w |}).

(** A run of [commit] calls, with the answers. *)
Fixpoint run (w : ReplayWindow) (cs : list Z) : list bool * ReplayWindow :=
  match cs with
  | [] => ([], w)
  | c :: cs =>
      let '(b, w) := commit w c in
      let '(bs, w) := run w cs in (b :: bs, w)
  end.

(** Well-formedness: 128 words of 64 bits, counters in range. *)
Definition wf (w : ReplayWindow) : Prop :=
  is_u64 (max_counter w) /\ length (bitmap w) = NUM_BLOCKS /\
  Forall is_u64 (bitmap w) /\ is_u64 (packets_received w).

(** The bit a counter owns in a bitmap. *)
Definition slot (bm : list Z) (c : Z) : bool := Z.testbit (bm !!! ring_index c) (c .& BIT_MASK).

End Ring.

(** ** The contract *)

Module Spec.

(** The counters accepted so far, newest first. *)
Definition history : Type := list Z.

Definition window : Z := 8192.

Definition newest (h : history) : Z := foldr Z.max 0 h.

Definition acceptable (h : history) (c : Z) : bool :=
  match h with
  | [] => true
  | _ => (newest h <? c) || (newest h - c <? window) && negb (bool_decide (c ∈ h))
  end.

Definition accept (h : history) (c : Z) : bool * history :=
  if acceptable h c then (true, c :: h) else (false, h).

Fixpoint run (h : history) (cs : list Z) : list bool * history :=
  match cs with
  | [] => ([], h)
  | c :: cs =>
      let '(b, h) := accept h c in
      let '(bs, h) := run h cs in (b :: bs, h)
  end.

(** The counters a run accepted, in order. *)
Definition accepted (cs : list Z) (bs : list bool) : list Z :=
  omap (fun cb : Z * bool => if cb.2 then Some cb.1 else None) (zip cs bs).

End Spec.

(** ** Bits of the ring *)

Module RingFacts.
Import Ring.

Lemma WINDOW_SIZE_eq : WINDOW_SIZE = 8192.
Proof. reflexivity. Qed.

Lemma ring_index_mod c : ring_index c = Z.to_nat ((c / 64) mod 128).
Proof. unfold ring_index, BLOCK_BITS. f_equal. apply (Z.land_ones (c / 64) 7). lia. Qed.

Lemma land_RING_MASK x : x .& RING_MASK = x mod 128.
Proof. apply (Z.land_ones x 7). lia. Qed.

Lemma land_BIT_MASK c : c .& BIT_MASK = c mod 64.
Proof. apply (Z.land_ones c 6). lia. Qed.

Lemma ring_index_lt c : (ring_index c < NUM_BLOCKS)%nat.
Proof. rewrite ring_index_mod. unfold NUM_BLOCKS. lia. Qed.

Lemma slot_alt bm c : slot bm c = Z.testbit (bm !!! Z.to_nat ((c / 64) mod 128)) (c mod 64).
Proof. unfold slot. by rewrite ring_index_mod, land_BIT_MASK. Qed.

(** A slot is shared by the counters congruent modulo the window size. *)
Lemma slot_congr bm c d : c mod 8192 = d mod 8192 -> slot bm c = slot bm d.
Proof.
  intros H. rewrite !slot_alt.
  replace (c / 64 mod 128) with (d / 64 mod 128) by lia.
  by replace (c mod 64) with (d mod 64) by lia.
Qed.

(** The test the code performs is the read of the slot. *)
Lemma slot_read bm c : negb ((bm !!! ring_index c) .& bit_of c =? 0) = slot bm c.
Proof. unfold slot, bit_of. apply land_bit_test. rewrite land_BIT_MASK. lia. Qed.

Lemma testbit_bit_of c i : 0 <= i -> Z.testbit (bit_of c) i = (i =? c mod 64).
Proof.
  intros. unfold bit_of. rewrite land_BIT_MASK, Z.shiftl_1_l, Z.pow2_bits_eqb by lia.
  apply Z.eqb_sym.
Qed.

Lemma lookup_update (bm : list Z) i j x :
  (i < length bm)%nat -> <[i := x]> bm !!! j = if decide (i = j) then x else bm !!! j.
Proof.
  intros. case_decide.
  - subst. by apply list_lookup_total_insert_eq.
  - by apply list_lookup_total_insert_ne.
Qed.

Lemma slot_update (bm : list Z) i x d :
  (i < length bm)%nat ->
  slot (<[i := x]> bm) d = if decide (i = ring_index d) then Z.testbit x (d mod 64) else slot bm d.
Proof.
  intros. unfold slot. rewrite lookup_update, land_BIT_MASK by done. by case_decide.
Qed.

Lemma slot_zero d : slot zero_bitmap d = false.
Proof.
  unfold slot, zero_bitmap. rewrite lookup_total_replicate_2 by apply ring_index_lt.
  apply Z.bits_0.
Qed.

(** [bitmap[ring_index(c)] |= bit_of(c)]. *)
Lemma slot_set bm c d :
  length bm = NUM_BLOCKS ->
  slot (<[ring_index c := (bm !!! ring_index c) .| bit_of c]> bm) d
  = slot bm d || (d mod 8192 =? c mod 8192).
Proof.
  intros Hlen. rewrite slot_update by (rewrite Hlen; apply ring_index_lt).
  case_decide as Hi.
  - rewrite Z.lor_spec, testbit_bit_of by lia. unfold slot at 1. rewrite land_BIT_MASK, Hi.
    f_equal. rewrite !ring_index_mod in Hi. lia.
  - rewrite !ring_index_mod in Hi. destruct (Z.eqb_spec (d mod 8192) (c mod 8192)); [lia|].
    by rewrite orb_false_r.
Qed.

Lemma slot_first c d :
  slot (<[ring_index c := bit_of c]> zero_bitmap) d = (d mod 8192 =? c mod 8192).
Proof.
  assert (Hz : bit_of c = (zero_bitmap !!! ring_index c) .| bit_of c).
  { unfold zero_bitmap. by rewrite lookup_total_replicate_2 by apply ring_index_lt. }
  rewrite Hz at 1. rewrite slot_set by reflexivity. by rewrite slot_zero.
Qed.

Lemma testbit_mask_between lo hi i :
  0 <= lo <= hi -> hi < 64 -> 0 <= i < 64 ->
  Z.testbit (mask_between lo hi) i = (lo <=? i) && (i <=? hi).
Proof.
  intros. unfold mask_between. rewrite testbit_wrap64, Z.shiftl_spec by lia.
  destruct (Z.leb_spec lo i); simpl; [|by apply Z.testbit_neg_r; lia].
  rewrite Z.shiftr_spec by lia. destruct (Z.leb_spec i hi).
  - apply testbit_u64_MAX. lia.
  - apply testbit_u64_MAX_high. lia.
Qed.

Lemma length_and_not_word bm i m : length (and_not_word bm i m) = length bm.
Proof. apply length_insert. Qed.

Lemma length_clear_words bm a b : length (clear_words bm a b) = length bm.
Proof.
  unfold clear_words. generalize (seqZ a (b - a)) as ws. intros ws.
  revert bm. induction ws as [|w ws IH]; intros bm; [done|]. simpl. by rewrite IH, length_insert.
Qed.

Lemma slot_and_not_word bm i m d :
  (i < length bm)%nat ->
  slot (and_not_word bm i m) d
  = slot bm d && negb (bool_decide (i = ring_index d) && Z.testbit m (d mod 64)).
Proof.
  intros. unfold and_not_word. rewrite slot_update by done. case_decide as Hi.
  - rewrite bool_decide_true by done. rewrite Z.land_spec, testbit_u64_not by lia.
    unfold slot. by rewrite land_BIT_MASK, Hi.
  - by rewrite bool_decide_false, andb_true_r.
Qed.

(** The interior loop clears the words whose absolute index lies in the range,
    modulo the ring. *)
Lemma slot_clear_words_aux bm ws d :
  length bm = NUM_BLOCKS ->
  slot (foldl (fun bm word => <[Z.to_nat (word .& RING_MASK) := 0]> bm) bm ws) d
  = slot bm d && negb (existsb (fun word => word mod 128 =? (d / 64) mod 128) ws).
Proof.
  revert bm. induction ws as [|word ws IH]; intros bm Hlen; simpl; [by rewrite andb_true_r|].
  rewrite IH by (by rewrite length_insert).
  rewrite land_RING_MASK, slot_update by (rewrite Hlen; unfold NUM_BLOCKS; lia).
  rewrite ring_index_mod, Z.bits_0.
  destruct (Z.eqb_spec (word mod 128) ((d / 64) mod 128)) as [E|E]; simpl.
  - rewrite decide_True by congruence. by rewrite andb_false_r.
  - rewrite decide_False by lia. done.
Qed.

Lemma existsb_seqZ_congr a n x :
  existsb (fun word => word mod 128 =? x mod 128) (seqZ a n)
  = (if n <? 128 then (x - a) mod 128 <? n else true) && (0 <? n).
Proof.
  apply eq_true_iff_eq. rewrite existsb_exists. setoid_rewrite <- list_elem_of_In.
  setoid_rewrite elem_of_seqZ. split.
  - intros (w & Hw & E). zbool. apply andb_true_iff. split; [|lia].
    destruct (n <? 128) eqn:Hn; zbool; lia.
  - intros [H Hn]%andb_true_iff. exists (a + (x - a) mod 128). zbool.
    rewrite Z.eqb_eq. destruct (n <? 128) eqn:E; zbool; lia.
Qed.

Lemma slot_clear_words bm a b d :
  length bm = NUM_BLOCKS -> b - a < 128 ->
  slot (clear_words bm a b) d = slot bm d && negb ((d / 64 - a) mod 128 <? b - a).
Proof.
  intros. unfold clear_words. rewrite slot_clear_words_aux, existsb_seqZ_congr by done.
  rewrite (proj2 (Z.ltb_lt (b - a) 128)) by lia.
  do 2 f_equal. destruct (Z.ltb_spec 0 (b - a)); [by rewrite andb_true_r|].
  rewrite andb_false_r. symmetry. apply Z.ltb_ge. lia.
Qed.

Lemma length_clear_range w lo hi : length (bitmap (clear_range w lo hi)) = length (bitmap w).
Proof.
  unfold clear_range. case_match; simpl; by rewrite ?length_and_not_word, ?length_clear_words, ?length_and_not_word.
Qed.

(** [clear_range] clears exactly the slots of the counters in [lo..=hi]; the
    other counters of any window keep theirs, also when both masked end writes
    fall on the same word. *)
Lemma slot_clear_range w lo hi d :
  length (bitmap w) = NUM_BLOCKS -> 0 <= lo <= hi -> hi - lo < WINDOW_SIZE ->
  slot (bitmap (clear_range w lo hi)) d
  = slot (bitmap w) d && negb ((d - lo) mod WINDOW_SIZE <=? hi - lo).
Proof.
  intros Hlen Hlo. rewrite WINDOW_SIZE_eq. intros Hhi.
  set (e := lo + (d - lo) mod 8192).
  assert (He : e mod 8192 = d mod 8192) by (subst e; lia).
  rewrite (slot_congr _ d e), (slot_congr (bitmap w) d e) by done.
  replace ((d - lo) mod 8192 <=? hi - lo) with (e <=? hi) by (subst e; lia).
  assert (Hr : lo <= e < lo + 8192) by (subst e; lia). clearbody e. clear He d.
  unfold clear_range, BLOCK_BITS. rewrite !land_BIT_MASK.
  destruct (Z.eqb_spec (lo / 64) (hi / 64)) as [Hw|Hw]; simpl.
  - rewrite slot_and_not_word by (rewrite Hlen; apply ring_index_lt).
    rewrite testbit_mask_between by lia. do 2 f_equal.
    rewrite !ring_index_mod. case_bool_decide; simpl; lia.
  - rewrite slot_and_not_word
      by (rewrite length_clear_words, length_and_not_word, Hlen; apply ring_index_lt).
    rewrite slot_clear_words by (rewrite ?length_and_not_word; lia).
    rewrite slot_and_not_word by (rewrite Hlen; apply ring_index_lt).
    rewrite !testbit_mask_between by lia. rewrite <- !andb_assoc. f_equal.
    rewrite !ring_index_mod. repeat case_bool_decide; simpl; lia.
Qed.

End RingFacts.

(** ** Invariant and refinement *)

Module Refinement.
Import Ring RingFacts.

(** The window [w] stands for the accepted counters [h]. *)
Definition represents (w : ReplayWindow) (h : Spec.history) : Prop :=
  wf w /\ Forall is_u64 h /\
  packets_received w = wrap64 (Z.of_nat (length h)) /\
  initialized w = negb (bool_decide (h = [])) /\
  (h <> [] ->
   max_counter w = Spec.newest h /\
   forall c, 0 <= c -> Spec.newest h - Spec.window < c <= Spec.newest h ->
     slot (bitmap w) c = bool_decide (c ∈ h)).

Lemma wf_default : wf default.
Proof.
  unfold wf, is_u64; simpl. split_and!; try lia; [done|].
  apply Forall_replicate. unfold is_u64. lia.
Qed.

Lemma bit_of_u64 c : is_u64 (bit_of c).
Proof.
  unfold bit_of. rewrite land_BIT_MASK, Z.shiftl_1_l. unfold is_u64.
  split; [apply Z.pow_nonneg; lia|apply Z.pow_lt_mono_r; lia].
Qed.

Lemma mask_between_u64 lo hi : is_u64 (mask_between lo hi).
Proof. apply wrap64_range. Qed.

Lemma Forall_u64_lookup bm i : Forall is_u64 bm -> (i < length bm)%nat -> is_u64 (bm !!! i).
Proof. intros H Hi. by apply Forall_lookup_total_1. Qed.

Lemma Forall_u64_zero : Forall is_u64 zero_bitmap.
Proof. apply Forall_replicate. unfold is_u64. lia. Qed.

Lemma Forall_and_not_word bm i m :
  Forall is_u64 bm -> (i < length bm)%nat -> is_u64 m -> Forall is_u64 (and_not_word bm i m).
Proof.
  intros. apply Forall_insert; [done|]. apply is_u64_land; [by apply Forall_u64_lookup|].
  by apply u64_not_nonneg.
Qed.

Lemma Forall_clear_words bm a b : Forall is_u64 bm -> Forall is_u64 (clear_words bm a b).
Proof.
  unfold clear_words. generalize (seqZ a (b - a)) as ws. intros ws. revert bm.
  induction ws as [|w ws IH]; intros bm H; [done|]. apply IH, Forall_insert; [done|].
  unfold is_u64. lia.
Qed.

Lemma Forall_set_bit bm c :
  length bm = NUM_BLOCKS -> Forall is_u64 bm ->
  Forall is_u64 (<[ring_index c := (bm !!! ring_index c) .| bit_of c]> bm).
Proof.
  intros Hl H. apply Forall_insert; [done|]. apply is_u64_lor; [|apply bit_of_u64].
  apply Forall_u64_lookup; [done|]. rewrite Hl. apply ring_index_lt.
Qed.

Lemma wf_clear_range w lo hi : wf w -> wf (clear_range w lo hi).
Proof.
  intros (Hm & Hl & Hb & Hp).
  split_and!; [by unfold clear_range; case_match|by rewrite length_clear_range| |by unfold clear_range; case_match].
  pose proof (ring_index_lt lo). pose proof (ring_index_lt hi).
  unfold clear_range. case_match; simpl.
  - apply Forall_and_not_word; [done|lia|apply mask_between_u64].
  - apply Forall_and_not_word; [|rewrite length_clear_words, length_and_not_word; lia|apply mask_between_u64].
    apply Forall_clear_words, Forall_and_not_word; [done|lia|apply mask_between_u64].
Qed.

Lemma wf_with_zero w : wf w -> wf (with_bitmap w zero_bitmap).
Proof. intros (Hm & Hl & Hb & Hp). split_and!; [done|done|apply Forall_u64_zero|done]. Qed.

Lemma wf_advance w c :
  wf w -> wf (if WINDOW_SIZE <=? c - max_counter w then with_bitmap w zero_bitmap
              else if 1 <? c - max_counter w then clear_range w (max_counter w + 1) (c - 1) else w).
Proof. intros. case_ifs; auto using wf_with_zero, wf_clear_range. Qed.

Lemma wf_commit w c : wf w -> is_u64 c -> wf (commit w c).2.
Proof.
  intros Hwf Hc. unfold commit. destruct (initialized w) eqn:Hi; simpl.
  - destruct (max_counter w <? c) eqn:E.
    + destruct (wf_advance w c Hwf) as (_ & Hl & Hb & _).
      split_and!; simpl; [done|by rewrite length_insert|by apply Forall_set_bit|done].
    + destruct Hwf as (? & ? & ? & ?). case_ifs; simpl; try done.
      split_and!; simpl; [done|by rewrite length_insert|by apply Forall_set_bit|done].
  - split_and!; simpl; [done|by rewrite length_insert| |done].
    apply Forall_insert; [apply Forall_u64_zero|apply bit_of_u64].
Qed.

Lemma elem_of_newest h c : c ∈ h -> c <= Spec.newest h.
Proof.
  unfold Spec.newest. induction h as [|d h IH]; [by rewrite elem_of_nil|].
  rewrite elem_of_cons. simpl. intros [->|H]; [lia|]. specialize (IH H). lia.
Qed.

Lemma newest_u64 h : Forall is_u64 h -> is_u64 (Spec.newest h).
Proof. unfold is_u64. induction 1; simpl; unfold is_u64 in *; lia. Qed.

Lemma represents_default : represents default [].
Proof. split_and!; [apply wf_default|done|done|done|done]. Qed.

Lemma acceptable_nonempty h c :
  h <> [] ->
  Spec.acceptable h c
  = (Spec.newest h <? c) || (Spec.newest h - c <? Spec.window) && negb (bool_decide (c ∈ h)).
Proof. by destruct h. Qed.

(** The pre-check answers by the contract. *)
Lemma would_reject_spec w h c :
  represents w h -> is_u64 c -> would_reject w c = negb (Spec.acceptable h c).
Proof.
  intros (_ & _ & _ & Hi & Hw) Hc. unfold would_reject. rewrite Hi.
  destruct (decide (h = [])) as [->|Hne]; [done|]. rewrite bool_decide_false by done. simpl negb.
  destruct (Hw Hne) as [Hmax Hslot]. rewrite acceptable_nonempty, Hmax by done.
  destruct (Spec.newest h <? c) eqn:E1; [done|]. simpl. rewrite WINDOW_SIZE_eq.
  destruct (8192 <=? Spec.newest h - c) eqn:E2; zbool.
  - by replace (Spec.newest h - c <? Spec.window) with false by (unfold Spec.window; lia).
  - replace (Spec.newest h - c <? Spec.window) with true by (unfold Spec.window; lia).
    rewrite slot_read, Hslot by (unfold Spec.window, is_u64 in *; lia). simpl. by rewrite negb_involutive.
Qed.

(** [commit] and the pre-check apply the same rule in every state. *)
Lemma commit_would_reject w c : (commit w c).1 = negb (would_reject w c).
Proof. unfold commit, would_reject. case_ifs; simpl; congruence. Qed.

Lemma commit_rejected w c : (commit w c).1 = false -> (commit w c).2 = w.
Proof. unfold commit. case_ifs; done. Qed.

(** The bits after the window advances to [c], before [c]'s own bit is set. *)
Lemma slot_advance w h c d :
  represents w h -> h <> [] -> max_counter w < c -> 0 <= d -> c - Spec.window < d < c ->
  slot (bitmap (if WINDOW_SIZE <=? c - max_counter w then with_bitmap w zero_bitmap
                else if 1 <? c - max_counter w then clear_range w (max_counter w + 1) (c - 1) else w)) d
  = bool_decide (d ∈ h).
Proof.
  intros ((Hm & Hl & _ & _) & _ & _ & _ & Hw) Hne Hc Hd0 Hd.
  destruct (Hw Hne) as [Hmax Hslot]. unfold Spec.window in *.
  assert (Habove : max_counter w < d -> bool_decide (d ∈ h) = false).
  { intros. apply bool_decide_false. intros Hin%elem_of_newest. lia. }
  case_ifs; rewrite ?WINDOW_SIZE_eq in *.
  - rewrite slot_zero. symmetry. apply Habove. lia.
  - unfold is_u64 in *. rewrite slot_clear_range, WINDOW_SIZE_eq by (rewrite ?WINDOW_SIZE_eq; lia).
    destruct (decide (max_counter w < d)).
    + rewrite Habove by lia. rewrite (proj2 (Z.leb_le _ _)) by lia. by rewrite andb_false_r.
    + rewrite (proj2 (Z.leb_gt _ _)) by lia. rewrite andb_true_r. apply Hslot; lia.
  - apply Hslot; lia.
Qed.

Lemma bool_decide_cons_ne (d c : Z) h : d <> c -> bool_decide (d ∈ c :: h) = bool_decide (d ∈ h).
Proof. intros. apply bool_decide_ext. rewrite elem_of_cons. split; [by intros [->|?]|by right]. Qed.

Lemma newest_cons c h : Spec.newest (c :: h) = Z.max c (Spec.newest h).
Proof. done. Qed.

Lemma represents_cons w h c w' :
  wf w' -> represents w h -> is_u64 c ->
  packets_received w' = wrap64 (packets_received w + 1) -> initialized w' = true ->
  max_counter w' = Z.max c (Spec.newest h) ->
  (forall d, 0 <= d -> Z.max c (Spec.newest h) - Spec.window < d <= Z.max c (Spec.newest h) ->
     slot (bitmap w') d = bool_decide (d ∈ c :: h)) ->
  represents w' (c :: h).
Proof.
  intros Hwf (_ & Hh & Hp & _) Hc Hp' Hi Hmax Hslot. split_and!; [done|by constructor| |by rewrite Hi|done].
  rewrite Hp', Hp, wrap64_add_l. f_equal. simpl length. lia.
Qed.

Lemma represents_fresh w c :
  represents w [] -> is_u64 c -> represents (commit w c).2 [c].
Proof.
  intros HR Hc. assert (Hi : initialized w = false) by (by destruct HR as (_ & _ & _ & -> & _)).
  assert (Hwf' : wf (commit w c).2) by (apply wf_commit; [by destruct HR|done]).
  revert Hwf'. unfold commit. rewrite Hi. simpl. intros Hwf'. unfold is_u64 in Hc.
  apply (represents_cons w); try done; simpl; [lia|].
  intros d Hd0. rewrite Z.max_l by lia. unfold Spec.window. intros Hd.
  rewrite slot_first. apply eq_true_iff_eq. rewrite bool_decide_eq_true, list_elem_of_singleton. lia.
Qed.

Lemma represents_above w h c :
  represents w h -> h <> [] -> is_u64 c -> max_counter w < c -> represents (commit w c).2 (c :: h).
Proof.
  intros HR Hne Hc Hlt. pose proof HR as (Hwf & Hh & Hp & Hi & Hw).
  rewrite bool_decide_false in Hi by done. destruct (Hw Hne) as [Hmax _].
  assert (Hwf' : wf (commit w c).2) by (by apply wf_commit).
  destruct (wf_advance w c Hwf) as (_ & Hl & _ & _).
  revert Hwf'. unfold commit. rewrite Hi, (proj2 (Z.ltb_lt _ _)) by lia. simpl. intros Hwf'.
  apply (represents_cons w); try done; simpl; [|by case_ifs; try done; unfold clear_range; case_match|lia|].
  { f_equal. by case_ifs; try done; unfold clear_range; case_match. }
  intros d Hd0. rewrite Z.max_l by lia. unfold Spec.window. intros Hd.
  rewrite slot_set by done. destruct (decide (d = c)) as [->|Hdc].
  - rewrite Z.eqb_refl, orb_true_r, bool_decide_true; [done|apply list_elem_of_here].
  - rewrite (slot_advance w h c d), bool_decide_cons_ne by (unfold Spec.window; auto; lia).
    rewrite (proj2 (Z.eqb_neq _ _)), orb_false_r by lia. done.
Qed.

Lemma represents_below w h c :
  represents w h -> h <> [] -> is_u64 c -> c <= max_counter w -> (commit w c).1 = true ->
  represents (commit w c).2 (c :: h).
Proof.
  intros HR Hne Hc Hle Hb. pose proof HR as (Hwf & Hh & Hp & Hi & Hw).
  rewrite bool_decide_false in Hi by done. destruct (Hw Hne) as [Hmax Hslot].
  assert (Hwf' : wf (commit w c).2) by (by apply wf_commit).
  revert Hwf' Hb. unfold commit. rewrite Hi, (proj2 (Z.ltb_ge _ _)) by lia. simpl.
  case_ifs; try done; simpl; intros Hwf' _. rewrite WINDOW_SIZE_eq in *.
  apply (represents_cons w); try done; simpl; [lia|].
  intros d Hd0. rewrite Z.max_r by lia. unfold Spec.window. intros Hd.
  destruct Hwf as (_ & Hl & _ & _). rewrite slot_set, Hslot by (done || unfold Spec.window; lia).
  destruct (decide (d = c)) as [->|Hdc].
  - rewrite Z.eqb_refl, orb_true_r, bool_decide_true; [done|apply list_elem_of_here].
  - rewrite bool_decide_cons_ne, (proj2 (Z.eqb_neq _ _)), orb_false_r by lia. done.
Qed.

(** One call refines one step of the contract. *)
Lemma commit_represents w h c :
  represents w h -> is_u64 c ->
  (commit w c).1 = (Spec.accept h c).1 /\ represents (commit w c).2 (Spec.accept h c).2.
Proof.
  intros HR Hc.
  assert (Hb : (commit w c).1 = Spec.acceptable h c)
    by (by rewrite commit_would_reject, (would_reject_spec w h), negb_involutive).
  unfold Spec.accept. destruct (Spec.acceptable h c) eqn:Hacc; simpl; [split; [done|]|by rewrite commit_rejected].
  destruct (decide (h = [])) as [->|Hne]; [by apply represents_fresh|].
  destruct (Z_lt_le_dec (max_counter w) c); [by apply represents_above|by apply represents_below].
Qed.

Lemma run_represents w h cs :
  represents w h -> Forall is_u64 cs ->
  (run w cs).1 = (Spec.run h cs).1 /\ represents (run w cs).2 (Spec.run h cs).2.
Proof.
  intros HR Hcs. revert w h HR. induction Hcs as [|c cs Hc _ IH]; intros w h HR; simpl; [done|].
  destruct (commit_represents w h c HR Hc) as [Hb HR'].
  destruct (commit w c) as [b w'], (Spec.accept h c) as [b' h']. simpl in *. subst b'.
  destruct (IH _ _ HR') as [Hbs HR''].
  destruct (run w' cs), (Spec.run h' cs). simpl in *. by subst.
Qed.

End Refinement.

(** ** Properties *)

Module Properties.
Import Ring RingFacts Refinement.

Lemma newest_elem h : h <> [] -> Forall is_u64 h -> Spec.newest h ∈ h.
Proof.
  intros Hne H. induction H as [|d h Hd Hh IH]; [done|].
  rewrite newest_cons, elem_of_cons. unfold is_u64 in *.
  destruct (decide (h = [])) as [->|Hne']; [left; simpl; lia|].
  destruct (Z.max_spec d (Spec.newest h)) as [[? ->]|[? ->]]; [right; auto|by left].
Qed.

Lemma acceptable_iff h c :
  Forall is_u64 h ->
  Spec.acceptable h c = true <-> (c ∉ h) /\ (forall d, d ∈ h -> d - c < Spec.window).
Proof.
  intros Hh. destruct (decide (h = [])) as [->|Hne]; [simpl; set_solver|].
  rewrite acceptable_nonempty, orb_true_iff, andb_true_iff, negb_true_iff, bool_decide_eq_false by done.
  rewrite !Z.ltb_lt. split.
  - intros H. split.
    + intros Hin. pose proof (elem_of_newest _ _ Hin). destruct H as [?|[_ ?]]; [lia|done].
    + intros d Hd%elem_of_newest. unfold Spec.window in *. lia.
  - intros [Hnin Hall]. destruct (Z_lt_le_dec (Spec.newest h) c); [by left|right]. split; [|done].
    apply Hall. by apply newest_elem.
Qed.

Lemma spec_run_history h cs :
  (Spec.run h cs).2 = reverse (Spec.accepted cs (Spec.run h cs).1) ++ h.
Proof.
  revert h. induction cs as [|c cs IH]; intros h; [done|]. simpl.
  unfold Spec.accept. destruct (Spec.acceptable h c) eqn:E; simpl.
  - specialize (IH (c :: h)). destruct (Spec.run (c :: h) cs) as [bs h']. simpl in *.
    unfold Spec.accepted in *. simpl. by rewrite reverse_cons, <- app_assoc.
  - specialize (IH h). destruct (Spec.run h cs) as [bs h']. done.
Qed.

Lemma spec_run_invariant h cs :
  Forall is_u64 cs -> Forall is_u64 h -> NoDup h ->
  Forall is_u64 (Spec.run h cs).2 /\ NoDup (Spec.run h cs).2.
Proof.
  intros Hcs. revert h. induction Hcs as [|c cs Hc _ IH]; intros h Hh Hnd; [done|]. simpl.
  unfold Spec.accept. destruct (Spec.acceptable h c) eqn:E.
  - apply acceptable_iff in E as [Hnin _]; [|done].
    destruct (IH (c :: h)) as [H1 H2]; [by constructor|by constructor|].
    by destruct (Spec.run (c :: h) cs).
  - destruct (IH h Hh Hnd). by destruct (Spec.run h cs).
Qed.

(** The history a run from the initial window stands for. *)
Lemma run_default cs :
  Forall is_u64 cs ->
  (run default cs).1 = (Spec.run [] cs).1 /\
  represents (run default cs).2 (reverse (Spec.accepted cs (run default cs).1)).
Proof.
  intros Hcs. destruct (run_represents default [] cs represents_default Hcs) as [Hb HR].
  split; [done|]. by rewrite spec_run_history, <- Hb, app_nil_r in HR.
Qed.

Lemma wf_run w cs : wf w -> Forall is_u64 cs -> wf (run w cs).2.
Proof.
  intros Hwf Hcs. revert w Hwf. induction Hcs as [|c cs Hc _ IH]; intros w Hwf; [done|]. simpl.
  pose proof (wf_commit w c Hwf Hc) as Hwf'. destruct (commit w c) as [b w'].
  specialize (IH w' Hwf'). by destruct (run w' cs).
Qed.

Lemma accepted_u64 cs :
  Forall is_u64 cs -> Forall is_u64 (reverse (Spec.accepted cs (run default cs).1)).
Proof. intros Hcs. destruct (run_default cs Hcs) as [_ (_ & H & _)]. done. Qed.

Lemma accepted_length cs bs : (length (Spec.accepted cs bs) <= length cs)%nat.
Proof.
  unfold Spec.accepted. revert bs. induction cs as [|c cs IH]; intros [|b bs]; simpl; try lia.
  destruct b; [apply le_n_S, (IH bs)|apply le_S, (IH bs)].
Qed.

(** C1: The ring bitmap implements the anti-replay contract: for every sequence
    of wire counters, [commit] gives the same accept and reject answers as the
    history-based window of size 8192, and the final state represents exactly
    the counters accepted. *)
Theorem window_refines_contract cs :
  Forall is_u64 cs ->
  (run default cs).1 = (Spec.run [] cs).1 /\
  represents (run default cs).2 (Spec.run [] cs).2.
Proof. apply run_represents, represents_default. Qed.

(** No wire counter is ever accepted twice, in any sequence of calls. *)
Theorem no_counter_accepted_twice cs :
  Forall is_u64 cs -> NoDup (Spec.accepted cs (run default cs).1).
Proof.
  intros Hcs. destruct (run_default cs Hcs) as [Hb _].
  destruct (spec_run_invariant [] cs Hcs) as [_ Hnd]; [constructor|constructor|].
  rewrite spec_run_history, app_nil_r, <- Hb in Hnd. by rewrite <- reverse_Permutation.
Qed.

(** After any run, the next counter is accepted exactly when it was not
    accepted before and no accepted counter is 8192 or more ahead of it; so an
    unseen packet delivered out of order within the window is never dropped. *)
Theorem commit_accepts_iff cs c :
  Forall is_u64 cs -> is_u64 c ->
  (commit (run default cs).2 c).1 = true <->
  (c ∉ Spec.accepted cs (run default cs).1) /\
  (forall d, d ∈ Spec.accepted cs (run default cs).1 -> d - c < WINDOW_SIZE).
Proof.
  intros Hcs Hc. destruct (run_default cs Hcs) as [_ HR].
  destruct (commit_represents _ _ c HR Hc) as [-> _]. unfold Spec.accept.
  transitivity (Spec.acceptable (reverse (Spec.accepted cs (run default cs).1)) c = true);
    [by destruct (Spec.acceptable _ _)|].
  rewrite acceptable_iff by (by apply accepted_u64). rewrite elem_of_reverse.
  setoid_rewrite elem_of_reverse. done.
Qed.

(** [packets_received] counts the accepted packets (exactly, below 2^64
    calls; the counter is a [u64]). *)
Theorem packets_received_counts cs :
  Forall is_u64 cs -> Z.of_nat (length cs) < 2 ^ 64 ->
  packets_received (run default cs).2 = Z.of_nat (length (Spec.accepted cs (run default cs).1)).
Proof.
  intros Hcs Hlen. destruct (run_default cs Hcs) as [_ (_ & _ & -> & _)].
  rewrite length_reverse, wrap64_small; [done|].
  pose proof (accepted_length cs (run default cs).1). unfold is_u64. lia.
Qed.

(** [would_reject] and [commit] apply the same rule to every state: what the
    pre-check lets through is committed, and a rejected commit leaves the
    window unchanged, so the arm of [decrypt] that handles a commit refused
    after the pre-check is unreachable. *)
Theorem precheck_matches_commit w c :
  commit w c = if would_reject w c then (false, w) else (true, (commit w c).2).
Proof.
  pose proof (commit_would_reject w c) as Hb. pose proof (commit_rejected w c) as Hw.
  destruct (would_reject w c); simpl in *; [rewrite <- (Hw Hb) at 2|]; rewrite <- Hb; apply surjective_pairing.
Qed.

(** [clear_range] on a range shorter than the window clears the slots of
    exactly the counters of the range (modulo the ring) and keeps every other
    bit, including when both masked end writes fall on the same word. *)
Theorem clear_range_exact w lo hi d :
  wf w -> 0 <= lo <= hi -> hi - lo < WINDOW_SIZE ->
  slot (bitmap (clear_range w lo hi)) d = slot (bitmap w) d && negb ((d - lo) mod WINDOW_SIZE <=? hi - lo).
Proof. intros (_ & Hl & _ & _). by apply slot_clear_range. Qed.

(** Every operation keeps the window well formed: 128 words, each a [u64],
    and counters in range. *)
Theorem run_well_formed w cs : wf w -> Forall is_u64 cs -> wf (run w cs).2.
Proof. apply wf_run. Qed.

(** In every reachable initialised window the bit of [max_counter] is set,
    and the counter exactly [WINDOW_SIZE] below it shares that bit; hence at
    that age the bit test alone already rejects. *)
Theorem max_counter_bit_set cs :
  Forall is_u64 cs -> initialized (run default cs).2 = true ->
  let w := (run default cs).2 in
  slot (bitmap w) (max_counter w) = true /\ slot (bitmap w) (max_counter w - WINDOW_SIZE) = true.
Proof.
  intros Hcs Hi w. destruct (run_default cs Hcs) as [_ (_ & Hh & _ & Hi' & Hw)].
  rewrite Hi in Hi'. destruct (decide (reverse (Spec.accepted cs (run default cs).1) = [])) as [He|Hne];
    [by rewrite bool_decide_true in Hi'|].
  destruct (Hw Hne) as [Hmax Hslot].
  assert (Hset : slot (bitmap w) (max_counter w) = true).
  { pose proof (newest_u64 _ Hh). unfold is_u64 in *. subst w.
    rewrite Hmax, Hslot by (unfold Spec.window; lia). by apply bool_decide_true, newest_elem. }
  split; [done|]. rewrite <- Hset. apply slot_congr. rewrite WINDOW_SIZE_eq. lia.
Qed.

(** Once the maximum reaches [u64::MAX] the window stalls: every counter
    after the sender's wrap-around is rejected, until the wrapped counters come
    within 8192 of the maximum. *)
Theorem stalls_after_wraparound w c :
  initialized w = true -> max_counter w = u64_MAX -> is_u64 c -> c <= u64_MAX - WINDOW_SIZE ->
  commit w c = (false, w).
Proof.
  unfold is_u64. intros Hi Hm Hc Hle. unfold commit. rewrite Hi, Hm. simpl negb.
  rewrite WINDOW_SIZE_eq in *.
  rewrite (proj2 (Z.ltb_ge _ _)), (proj2 (Z.leb_le _ _)) by lia. done.
Qed.

(** *** Witnesses *)

Definition mixed_traffic : list Z := [62; 8253; 62; 63; 8252; 61; 59; 20000].

Lemma mixed_traffic_u64 : Forall is_u64 mixed_traffic.
Proof. unfold mixed_traffic, is_u64. repeat constructor; lia. Qed.

Lemma window_refines_contract_witness :
  (run default mixed_traffic).1 = [true; true; false; true; true; false; false; true] /\
  (run default mixed_traffic).1 = (Spec.run [] mixed_traffic).1.
Proof.
  split; [vm_compute; reflexivity|].
  apply (window_refines_contract mixed_traffic mixed_traffic_u64).
Defined.

Lemma no_counter_accepted_twice_witness : NoDup (Spec.accepted mixed_traffic (run default mixed_traffic).1).
Proof. exact (no_counter_accepted_twice mixed_traffic mixed_traffic_u64). Defined.

Lemma commit_accepts_iff_witness : (commit (run default [100; 105]).2 103).1 = true.
Proof.
  apply (commit_accepts_iff [100; 105] 103); [repeat constructor; unfold is_u64; lia|unfold is_u64; lia|].
  change (Spec.accepted [100; 105] (run default [100; 105]).1) with [100; 105].
  split; [rewrite !not_elem_of_cons; split_and!; [lia|lia|apply not_elem_of_nil]|].
  rewrite WINDOW_SIZE_eq. intros d. rewrite !elem_of_cons, elem_of_nil. lia.
Defined.

Lemma packets_received_counts_witness : packets_received (run default mixed_traffic).2 = 5.
Proof. apply (packets_received_counts mixed_traffic mixed_traffic_u64). vm_compute. reflexivity. Defined.

Lemma clear_range_exact_witness :
  slot (bitmap (clear_range (run default [62; 8000]).2 63 8252)) 62 = true.
Proof.
  rewrite (clear_range_exact (run default [62; 8000]).2 63 8252 62).
  - vm_compute. reflexivity.
  - apply wf_run; [apply wf_default|repeat constructor; unfold is_u64; lia].
  - lia.
  - rewrite WINDOW_SIZE_eq. lia.
Defined.

Lemma run_well_formed_witness : wf (run default mixed_traffic).2.
Proof. exact (run_well_formed default mixed_traffic wf_default mixed_traffic_u64). Defined.

Lemma max_counter_bit_set_witness : slot (bitmap (run default mixed_traffic).2) (20000 - 8192) = true.
Proof. exact (proj2 (max_counter_bit_set mixed_traffic mixed_traffic_u64 eq_refl)). Defined.

Lemma stalls_after_wraparound_witness :
  commit (run default [u64_MAX]).2 1 = (false, (run default [u64_MAX]).2).
Proof.
  apply (stalls_after_wraparound (run default [u64_MAX]).2 1); try reflexivity;
    unfold is_u64, u64_MAX, WINDOW_SIZE; vm_compute; intuition congruence.
Defined.

End Properties.
