(* ===== verification/ReplayReference.v ===== *)
(** * The frozen age-indexed window of [replay_window.rs] (module [reference])

    The repository keeps the pre-ring implementation as a differential oracle:
    a bitmap indexed by a packet's age, shifted in place at every advance.
    [Module Reference] is that code, loops included; the theorems show that it
    satisfies the same contract as the ring and that the two implementations
    agree on every sequence of calls, which is what the repository's randomised
    differential tests sample. *)

From stdpp Require Import base numbers list list_numbers option sets.
From S2P Require Import Prelude ReplayWindow.

Local Open Scope Z_scope.
Local Open Scope machine_scope.

Ltac Zify.zify_post_hook ::= Z.div_mod_to_equations.

Module Reference.

Definition REF_BLOCKS : nat := 128.
Definition REF_WINDOW : Z := Z.of_nat REF_BLOCKS * 64.

Record ReferenceReplayWindow : Type := mkReference {
  r_max_counter : Z;
  r_bitmap : list Z;
  r_packets_received : Z;
  r_initialized : bool;
}.

Definition r_default : ReferenceReplayWindow :=
  {| r_max_counter := 0; r_bitmap := replicate REF_BLOCKS 0;
     r_packets_received := 0; r_initialized := false |}.

Definition set_bit (bm : list Z) (position : Z) : list Z :=
  let block := Z.to_nat (position / 64) in
  let bit := position mod 64 in
  if decide (block < REF_BLOCKS)%nat then <[block := (bm !!! block) .| Z.shiftl 1 bit]> bm else bm.

Definition test_bit (bm : list Z) (position : Z) : bool :=
  let block := Z.to_nat (position / 64) in
  let bit := position mod 64 in
  if decide (block < REF_BLOCKS)%nat then negb ((bm !!! block) .& Z.shiftl 1 bit =? 0) else false.

(** [for i in (from..from + n).rev() { bitmap[i] = f(&bitmap, i) }]. *)
Definition loop_rev (f : list Z -> nat -> Z) (from n : nat) (bm : list Z) : list Z :=
  foldl (fun bm i => <[i := f bm i]> bm) bm (reverse (seq from n)).

(** [for slot in bitmap.iter_mut().take(n) { *slot = 0 }]. *)
Definition zero_prefix (n : nat) (bm : list Z) : list Z :=
  replicate (n `min` length bm) 0 ++ drop n bm.

Definition move_word (block_shift : nat) (bm : list Z) (i : nat) : Z := bm !!! (i - block_shift)%nat.

Definition merge_words (block_shift : nat) (bit_shift : Z) (bm : list Z) (i : nat) : Z :=
  let lower :=
    if decide (block_shift <= i)%nat then wrap64 (Z.shiftl (bm !!! (i - block_shift)%nat) bit_shift) else 0 in
  let upper :=
    if decide (block_shift < i)%nat then Z.shiftr (bm !!! (i - block_shift - 1)%nat) (64 - bit_shift) else 0 in
  lower .| upper.

Definition shift_left (bm : list Z) (count : Z) : list Z :=
  if REF_WINDOW <=? count then replicate REF_BLOCKS 0
  else
    let block_shift := Z.to_nat (count / 64) in
    let bit_shift := count mod 64 in
    if bit_shift =? 0 then
      zero_prefix block_shift (loop_rev (move_word block_shift) block_shift (REF_BLOCKS - block_shift) bm)
    else loop_rev (merge_words block_shift bit_shift) 0 REF_BLOCKS bm.

Definition r_would_reject (w : ReferenceReplayWindow) (wire_counter : Z) : bool :=
  if negb (r_initialized w) then false
  else if r_max_counter w <? wire_counter then false
  else
    let age := r_max_counter w - wire_counter in
    if REF_WINDOW <=? age then true else test_bit (r_bitmap w) age.

Definition r_commit (w : ReferenceReplayWindow) (wire_counter : Z) : bool * ReferenceReplayWindow :=
  if negb (r_initialized w) then
    (true, {| r_max_counter := wire_counter; r_bitmap := <[0%nat := 1]> (r_bitmap w);
              r_packets_received := wrap64 (r_packets_received w + 1); r_initialized := true |})
  else if r_max_counter w <? wire_counter then
    let diff := wire_counter - r_max_counter w in
    let bm := shift_left (r_bitmap w) diff in
    (true, {| r_max_counter := wire_counter; r_bitmap := <[0%nat := (bm !!! 0%nat) .| 1]> bm;
              r_packets_received := wrap64 (r_packets_received w + 1); r_initialized := r_initialized w |})
  else
    let age := r_max_counter w - wire_counter in
    if age <? REF_WINDOW then
      if test_bit (r_bitmap w) age then (false, w)
      else (true, {| r_max_counter := r_max_counter w; r_bitmap := set_bit (r_bitmap w) age;
                     r_packets_received := wrap64 (r_packets_received w + 1);
                     r_initialized := r_initialized w |})
    else (false, w).

Fixpoint r_run (w : ReferenceReplayWindow) (cs : list Z) : list bool * ReferenceReplayWindow :=
  match cs with
  | [] => ([], w)
  | c :: cs =>
      let '(b, w) := r_commit w c in
      let '(bs, w) := r_run w cs in (b :: bs, w)
  end.

(** [assert_bitmaps_agree]: every age of the window that stands for a counter
    has the same bit in both layouts. *)
Definition bitmaps_agree (r : ReferenceReplayWindow) (w : Ring.ReplayWindow) : Prop :=
  forall age, 0 <= age < Ring.WINDOW_SIZE -> age <= Ring.max_counter w ->
    test_bit (r_bitmap r) age = Ring.slot (Ring.bitmap w) (Ring.max_counter w - age).

End Reference.

(** ** Bits of the age-indexed bitmap *)

Module ReferenceFacts.
Import Reference.

Lemma REF_WINDOW_eq : REF_WINDOW = 8192.
Proof. reflexivity. Qed.

Lemma test_bit_alt bm p :
  0 <= p < 8192 -> test_bit bm p = Z.testbit (bm !!! Z.to_nat (p / 64)) (p mod 64).
Proof.
  intros. unfold test_bit. rewrite decide_True by (unfold REF_BLOCKS; lia). apply land_bit_test. lia.
Qed.

(** A loop that descends and reads only words at or below the one it writes
    sees the old words. *)
Lemma lookup_loop_rev f from n bm j :
  (forall bm bm' i, (forall k, (k <= i)%nat -> bm !!! k = bm' !!! k) -> f bm i = f bm' i) ->
  (from + n <= length bm)%nat ->
  loop_rev f from n bm !!! j = if decide (from <= j < from + n)%nat then f bm j else bm !!! j.
Proof.
  intros Hf. unfold loop_rev. revert bm. induction n as [|n IH]; intros bm Hlen.
  { rewrite decide_False by lia. done. }
  rewrite seq_S, reverse_app. simpl. rewrite IH by (rewrite length_insert; lia).
  case_decide.
  - rewrite decide_True by lia. apply Hf. intros k Hk. by rewrite list_lookup_total_insert_ne by lia.
  - destruct (decide (j = from + n)%nat) as [->|].
    + rewrite decide_True, list_lookup_total_insert_eq by lia. done.
    + rewrite decide_False, list_lookup_total_insert_ne by lia. done.
Qed.

Lemma length_loop_rev f from n bm : length (loop_rev f from n bm) = length bm.
Proof.
  unfold loop_rev. generalize (reverse (seq from n)) as l. intros l. revert bm.
  induction l as [|i l IH]; intros bm; [done|]. simpl. by rewrite IH, length_insert.
Qed.

Lemma move_word_local b bm bm' i :
  (forall k, (k <= i)%nat -> bm !!! k = bm' !!! k) -> move_word b bm i = move_word b bm' i.
Proof. intros H. unfold move_word. apply H. lia. Qed.

Lemma merge_words_local b s bm bm' i :
  (forall k, (k <= i)%nat -> bm !!! k = bm' !!! k) -> merge_words b s bm i = merge_words b s bm' i.
Proof.
  intros H. unfold merge_words.
  repeat case_decide; rewrite ?(H (i - b)%nat), ?(H (i - b - 1)%nat) by lia; done.
Qed.

Lemma lookup_zero_prefix n bm j :
  (j < length bm)%nat -> zero_prefix n bm !!! j = if decide (j < n)%nat then 0 else bm !!! j.
Proof.
  intros Hj. unfold zero_prefix. case_decide.
  - rewrite lookup_total_app_l by (rewrite length_replicate; lia).
    apply lookup_total_replicate_2. lia.
  - rewrite lookup_total_app_r by (rewrite length_replicate; lia).
    rewrite lookup_total_drop, length_replicate. f_equal. lia.
Qed.

Lemma testbit_merge_words b s bm i k :
  0 < s < 64 -> 0 <= k < 64 -> Forall is_u64 bm -> (i < length bm)%nat ->
  Z.testbit (merge_words b s bm i) k
  = if s <=? k then (if decide (b <= i)%nat then Z.testbit (bm !!! (i - b)%nat) (k - s) else false)
    else (if decide (b < i)%nat then Z.testbit (bm !!! (i - b - 1)%nat) (k + 64 - s) else false).
Proof.
  intros Hs Hk Hbm Hi. unfold merge_words. rewrite Z.lor_spec.
  assert (Hlow : Z.testbit (if decide (b <= i)%nat then wrap64 (Z.shiftl (bm !!! (i - b)%nat) s) else 0) k
    = if s <=? k then (if decide (b <= i)%nat then Z.testbit (bm !!! (i - b)%nat) (k - s) else false) else false).
  { case_decide; [|rewrite Z.bits_0; by case_match]. rewrite testbit_wrap64, Z.shiftl_spec by lia.
    destruct (Z.leb_spec s k); [done|]. apply Z.testbit_neg_r. lia. }
  assert (Hup : Z.testbit (if decide (b < i)%nat then Z.shiftr (bm !!! (i - b - 1)%nat) (64 - s) else 0) k
    = if s <=? k then false else (if decide (b < i)%nat then Z.testbit (bm !!! (i - b - 1)%nat) (k + 64 - s) else false)).
  { clear Hlow. case_decide; [|rewrite Z.bits_0; by case_match]. rewrite Z.shiftr_spec by lia.
    destruct (Z.leb_spec s k); [|f_equal; lia]. apply (testbit_high _ 64); [|lia|lia].
    apply Refinement.Forall_u64_lookup; [done|lia]. }
  rewrite Hlow, Hup. destruct (s <=? k); [by rewrite orb_false_r|done].
Qed.

(** [shift_left] moves every age up by [count] and leaves the new ages clear. *)
Lemma test_bit_shift_left bm count p :
  length bm = REF_BLOCKS -> Forall is_u64 bm -> 0 < count -> 0 <= p < 8192 ->
  test_bit (shift_left bm count) p = if p <? count then false else test_bit bm (p - count).
Proof.
  intros Hlen Hbm Hc Hp. rewrite (test_bit_alt (shift_left _ _)) by lia. unfold shift_left.
  rewrite REF_WINDOW_eq. destruct (Z.leb_spec 8192 count).
  { rewrite lookup_total_replicate_2, Z.bits_0 by (unfold REF_BLOCKS; lia). case_ifs; [done|lia]. }
  assert (Hi : (Z.to_nat (p / 64) < REF_BLOCKS)%nat) by (unfold REF_BLOCKS; lia).
  destruct (Z.eqb_spec (count mod 64) 0) as [Hs|Hs].
  - rewrite lookup_zero_prefix by (rewrite length_loop_rev; lia). unfold REF_BLOCKS in *.
    rewrite lookup_loop_rev by (try apply move_word_local; lia).
    destruct (Z.ltb_spec p count).
    + rewrite decide_True by lia. apply Z.bits_0.
    + rewrite decide_False, decide_True, test_bit_alt by lia. unfold move_word. f_equal; [f_equal; lia|lia].
  - rewrite lookup_loop_rev by (try apply merge_words_local; lia). rewrite decide_True by lia.
    rewrite testbit_merge_words by (done || lia).
    destruct (Z.ltb_spec p count).
    + case_ifs; try done; lia.
    + rewrite test_bit_alt by lia. case_ifs; try (exfalso; lia); f_equal; try lia; f_equal; lia.
Qed.

Lemma merge_words_u64 b s bm i :
  Forall is_u64 bm -> (i < length bm)%nat -> 0 <= 64 - s -> is_u64 (merge_words b s bm i).
Proof.
  intros Hbm Hi Hs. unfold merge_words. apply is_u64_lor; case_decide; try done; try (unfold is_u64; lia).
  assert (Hx : is_u64 (bm !!! (i - b - 1)%nat)) by (apply Refinement.Forall_u64_lookup; [done|lia]).
  unfold is_u64 in *. rewrite Z.shiftr_div_pow2 by done. pose proof (pow2_pos (64 - s) Hs).
  split; [apply Z.div_pos; lia|]. apply Z.div_lt_upper_bound; [lia|]. nia.
Qed.

Lemma Forall_lookup_u64 bm :
  (forall j, (j < length bm)%nat -> is_u64 (bm !!! j)) -> Forall is_u64 bm.
Proof.
  intros H. apply Forall_lookup_2. intros i x Hx.
  rewrite <- (list_lookup_total_correct _ _ _ Hx). by eapply H, lookup_lt_Some.
Qed.

Lemma length_shift_left bm count : length bm = REF_BLOCKS -> length (shift_left bm count) = REF_BLOCKS.
Proof.
  intros Hlen. unfold shift_left. case_ifs; [done| |by rewrite length_loop_rev].
  unfold zero_prefix. rewrite length_app, length_replicate, length_drop, length_loop_rev. lia.
Qed.

Lemma Forall_shift_left bm count :
  length bm = REF_BLOCKS -> Forall is_u64 bm -> Forall is_u64 (shift_left bm count).
Proof.
  intros Hlen Hbm. apply Forall_lookup_u64. rewrite length_shift_left by done. intros j Hj.
  unfold shift_left. case_ifs.
  - rewrite lookup_total_replicate_2 by done. unfold is_u64. lia.
  - rewrite lookup_zero_prefix by (rewrite length_loop_rev; lia). rewrite REF_WINDOW_eq in *.
    case_decide; [unfold is_u64; lia|]. unfold REF_BLOCKS in *.
    rewrite lookup_loop_rev by (try apply move_word_local; lia).
    case_decide; apply Refinement.Forall_u64_lookup; done || lia.
  - rewrite lookup_loop_rev by (try apply merge_words_local; lia).
    rewrite decide_True by lia. apply merge_words_u64; [done|lia|lia].
Qed.

Lemma test_bit_set_bit bm q p :
  length bm = REF_BLOCKS -> 0 <= q < 8192 -> 0 <= p < 8192 ->
  test_bit (set_bit bm q) p = test_bit bm p || (p =? q).
Proof.
  intros Hlen Hq Hp. rewrite !test_bit_alt by lia. unfold set_bit.
  rewrite decide_True by (unfold REF_BLOCKS; lia).
  rewrite RingFacts.lookup_update by (rewrite Hlen; unfold REF_BLOCKS; lia).
  case_decide as Hi.
  - rewrite Z.lor_spec, Z.shiftl_1_l, Z.pow2_bits_eqb, <- Hi by lia. f_equal. lia.
  - rewrite (proj2 (Z.eqb_neq p q)), orb_false_r by lia. done.
Qed.

(** Setting bit 0 of word 0 records the newest packet (age 0). *)
Lemma set_bit_zero bm : <[0%nat := (bm !!! 0%nat) .| 1]> bm = set_bit bm 0.
Proof. reflexivity. Qed.

End ReferenceFacts.

(** ** Refinement of the same contract, and equivalence with the ring *)

Module ReferenceRefinement.
Import Reference ReferenceFacts.

Definition r_wf (w : ReferenceReplayWindow) : Prop :=
  is_u64 (r_max_counter w) /\ length (r_bitmap w) = REF_BLOCKS /\ Forall is_u64 (r_bitmap w).

Definition r_represents (w : ReferenceReplayWindow) (h : Spec.history) : Prop :=
  r_wf w /\ Forall is_u64 h /\
  r_packets_received w = wrap64 (Z.of_nat (length h)) /\
  r_initialized w = negb (bool_decide (h = [])) /\
  (h = [] -> r_bitmap w = replicate REF_BLOCKS 0) /\
  (h <> [] ->
   r_max_counter w = Spec.newest h /\
   forall c, 0 <= c -> Spec.newest h - Spec.window < c <= Spec.newest h ->
     test_bit (r_bitmap w) (Spec.newest h - c) = bool_decide (c ∈ h)).

Lemma r_represents_default : r_represents r_default [].
Proof.
  split_and!; try done. split_and!; [unfold is_u64; simpl; lia|done|].
  apply Forall_replicate. unfold is_u64. lia.
Qed.

Lemma r_would_reject_spec w h c :
  r_represents w h -> is_u64 c -> r_would_reject w c = negb (Spec.acceptable h c).
Proof.
  intros (_ & _ & _ & Hi & _ & Hw) Hc. unfold r_would_reject. rewrite Hi.
  destruct (decide (h = [])) as [->|Hne]; [done|]. rewrite bool_decide_false by done. simpl negb.
  destruct (Hw Hne) as [Hmax Hslot]. rewrite Refinement.acceptable_nonempty, Hmax by done.
  destruct (Spec.newest h <? c) eqn:E1; [done|]. simpl. rewrite REF_WINDOW_eq.
  destruct (8192 <=? Spec.newest h - c) eqn:E2; zbool.
  - by replace (Spec.newest h - c <? Spec.window) with false by (unfold Spec.window; lia).
  - replace (Spec.newest h - c <? Spec.window) with true by (unfold Spec.window; lia).
    rewrite Hslot by (unfold Spec.window, is_u64 in *; lia). simpl. by rewrite negb_involutive.
Qed.

Lemma r_commit_would_reject w c : (r_commit w c).1 = negb (r_would_reject w c).
Proof. unfold r_commit, r_would_reject. rewrite Z.leb_antisym. case_ifs; simpl in *; congruence || lia. Qed.

Lemma r_commit_rejected w c : (r_commit w c).1 = false -> (r_commit w c).2 = w.
Proof. unfold r_commit. case_ifs; done. Qed.

Lemma r_represents_cons w h c w' :
  r_wf w' -> r_represents w h -> is_u64 c ->
  r_packets_received w' = wrap64 (r_packets_received w + 1) -> r_initialized w' = true ->
  r_max_counter w' = Z.max c (Spec.newest h) ->
  (forall d, 0 <= d -> Z.max c (Spec.newest h) - Spec.window < d <= Z.max c (Spec.newest h) ->
     test_bit (r_bitmap w') (Z.max c (Spec.newest h) - d) = bool_decide (d ∈ c :: h)) ->
  r_represents w' (c :: h).
Proof.
  intros Hwf (_ & Hh & Hp & _) Hc Hp' Hi Hmax Hslot.
  split_and!; [done|by constructor| |by rewrite Hi|done|done].
  rewrite Hp', Hp, wrap64_add_l. f_equal. simpl length. lia.
Qed.

Lemma Forall_set_bit_u64 bm p :
  length bm = REF_BLOCKS -> Forall is_u64 bm -> Forall is_u64 (set_bit bm p).
Proof.
  intros Hl H. unfold set_bit. case_decide; [|done]. apply Forall_insert; [done|].
  apply is_u64_lor; [apply Refinement.Forall_u64_lookup; [done|lia]|].
  rewrite Z.shiftl_1_l. unfold is_u64. split; [apply Z.pow_nonneg; lia|apply Z.pow_lt_mono_r; lia].
Qed.

Lemma length_set_bit bm p : length (set_bit bm p) = length bm.
Proof. unfold set_bit. case_decide; [apply length_insert|done]. Qed.

Lemma r_represents_fresh w c : r_represents w [] -> is_u64 c -> r_represents (r_commit w c).2 [c].
Proof.
  intros HR Hc. pose proof HR as ((_ & Hl & Hbm) & _ & _ & Hi & Hz & _). specialize (Hz eq_refl).
  unfold r_commit. rewrite Hi. change (negb (negb (bool_decide (@nil Z = [])))) with true. cbn [snd]. rewrite Hz.
  change (<[0%nat := 1]> (replicate REF_BLOCKS 0)) with (set_bit (replicate REF_BLOCKS 0) 0).
  apply (r_represents_cons w); try done; cbn [r_bitmap r_max_counter r_packets_received r_initialized snd].
  - split_and!; cbn [r_bitmap r_max_counter]; [done|by rewrite length_set_bit|apply Forall_set_bit_u64; [done|by rewrite <- Hz]].
  - unfold is_u64 in Hc. simpl. lia.
  - unfold is_u64 in Hc. intros d Hd0. change (Spec.newest []) with 0. rewrite Z.max_l by lia. unfold Spec.window. intros Hd.
    rewrite test_bit_set_bit, test_bit_alt by (done || lia).
    rewrite lookup_total_replicate_2, Z.bits_0 by (unfold REF_BLOCKS; lia).
    apply eq_true_iff_eq. rewrite bool_decide_eq_true, list_elem_of_singleton. simpl. lia.
Qed.

Lemma r_represents_above w h c :
  r_represents w h -> h <> [] -> is_u64 c -> r_max_counter w < c -> r_represents (r_commit w c).2 (c :: h).
Proof.
  intros HR Hne Hc Hlt. pose proof HR as ((_ & Hl & Hbm) & Hh & Hp & Hi & _ & Hw).
  rewrite bool_decide_false in Hi by done. destruct (Hw Hne) as [Hmax Hslot].
  unfold r_commit. rewrite Hi, (proj2 (Z.ltb_lt _ _)), set_bit_zero by lia. simpl.
  pose proof (length_shift_left (r_bitmap w) (c - r_max_counter w) Hl) as Hls.
  apply (r_represents_cons w); try done; simpl.
  - split_and!; simpl; [done|by rewrite length_set_bit|by apply Forall_set_bit_u64, Forall_shift_left].
  - lia.
  - intros d Hd0. rewrite Z.max_l by lia. unfold Spec.window. intros Hd.
    rewrite test_bit_set_bit, test_bit_shift_left by (done || lia).
    destruct (decide (d = c)) as [->|Hdc].
    + rewrite Z.sub_diag, orb_true_r, bool_decide_true; [done|apply list_elem_of_here].
    + rewrite (proj2 (Z.eqb_neq _ _)), orb_false_r, Refinement.bool_decide_cons_ne by lia.
      destruct (Z.ltb_spec (c - d) (c - r_max_counter w)).
      * symmetry. apply bool_decide_false. intros Hin%Refinement.elem_of_newest. lia.
      * rewrite <- Hslot by (unfold Spec.window; lia). f_equal. lia.
Qed.

Lemma r_represents_below w h c :
  r_represents w h -> h <> [] -> is_u64 c -> c <= r_max_counter w -> (r_commit w c).1 = true ->
  r_represents (r_commit w c).2 (c :: h).
Proof.
  intros HR Hne Hc Hle. pose proof HR as ((Hm & Hl & Hbm) & Hh & Hp & Hi & _ & Hw).
  rewrite bool_decide_false in Hi by done. destruct (Hw Hne) as [Hmax Hslot].
  unfold r_commit. rewrite Hi, (proj2 (Z.ltb_ge _ _)) by lia. simpl.
  case_ifs; try done; simpl; intros _. rewrite REF_WINDOW_eq in *. unfold is_u64 in Hc.
  apply (r_represents_cons w); try done; simpl.
  - split_and!; simpl; [done|by rewrite length_set_bit|by apply Forall_set_bit_u64].
  - lia.
  - intros d Hd0. rewrite Z.max_r by lia. unfold Spec.window. intros Hd.
    rewrite test_bit_set_bit, Hslot by (done || unfold Spec.window; lia).
    destruct (decide (d = c)) as [->|Hdc].
    + rewrite (proj2 (Z.eqb_eq _ _)), orb_true_r, bool_decide_true; [done|apply list_elem_of_here|lia].
    + rewrite Refinement.bool_decide_cons_ne, (proj2 (Z.eqb_neq _ _)), orb_false_r by lia. done.
Qed.

Lemma r_commit_represents w h c :
  r_represents w h -> is_u64 c ->
  (r_commit w c).1 = (Spec.accept h c).1 /\ r_represents (r_commit w c).2 (Spec.accept h c).2.
Proof.
  intros HR Hc.
  assert (Hb : (r_commit w c).1 = Spec.acceptable h c)
    by (by rewrite r_commit_would_reject, (r_would_reject_spec w h), negb_involutive).
  unfold Spec.accept. destruct (Spec.acceptable h c) eqn:Hacc; simpl; [split; [done|]|by rewrite r_commit_rejected].
  destruct (decide (h = [])) as [->|Hne]; [by apply r_represents_fresh|].
  destruct (Z_lt_le_dec (r_max_counter w) c); [by apply r_represents_above|by apply r_represents_below].
Qed.

Lemma r_run_represents w h cs :
  r_represents w h -> Forall is_u64 cs ->
  (r_run w cs).1 = (Spec.run h cs).1 /\ r_represents (r_run w cs).2 (Spec.run h cs).2.
Proof.
  intros HR Hcs. revert w h HR. induction Hcs as [|c cs Hc _ IH]; intros w h HR; simpl; [done|].
  destruct (r_commit_represents w h c HR Hc) as [Hb HR'].
  destruct (r_commit w c) as [b w'], (Spec.accept h c) as [b' h']. simpl in *. subst b'.
  destruct (IH _ _ HR') as [Hbs HR''].
  destruct (r_run w' cs), (Spec.run h' cs). simpl in *. by subst.
Qed.

Lemma same_history_agree r w h :
  r_represents r h -> Refinement.represents w h -> h <> [] ->
  r_max_counter r = Ring.max_counter w /\ bitmaps_agree r w.
Proof.
  intros (_ & Hh & _ & _ & _ & Hr) (_ & _ & _ & _ & Hw) Hne.
  destruct (Hr Hne) as [Hm1 Hs1], (Hw Hne) as [Hm2 Hs2]. split; [congruence|].
  intros age Hage Hle. rewrite RingFacts.WINDOW_SIZE_eq in Hage.
  rewrite Hm2 in *. rewrite Hs2 by (unfold Spec.window; lia).
  rewrite <- Hs1 by (unfold Spec.window; lia). f_equal. lia.
Qed.

(** C8: The ring window and the frozen age-indexed window are equivalent: on
    every sequence of counters they give the same answers, the same
    [packets_received], the same pre-check on any further counter, and, once a
    packet was received, the same [max_counter] and bitmaps that agree on every
    age of the window. *)
Theorem ring_equals_reference cs c :
  Forall is_u64 cs -> is_u64 c ->
  let w := (Ring.run Ring.default cs).2 in
  let r := (r_run r_default cs).2 in
  (Ring.run Ring.default cs).1 = (r_run r_default cs).1 /\
  Ring.packets_received w = r_packets_received r /\
  Ring.would_reject w c = r_would_reject r c /\
  (Ring.initialized w = true -> Ring.max_counter w = r_max_counter r /\ bitmaps_agree r w).
Proof.
  intros Hcs Hc w r.
  destruct (Refinement.run_represents _ _ cs Refinement.represents_default Hcs) as [Hb Hw].
  destruct (r_run_represents _ _ cs r_represents_default Hcs) as [Hb' Hr].
  split_and!.
  - congruence.
  - destruct Hw as (_ & _ & Hpw & _), Hr as (_ & _ & Hpr & _). subst w r. congruence.
  - subst w r. by rewrite (Refinement.would_reject_spec _ _ _ Hw Hc), (r_would_reject_spec _ _ _ Hr Hc).
  - intros Hi. destruct (same_history_agree _ _ _ Hr Hw) as [Hm Ha].
    + destruct Hw as (_ & _ & _ & Hi' & _). fold w in Hi'. rewrite Hi in Hi'.
      intros He. by rewrite bool_decide_true in Hi'.
    + by split.
Qed.

Lemma ring_equals_reference_witness :
  Ring.would_reject (Ring.run Ring.default [8180; 8200; 16300]).2 8181
  = r_would_reject (r_run r_default [8180; 8200; 16300]).2 8181.
Proof.
  apply (ring_equals_reference [8180; 8200; 16300] 8181); [repeat constructor; unfold is_u64; lia|unfold is_u64; lia].
Defined.

End ReferenceRefinement.
