(* ===== verification/AntiReplay.v ===== *)
(** * What the replay window promises to the session

    [AntiReplay] is the interface [session.rs] uses of [replay_window.rs]: a
    non-mutating pre-check, a commit, and the count of committed packets, with
    the laws the session relies on.  Both window implementations are instances;
    the session's theorems are proved against the interface. *)

From stdpp Require Import base numbers list list_numbers option sets.
From S2P Require Import Prelude ReplayWindow ReplayReference.

Local Open Scope Z_scope.

Class AntiReplay (W : Type) : Type := {
  ar_default : W;
  ar_would_reject : W -> Z -> bool;
  ar_commit : W -> Z -> bool * W;
  ar_received : W -> Z;
  (** [ar_models w h]: the window stands for the accepted counters [h]. *)
  ar_models : W -> Spec.history -> Prop;
  ar_models_default : ar_models ar_default [];
  ar_precheck w c : (ar_commit w c).1 = negb (ar_would_reject w c);
  ar_rejected w c : (ar_commit w c).1 = false -> (ar_commit w c).2 = w;
  ar_step w h c :
    ar_models w h -> is_u64 c ->
    (ar_commit w c).1 = (Spec.accept h c).1 /\ ar_models (ar_commit w c).2 (Spec.accept h c).2;
  ar_u64 w h : ar_models w h -> Forall is_u64 h;
  ar_count w h : ar_models w h -> ar_received w = wrap64 (Z.of_nat (length h));
}.

#[global] Program Instance ring_anti_replay : AntiReplay Ring.ReplayWindow := {|
  ar_default := Ring.default;
  ar_would_reject := Ring.would_reject;
  ar_commit := Ring.commit;
  ar_received := Ring.packets_received;
  ar_models := Refinement.represents;
|}.
Next Obligation. apply Refinement.represents_default. Qed.
Next Obligation. apply Refinement.commit_would_reject. Qed.
Next Obligation. apply Refinement.commit_rejected. Qed.
Next Obligation. by apply Refinement.commit_represents. Qed.
Next Obligation. by intros w h (_ & H & _). Qed.
Next Obligation. by intros w h (_ & _ & H & _). Qed.

#[global] Program Instance reference_anti_replay : AntiReplay Reference.ReferenceReplayWindow := {|
  ar_default := Reference.r_default;
  ar_would_reject := Reference.r_would_reject;
  ar_commit := Reference.r_commit;
  ar_received := Reference.r_packets_received;
  ar_models := ReferenceRefinement.r_represents;
|}.
Next Obligation. apply ReferenceRefinement.r_represents_default. Qed.
Next Obligation. apply ReferenceRefinement.r_commit_would_reject. Qed.
Next Obligation. apply ReferenceRefinement.r_commit_rejected. Qed.
Next Obligation. by apply ReferenceRefinement.r_commit_represents. Qed.
Next Obligation. by intros w h (_ & H & _). Qed.
Next Obligation. by intros w h (_ & _ & H & _). Qed.

(** ** Consequences of the interface *)

Section AntiReplay.
Context {W : Type} `{AntiReplay W}.
Implicit Types (w : W) (h : Spec.history).

(** What passes the pre-check is committed. *)
Lemma ar_commit_accepts w c : ar_would_reject w c = false -> (ar_commit w c).1 = true.
Proof. intros Hr. by rewrite ar_precheck, Hr. Qed.

Lemma ar_would_reject_models w h c :
  ar_models w h -> is_u64 c -> ar_would_reject w c = negb (Spec.acceptable h c).
Proof.
  intros Hm Hc. destruct (ar_step w h c Hm Hc) as [Hb _]. rewrite ar_precheck in Hb.
  unfold Spec.accept in Hb. by destruct (Spec.acceptable h c), (ar_would_reject w c).
Qed.

Lemma ar_commit_models w h c :
  ar_models w h -> is_u64 c -> ar_would_reject w c = false -> ar_models (ar_commit w c).2 (c :: h).
Proof.
  intros Hm Hc Hr. destruct (ar_step w h c Hm Hc) as [_ Hm']. revert Hm'. unfold Spec.accept.
  rewrite (ar_would_reject_models w h) in Hr by done. by destruct (Spec.acceptable h c).
Qed.

(** An accepted counter is new. *)
Lemma ar_accepted_fresh w h c :
  ar_models w h -> is_u64 c -> ar_would_reject w c = false -> c ∉ h.
Proof.
  intros Hm Hc Hr. rewrite (ar_would_reject_models w h) in Hr by done. apply negb_false_iff in Hr.
  apply Properties.acceptable_iff in Hr; [by destruct Hr|by eapply ar_u64].
Qed.

(** A committed counter is rejected from then on. *)
Lemma ar_committed_rejected w h c :
  ar_models w h -> is_u64 c -> ar_would_reject w c = false ->
  ar_would_reject (ar_commit w c).2 c = true.
Proof.
  intros Hm Hc Hr. pose proof (ar_commit_models w h c Hm Hc Hr) as Hm'.
  rewrite (ar_would_reject_models _ _ _ Hm' Hc). apply negb_true_iff.
  apply not_true_is_false. intros Ha.
  apply Properties.acceptable_iff in Ha as [Hn _]; [|by eapply ar_u64].
  apply Hn, list_elem_of_here.
Qed.

End AntiReplay.
