(* ===== verification/WindowTests.v ===== *)
(** * The unit tests of the replay window

    The tests of [replay_window.rs] on the model.  The scenarios are evaluated;
    the differential harness against the reference window, with its generator of
    mixed traffic, is proved to pass for every seed and every number of steps
    that the generator's own arithmetic admits. *)

From stdpp Require Import base numbers list list_numbers option.
From S2P Require Import Prelude ReplayWindow ReplayReference.
Import Ring.

Local Open Scope Z_scope.

Module WindowTests.
Import Reference.

(** ** Scenarios *)

(** A statement of a test: [assert!(window.commit(c))] and its negation, the same
    for [would_reject], and [assert_eq!(window.packets_received(), n)]. *)
Inductive statement : Set :=
| Accepts (c : Z)
| Refuses (c : Z)
| WouldReject (c : Z)
| WouldAccept (c : Z)
| Received (n : Z).

Definition exec (st : statement) (w : ReplayWindow) : outcome ReplayWindow :=
  match st with
  | Accepts c => let '(b, w) := commit w c in _ ← assert b; Ret w
  | Refuses c => let '(b, w) := commit w c in _ ← assert (negb b); Ret w
  | WouldReject c => _ ← assert (would_reject w c); Ret w
  | WouldAccept c => _ ← assert (negb (would_reject w c)); Ret w
  | Received n => _ ← assert_eq (packets_received w) n; Ret w
  end.

Fixpoint scenario (l : list statement) (w : ReplayWindow) : outcome ReplayWindow :=
  match l with [] => Ret w | st :: l => w ← exec st w; scenario l w end.

Definition test (l : list statement) : outcome unit := _ ← scenario l default; Ret tt.

(** [for c in lo..=hi { .. }]. *)
Definition for_each (f : Z -> statement) (lo hi : Z) : list statement := f <$> seqZ lo (hi - lo + 1).

Definition accepts_first_packet := test [Accepts 100; Received 1].
Definition detects_exact_replay := test [Accepts 100; Refuses 100; Received 1].
Definition accepts_newer_packets := test [Accepts 100; Accepts 101; Accepts 102; Received 3].
Definition accepts_out_of_order_within_window :=
  test [Accepts 100; Accepts 105; Accepts 103; Accepts 102; Received 4].
Definition rejects_replayed_out_of_order_packet :=
  test [Accepts 100; Accepts 105; Accepts 103; Refuses 103; Received 3].
Definition rejects_too_old_packets :=
  test [Accepts 100; Accepts 10000; Refuses 100; Refuses 1808; Accepts 1809; Received 3].
Definition handles_large_jumps := test [Accepts 100; Accepts 10000; Refuses 100; Received 2].
Definition full_scenario :=
  test (for_each Accepts 1 10 ++ [Accepts 15; Accepts 13; Accepts 11; Accepts 12; Accepts 14; Refuses 10; Refuses 13;
                                  Refuses 15; Accepts 16; Accepts 17; Received 17]).
Definition would_reject_is_non_mutating :=
  test [WouldAccept 100; Received 0; Accepts 100; WouldReject 100; Received 1; WouldAccept u64_MAX; Received 1].
Definition window_size_is_8192 := test [Accepts 0; Accepts 8192; Refuses 0; Accepts 1].
Definition advance_within_one_word_clears_only_skipped_counters :=
  test ([Accepts 100; Accepts 105; Refuses 100] ++ for_each Accepts 101 104 ++ [Refuses 105; Received 6]).
Definition advance_across_a_word_boundary_clears_only_skipped_counters :=
  test ([Accepts 60; Accepts 70; Refuses 60] ++ for_each Accepts 61 69 ++ [Refuses 70; Received 11]).
Definition advance_across_the_ring_wrap_clears_only_skipped_counters :=
  test [Accepts 8180; Accepts 8200; Refuses 8180; Accepts 8181; Accepts 8190; Accepts 8199; Refuses 8200].
Definition maximal_partial_clear_preserves_oldest_in_window_bit :=
  test [Accepts 62; Accepts 8253; Refuses 62; Accepts 63; Accepts 8252; Refuses 61; Refuses 8253; Refuses 59; Received 4].
Definition rejects_counter_far_below_window_whose_slot_is_clear :=
  test [Accepts 0; Accepts 20000; WouldReject 3000; Refuses 3000; Received 2].
Definition jump_of_exactly_window_size_invalidates_everything :=
  test [Accepts 0; Accepts 1; Accepts 2; Accepts 8192; Refuses 0; Refuses 1; Accepts 3; Accepts 16384; Accepts 8193;
        Accepts 16383; Refuses 8192; Refuses 8191; Refuses 8190].
Definition full_window_span_fills_then_replays : outcome unit :=
  w ← scenario ([Accepts 0] ++ for_each Accepts 1 8191 ++ [Received 8192]) default;
  _ ← assert_eq (max_counter w) 8191;
  _ ← scenario (for_each Refuses 0 8191 ++ [Accepts 8192; Refuses 0]) w; Ret tt.
Definition first_packet_with_a_large_counter_initializes_correctly :=
  let base := u64_MAX / 2 in
  test [Accepts base; Refuses base; Accepts (base - 1); Accepts (base + 1); Refuses (base - 8192)].
Definition window_stalls_after_u64_wraparound_matching_todays_behaviour :=
  test [Accepts (u64_MAX - 1); Accepts u64_MAX; Refuses 0; Refuses 1; Refuses 8191; WouldReject 0].

(** ** The differential harness *)

(** [SplitMix64::next]: the value and the new state. *)
Definition splitmix_next (s : Z) : Z * Z :=
  let s := wrap64 (s + 0x9E3779B97F4A7C15) in
  let z := wrap64 (Z.lxor s (Z.shiftr s 30) * 0xBF58476D1CE4E5B9) in
  let z := wrap64 (Z.lxor z (Z.shiftr z 27) * 0x94D049BB133111EB) in
  (Z.lxor z (Z.shiftr z 31), s).

(** [a + b] where an overflow panics. *)
Definition checked_add (a b : Z) : outcome Z := if decide (a + b <= u64_MAX) then Ret (a + b) else Panic.
Definition saturating_sub (a b : Z) : Z := Z.max 0 (a - b).

(** The generator: the next counter, from its random state, the cursor and the
    counters so far. *)
Definition traffic (prng cursor : Z) (history : list Z) : outcome (Z * Z * Z) :=
  let '(v, prng) := splitmix_next prng in
  let kind := v mod 100 in
  if kind <=? 59 then cursor ← checked_add cursor 1; Ret (cursor, prng, cursor)
  else if kind <=? 74 then let '(v, prng) := splitmix_next prng in Ret (saturating_sub cursor (v mod 64), prng, cursor)
  else if kind <=? 84 then let '(v, prng) := splitmix_next prng in Ret (saturating_sub cursor (v mod 8192), prng, cursor)
  else if kind <=? 89 then
    if decide (history = []) then Ret (cursor, prng, cursor)
    else
      let '(v, prng) := splitmix_next prng in
      c ← vec_index history (Z.to_nat (v mod Z.of_nat (length history))); Ret (c, prng, cursor)
  else if kind <=? 94 then
    let '(v, prng) := splitmix_next prng in
    cursor ← checked_add cursor (1 + v mod 200); Ret (cursor, prng, cursor)
  else if kind <=? 97 then
    let '(v, prng) := splitmix_next prng in
    cursor ← checked_add cursor (8000 + v mod 400); Ret (cursor, prng, cursor)
  else
    let '(v, prng) := splitmix_next prng in Ret (saturating_sub cursor (8192 + v mod 100000), prng, cursor).

(** [assert_bitmaps_agree]; the loop breaks where no counter has the age. *)
Fixpoint assert_ages (ages : list Z) (r : ReferenceReplayWindow) (w : ReplayWindow) : outcome unit :=
  match ages with
  | [] => Ret tt
  | age :: ages =>
      if max_counter w <? age then Ret tt
      else
        let c := max_counter w - age in
        _ ← assert_eq (test_bit (r_bitmap r) age) (negb (Z.land (bitmap w !!! ring_index c) (bit_of c) =? 0));
        assert_ages ages r w
  end.

Definition assert_bitmaps_agree (r : ReferenceReplayWindow) (w : ReplayWindow) : outcome unit :=
  assert_ages (seqZ 0 WINDOW_SIZE) r w.

(** Both windows get the counter; every observation must agree. *)
Definition compare (counter : Z) (rw : ReferenceReplayWindow * ReplayWindow)
    : outcome (ReferenceReplayWindow * ReplayWindow) :=
  let '(r, w) := rw in
  _ ← assert_eq (r_would_reject r counter) (would_reject w counter);
  let '(b1, r) := r_commit r counter in
  let '(b2, w) := commit w counter in
  _ ← assert_eq b1 b2;
  _ ← assert_eq (r_packets_received r) (packets_received w);
  _ ← assert_eq (r_max_counter r) (max_counter w);
  Ret (r, w).

Record harness : Type := mkHarness {
  h_prng : Z;
  h_cursor : Z;
  h_history : list Z;
  h_windows : ReferenceReplayWindow * ReplayWindow;
}.

Definition harness_step (step : nat) (h : harness) : outcome harness :=
  '(counter, prng, cursor) ← traffic (h_prng h) (h_cursor h) (h_history h);
  '(r, w) ← compare counter (h_windows h);
  _ ← (if decide (step `mod` 1000 = 0)%nat then assert_bitmaps_agree r w else Ret tt);
  Ret (mkHarness prng cursor (h_history h ++ [counter]) (r, w)).

Definition differential_matches_reference_over_mixed_traffic (steps : nat) (seed : Z) : outcome unit :=
  h ← for_range steps harness_step (mkHarness seed 1 [] (r_default, default));
  assert_bitmaps_agree (h_windows h).1 (h_windows h).2.

(** The counters of the test at the end of the range. *)
Definition wraparound_step (step : nat) (st : Z * (ReferenceReplayWindow * ReplayWindow))
    : outcome (Z * (ReferenceReplayWindow * ReplayWindow)) :=
  let '(cursor, rw) := st in
  let cursor := wrap64 (cursor + 1) in
  let counter := if decide (step `mod` 5 = 4)%nat then wrap64 (cursor - 3) else cursor in
  rw ← compare counter rw;
  Ret (cursor, rw).

Definition differential_matches_reference_across_u64_wraparound (steps : nat) : outcome unit :=
  '(_, (r, w)) ← for_range steps wraparound_step (u64_MAX - 20, (r_default, default));
  let '(b1, r) := r_commit r 0 in
  let '(b2, w) := commit w 0 in
  _ ← assert (negb b1); _ ← assert (negb b2);
  _ ← assert (r_would_reject r 0); assert (would_reject w 0).

Definition window_tests : list (outcome unit) :=
  [ accepts_first_packet; detects_exact_replay; accepts_newer_packets; accepts_out_of_order_within_window;
    rejects_replayed_out_of_order_packet; rejects_too_old_packets; handles_large_jumps; full_scenario;
    would_reject_is_non_mutating; window_size_is_8192; advance_within_one_word_clears_only_skipped_counters;
    advance_across_a_word_boundary_clears_only_skipped_counters;
    advance_across_the_ring_wrap_clears_only_skipped_counters;
    maximal_partial_clear_preserves_oldest_in_window_bit; rejects_counter_far_below_window_whose_slot_is_clear;
    jump_of_exactly_window_size_invalidates_everything;
    first_packet_with_a_large_counter_initializes_correctly;
    window_stalls_after_u64_wraparound_matching_todays_behaviour;
    differential_matches_reference_across_u64_wraparound 60 ].

End WindowTests.

Module WindowTestFacts.
Import Reference ReferenceRefinement Refinement WindowTests.

Lemma checked_add_ret a b : a + b <= u64_MAX -> checked_add a b = Ret (a + b).
Proof. intros. unfold checked_add. by rewrite decide_True. Qed.

(** The generator stays in range and advances its cursor by less than 8400. *)
Lemma traffic_ret prng cursor history :
  0 <= cursor -> cursor + 8400 <= u64_MAX -> Forall is_u64 history ->
  exists c prng' cursor', traffic prng cursor history = Ret (c, prng', cursor') /\ is_u64 c /\
    0 <= cursor' <= cursor + 8399.
Proof.
  intros H0 Hmax Hh. unfold traffic. destruct (splitmix_next prng) as [v s]. destruct (splitmix_next s) as [v' s'].
  assert (Hsat : forall b, 0 <= b -> is_u64 (saturating_sub cursor b)) by (intros; unfold is_u64, saturating_sub, u64_MAX in *; lia).
  pose proof (Z.mod_pos_bound v' 200 ltac:(lia)). pose proof (Z.mod_pos_bound v' 400 ltac:(lia)).
  repeat (case_match; [|]); rewrite ?checked_add_ret by lia; rewrite ?bind_ret;
    try (do 3 eexists; split; [reflexivity|]; split; [|lia];
         first [apply Hsat; (apply Z.mod_pos_bound || pose proof (Z.mod_pos_bound v' 100000)); lia
               |unfold is_u64, u64_MAX in *; lia]).
  match goal with Hne : history <> [] |- _ => assert (0 < length history)%nat by (by destruct history; [|simpl; lia]) end.
  pose proof (Z.mod_pos_bound v' (Z.of_nat (length history)) ltac:(lia)).
  destruct (lookup_lt_is_Some_2 history (Z.to_nat (v' mod Z.of_nat (length history)))) as [c Hc]; [lia|].
  rewrite (vec_index_ret _ _ _ Hc), bind_ret. do 3 eexists. split; [reflexivity|]. split; [|lia].
  by apply (Forall_lookup_1 _ _ _ _ Hh Hc).
Qed.

Lemma assert_ages_ret r w ages :
  bitmaps_agree r w -> Forall (fun age => 0 <= age < WINDOW_SIZE) ages -> assert_ages ages r w = Ret tt.
Proof.
  intros Hag Hages. induction Hages as [|age ages Hage _ IH]; simpl; [done|].
  destruct (Z.ltb_spec (max_counter w) age); [done|]. rewrite assert_eq_ret; [done|].
  rewrite Hag by lia. unfold slot, bit_of. by rewrite land_bit_test by (apply Z.land_nonneg; right; by vm_compute).
Qed.

Lemma bitmaps_agree_ret r w : bitmaps_agree r w -> assert_bitmaps_agree r w = Ret tt.
Proof.
  intros Hag. apply assert_ages_ret; [done|]. apply Forall_seqZ. intros age Hage. lia.
Qed.

Lemma accept_nonempty h c : (Spec.accept h c).2 <> [].
Proof. unfold Spec.accept. destruct h as [|d h]; [done|]. by destruct (Spec.acceptable (d :: h) c). Qed.

(** Windows with the same history pass the comparison and keep the same one. *)
Lemma compare_ret c r w h :
  r_represents r h -> represents w h -> is_u64 c ->
  exists r' w', compare c (r, w) = Ret (r', w') /\
    r_represents r' (Spec.accept h c).2 /\ represents w' (Spec.accept h c).2.
Proof.
  intros Hr Hw Hc. unfold compare.
  rewrite (r_would_reject_spec r h), (would_reject_spec w h), assert_eq_ret by done.
  destruct (r_commit_represents r h c Hr Hc) as [Hb1 Hr'], (commit_represents w h c Hw Hc) as [Hb2 Hw'].
  destruct (r_commit r c) as [b1 r'], (commit w c) as [b2 w']. cbn [fst snd] in *.
  rewrite bind_ret, (assert_eq_ret b1 b2), bind_ret by congruence.
  destruct (same_history_agree r' w' _ Hr' Hw' (accept_nonempty h c)) as [Hm _].
  assert (Hp : r_packets_received r' = packets_received w').
  { destruct Hr' as (_ & _ & -> & _), Hw' as (_ & _ & -> & _). done. }
  rewrite (assert_eq_ret _ _ Hp), bind_ret, (assert_eq_ret _ _ Hm), bind_ret. by exists r', w'.
Qed.

(** What the harness keeps. *)
Definition harness_ok (n : nat) (h : harness) : Prop :=
  0 <= h_cursor h <= 1 + 8399 * Z.of_nat n /\ Forall is_u64 (h_history h) /\
  exists hist, r_represents (h_windows h).1 hist /\ represents (h_windows h).2 hist /\ (n <> 0%nat -> hist <> []).

Lemma harness_step_ok n h :
  8400 * (Z.of_nat n + 1) <= u64_MAX - 1 -> harness_ok n h ->
  exists h', harness_step n h = Ret h' /\ harness_ok (S n) h'.
Proof.
  intros Hn (Hc & Hh & hist & Hr & Hw & _). unfold harness_step.
  destruct (traffic_ret (h_prng h) (h_cursor h) (h_history h)) as (c & prng & cursor & -> & Hu & Hcur); [lia|lia|done|].
  rewrite bind_ret. destruct (h_windows h) as [r w]. simpl in Hr, Hw.
  destruct (compare_ret c r w hist Hr Hw Hu) as (r' & w' & -> & Hr' & Hw'). rewrite bind_ret.
  rewrite bitmaps_agree_ret by (by apply (same_history_agree r' w' _ Hr' Hw' (accept_nonempty hist c))).
  replace (if decide (n `mod` 1000 = 0)%nat then Ret tt else Ret tt) with (Ret tt) by (by case_decide). rewrite bind_ret.
  eexists. split; [reflexivity|]. split; [simpl; lia|]. split; [by apply Forall_app; split; [|constructor]|].
  exists (Spec.accept hist c).2. split; [done|]. split; [done|]. intros _. apply accept_nonempty.
Qed.

Lemma differential_ret steps seed :
  8400 * Z.of_nat steps <= u64_MAX - 1 -> differential_matches_reference_over_mixed_traffic steps seed = Ret tt.
Proof.
  intros Hsteps. destruct steps as [|n]; [vm_compute; reflexivity|]. set (steps := S n) in *.
  unfold differential_matches_reference_over_mixed_traffic.
  destruct (for_range_inv harness_ok steps harness_step (mkHarness seed 1 [] (r_default, default)))
    as (h & -> & Hc & Hh & hist & Hr & Hw & Hne).
  - split; [simpl; lia|]. split; [constructor|]. exists []. split; [apply r_represents_default|].
    split; [apply represents_default|done].
  - intros j st Hj Hok. apply harness_step_ok; [lia|done].
  - rewrite bind_ret. apply bitmaps_agree_ret, (same_history_agree _ _ hist Hr Hw). by apply Hne.
Qed.

(** Runs of counters, for the test that visits every slot. *)
Lemma scenario_app l1 l2 w : scenario (l1 ++ l2) w = (w' ← scenario l1 w; scenario l2 w').
Proof.
  revert w. induction l1 as [|st l1 IH]; intros w; simpl; [done|]. destruct (exec st w); simpl; [apply IH|done].
Qed.

Lemma accepts_ascending n : forall lo w h,
  represents w h -> h <> [] -> 0 <= lo -> lo + Z.of_nat n <= u64_MAX -> Spec.newest h < lo ->
  exists w' h', scenario (Accepts <$> seqZ lo (Z.of_nat n)) w = Ret w' /\ represents w' h' /\ h' <> [] /\
    length h' = (n + length h)%nat /\ Spec.newest h' = (if decide (n = 0)%nat then Spec.newest h else lo + Z.of_nat n - 1) /\
    (forall c, c ∈ h \/ lo <= c < lo + Z.of_nat n -> c ∈ h').
Proof.
  induction n as [|n IH]; intros lo w h Hw Hne H0 Hmax Hlt.
  { exists w, h. split_and!; try done. intros c [?|?]; [done|lia]. }
  rewrite seqZ_cons by lia. replace (Z.pred (Z.of_nat (S n))) with (Z.of_nat n) by lia.
  assert (Hu : is_u64 lo) by (unfold is_u64, u64_MAX in *; lia).
  destruct (commit_represents w h lo Hw Hu) as [Hb Hw'].
  assert (Hacc : Spec.accept h lo = (true, lo :: h)).
  { unfold Spec.accept. rewrite acceptable_nonempty by done. by rewrite (proj2 (Z.ltb_lt _ _)) by lia. }
  rewrite Hacc in Hb, Hw'. cbn [fmap list_fmap scenario exec]. destruct (commit w lo) as [b w1]. cbn [fst snd] in *. subst b.
  destruct (IH (Z.succ lo) w1 (lo :: h)) as (w' & h' & Hs & Hr & Hne' & Hlen & Hnew & Hin); [done|done|lia|lia| |].
  - rewrite newest_cons. lia.
  - exists w', h'. split; [exact Hs|]. split; [done|]. split; [done|]. split; [simpl in *; lia|]. split.
    + rewrite Hnew, newest_cons. case_decide; simpl; lia.
    + intros c Hc. apply Hin. rewrite elem_of_cons. destruct (decide (c = lo)); [auto|]. destruct Hc; [auto|right; lia].
Qed.

Lemma refuses_unacceptable c w h :
  represents w h -> is_u64 c -> Spec.acceptable h c = false -> scenario [Refuses c] w = Ret w.
Proof.
  intros Hw Hu Hacc. pose proof (commit_would_reject w c) as Hb. rewrite (would_reject_spec w h c Hw Hu), Hacc in Hb.
  pose proof (commit_rejected w c Hb) as Hsame. cbn [scenario exec].
  destruct (commit w c) as [b w1]. cbn [fst snd] in *. by subst b w1.
Qed.

Lemma refuses_seen l w h :
  represents w h -> h <> [] ->
  Forall (fun c => is_u64 c /\ c ∈ h /\ Spec.newest h - c < Spec.window /\ c <= Spec.newest h) l ->
  scenario (Refuses <$> l) w = Ret w.
Proof.
  intros Hw Hne Hl. induction Hl as [|c l (Hu & Hin & Hwin & Hle) _ IH]; [done|].
  change (Refuses <$> c :: l) with ([Refuses c] ++ (Refuses <$> l)). rewrite scenario_app.
  rewrite (refuses_unacceptable c w h); [exact IH|done|done|]. rewrite acceptable_nonempty by done.
  rewrite (proj2 (Z.ltb_ge _ _)), (proj2 (Z.ltb_lt _ _)) by lia. by rewrite bool_decide_eq_true_2.
Qed.

Lemma full_window_span_ret : full_window_span_fills_then_replays = Ret tt.
Proof.
  unfold full_window_span_fills_then_replays, for_each. rewrite scenario_app.
  set (w0 := (commit default 0).2). assert (Hw0 : represents w0 [0]).
  { apply (commit_represents default [] 0); [apply represents_default|unfold is_u64; lia]. }
  change (scenario [Accepts 0] default) with (Ret w0). rewrite bind_ret, scenario_app.
  change (8191 - 1 + 1) with (Z.of_nat (Z.to_nat 8191)).
  destruct (accepts_ascending (Z.to_nat 8191) 1 w0 [0] Hw0) as (w & h & -> & Hw & Hne & Hlen & Hnew & Hin);
    [done|lia|by vm_compute|done|].
  rewrite Z2Nat.id in Hnew, Hin by lia. rewrite decide_False in Hnew by lia.
  assert (Hp : packets_received w = 8192).
  { destruct Hw as (_ & _ & -> & _). rewrite Hlen. simpl length. unfold wrap64. rewrite Z.mod_small; lia. }
  assert (Hmax : max_counter w = 8191).
  { destruct Hw as (_ & _ & _ & _ & Hbits). destruct (Hbits Hne) as [-> _]. lia. }
  cbn [mbind outcome_bind scenario exec]. rewrite (assert_eq_ret _ _ Hp). cbn [mbind outcome_bind].
  rewrite (assert_eq_ret _ _ Hmax). cbn [mbind outcome_bind]. rewrite scenario_app.
  rewrite (refuses_seen _ w h Hw Hne).
  - cbn [mbind outcome_bind]. destruct (accepts_ascending 1 8192 w h Hw Hne) as (w1 & h1 & Hs & Hw1 & Hne1 & _ & Hnew1 & _);
      [lia|by vm_compute|lia|]. change (Accepts <$> seqZ 8192 (Z.of_nat 1)) with [Accepts 8192] in Hs.
    change [Accepts 8192; Refuses 0] with ([Accepts 8192] ++ [Refuses 0]). rewrite scenario_app, Hs.
    cbn [mbind outcome_bind]. rewrite (refuses_unacceptable 0 w1 h1); [done|done|unfold is_u64; lia|].
    rewrite acceptable_nonempty by done. rewrite Hnew1. by vm_compute.
  - apply Forall_seqZ. intros c Hc. rewrite Hnew. unfold is_u64, Spec.window. split_and!; try lia.
    apply Hin. destruct (decide (c = 0)) as [->|]; [left; apply list_elem_of_here|right; lia].
Qed.

End WindowTestFacts.

Module WindowTestProperties.
Import WindowTests WindowTestFacts.

(** The scenarios of the window's tests pass, that over all 8192 slots included. *)
Theorem window_tests_pass :
  Forall (fun t => t = Ret tt) window_tests /\ full_window_span_fills_then_replays = Ret tt.
Proof.
  split; [|apply full_window_span_ret]. repeat (constructor; [vm_compute; reflexivity|]). constructor.
Qed.

(** the differential test never diverges.  For every seed, and for every
    number of steps whose counters the generator can produce without overflowing
    its cursor (the test runs 100,000), the harness that feeds mixed traffic to
    the ring and to the reference window ends without a failed assertion on
    answers, counts, maxima or bitmaps. *)
Theorem differential_test_passes steps seed :
  8400 * Z.of_nat steps <= u64_MAX - 1 -> differential_matches_reference_over_mixed_traffic steps seed = Ret tt.
Proof. apply differential_ret. Qed.

Lemma differential_test_passes_witness :
  Forall (fun seed => differential_matches_reference_over_mixed_traffic (Z.to_nat 100000) seed = Ret tt)
    [1; 2; 3; 0xDEADBEEF; 0x5EED5EED].
Proof.
  repeat (constructor; [apply differential_test_passes; rewrite Z2Nat.id by lia; vm_compute; discriminate|]). constructor.
Defined.

End WindowTestProperties.
