(* ===== verification/Cipher.v ===== *)
(** * Errors, versions, keys and the cipher of [lightway-expresslane]

    Models [error.rs], [version.rs], [key.rs] and [cipher.rs].  The AES-256-GCM
    implementation itself is the third-party crate [ring]: class [Aead] holds
    its operations as parameters and [AeadLaws] the documented behaviour the
    code relies on. *)

From stdpp Require Import base numbers list list_numbers option strings.
From Stdlib Require Import Strings.Byte.
From S2P Require Import Prelude.

(** ** [error.rs] *)

Inductive ExpresslaneError : Set :=
| InsufficientData
| BufferTooSmall
| InvalidData
| Replayed
| KeyNotSet
| InvalidKey.

#[global] Instance expresslane_error_eq_dec : EqDecision ExpresslaneError.
Proof. solve_decision. Defined.

Definition error_display (e : ExpresslaneError) : string :=
  match e with
  | InsufficientData => "insufficient data"
  | BufferTooSmall => "output buffer too small"
  | InvalidData => "invalid ExpressLane data packet"
  | Replayed => "replayed ExpressLane data packet"
  | KeyNotSet => "key not set"
  | InvalidKey => "invalid key"
  end.

Definition ExpresslaneResult (A : Type) : Type := result A ExpresslaneError.

(** ** [version.rs] *)

Inductive ExpresslaneVersion : Set := Unknown | Version1 | Version2.

#[global] Instance expresslane_version_eq_dec : EqDecision ExpresslaneVersion.
Proof. solve_decision. Defined.

(** [ExpresslaneVersion as u8]. *)
Definition version_discriminant (v : ExpresslaneVersion) : Z :=
  match v with Unknown => 0 | Version1 => 1 | Version2 => 2 end.

(** The derived order is that of the declaration. *)
Definition version_ge (v w : ExpresslaneVersion) : bool :=
  (version_discriminant w <=? version_discriminant v)%Z.

Definition version_from_u8 (value : Z) : ExpresslaneVersion :=
  if (value =? 1)%Z then Version1 else if (value =? 2)%Z then Version2 else Unknown.

(** ** [key.rs] *)

Definition EXPRESSLANE_KEY_SIZE : nat := 32.

Record ExpresslaneKey : Type := mkKey { key_bytes : list byte }.

#[global] Instance expresslane_key_eq_dec : EqDecision ExpresslaneKey.
Proof. solve_decision. Defined.

Definition key_wf (k : ExpresslaneKey) : Prop := length (key_bytes k) = EXPRESSLANE_KEY_SIZE.

Definition INVALID : ExpresslaneKey := mkKey (zeros EXPRESSLANE_KEY_SIZE).

Definition is_invalid (k : ExpresslaneKey) : bool := bool_decide (k = INVALID).

Definition key_debug (k : ExpresslaneKey) : string :=
  if is_invalid k then "ExpresslaneKey(INVALID)" else "ExpresslaneKey(<redacted>)".

(** ** [ring::aead], a parameter *)

Class Aead : Type := {
  (** [LessSafeKey]. *)
  aead_key : Type;
  (** [UnboundKey::new(&AES_256_GCM, bytes)] wrapped by [LessSafeKey::new]. *)
  unbound_key_new : list byte -> option aead_key;
  (** [seal_in_place_separate_tag(nonce, aad, buf)]: the tag or an error, and
      what the buffer holds afterwards. *)
  seal_in_place : aead_key -> list byte -> list byte -> list byte -> option (list byte) * list byte;
  (** [open_in_place_separate_tag(nonce, aad, tag, buf, 0..)]: success, and what
      the buffer holds afterwards (on an error it is unspecified). *)
  open_in_place : aead_key -> list byte -> list byte -> list byte -> list byte -> bool * list byte;
}.

(** ring's plaintext limit for AES-GCM is [2^36 - 32] bytes; packets stay below [2^16]. *)
Definition MAX_SEAL_LEN : Z := 65535.

Class AeadLaws `{Aead} : Prop := {
  (** The key length is the only failure of [UnboundKey::new]. *)
  aead_key_len bs : is_Some (unbound_key_new bs) <-> length bs = 32;
  (** In-place operations keep the buffer's length. *)
  seal_length k n a p : length (seal_in_place k n a p).2 = length p;
  open_length k n a t c : length (open_in_place k n a t c).2 = length c;
  (** Sealing a packet-sized buffer succeeds with a 16-byte tag. *)
  seal_succeeds k n a p :
    length n = 12 -> (Z.of_nat (length p) <= MAX_SEAL_LEN)%Z ->
    exists t, (seal_in_place k n a p).1 = Some t /\ length t = 16;
  (** Opening what was sealed, under the same key, nonce and associated data,
      gives back the plaintext. *)
  open_sealed k n a p t c :
    seal_in_place k n a p = (Some t, c) -> open_in_place k n a t c = (true, p);
  (** AES-GCM recomputes the tag: only what sealing produces is opened. *)
  open_authentic k n a t c p :
    open_in_place k n a t c = (true, p) -> seal_in_place k n a p = (Some t, c);
}.

(** ** [cipher.rs] *)

Record Cipher (K : Type) : Type := mkCipher { cipher_key : K }.
Arguments mkCipher {K} cipher_key.
Arguments cipher_key {K} c.

Section Cipher.
Context `{Aead}.

Definition cipher_new (key : ExpresslaneKey) : ExpresslaneResult (Cipher aead_key) :=
  match unbound_key_new (key_bytes key) with
  | Some unbound => Ok (mkCipher unbound)
  | None => Err InvalidKey
  end.

(** Encrypts [buf] in place: the 16-byte tag or an error, and the buffer. *)
Definition cipher_encrypt (c : Cipher aead_key) (iv aad buf : list byte) : ExpresslaneResult (list byte) * list byte :=
  match seal_in_place (cipher_key c) iv aad buf with
  | (Some tag, buf') =>
      if decide (length tag = 16) then (Ok tag, buf') else (Err InvalidData, buf')
  | (None, buf') => (Err InvalidData, buf')
  end.

(** Verifies [tag] and decrypts [buf] in place. *)
Definition cipher_decrypt (c : Cipher aead_key) (iv aad buf tag : list byte) : ExpresslaneResult unit * list byte :=
  match open_in_place (cipher_key c) iv aad tag buf with
  | (true, buf') => (Ok tt, buf')
  | (false, buf') => (Err InvalidData, buf')
  end.

Context `{!AeadLaws}.

Lemma cipher_new_wf key : key_wf key -> exists c, cipher_new key = Ok c.
Proof.
  intros Hk. unfold cipher_new. destruct (proj2 (aead_key_len (key_bytes key)) Hk) as [k ->]. eauto.
Qed.

Lemma cipher_encrypt_ok c iv aad p :
  length iv = 12 -> (Z.of_nat (length p) <= MAX_SEAL_LEN)%Z ->
  exists t ct, cipher_encrypt c iv aad p = (Ok t, ct) /\ length t = 16 /\ length ct = length p /\
    seal_in_place (cipher_key c) iv aad p = (Some t, ct).
Proof.
  intros Hiv Hp. destruct (seal_succeeds (cipher_key c) iv aad p Hiv Hp) as (t & Ht & Hlen).
  pose proof (seal_length (cipher_key c) iv aad p) as Hl. unfold cipher_encrypt.
  destruct (seal_in_place (cipher_key c) iv aad p) as [t' ct]. simpl in *. subst t'.
  exists t, ct. by rewrite decide_True.
Qed.

Lemma cipher_encrypt_length c iv aad p :
  length (cipher_encrypt c iv aad p).2 = length p /\
  (forall t, (cipher_encrypt c iv aad p).1 = Ok t -> length t = 16).
Proof.
  unfold cipher_encrypt. pose proof (seal_length (cipher_key c) iv aad p) as Hl.
  destruct (seal_in_place _ _ _ _) as [[t|] ct]; [|done]. simpl in Hl.
  destruct (decide (length t = 16)); split; simpl; try done. intros ? [= <-]. done.
Qed.

Lemma cipher_decrypt_length c iv aad buf tag : length (cipher_decrypt c iv aad buf tag).2 = length buf.
Proof.
  unfold cipher_decrypt. pose proof (open_length (cipher_key c) iv aad tag buf).
  by destruct (open_in_place _ _ _ _ _) as [[] ?].
Qed.

(** Decryption succeeds exactly on what encryption under the same key, nonce and
    associated data produced. *)
Lemma cipher_decrypt_ok_iff c iv aad ct tag p :
  length tag = 16 ->
  cipher_decrypt c iv aad ct tag = (Ok tt, p) <-> cipher_encrypt c iv aad p = (Ok tag, ct).
Proof.
  intros Htag. unfold cipher_decrypt, cipher_encrypt. split.
  - destruct (open_in_place _ _ _ _ _) as [[] buf] eqn:E; intros Heq; simplify_eq.
    apply open_authentic in E. rewrite E. by rewrite decide_True.
  - destruct (seal_in_place _ _ _ _) as [[t|] buf] eqn:E; intros Heq; repeat case_decide; simplify_eq.
    apply open_sealed in E. by rewrite E.
Qed.

End Cipher.

(** ** Exclusive or of bytes *)

Definition xor_byte (a b : byte) : byte := byte_of_Z (Z.lxor (Z_of_byte a) (Z_of_byte b)).

Lemma xor_byte_involutive a b : xor_byte a (xor_byte a b) = b.
Proof.
  apply Z_of_byte_inj. unfold xor_byte. rewrite !Z_of_byte_of_Z.
  pose proof (Z_of_byte_range a) as Ha. pose proof (Z_of_byte_range b) as Hb.
  rewrite (Z.mod_small (Z.lxor (Z_of_byte a) (Z_of_byte b))).
  - rewrite <- Z.lxor_assoc, Z.lxor_nilpotent, Z.lxor_0_l. by apply Z.mod_small.
  - apply (bits_bound 8); [lia|apply Z.lxor_nonneg; lia|]. intros i Hi.
    rewrite Z.lxor_spec, !(testbit_high _ 8) by lia. done.
Qed.

Lemma xor_byte_comm a b : xor_byte a b = xor_byte b a.
Proof. unfold xor_byte. by rewrite Z.lxor_comm. Qed.

(** ** A model of the parameter

    A toy cipher satisfying [AeadLaws], on which the operations can be
    evaluated: the keystream is the first key byte, and the tag is a 16-byte
    digest of key, nonce, associated data and plaintext. *)

Module ToyAead.

Definition keystream (k : list byte) (p : list byte) : list byte := xor_byte (default x00 (head k)) <$> p.

Definition digest (k n a p : list byte) : list byte :=
  be_bytes 16 (be_value (k ++ n ++ a ++ p) * 65599 + Z.of_nat (length p)).

#[global] Instance toy_aead : Aead := {|
  aead_key := list byte;
  unbound_key_new bs := if decide (length bs = 32) then Some bs else None;
  seal_in_place k n a p := (Some (digest k n a p), keystream k p);
  open_in_place k n a t c :=
    let p := keystream k c in
    if decide (t = digest k n a p) then (true, p) else (false, zeros (length c));
|}.

Lemma keystream_involutive k p : keystream k (keystream k p) = p.
Proof.
  unfold keystream. induction p as [|b p IH]; [done|]. rewrite !fmap_cons, IH.
  by rewrite xor_byte_involutive.
Qed.

#[global] Instance toy_aead_laws : AeadLaws.
Proof.
  split; simpl.
  - intros bs. case_decide; split; try done.
  - intros. apply length_fmap.
  - intros k n a t c. case_decide; simpl; [apply length_fmap|apply length_zeros].
  - intros k n a p _ _. exists (digest k n a p). split; [done|apply length_be_bytes].
  - intros k n a p t c ?. simplify_eq. rewrite keystream_involutive. by rewrite decide_True.
  - intros k n a t c p. case_decide; intros; simplify_eq. by rewrite keystream_involutive.
Qed.

End ToyAead.
