(* ===== verification/Session.v ===== *)
(** * The ExpressLane packet session

    Models [lightway-expresslane/src/session.rs]: the session's key-rotation
    state, its transmit counter and counts, the wire format, [encrypt] and
    [decrypt].  Module [Session] holds the code, over any replay window with the
    [AntiReplay] interface and any AEAD; every method is one definition and the
    slices it takes panic where Rust's would.  Module [SessionSpec] holds the
    wire format and the contract of the two packet operations without slices,
    scratch buffers or unreachable arms. *)

From stdpp Require Import base numbers list list_numbers option.
From Stdlib Require Import Strings.Byte.
From S2P Require Import Prelude ReplayWindow ReplayReference AntiReplay Cipher.

Ltac Zify.zify_post_hook ::= Z.div_mod_to_equations.

Module Session.

(** The [is_encoded] bit of the 16-bit flags field. *)
Definition FLAG_ENCODED : Z := 0x8000.

(** 8 (counter) + 12 (iv) + 16 (tag) + 2 (data length) + 2 (flags). *)
Definition WIRE_OVERHEAD : nat := 40.

Definition build_aad (version : ExpresslaneVersion) (session_id : list byte) (counter flags : Z)
    : outcome (list byte * nat) :=
  let buf := zeros 18 in
  buf ← copy_from_slice buf 0 8 session_id;
  buf ← copy_from_slice buf 8 16 (be_bytes 8 counter);
  if version_ge version Version2 then
    buf ← copy_from_slice buf 16 18 (be_bytes 2 flags);
    Ret (buf, 18)
  else Ret (buf, 16).

(** The records are over the types of window and AEAD key. *)
Record RxState (W K : Type) : Type := mkRx {
  current_peer : option (Cipher K);
  prev_peer : option (Cipher K);
  replay_window : W;
}.
Arguments mkRx {W K}.
Arguments current_peer {W K}.
Arguments prev_peer {W K}.
Arguments replay_window {W K}.

Record ExpresslaneSession (W K : Type) : Type := mkSession {
  version : ExpresslaneVersion;
  current_self : option (Cipher K);
  next_self : option (Cipher K);
  next_counter : Z;
  packets_sent : Z;
  rx : RxState W K;
  self_key_installed : bool;
  peer_key_installed : bool;
}.
Arguments mkSession {W K}.
Arguments version {W K}.
Arguments current_self {W K}.
Arguments next_self {W K}.
Arguments next_counter {W K}.
Arguments packets_sent {W K}.
Arguments rx {W K}.
Arguments self_key_installed {W K}.
Arguments peer_key_installed {W K}.

Section Session.
Context {W : Type} `{AntiReplay W} `{Aead}.
Abbreviation Cipher := (Cipher aead_key).
Abbreviation RxState := (RxState W aead_key).
Abbreviation ExpresslaneSession := (ExpresslaneSession W aead_key).

Definition set_packets_sent (n : Z) (s : ExpresslaneSession) : ExpresslaneSession :=
  mkSession (version s) (current_self s) (next_self s) (next_counter s) n (rx s)
    (self_key_installed s) (peer_key_installed s).

Definition set_rx (r : RxState) (s : ExpresslaneSession) : ExpresslaneSession :=
  mkSession (version s) (current_self s) (next_self s) (next_counter s) (packets_sent s) r
    (self_key_installed s) (peer_key_installed s).

Definition new (version : ExpresslaneVersion) : ExpresslaneSession :=
  mkSession version None None 0 0 (mkRx None None ar_default) false false.

(** [fetch_add(1)] returns the old value; the result is that plus one, wrapped. *)
Definition reserve_counter (s : ExpresslaneSession) : Z * ExpresslaneSession :=
  (wrap64 (next_counter s + 1),
   mkSession (version s) (current_self s) (next_self s) (wrap64 (next_counter s + 1)) (packets_sent s)
     (rx s) (self_key_installed s) (peer_key_installed s)).

Definition seed_counter_for_test (v : Z) (s : ExpresslaneSession) : ExpresslaneSession :=
  mkSession (version s) (current_self s) (next_self s) v (packets_sent s) (rx s)
    (self_key_installed s) (peer_key_installed s).

Definition update_next_self_key (key : ExpresslaneKey) (s : ExpresslaneSession)
    : ExpresslaneResult unit * ExpresslaneSession :=
  if is_invalid key then (Err InvalidKey, s)
  else match cipher_new key with
  | Err e => (Err e, s)
  | Ok cipher =>
      (Ok tt, mkSession (version s) (current_self s) (Some cipher) (next_counter s) (packets_sent s)
                (rx s) (self_key_installed s) (peer_key_installed s))
  end.

Definition promote_self_key (s : ExpresslaneSession) : ExpresslaneSession :=
  match next_self s with
  | Some cipher =>
      mkSession (version s) (Some cipher) None (next_counter s) (packets_sent s) (rx s)
        true (peer_key_installed s)
  | None => s
  end.

Definition encrypt (counter : Z) (session_id plain_text iv : list byte) (is_encoded : bool)
    (out : list byte) (s : ExpresslaneSession)
    : outcome (ExpresslaneResult nat * list byte * ExpresslaneSession) :=
  let needed := WIRE_OVERHEAD + length plain_text in
  if decide (length out < needed) then Ret (Err BufferTooSmall, out, s)
  else if (u16_MAX <? Z.of_nat (length plain_text))%Z then Ret (Err InvalidData, out, s)
  else match current_self s with
  | None => Ret (Err KeyNotSet, out, s)
  | Some cipher =>
      let flags := if is_encoded then FLAG_ENCODED else 0%Z in
      '(aad_buf, aad_len) ← build_aad (version s) session_id counter flags;
      out ← copy_from_slice out 8 20 iv;
      out ← copy_from_slice out 40 needed plain_text;
      aad ← slice aad_buf 0 aad_len;
      buf ← slice out 40 needed;
      let '(sealed, buf) := cipher_encrypt cipher iv aad buf in
      out ← copy_from_slice out 40 needed buf;
      match sealed with
      | Err e =>
          out ← fill0 out 40 needed;
          Ret (Err e, out, s)
      | Ok tag =>
          out ← copy_from_slice out 0 8 (be_bytes 8 counter);
          out ← copy_from_slice out 20 36 tag;
          out ← copy_from_slice out 36 38 (be_bytes 2 (Z.of_nat (length plain_text)));
          out ← copy_from_slice out 38 40 (be_bytes 2 flags);
          Ret (Ok needed, out, set_packets_sent (wrap64 (packets_sent s + 1)) s)
      end
  end.

Definition update_peer_key (key : ExpresslaneKey) (s : ExpresslaneSession)
    : ExpresslaneResult unit * ExpresslaneSession :=
  if is_invalid key then (Err InvalidKey, s)
  else match cipher_new key with
  | Err e => (Err e, s)
  | Ok cipher =>
      (Ok tt, mkSession (version s) (current_self s) (next_self s) (next_counter s) (packets_sent s)
                (mkRx (Some cipher) (current_peer (rx s)) (replay_window (rx s)))
                (self_key_installed s) true)
  end.

Definition has_valid_keys (s : ExpresslaneSession) : bool :=
  peer_key_installed s && self_key_installed s.

Definition packets_received (s : ExpresslaneSession) : Z := ar_received (replay_window (rx s)).

(** One decryption attempt: a fresh copy of the ciphertext, then the cipher in
    place on [out[..data_len]]. *)
Definition attempt (cipher : Cipher) (iv aad ciphertext tag : list byte) (data_len : nat) (out : list byte)
    : outcome (bool * list byte) :=
  out ← copy_from_slice out 0 data_len ciphertext;
  buf ← slice out 0 data_len;
  let '(r, buf) := cipher_decrypt cipher iv aad buf tag in
  out ← copy_from_slice out 0 data_len buf;
  Ret (is_ok r, out).

Definition decrypt (session_id wire_packet out : list byte) (s : ExpresslaneSession)
    : outcome (ExpresslaneResult (nat * bool) * list byte * ExpresslaneSession) :=
  if decide (length wire_packet < WIRE_OVERHEAD) then Ret (Err InsufficientData, out, s)
  else
    counter_bytes ← slice wire_packet 0 8;
    iv ← slice wire_packet 8 20;
    tag ← slice wire_packet 20 36;
    len_bytes ← slice wire_packet 36 38;
    flags_bytes ← slice wire_packet 38 40;
    let counter := be_value counter_bytes in
    let data_len := Z.to_nat (be_value len_bytes) in
    let flags := be_value flags_bytes in
    let is_encoded := negb (Z.land flags FLAG_ENCODED =? 0)%Z in
    if ar_would_reject (replay_window (rx s)) counter then Ret (Err Replayed, out, s)
    else if decide (length wire_packet < WIRE_OVERHEAD + data_len) then Ret (Err InsufficientData, out, s)
    else if decide (length out < data_len) then Ret (Err BufferTooSmall, out, s)
    else
      '(aad_buf, aad_len) ← build_aad (version s) session_id counter flags;
      match current_peer (rx s) with
      | None => Ret (Err KeyNotSet, out, s)
      | Some current =>
          ciphertext ← slice wire_packet 40 (40 + data_len);
          aad ← slice aad_buf 0 aad_len;
          '(ok, out) ← attempt current iv aad ciphertext tag data_len out;
          '(decrypted, out) ←
            (if (ok : bool) then Ret (true, out)
             else match prev_peer (rx s) with
                  | Some prev => attempt prev iv aad ciphertext tag data_len out
                  | None => Ret (false, out)
                  end);
          if negb decrypted then
            out ← fill0 out 0 data_len;
            Ret (Err InvalidData, out, s)
          else
            let '(committed, window) := ar_commit (replay_window (rx s)) counter in
            let s := set_rx (mkRx (current_peer (rx s)) (prev_peer (rx s)) window) s in
            if negb committed then
              out ← fill0 out 0 data_len;
              Ret (Err Replayed, out, s)
            else Ret (Ok (data_len, is_encoded), out, s)
      end.

End Session.

End Session.
Export Session.

(** ** The wire format and the contract of the packet operations *)

Module SessionSpec.

(** The 40-byte header in front of the ciphertext. *)
Record header : Type := mkHeader {
  h_counter : Z;
  h_iv : list byte;
  h_tag : list byte;
  h_len : Z;
  h_flags : Z;
}.

Definition header_wf (h : header) : Prop :=
  is_u64 (h_counter h) /\ length (h_iv h) = 12 /\ length (h_tag h) = 16 /\
  is_u16 (h_len h) /\ is_u16 (h_flags h).

Definition encode_header (h : header) : list byte :=
  be_bytes 8 (h_counter h) ++ h_iv h ++ h_tag h ++ be_bytes 2 (h_len h) ++ be_bytes 2 (h_flags h).

Definition decode_header (wire : list byte) : header :=
  mkHeader (be_value (take 8 wire)) (take 12 (drop 8 wire)) (take 16 (drop 20 wire))
    (be_value (take 2 (drop 36 wire))) (be_value (take 2 (drop 38 wire))).

(** The associated data: session id and counter, and from version 2 on the flags. *)
Definition aad_of (version : ExpresslaneVersion) (session_id : list byte) (counter flags : Z) : list byte :=
  session_id ++ be_bytes 8 counter ++
  (if version_ge version Version2 then be_bytes 2 flags else []).

Section SessionSpec.
Context {W : Type} `{AntiReplay W} `{Aead}.

(** The plaintext a cipher authenticates, if it does. *)
Definition open_with (h : header) (aad ciphertext : list byte) (cipher : Cipher aead_key) : option (list byte) :=
  match cipher_decrypt cipher (h_iv h) aad ciphertext (h_tag h) with
  | (Ok _, plain) => Some plain
  | (Err _, _) => None
  end.

(** The peer keys in the order they are tried. *)
Definition peer_keys (s : ExpresslaneSession W aead_key) : list (Cipher aead_key) :=
  match current_peer (rx s) with
  | Some current => current :: option_list (prev_peer (rx s))
  | None => []
  end.

Fixpoint first_open (h : header) (aad ciphertext : list byte) (ks : list (Cipher aead_key)) : option (list byte) :=
  match ks with
  | [] => None
  | k :: ks =>
      match open_with h aad ciphertext k with
      | Some plain => Some plain
      | None => first_open h aad ciphertext ks
      end
  end.

Definition accept_counter (c : Z) (s : ExpresslaneSession W aead_key) : ExpresslaneSession W aead_key :=
  set_rx (mkRx (current_peer (rx s)) (prev_peer (rx s)) (ar_commit (replay_window (rx s)) c).2) s.

(** The wire packet of a sealed payload, and sealing under a key. *)
Definition sealed_wire (c : Z) (iv : list byte) (e : bool) (plain tag ct : list byte) : list byte :=
  let flags := if e then FLAG_ENCODED else 0%Z in
  encode_header (mkHeader c iv tag (Z.of_nat (length plain)) flags) ++ ct.

Definition seals (k : Cipher aead_key) (v : ExpresslaneVersion) (sid : list byte) (c : Z) (iv : list byte)
    (e : bool) (plain tag ct : list byte) : Prop :=
  cipher_encrypt k iv (aad_of v sid c (if e then FLAG_ENCODED else 0%Z)) plain = (Ok tag, ct).

(** What [decrypt] promises: the rejects in their order leave the buffer alone;
    an authentication failure zeroes exactly the packet's bytes; success writes
    the plaintext and records the counter. *)
Definition decrypt_spec (session_id wire out : list byte) (s : ExpresslaneSession W aead_key)
    : ExpresslaneResult (nat * bool) * list byte * ExpresslaneSession W aead_key :=
  let h := decode_header wire in
  let n := Z.to_nat (h_len h) in
  if decide (length wire < 40) then (Err InsufficientData, out, s)
  else if ar_would_reject (replay_window (rx s)) (h_counter h) then (Err Replayed, out, s)
  else if decide (length wire < 40 + n) then (Err InsufficientData, out, s)
  else if decide (length out < n) then (Err BufferTooSmall, out, s)
  else if decide (current_peer (rx s) = None) then (Err KeyNotSet, out, s)
  else
    let aad := aad_of (version s) session_id (h_counter h) (h_flags h) in
    match first_open h aad (take n (drop 40 wire)) (peer_keys s) with
    | Some plain => (Ok (n, Z.testbit (h_flags h) 15), plain ++ drop n out, accept_counter (h_counter h) s)
    | None => (Err InvalidData, zeros n ++ drop n out, s)
    end.

(** What [encrypt] promises: on success the header and the ciphertext, then the
    rest of the buffer; a failure of the cipher leaves no plaintext behind. *)
Definition encrypt_spec (counter : Z) (session_id plain iv : list byte) (is_encoded : bool)
    (out : list byte) (s : ExpresslaneSession W aead_key)
    : ExpresslaneResult nat * list byte * ExpresslaneSession W aead_key :=
  let n := length plain in
  let flags := if is_encoded then FLAG_ENCODED else 0%Z in
  if decide (length out < 40 + n) then (Err BufferTooSmall, out, s)
  else if decide (65536 <= Z.of_nat n)%Z then (Err InvalidData, out, s)
  else match current_self s with
  | None => (Err KeyNotSet, out, s)
  | Some cipher =>
      match cipher_encrypt cipher iv (aad_of (version s) session_id counter flags) plain with
      | (Ok tag, ct) =>
          (Ok (40 + n), encode_header (mkHeader counter iv tag (Z.of_nat n) flags) ++ ct ++ drop (40 + n) out,
           set_packets_sent (wrap64 (packets_sent s + 1)) s)
      | (Err e, _) =>
          (Err e, take 8 out ++ iv ++ take 20 (drop 20 out) ++ zeros n ++ drop (40 + n) out, s)
      end
  end.

End SessionSpec.
End SessionSpec.
