(* ===== verification/SessionFacts.v ===== *)
(** * Correctness of the ExpressLane session

    Module [SessionFacts] proves that [encrypt] and [decrypt] never panic and
    meet the contracts of [SessionSpec]; module [SessionProperties] states what
    follows for a session's users. *)

From stdpp Require Import base numbers list list_numbers option sets.
From Stdlib Require Import Strings.Byte.
From S2P Require Import Prelude ReplayWindow ReplayReference AntiReplay Cipher Session.
Import SessionSpec.

Ltac Zify.zify_post_hook ::= Z.div_mod_to_equations.

Module SessionFacts.

(** ** The wire format *)

Lemma build_aad_ret v sid c f :
  length sid = 8 ->
  exists buf n, build_aad v sid c f = Ret (buf, n) /\ slice buf 0 n = Ret (aad_of v sid c f).
Proof.
  intros Hsid. unfold build_aad, aad_of. change (zeros 18) with (zeros 8 ++ zeros 8 ++ zeros 2).
  rewrite copy_from_slice_ret, bind_ret by lens. fields.
  rewrite copy_from_slice_ret, bind_ret by lens. fields.
  destruct (version_ge v Version2).
  - rewrite copy_from_slice_ret, bind_ret by lens. fields.
    replace (splice (zeros 2) _ (be_bytes 2 f)) with (be_bytes 2 f) by
      (rewrite Hsid, length_be_bytes; reflexivity).
    eexists _, 18. split; [done|]. rewrite slice_ret by lens.
    rewrite drop_0, take_ge by lens. done.
  - eexists _, 16. split; [done|]. rewrite slice_ret by lens.
    rewrite app_nil_r, drop_0, app_assoc, take_app_length' by lens. done.
Qed.

Lemma length_encode_header h : header_wf h -> length (encode_header h) = 40.
Proof. intros (_ & ? & ? & _). unfold encode_header. lens. Qed.

Lemma decode_encode_header h rest : header_wf h -> decode_header (encode_header h ++ rest) = h.
Proof.
  destruct h as [c iv tag n f]. intros (Hc & Hiv & Htag & Hn & Hf). simpl in Hc, Hiv, Htag, Hn, Hf.
  unfold decode_header, encode_header. cbn [h_counter h_iv h_tag h_len h_flags].
  rewrite <- !app_assoc. f_equal.
  - rewrite take_app_length' by lens. by apply be_value_be_bytes_u64.
  - by fields.
  - by fields.
  - fields. by apply be_value_be_bytes_u16.
  - fields. by apply be_value_be_bytes_u16.
Qed.

Lemma be_value_u16 l : length l = 2 -> is_u16 (be_value l).
Proof. intros Hl. pose proof (be_value_range l) as H. rewrite Hl in H. exact H. Qed.

Lemma be_value_u64 l : length l = 8 -> is_u64 (be_value l).
Proof. intros Hl. pose proof (be_value_range l) as H. rewrite Hl in H. exact H. Qed.

Lemma decode_header_wf wire : 40 <= length wire -> header_wf (decode_header wire).
Proof.
  intros. unfold header_wf. cbn [decode_header h_counter h_iv h_tag h_len h_flags].
  split; [apply be_value_u64; lens|]. do 2 (split; [lens|]). split; apply be_value_u16; lens.
Qed.

Lemma be_bytes_of_value n l : length l = n -> be_bytes n (be_value l) = l.
Proof. intros <-. apply be_bytes_be_value. Qed.

Lemma encode_decode_header wire :
  40 <= length wire -> encode_header (decode_header wire) = take 40 wire.
Proof.
  intros Hlen. unfold encode_header, decode_header. cbn [h_counter h_iv h_tag h_len h_flags].
  destruct (split_at wire 8) as (a & w & -> & Ha); [lia|].
  destruct (split_at w 12) as (b & w' & -> & Hb); [lens|].
  destruct (split_at w' 16) as (c & w & -> & Hc); [lens|].
  destruct (split_at w 2) as (d & w' & -> & Hd); [lens|].
  destruct (split_at w' 2) as (e & w & -> & He); [lens|].
  rewrite take_app_length' by done. fields.
  replace 40 with (length (a ++ b ++ c ++ d ++ e)) by lens.
  rewrite !app_assoc, take_app_length, <- !app_assoc.
  by rewrite !be_bytes_of_value by lens.
Qed.

(** ** The packet operations *)

Section SessionFacts.
Context {W : Type} `{AntiReplay W} `{Aead} `{!AeadLaws}.
Implicit Types (s : ExpresslaneSession W aead_key).

(** One attempt leaves the cipher's buffer in front of the rest of [out],
    whatever [out] held before. *)
Lemma attempt_ret c iv aad ct tag n out :
  length ct = n -> n <= length out ->
  attempt c iv aad ct tag n out =
    Ret (is_ok (cipher_decrypt c iv aad ct tag).1, (cipher_decrypt c iv aad ct tag).2 ++ drop n out).
Proof.
  intros Hct Hout. unfold attempt.
  destruct (split_at out n Hout) as (a & b & -> & Ha).
  rewrite copy_from_slice_ret, bind_ret by lens. fields.
  rewrite slice_ret, bind_ret by lens. rewrite Nat.sub_0_r, take_drop_here by lens.
  pose proof (cipher_decrypt_length c iv aad ct tag) as Hlen.
  destruct (cipher_decrypt c iv aad ct tag) as [r buf]. simpl in Hlen.
  rewrite copy_from_slice_ret, bind_ret by lens. fields. by rewrite drop_app_length'.
Qed.

Lemma open_with_cases h aad ct c :
  match open_with h aad ct c with
  | Some plain => cipher_decrypt c (h_iv h) aad ct (h_tag h) = (Ok tt, plain) /\ length plain = length ct
  | None => is_ok (cipher_decrypt c (h_iv h) aad ct (h_tag h)).1 = false
  end.
Proof.
  pose proof (cipher_decrypt_length c (h_iv h) aad ct (h_tag h)) as Hlen. unfold open_with.
  by destruct (cipher_decrypt _ _ _ _ _) as [[[]|] buf].
Qed.

(** The two attempts of [decrypt] find what [first_open] finds. *)
Lemma attempts_ret h aad ct current prev n out :
  length ct = n -> n <= length out ->
  exists junk, length junk = n /\
  ('(ok, out) ← attempt current (h_iv h) aad ct (h_tag h) n out;
   if (ok : bool) then Ret (true, out)
   else match prev with
        | Some prev => attempt prev (h_iv h) aad ct (h_tag h) n out
        | None => Ret (false, out)
        end) =
  Ret match first_open h aad ct (current :: option_list prev) with
      | Some plain => (true, plain ++ drop n out)
      | None => (false, junk ++ drop n out)
      end.
Proof.
  intros Hct Hout. rewrite attempt_ret, bind_ret by done. cbn [first_open option_list].
  pose proof (cipher_decrypt_length current (h_iv h) aad ct (h_tag h)) as Hl1.
  pose proof (open_with_cases h aad ct current) as Hc1.
  destruct (open_with h aad ct current) as [p1|].
  { destruct Hc1 as [-> _]. by exists ct. }
  rewrite Hc1. destruct prev as [prev|]; simpl; [|eexists; split; [|reflexivity]; congruence].
  rewrite attempt_ret by lens. rewrite drop_app_length' by lens.
  pose proof (cipher_decrypt_length prev (h_iv h) aad ct (h_tag h)) as Hl2.
  pose proof (open_with_cases h aad ct prev) as Hc2.
  destruct (open_with h aad ct prev) as [p2|].
  { destruct Hc2 as [-> _]. by exists ct. }
  rewrite Hc2. eexists. split; [|reflexivity]. congruence.
Qed.

Lemma first_open_length h aad ct ks plain :
  first_open h aad ct ks = Some plain -> length plain = length ct.
Proof.
  induction ks as [|k ks IH]; [done|]. simpl. pose proof (open_with_cases h aad ct k) as Hc.
  destruct (open_with h aad ct k); [|done]. intros [= <-]. apply Hc.
Qed.

(** [decrypt] never panics and computes its contract. *)
Lemma decrypt_meets_spec sid wire out s :
  length sid = 8 -> decrypt sid wire out s = Ret (decrypt_spec sid wire out s).
Proof.
  intros Hsid. unfold decrypt, decrypt_spec. change WIRE_OVERHEAD with 40.
  case_decide as Hwire; [done|].
  rewrite (slice_ret _ 0 8), (slice_ret _ 8 20), (slice_ret _ 20 36), (slice_ret _ 36 38),
    (slice_ret _ 38 40) by lia.
  rewrite !bind_ret. cbn [Nat.sub]. rewrite drop_0.
  set (h := decode_header wire).
  change (be_value (take 8 wire)) with (h_counter h).
  change (be_value (take 2 (drop 36 wire))) with (h_len h).
  change (be_value (take 2 (drop 38 wire))) with (h_flags h).
  change (take 12 (drop 8 wire)) with (h_iv h). change (take 16 (drop 20 wire)) with (h_tag h).
  change FLAG_ENCODED with (Z.shiftl 1 15). rewrite land_bit_test by lia.
  destruct (ar_would_reject _ _) eqn:Hrej; [done|].
  case_decide as Hlen; [done|]. case_decide as Hout; [done|].
  destruct (build_aad_ret (version s) sid (h_counter h) (h_flags h) Hsid) as (buf & n & -> & Haad).
  rewrite bind_ret. unfold peer_keys.
  destruct (current_peer (rx s)) as [current|] eqn:Hcur; [|by rewrite decide_True].
  rewrite decide_False by done.
  rewrite (slice_ret wire), bind_ret, Haad, bind_ret by lia. rewrite (Nat.add_comm 40), Nat.add_sub.
  set (m := Z.to_nat (h_len h)) in *. set (aad := aad_of _ _ _ _). set (ct := take m (drop 40 wire)).
  assert (Hct : length ct = m) by (unfold ct; lens).
  destruct (attempts_ret h aad ct current (prev_peer (rx s)) m out Hct) as (junk & Hjunk & Hatt); [lia|].
  rewrite attempt_ret, bind_ret in Hatt by lia. rewrite attempt_ret, bind_ret, Hatt, bind_ret by lia.
  pose proof (first_open_length h aad ct (current :: option_list (prev_peer (rx s)))) as Hplain.
  destruct (first_open _ _ _ _) as [plain|].
  - pose proof (ar_commit_accepts _ _ Hrej) as Hacc. unfold accept_counter.
    destruct (ar_commit _ _) as [committed w]. simpl in Hacc. subst committed. simpl.
    by rewrite Hcur.
  - simpl. rewrite fill0_ret, bind_ret by lens. rewrite splice_here by lens. by rewrite Nat.sub_0_r.
Qed.

(** A packet buffer split into the wire fields, a payload and the rest. *)
Lemma split_wire (out : list byte) n :
  40 + n <= length out ->
  exists o1 o2 o3 o4 o5 o6 rest,
    out = o1 ++ o2 ++ o3 ++ o4 ++ o5 ++ o6 ++ rest /\
    length o1 = 8 /\ length o2 = 12 /\ length o3 = 16 /\ length o4 = 2 /\ length o5 = 2 /\ length o6 = n.
Proof.
  intros Hlen.
  destruct (split_at out 8) as (o1 & w & -> & ?); [lia|].
  destruct (split_at w 12) as (o2 & w' & -> & ?); [lens|].
  destruct (split_at w' 16) as (o3 & w & -> & ?); [lens|].
  destruct (split_at w 2) as (o4 & w' & -> & ?); [lens|].
  destruct (split_at w' 2) as (o5 & w & -> & ?); [lens|].
  destruct (split_at w n) as (o6 & rest & -> & ?); [lens|].
  by exists o1, o2, o3, o4, o5, o6, rest.
Qed.

Lemma drop_fields (fs : list (list byte)) rest n :
  n = length (concat fs) -> drop n (foldr app rest fs) = rest.
Proof.
  intros ->. replace (foldr app rest fs) with (concat fs ++ rest); [apply drop_app_length|].
  induction fs as [|f fs IH]; [done|]. simpl. by rewrite <- app_assoc, IH.
Qed.

Lemma drop_0_eq n (l : list byte) : n = 0 -> drop n l = l.
Proof. by intros ->. Qed.

Lemma take_fields (fs : list (list byte)) rest n :
  n = length (concat fs) -> take n (foldr app rest fs) = concat fs.
Proof.
  intros ->. replace (foldr app rest fs) with (concat fs ++ rest); [apply take_app_length|].
  induction fs as [|f fs IH]; [done|]. simpl. by rewrite <- app_assoc, IH.
Qed.

(** [encrypt] never panics and computes its contract. *)
Lemma encrypt_meets_spec c sid plain iv e out s :
  length sid = 8 -> length iv = 12 ->
  encrypt c sid plain iv e out s = Ret (encrypt_spec c sid plain iv e out s).
Proof.
  intros Hsid Hiv. unfold encrypt, encrypt_spec. change WIRE_OVERHEAD with 40.
  case_decide as Hout; [done|].
  destruct (u16_MAX <? Z.of_nat (length plain))%Z eqn:Hmax; unfold u16_MAX in Hmax; zbool;
    [by rewrite decide_True by lia|]. rewrite decide_False by lia.
  destruct (current_self s) as [cipher|]; [|done].
  set (flags := if e then FLAG_ENCODED else 0%Z).
  destruct (build_aad_ret (version s) sid c flags Hsid) as (abuf & n & -> & Haad). rewrite bind_ret.
  destruct (split_wire out (length plain)) as (o1 & o2 & o3 & o4 & o5 & o6 & rest & -> & ? & ? & ? & ? & ? & ?); [lia|].
  rewrite copy_from_slice_ret, bind_ret by lens. fields.
  rewrite copy_from_slice_ret, bind_ret by lens. fields.
  rewrite Haad, bind_ret, slice_ret, bind_ret by lens. fields.
  set (aad := aad_of _ _ _ _).
  destruct (cipher_encrypt_length cipher iv aad plain) as [Hct Htag].
  destruct (cipher_encrypt cipher iv aad plain) as [[tag|err] ct]; simpl in Hct, Htag.
  - specialize (Htag tag eq_refl).
    do 5 (rewrite copy_from_slice_ret, bind_ret by lens; fields).
    do 2 f_equal. unfold encode_header. cbn [h_counter h_iv h_tag h_len h_flags].
    rewrite (drop_fields [o1; o2; o3; o4; o5; o6] rest) by lens. by rewrite <- !app_assoc.
  - rewrite copy_from_slice_ret, bind_ret by lens. fields.
    rewrite fill0_ret, bind_ret by lens. fields.
    do 3 f_equal.
    rewrite (drop_fields [o1; o2; o3; o4; o5; o6] rest) by lens.
    rewrite (take_fields [o1] (o2 ++ o3 ++ o4 ++ o5 ++ o6 ++ rest)) by lens.
    rewrite (drop_0_eq _ (o3 ++ _)) by lens.
    rewrite (take_fields [o3; o4; o5] (o6 ++ rest)) by lens. simpl.
    rewrite !app_nil_r, <- !app_assoc. do 7 f_equal. lia.
Qed.

End SessionFacts.

End SessionFacts.
