(* ===== verification/SessionProperties.v ===== *)
(** * What an ExpressLane session guarantees

    The round trip, authenticity, error safety and key-rotation properties of
    single operations, and invariants of sessions driven by any sequence of
    operations ([SessionTrace]). *)

From stdpp Require Import base numbers list list_numbers option sets.
From Stdlib Require Import Strings.Byte.
From S2P Require Import Prelude ReplayWindow ReplayReference AntiReplay Cipher Session SessionFacts.
Import SessionSpec SessionFacts.

Ltac Zify.zify_post_hook ::= Z.div_mod_to_equations.

(** ** Sequences of operations

    Calls on one session in the order its locks and atomics serialize them.
    Arguments of fixed-size array type carry their length in [op_wf]. *)

Module SessionTrace.

Inductive op : Type :=
| OReserve
| OStage (key : ExpresslaneKey)
| OPromote
| OEncrypt (counter : Z) (session_id plain iv : list byte) (is_encoded : bool) (out : list byte)
| OPeerKey (key : ExpresslaneKey)
| ODecrypt (session_id wire out : list byte).

Definition op_wf (o : op) : Prop :=
  match o with
  | OReserve | OPromote => True
  | OStage key | OPeerKey key => key_wf key
  | OEncrypt counter sid _ iv _ _ => is_u64 counter /\ length sid = 8 /\ length iv = 12
  | ODecrypt sid _ _ => length sid = 8
  end.

(** What a caller sees of an operation. *)
Inductive event : Type :=
| Reserved (counter : Z)
| KeyResult (r : ExpresslaneResult unit)
| Promoted
| Sent (r : ExpresslaneResult nat) (out : list byte)
| Received (wire_counter : Z) (r : ExpresslaneResult (nat * bool)) (out : list byte).

Section SessionTrace.
Context {W : Type} `{AntiReplay W} `{Aead}.

Definition exec (s : ExpresslaneSession W aead_key) (o : op) : outcome (event * ExpresslaneSession W aead_key) :=
  match o with
  | OReserve => let '(c, s) := reserve_counter s in Ret (Reserved c, s)
  | OStage key => let '(r, s) := update_next_self_key key s in Ret (KeyResult r, s)
  | OPromote => Ret (Promoted, promote_self_key s)
  | OEncrypt c sid plain iv e out =>
      '(r, out, s) ← encrypt c sid plain iv e out s; Ret (Sent r out, s)
  | OPeerKey key => let '(r, s) := update_peer_key key s in Ret (KeyResult r, s)
  | ODecrypt sid wire out =>
      '(r, out, s) ← decrypt sid wire out s; Ret (Received (h_counter (decode_header wire)) r out, s)
  end.

Fixpoint run (s : ExpresslaneSession W aead_key) (ops : list op) : outcome (list event * ExpresslaneSession W aead_key) :=
  match ops with
  | [] => Ret ([], s)
  | o :: ops =>
      '(ev, s) ← exec s o;
      '(evs, s) ← run s ops;
      Ret (ev :: evs, s)
  end.

(** The counters handed out, those of delivered packets, and the number of
    packets sealed, in the order of the events. *)
Definition reserved_of (ev : event) : option Z := match ev with Reserved c => Some c | _ => None end.
Definition delivered_of (ev : event) : option Z := match ev with Received c (Ok _) _ => Some c | _ => None end.
Definition sent_of (ev : event) : option nat := match ev with Sent (Ok n) _ => Some n | _ => None end.

Definition reserved (evs : list event) : list Z := omap reserved_of evs.
Definition delivered (evs : list event) : list Z := omap delivered_of evs.
Definition sent (evs : list event) : list nat := omap sent_of evs.

(** The state of a session that has gone through the events [evs]. *)
Record session_inv (evs : list event) (s : ExpresslaneSession W aead_key) : Prop := {
  inv_window : ar_models (replay_window (rx s)) (reverse (delivered evs));
  inv_fresh : NoDup (delivered evs);
  inv_reserved : next_counter s = wrap64 (Z.of_nat (length (reserved evs)));
  inv_reserved_seq : reserved evs = (fun i => wrap64 (Z.of_nat i)) <$> seq 1 (length (reserved evs));
  inv_sent : packets_sent s = wrap64 (Z.of_nat (length (sent evs)));
  inv_self : self_key_installed s = bool_decide (is_Some (current_self s));
  inv_peer : peer_key_installed s = bool_decide (is_Some (current_peer (rx s)));
  inv_prev : is_Some (prev_peer (rx s)) -> is_Some (current_peer (rx s));
}.

End SessionTrace.
End SessionTrace.
Import SessionTrace.

Section TraceFacts.
Context {W : Type} `{AntiReplay W} `{Aead} `{!AeadLaws}.
Implicit Types (s : ExpresslaneSession W aead_key).

Lemma session_inv_new v : session_inv [] (new v : ExpresslaneSession W aead_key).
Proof.
  split; simpl; try done; [apply ar_models_default|apply NoDup_nil_2].
Qed.

Lemma reserved_snoc evs ev : reserved (evs ++ [ev]) = reserved evs ++ option_list (reserved_of ev).
Proof. unfold reserved. rewrite omap_app. by destruct ev. Qed.

Lemma delivered_snoc evs ev : delivered (evs ++ [ev]) = delivered evs ++ option_list (delivered_of ev).
Proof. unfold delivered. rewrite omap_app. simpl. by destruct (delivered_of ev). Qed.

Lemma sent_snoc evs ev : sent (evs ++ [ev]) = sent evs ++ option_list (sent_of ev).
Proof. unfold sent. rewrite omap_app. simpl. by destruct (sent_of ev). Qed.

(** The four fields of the decrypt contract the trace depends on. *)
Lemma decrypt_spec_cases sid wire out s r out' s' :
  decrypt_spec sid wire out s = (r, out', s') ->
  (exists e, r = Err e /\ s' = s) \/
  (exists n e, r = Ok (n, e) /\ 40 <= length wire /\
     ar_would_reject (replay_window (rx s)) (h_counter (decode_header wire)) = false /\
     s' = accept_counter (h_counter (decode_header wire)) s).
Proof.
  unfold decrypt_spec. intros Hspec.
  repeat case_decide; try (destruct (ar_would_reject _ _) eqn:?); try case_match; simplify_eq; eauto 10.
  all: right; eexists _, _; split_and!; eauto; lia.
Qed.

(** Split the invariant after one more event; the parts it does not touch follow
    from the invariant before. *)
Ltac inv_step Hinv :=
  split; rewrite ?reserved_snoc, ?delivered_snoc, ?sent_snoc; simpl; rewrite ?app_nil_r;
  try (apply Hinv).

Lemma inv_reserve evs s :
  session_inv evs s -> session_inv (evs ++ [Reserved (reserve_counter s).1]) (reserve_counter s).2.
Proof.
  intros Hinv. pose proof (inv_reserved _ _ Hinv) as Hc. inv_step Hinv.
  - rewrite Hc, wrap64_add_l, length_app. simpl. f_equal. lia.
  - rewrite length_app. simpl. rewrite seq_app, fmap_app, <- (inv_reserved_seq _ _ Hinv). simpl.
    rewrite Hc, wrap64_add_l. do 3 f_equal. lia.
Qed.

Lemma inv_stage evs s key :
  session_inv evs s ->
  session_inv (evs ++ [KeyResult (update_next_self_key key s).1]) (update_next_self_key key s).2.
Proof.
  intros Hinv. unfold update_next_self_key. destruct (is_invalid key); [by inv_step Hinv|].
  destruct (cipher_new key); by inv_step Hinv.
Qed.

Lemma inv_promote evs s : session_inv evs s -> session_inv (evs ++ [Promoted]) (promote_self_key s).
Proof. intros Hinv. unfold promote_self_key. destruct (next_self s); by inv_step Hinv. Qed.

Lemma inv_peer_key evs s key :
  session_inv evs s ->
  session_inv (evs ++ [KeyResult (update_peer_key key s).1]) (update_peer_key key s).2.
Proof.
  intros Hinv. unfold update_peer_key. destruct (is_invalid key); [by inv_step Hinv|].
  destruct (cipher_new key); by inv_step Hinv.
Qed.

Lemma inv_encrypt evs s c sid plain iv e out :
  session_inv evs s ->
  session_inv (evs ++ [Sent (encrypt_spec c sid plain iv e out s).1.1 (encrypt_spec c sid plain iv e out s).1.2])
    (encrypt_spec c sid plain iv e out s).2.
Proof.
  intros Hinv. unfold encrypt_spec. repeat case_decide; try by inv_step Hinv.
  destruct (current_self s) eqn:?; [|by inv_step Hinv].
  destruct (cipher_encrypt _ _ _ _) as [[tag|] ct]; [|by inv_step Hinv]. inv_step Hinv.
  rewrite (inv_sent _ _ Hinv), wrap64_add_l, length_app. simpl. f_equal. lia.
Qed.

Lemma inv_decrypt evs s sid wire out :
  session_inv evs s ->
  session_inv (evs ++ [Received (h_counter (decode_header wire)) (decrypt_spec sid wire out s).1.1
                         (decrypt_spec sid wire out s).1.2]) (decrypt_spec sid wire out s).2.
Proof.
  intros Hinv. destruct (decrypt_spec sid wire out s) as [[r out'] s'] eqn:Hspec. simpl.
  apply decrypt_spec_cases in Hspec as [(e & -> & ->)|(n & e & -> & Hlen & Hrej & ->)]; [by inv_step Hinv|].
  set (c := h_counter (decode_header wire)) in *.
  assert (Hc : is_u64 c) by apply (decode_header_wf wire Hlen).
  pose proof (inv_window _ _ Hinv) as Hw. inv_step Hinv.
  - rewrite reverse_snoc. by apply ar_commit_models.
  - pose proof (ar_accepted_fresh _ _ _ Hw Hc Hrej) as Hn. rewrite elem_of_reverse in Hn.
    apply NoDup_app. split; [apply Hinv|]. split; [|apply NoDup_singleton].
    intros x Hx. rewrite list_elem_of_singleton. by intros ->.
Qed.

Lemma exec_inv evs s o :
  op_wf o -> session_inv evs s ->
  exists ev s', exec s o = Ret (ev, s') /\ session_inv (evs ++ [ev]) s'.
Proof.
  intros Hwf Hinv. destruct o; simpl in *.
  - eexists _, _. split; [reflexivity|]. by apply inv_reserve.
  - pose proof (inv_stage evs s key Hinv). destruct (update_next_self_key key s). eauto.
  - eauto using inv_promote.
  - destruct Hwf as (_ & ? & ?). rewrite encrypt_meets_spec, bind_ret by done.
    pose proof (inv_encrypt evs s counter session_id plain iv is_encoded out Hinv).
    destruct (encrypt_spec _ _ _ _ _ _ _) as [[r out'] s']. eauto.
  - pose proof (inv_peer_key evs s key Hinv). destruct (update_peer_key key s). eauto.
  - rewrite decrypt_meets_spec, bind_ret by done.
    pose proof (inv_decrypt evs s session_id wire out Hinv).
    destruct (decrypt_spec _ _ _ _) as [[r out'] s']. eauto.
Qed.

Lemma run_inv ops : forall evs s,
  Forall op_wf ops -> session_inv evs s ->
  exists evs' s', run s ops = Ret (evs', s') /\ session_inv (evs ++ evs') s'.
Proof.
  induction ops as [|o ops IH]; intros evs s Hwf Hinv.
  { exists [], s. by rewrite app_nil_r. }
  apply Forall_cons in Hwf as [Ho Hops].
  destruct (exec_inv evs s o Ho Hinv) as (ev & s' & Hexec & Hinv').
  destruct (IH _ _ Hops Hinv') as (evs' & s'' & Hrun & Hinv'').
  exists (ev :: evs'), s''. simpl. rewrite Hexec, bind_ret, Hrun, bind_ret.
  by rewrite <- app_assoc in Hinv''.
Qed.

End TraceFacts.

(** ** Properties *)

Module SessionProperties.

Section Operations.
Context {W : Type} `{AntiReplay W} `{Aead} `{!AeadLaws}.
Implicit Types (s : ExpresslaneSession W aead_key).

(** C6: [decrypt] never panics and refines its contract: the rejects in their
    order leave buffer and session alone, a packet no key authenticates zeroes
    exactly its bytes, and otherwise the plaintext under the first key that
    authenticates is delivered and its counter recorded, whatever a failed
    attempt leaves in the buffer. *)
Theorem decrypt_implements_contract sid wire out s :
  length sid = 8 -> decrypt sid wire out s = Ret (decrypt_spec sid wire out s).
Proof. apply decrypt_meets_spec. Qed.

(** C7: [encrypt] never panics and refines its contract: every error leaves the
    session alone, and success writes counter, iv, tag, length, flags and
    ciphertext in the wire's order, keeps the rest of the buffer and counts one
    packet. *)
Theorem encrypt_implements_contract c sid plain iv e out s :
  length sid = 8 -> length iv = 12 ->
  encrypt c sid plain iv e out s = Ret (encrypt_spec c sid plain iv e out s).
Proof. apply encrypt_meets_spec. Qed.

Lemma flags_u16 (e : bool) : is_u16 (if e then FLAG_ENCODED else 0%Z).
Proof. by destruct e. Qed.

Lemma flags_testbit (e : bool) : Z.testbit (if e then FLAG_ENCODED else 0%Z) 15 = e.
Proof. by destruct e. Qed.

Lemma encrypt_success k c sid plain iv e out s :
  length sid = 8 -> length iv = 12 -> (Z.of_nat (length plain) <= 65535)%Z ->
  40 + length plain <= length out -> current_self s = Some k ->
  exists tag ct, seals k (version s) sid c iv e plain tag ct /\ length tag = 16 /\ length ct = length plain /\
    encrypt c sid plain iv e out s =
      Ret (Ok (40 + length plain),
           sealed_wire c iv e plain tag ct ++ drop (40 + length plain) out,
           set_packets_sent (wrap64 (packets_sent s + 1)) s).
Proof.
  intros Hsid Hiv Hmax Hout Hk. rewrite encrypt_meets_spec by done. unfold encrypt_spec.
  rewrite decide_False, decide_False, Hk by lia.
  destruct (cipher_encrypt_ok k iv (aad_of (version s) sid c (if e then FLAG_ENCODED else 0%Z)) plain)
    as (tag & ct & Henc & Htag & Hct & _); [done..|].
  exists tag, ct. rewrite Henc. unfold sealed_wire. by rewrite <- app_assoc.
Qed.

(** Decrypting a sealed packet, given the key that opens it is found. *)
Lemma decrypt_sealed c sid plain iv (e : bool) tag ct out s :
  length sid = 8 -> length iv = 12 -> is_u64 c -> (Z.of_nat (length plain) <= 65535)%Z ->
  length tag = 16 -> length ct = length plain -> length plain <= length out ->
  ar_would_reject (replay_window (rx s)) c = false ->
  let flags := if e then FLAG_ENCODED else 0%Z in
  let h := mkHeader c iv tag (Z.of_nat (length plain)) flags in
  first_open h (aad_of (version s) sid c flags) ct (peer_keys s) = Some plain ->
  decrypt sid (sealed_wire c iv e plain tag ct) out s =
    Ret (Ok (length plain, e), plain ++ drop (length plain) out, accept_counter c s).
Proof.
  intros Hsid Hiv Hc Hmax Htag Hct Hout Hrej flags h Hopen.
  assert (Hwf : header_wf h).
  { unfold header_wf, h. simpl. split_and!; try done; [unfold is_u16; lia|apply flags_u16]. }
  rewrite decrypt_meets_spec by done. unfold decrypt_spec, sealed_wire. fold flags h.
  rewrite decode_encode_header by done. pose proof (length_encode_header h Hwf) as Hlh.
  change (h_len h) with (Z.of_nat (length plain)). rewrite Nat2Z.id. change (h_counter h) with c. change (h_flags h) with flags.
  rewrite Hrej, !length_app, Hlh, Hct. rewrite !decide_False by lia.
  rewrite drop_app_length' by done. rewrite take_ge by lia. rewrite Hopen.
  destruct (current_peer (rx s)) eqn:Hcur; [|unfold peer_keys in Hopen; by rewrite Hcur in Hopen].
  rewrite decide_False by done. unfold flags. by rewrite flags_testbit.
Qed.

Lemma open_sealed_with k v sid c iv (e : bool) plain tag ct flags h :
  seals k v sid c iv e plain tag ct -> length tag = 16 ->
  flags = (if e then FLAG_ENCODED else 0%Z) ->
  h = mkHeader c iv tag (Z.of_nat (length plain)) flags ->
  open_with h (aad_of v sid c flags) ct k = Some plain.
Proof.
  intros Hs Htag -> ->. unfold open_with. simpl.
  apply (cipher_decrypt_ok_iff k iv _ ct tag plain Htag) in Hs. by rewrite Hs.
Qed.

(** C5: round trip.  What one session encrypts under its send key, a session of
    the same version whose current peer key is that key decrypts to the same
    plaintext and [is_encoded] flag, provided its replay window accepts the
    counter; only its window changes. *)
Theorem encrypt_decrypt_round_trip k c sid plain iv e out1 out2 s1 s2 :
  length sid = 8 -> length iv = 12 -> is_u64 c -> (Z.of_nat (length plain) <= 65535)%Z ->
  40 + length plain <= length out1 -> length plain <= length out2 ->
  version s1 = version s2 -> current_self s1 = Some k -> current_peer (rx s2) = Some k ->
  ar_would_reject (replay_window (rx s2)) c = false ->
  exists wire s1',
    encrypt c sid plain iv e out1 s1 = Ret (Ok (40 + length plain), wire, s1') /\
    decrypt sid (take (40 + length plain) wire) out2 s2 =
      Ret (Ok (length plain, e), plain ++ drop (length plain) out2, accept_counter c s2).
Proof.
  intros Hsid Hiv Hc Hmax Hout1 Hout2 Hv Hself Hpeer Hrej.
  destruct (encrypt_success k c sid plain iv e out1 s1) as (tag & ct & Hs & Htag & Hct & Henc); [done..|].
  eexists _, _. split; [exact Henc|].
  rewrite take_app_length'.
  2: { unfold sealed_wire, encode_header. cbn [h_counter h_iv h_tag h_len h_flags]. lens. }
  rewrite Hv in *. apply decrypt_sealed; try done. unfold peer_keys. rewrite Hpeer. simpl.
  by erewrite open_sealed_with.
Qed.

(** C11: packets in flight survive a key rotation.  A packet sealed under the
    receiver's current peer key is still delivered after a new peer key is
    installed, if the new key does not authenticate it, whatever the failed
    attempt under the new key does to the buffer. *)
Theorem in_flight_survives_rotation k key' k' c sid plain iv e out1 out2 s1 s2 :
  length sid = 8 -> length iv = 12 -> is_u64 c -> (Z.of_nat (length plain) <= 65535)%Z ->
  40 + length plain <= length out1 -> length plain <= length out2 ->
  version s1 = version s2 -> current_self s1 = Some k -> current_peer (rx s2) = Some k ->
  ar_would_reject (replay_window (rx s2)) c = false ->
  is_invalid key' = false -> cipher_new key' = Ok k' ->
  (forall tag ct, seals k (version s2) sid c iv e plain tag ct ->
     is_ok (cipher_decrypt k' iv (aad_of (version s2) sid c (if e then FLAG_ENCODED else 0%Z)) ct tag).1 = false) ->
  exists wire s1',
    encrypt c sid plain iv e out1 s1 = Ret (Ok (40 + length plain), wire, s1') /\
    decrypt sid (take (40 + length plain) wire) out2 (update_peer_key key' s2).2 =
      Ret (Ok (length plain, e), plain ++ drop (length plain) out2,
           accept_counter c (update_peer_key key' s2).2).
Proof.
  intros Hsid Hiv Hc Hmax Hout1 Hout2 Hv Hself Hpeer Hrej Hinv Hnew Hcross.
  destruct (encrypt_success k c sid plain iv e out1 s1) as (tag & ct & Hs & Htag & Hct & Henc); [done..|].
  eexists _, _. split; [exact Henc|].
  rewrite take_app_length'.
  2: { unfold sealed_wire, encode_header. cbn [h_counter h_iv h_tag h_len h_flags]. lens. }
  rewrite Hv in *. specialize (Hcross _ _ Hs). unfold update_peer_key. rewrite Hinv, Hnew. simpl snd.
  apply decrypt_sealed; try done. unfold peer_keys. simpl. rewrite Hpeer. simpl.
  unfold open_with at 1. simpl.
  destruct (cipher_decrypt k' _ _ _ _) as [[?|?] ?]; [done|]. by erewrite open_sealed_with.
Qed.

(** Which key opened a packet. *)
Lemma first_open_some h aad ct ks plain :
  first_open h aad ct ks = Some plain -> exists k, k ∈ ks /\ open_with h aad ct k = Some plain.
Proof.
  induction ks as [|k ks IH]; [done|]. simpl. destruct (open_with h aad ct k) eqn:E.
  - intros [= ->]. exists k. split; [apply list_elem_of_here|done].
  - intros (k' & Hk' & Hopen)%IH. exists k'. split; [by apply list_elem_of_further|done].
Qed.

(** C9: authenticity and freshness.  Whenever [decrypt] succeeds, one of the
    installed peer keys seals the delivered plaintext, under the wire's iv and
    the associated data of this session id and the wire's counter and flags,
    to exactly the wire's tag and ciphertext; the counter was not rejected by
    the window, and the output beyond the plaintext is untouched. *)
Theorem decrypt_ok_authentic sid wire out s n e out' s' :
  length sid = 8 -> decrypt sid wire out s = Ret (Ok (n, e), out', s') ->
  let h := decode_header wire in
  exists k plain,
    k ∈ peer_keys s /\ length plain = n /\ n = Z.to_nat (h_len h) /\ e = Z.testbit (h_flags h) 15 /\
    cipher_encrypt k (h_iv h) (aad_of (version s) sid (h_counter h) (h_flags h)) plain =
      (Ok (h_tag h), take n (drop 40 wire)) /\
    ar_would_reject (replay_window (rx s)) (h_counter h) = false /\
    out' = plain ++ drop n out /\ s' = accept_counter (h_counter h) s.
Proof.
  intros Hsid Hdec h. rewrite decrypt_meets_spec in Hdec by done. revert Hdec. unfold decrypt_spec. fold h.
  case_decide as Hwire; [done|]. destruct (ar_would_reject _ _) eqn:Hrej; [done|].
  case_decide as Hlen; [done|]. case_decide as Hout; [done|]. case_decide; [done|].
  destruct (first_open _ _ _ _) as [plain|] eqn:Hopen; [|done]. intros Heq. simplify_eq.
  pose proof (first_open_length _ _ _ _ _ Hopen) as Hpl.
  apply first_open_some in Hopen as (k & Hk & Hopen). exists k, plain.
  pose proof (open_with_cases h (aad_of (version s) sid (h_counter h) (h_flags h))
    (take (Z.to_nat (h_len h)) (drop 40 wire)) k) as Hc. rewrite Hopen in Hc. destruct Hc as [Hc _].
  split_and!; try done; [rewrite Hpl; lens|].
  apply cipher_decrypt_ok_iff in Hc; [done|]. apply (decode_header_wf wire). lia.
Qed.

(** C10: errors are safe.  A failing [decrypt] changes nothing in the session,
    and the output buffer is as it was, or, for [InvalidData] only, the bytes of
    the packet are zero and the rest as it was. *)
Theorem decrypt_err_safe sid wire out s err out' s' :
  length sid = 8 -> decrypt sid wire out s = Ret (Err err, out', s') ->
  s' = s /\
  (out' = out \/
   err = InvalidData /\
   exists n, n = Z.to_nat (h_len (decode_header wire)) /\ n <= length out /\ out' = zeros n ++ drop n out).
Proof.
  intros Hsid Hdec. rewrite decrypt_meets_spec in Hdec by done. revert Hdec. unfold decrypt_spec.
  do 1 (case_decide; [intros Heq; simplify_eq; by auto|]).
  destruct (ar_would_reject _ _); [intros Heq; simplify_eq; by auto|].
  do 3 (case_decide; [intros Heq; simplify_eq; by auto|]).
  destruct (first_open _ _ _ _); [done|]. intros Heq. simplify_eq. split; [done|]. right. split; [done|].
  eexists. split; [done|]. split; [lia|done].
Qed.

(** a delivered packet cannot be delivered again.  Directly after a
    successful [decrypt], a packet with the same counter, whatever its other
    bytes, fails with [Replayed] before anything is written. *)
Theorem replayed_wire_rejected sid wire out s n e out' s' h sid2 wire2 out2 :
  length sid = 8 -> length sid2 = 8 -> ar_models (replay_window (rx s)) h ->
  decrypt sid wire out s = Ret (Ok (n, e), out', s') ->
  40 <= length wire2 -> take 8 wire2 = take 8 wire ->
  decrypt sid2 wire2 out2 s' = Ret (Err Replayed, out2, s').
Proof.
  intros Hsid Hsid2 Hm Hdec Hlen2 Hctr. rewrite decrypt_meets_spec in Hdec by done. injection Hdec as Hdec.
  apply decrypt_spec_cases in Hdec as [(? & Habs & _)|(_ & _ & _ & Hlen & Hrej & ->)]; [done|].
  rewrite decrypt_meets_spec by done. unfold decrypt_spec. rewrite decide_False by lia.
  assert (Hsame : h_counter (decode_header wire2) = h_counter (decode_header wire)) by (simpl; by rewrite Hctr).
  rewrite Hsame. unfold accept_counter at 1. simpl replay_window.
  by rewrite (ar_committed_rejected _ h) by (try done; apply (decode_header_wf wire Hlen)).
Qed.

End Operations.

Section Traces.
Context {W : Type} `{AntiReplay W} `{Aead} `{!AeadLaws}.
Implicit Types (s : ExpresslaneSession W aead_key).

(** C2: no packet is delivered twice.  Any sequence of calls on a new session,
    key rotations included, runs without a panic; the counters of the packets it
    delivers are pairwise distinct and the packet counts are exact (modulo the
    wrap of a [u64]). *)
Theorem no_packet_delivered_twice v ops :
  Forall op_wf ops ->
  exists evs s, run (new v : ExpresslaneSession W aead_key) ops = Ret (evs, s) /\
    NoDup (delivered evs) /\
    packets_received s = wrap64 (Z.of_nat (length (delivered evs))) /\
    packets_sent s = wrap64 (Z.of_nat (length (sent evs))).
Proof.
  intros Hwf. destruct (run_inv ops [] _ Hwf (session_inv_new v)) as (evs & s & Hrun & Hinv).
  exists evs, s. split; [done|]. split; [apply Hinv|]. split; [|apply Hinv].
  unfold packets_received. rewrite (ar_count _ _ (inv_window _ _ Hinv)). by rewrite length_reverse.
Qed.

Lemma NoDup_seq_wrap n : (Z.of_nat n < 2 ^ 64)%Z -> NoDup ((fun i => wrap64 (Z.of_nat i)) <$> seq 1 n).
Proof.
  intros Hn. apply NoDup_fmap_2_strong; [|apply NoDup_seq].
  intros x y Hx%elem_of_seq Hy%elem_of_seq. rewrite !wrap64_small by (unfold is_u64; lia). lia.
Qed.

(** reserved counters.  However [reserve_counter] calls interleave with
    other calls, the values handed out by a new session are 1, 2, 3, ... and
    pairwise distinct for the first [2^64 - 1] of them. *)
Theorem reserved_counters_distinct v ops evs s :
  Forall op_wf ops -> run (new v : ExpresslaneSession W aead_key) ops = Ret (evs, s) ->
  reserved evs = (fun i => wrap64 (Z.of_nat i)) <$> seq 1 (length (reserved evs)) /\
  ((Z.of_nat (length (reserved evs)) < 2 ^ 64)%Z -> NoDup (reserved evs)).
Proof.
  intros Hwf Hrun. destruct (run_inv ops [] _ Hwf (session_inv_new v)) as (evs' & s' & Hrun' & Hinv).
  rewrite Hrun in Hrun'. simplify_eq. pose proof (inv_reserved_seq _ _ Hinv) as Hseq. simpl in Hseq.
  split; [done|]. intros Hn. rewrite Hseq. by apply NoDup_seq_wrap.
Qed.

(** The key flags are never cleared. *)
Lemma exec_flags_monotone s o ev s' :
  op_wf o -> exec s o = Ret (ev, s') ->
  (self_key_installed s = true -> self_key_installed s' = true) /\
  (peer_key_installed s = true -> peer_key_installed s' = true).
Proof.
  intros Hwf Hexec. destruct o; simpl in *.
  - by simplify_eq.
  - unfold update_next_self_key in Hexec. destruct (is_invalid key), (cipher_new key); by simplify_eq.
  - unfold promote_self_key in Hexec. destruct (next_self s); by simplify_eq.
  - destruct Hwf as (_ & ? & ?). rewrite encrypt_meets_spec, bind_ret in Hexec by done.
    unfold encrypt_spec in Hexec. repeat case_decide; repeat case_match; by simplify_eq.
  - unfold update_peer_key in Hexec. destruct (is_invalid key), (cipher_new key); by simplify_eq.
  - rewrite decrypt_meets_spec, bind_ret in Hexec by done.
    destruct (decrypt_spec _ _ _ _) as [[r out'] s''] eqn:Hspec. simplify_eq.
    by apply decrypt_spec_cases in Hspec as [(? & _ & ->)|(? & ? & _ & _ & _ & ->)].
Qed.

Lemma exec_keys_monotone s o ev s' :
  op_wf o -> exec s o = Ret (ev, s') -> has_valid_keys s = true -> has_valid_keys s' = true.
Proof.
  intros Hwf Hexec. destruct (exec_flags_monotone _ _ _ _ Hwf Hexec). unfold has_valid_keys.
  rewrite !andb_true_iff. tauto.
Qed.

Lemma run_keys_monotone ops : forall s evs s',
  Forall op_wf ops -> run s ops = Ret (evs, s') -> has_valid_keys s = true -> has_valid_keys s' = true.
Proof.
  induction ops as [|o ops IH]; intros s evs s' Hwf Hrun Hk; simpl in Hrun; [by simplify_eq|].
  apply Forall_cons in Hwf as [Ho Hops].
  destruct (exec s o) as [[ev s1]|] eqn:Hexec; [|done]. rewrite bind_ret in Hrun.
  destruct (run s1 ops) as [[evs1 s2]|] eqn:Hrun1; [|done]. rewrite bind_ret in Hrun. simplify_eq.
  eapply IH; eauto. by eapply exec_keys_monotone.
Qed.

Lemma inv_valid_keys evs s :
  session_inv evs s -> has_valid_keys s = true -> is_Some (current_self s) /\ is_Some (current_peer (rx s)).
Proof.
  intros Hinv. unfold has_valid_keys. rewrite (inv_self _ _ Hinv), (inv_peer _ _ Hinv).
  rewrite andb_true_iff, !bool_decide_eq_true. tauto.
Qed.

(** With a key installed neither packet operation reports [KeyNotSet]. *)
Lemma encrypt_has_key c sid plain iv e out s :
  is_Some (current_self s) -> (encrypt_spec c sid plain iv e out s).1.1 <> Err KeyNotSet.
Proof.
  intros [k Hk]. unfold encrypt_spec. rewrite Hk. do 2 (case_decide; [done|]).
  destruct (cipher_encrypt _ _ _ _) as [[tag|err] ct] eqn:Henc; [done|]. simpl. intros [= ->].
  unfold cipher_encrypt in Henc. repeat case_match; by simplify_eq.
Qed.

Lemma decrypt_has_key sid wire out s :
  is_Some (current_peer (rx s)) -> (decrypt_spec sid wire out s).1.1 <> Err KeyNotSet.
Proof.
  intros [k Hk]. unfold decrypt_spec. case_decide; [done|]. destruct (ar_would_reject _ _); [done|].
  do 2 (case_decide; [done|]). rewrite decide_False by (by rewrite Hk). by destruct (first_open _ _ _ _).
Qed.

(** the key hint is sound and stable.  If [has_valid_keys] answers [true]
    after some calls, then it still does after any further calls, and neither
    [encrypt] nor [decrypt] can then fail with [KeyNotSet]. *)
Theorem valid_keys_suffice v ops1 ops2 evs1 s1 :
  Forall op_wf ops1 -> Forall op_wf ops2 -> run (new v : ExpresslaneSession W aead_key) ops1 = Ret (evs1, s1) ->
  has_valid_keys s1 = true ->
  exists evs2 s2, run s1 ops2 = Ret (evs2, s2) /\ has_valid_keys s2 = true /\
    (forall c sid plain iv e out r out' s', length sid = 8 -> length iv = 12 ->
       encrypt c sid plain iv e out s2 = Ret (r, out', s') -> r <> Err KeyNotSet) /\
    (forall sid wire out r out' s', length sid = 8 ->
       decrypt sid wire out s2 = Ret (r, out', s') -> r <> Err KeyNotSet).
Proof.
  intros Hwf1 Hwf2 Hrun1 Hvalid.
  destruct (run_inv ops1 [] _ Hwf1 (session_inv_new v)) as (? & ? & Hrun1' & Hinv1).
  rewrite Hrun1 in Hrun1'. simplify_eq.
  destruct (run_inv ops2 _ _ Hwf2 Hinv1) as (evs2 & s2 & Hrun2 & Hinv2).
  assert (Hvalid2 : has_valid_keys s2 = true) by (by eapply run_keys_monotone).
  destruct (inv_valid_keys _ _ Hinv2 Hvalid2) as [Hself Hpeer]. exists evs2, s2. split_and!; [done..| |].
  - intros c sid plain iv e out r out' s' Hsid Hiv. rewrite encrypt_meets_spec by done. intros [= Hs].
    pose proof (encrypt_has_key c sid plain iv e out s2 Hself) as Hr. by rewrite Hs in Hr.
  - intros sid wire out r out' s' Hsid. rewrite decrypt_meets_spec by done. intros [= Hs].
    pose proof (decrypt_has_key sid wire out s2 Hpeer) as Hr. by rewrite Hs in Hr.
Qed.

End Traces.
(** The significant bytes of [build_aad]. *)
Lemma build_aad_bytes v sid c f :
  length sid = 8 -> ('(buf, n) ← build_aad v sid c f; slice buf 0 n) = Ret (aad_of v sid c f).
Proof. intros Hsid. destruct (build_aad_ret v sid c f Hsid) as (buf & n & -> & Hs). by rewrite bind_ret. Qed.

(** the associated data binds the header.  Two headers give the same bytes
    exactly when session id and counter agree and, from version 2 on, all
    sixteen flag bits; before version 2 the flags play no part. *)
Theorem aad_binds_header v sid c f sid' c' f' :
  length sid = 8 -> length sid' = 8 -> is_u64 c -> is_u64 c' -> is_u16 f -> is_u16 f' ->
  ('(buf, n) ← build_aad v sid c f; slice buf 0 n) = ('(buf, n) ← build_aad v sid' c' f'; slice buf 0 n) <->
  sid = sid' /\ c = c' /\ (version_ge v Version2 = true -> f = f').
Proof.
  intros Hsid Hsid' Hc Hc' Hf Hf'. rewrite !build_aad_bytes by done. unfold aad_of. split.
  - intros Heq%(inj Ret). apply app_inj_1 in Heq as [-> Heq]; [|lia].
    apply app_inj_1 in Heq as [Hcc Heq]; [|lens]. apply be_bytes_inj in Hcc; [|done..].
    split_and!; [done..|]. intros Hv. rewrite Hv in Heq. by apply be_bytes_inj in Heq.
  - intros (-> & -> & Hv). destruct (version_ge v Version2); [|done]. by rewrite Hv.
Qed.

Section Rotation.
Context {W : Type} `{AntiReplay W} `{Aead} `{!AeadLaws}.
Implicit Types (s : ExpresslaneSession W aead_key).

(** key rotation.  The all-zero key is refused by both installers and
    changes nothing.  Any other key is accepted: staged, it leaves the send key
    alone until the promotion makes it the send key and clears the staging, after
    which a further promotion does nothing; as a peer key it is tried first, with
    the key it replaces as the only fallback, and the replay window is kept. *)
Theorem key_rotation key s :
  key_wf key ->
  if is_invalid key
  then update_next_self_key key s = (Err InvalidKey, s) /\ update_peer_key key s = (Err InvalidKey, s)
  else exists k, cipher_new key = Ok k /\
    (update_next_self_key key s).1 = Ok tt /\
    (let s1 := (update_next_self_key key s).2 in
     let s2 := promote_self_key s1 in
     current_self s1 = current_self s /\ current_self s2 = Some k /\ next_self s2 = None /\
     promote_self_key s2 = s2) /\
    (update_peer_key key s).1 = Ok tt /\
    (let s1 := (update_peer_key key s).2 in
     peer_keys s1 = k :: option_list (current_peer (rx s)) /\
     replay_window (rx s1) = replay_window (rx s) /\ current_self s1 = current_self s).
Proof.
  intros Hk. unfold update_next_self_key, update_peer_key. destruct (is_invalid key) eqn:Hi; [done|].
  destruct (cipher_new_wf key Hk) as [k Hnew]. exists k. rewrite Hnew. done.
Qed.

End Rotation.

(** ** Witnesses

    Two version 2 sessions sharing a key, over the ring window and the toy AEAD. *)

Definition w_key (b : byte) : ExpresslaneKey := mkKey (replicate 32 b).
Definition w_sid : list byte := replicate 8 x07.
Definition w_iv : list byte := replicate 12 x09.
Definition w_plain : list byte := [x41; x42; x43].
Definition w_session : Type := ExpresslaneSession Ring.ReplayWindow (@aead_key ToyAead.toy_aead).
Definition w_cipher (b : byte) : Cipher (@aead_key ToyAead.toy_aead) := mkCipher (replicate 32 b).
Definition w_tx : w_session :=
  promote_self_key (update_next_self_key (w_key x01) (new Version2)).2.
Definition w_rx : w_session := (update_peer_key (w_key x01) (new Version2)).2.
Definition w_wire : list byte :=
  match encrypt 1 w_sid w_plain w_iv true (zeros 43) w_tx with Ret (_, out, _) => out | Panic => [] end.
Definition w_delivered : w_session :=
  match decrypt w_sid w_wire (zeros 3) w_rx with Ret (_, _, s) => s | Panic => w_rx end.

Lemma decrypt_implements_contract_witness :
  decrypt w_sid w_wire (zeros 3) w_rx = Ret (decrypt_spec w_sid w_wire (zeros 3) w_rx).
Proof. apply decrypt_implements_contract. reflexivity. Defined.

Lemma encrypt_implements_contract_witness :
  encrypt 1 w_sid w_plain w_iv true (zeros 43) w_tx = Ret (encrypt_spec 1 w_sid w_plain w_iv true (zeros 43) w_tx).
Proof. apply encrypt_implements_contract; reflexivity. Defined.

Lemma encrypt_decrypt_round_trip_witness :
  exists wire s1',
    encrypt 1 w_sid w_plain w_iv true (zeros 43) w_tx = Ret (Ok 43, wire, s1') /\
    decrypt w_sid (take 43 wire) (zeros 4) w_rx =
      Ret (Ok (3, true), w_plain ++ drop 3 (zeros 4), accept_counter 1 w_rx).
Proof.
  apply (encrypt_decrypt_round_trip (w_cipher x01) 1 w_sid w_plain w_iv true
           (zeros 43) (zeros 4) w_tx w_rx); try reflexivity; try done; vm_compute; lia.
Defined.

Lemma in_flight_survives_rotation_witness :
  exists wire s1',
    encrypt 1 w_sid w_plain w_iv true (zeros 43) w_tx = Ret (Ok 43, wire, s1') /\
    decrypt w_sid (take 43 wire) (zeros 4) (update_peer_key (w_key x02) w_rx).2 =
      Ret (Ok (3, true), w_plain ++ drop 3 (zeros 4), accept_counter 1 (update_peer_key (w_key x02) w_rx).2).
Proof.
  apply (in_flight_survives_rotation (w_cipher x01) (w_key x02)
           (w_cipher x02) 1 w_sid w_plain w_iv true
           (zeros 43) (zeros 4) w_tx w_rx);
    [reflexivity|reflexivity|done|done|vm_compute; lia|vm_compute; lia|reflexivity|reflexivity|reflexivity
    |vm_compute; reflexivity|vm_compute; reflexivity|vm_compute; reflexivity|].
  intros tag ct Hs. vm_compute in Hs. injection Hs as <- <-. vm_compute. reflexivity.
Defined.

Lemma decrypt_ok_authentic_witness :
  exists k plain, k ∈ peer_keys w_rx /\ length plain = 3 /\
    cipher_encrypt k w_iv (aad_of Version2 w_sid 1 FLAG_ENCODED) plain =
      (Ok (h_tag (decode_header w_wire)), take 3 (drop 40 w_wire)).
Proof.
  destruct (decrypt_ok_authentic w_sid w_wire (zeros 3) w_rx 3 true w_plain w_delivered)
    as (k & plain & Hk & Hlen & _ & _ & Henc & _); [reflexivity|vm_compute; reflexivity|].
  exists k, plain. split; [exact Hk|]. split; [exact Hlen|]. exact Henc.
Defined.

Lemma decrypt_err_safe_witness :
  let wire := <[39%nat := x01]> w_wire in
  exists out' s', decrypt w_sid wire (replicate 5 xff) w_rx = Ret (Err InvalidData, out', s') /\ s' = w_rx.
Proof.
  intros wire. eexists _, _. split.
  - vm_compute. reflexivity.
  - refine (proj1 (decrypt_err_safe w_sid wire (replicate 5 xff) w_rx InvalidData _ _ _ _)); [reflexivity|].
    vm_compute. reflexivity.
Defined.

Lemma replayed_wire_rejected_witness :
  decrypt w_sid w_wire (replicate 9 xff) w_delivered = Ret (Err Replayed, replicate 9 xff, w_delivered).
Proof.
  apply (replayed_wire_rejected w_sid w_wire (zeros 3) w_rx 3 true w_plain w_delivered [] w_sid w_wire);
    [reflexivity..|apply Refinement.represents_default|vm_compute; reflexivity|vm_compute; lia|reflexivity].
Defined.

Definition w_ops : list op :=
  [OReserve; OStage (w_key x01); OPromote; OEncrypt 1 w_sid w_plain w_iv true (zeros 43); OReserve;
   OPeerKey (w_key x01); ODecrypt w_sid w_wire (zeros 3); OPeerKey (w_key x02);
   ODecrypt w_sid w_wire (zeros 3); OPromote].

Lemma w_ops_wf : Forall op_wf w_ops.
Proof. repeat constructor; vm_compute; done. Defined.

Lemma no_packet_delivered_twice_witness :
  exists evs s, run (new Version2 : w_session) w_ops = Ret (evs, s) /\
    NoDup (delivered evs).
Proof.
  destruct (no_packet_delivered_twice (W := Ring.ReplayWindow) Version2 w_ops w_ops_wf) as (evs & s & Hrun & Hn & _).
  exists evs, s. split; [exact Hrun|exact Hn].
Defined.

Definition w_run : list event * w_session :=
  match run (new Version2) w_ops with Ret r => r | Panic => ([], new Version2) end.

Lemma reserved_counters_distinct_witness : reserved w_run.1 = [1; 2]%Z /\ NoDup (reserved w_run.1).
Proof.
  destruct (reserved_counters_distinct (W := Ring.ReplayWindow) Version2 w_ops w_run.1 w_run.2 w_ops_wf) as [Hseq Hn];
    [vm_compute; reflexivity|]. split; [vm_compute; reflexivity|]. apply Hn. vm_compute. reflexivity.
Defined.

Lemma valid_keys_suffice_witness :
  exists evs2 s2, run w_run.2 w_ops = Ret (evs2, s2) /\ has_valid_keys s2 = true.
Proof.
  destruct (valid_keys_suffice (W := Ring.ReplayWindow) Version2 w_ops w_ops w_run.1 w_run.2 w_ops_wf w_ops_wf)
    as (evs2 & s2 & Hrun & Hv & _); [vm_compute; reflexivity..|].
  exists evs2, s2. split; [exact Hrun|exact Hv].
Defined.

Lemma aad_binds_header_witness :
  ('(buf, n) ← build_aad Version1 w_sid 5 0; slice buf 0 n) =
  ('(buf, n) ← build_aad Version1 w_sid 5 0x8000; slice buf 0 n).
Proof.
  apply (aad_binds_header Version1 w_sid 5 0 w_sid 5 0x8000); try reflexivity; try done.
Defined.

Lemma key_rotation_witness :
  update_peer_key INVALID w_rx = (Err InvalidKey, w_rx) /\
  exists k, cipher_new (w_key x02) = Ok k /\ peer_keys (update_peer_key (w_key x02) w_rx).2 = k :: peer_keys w_rx.
Proof.
  split.
  - exact (proj2 (key_rotation INVALID w_rx eq_refl)).
  - destruct (key_rotation (w_key x02) w_rx eq_refl) as (k & Hk & _ & _ & _ & Hp & _).
    exists k. split; [exact Hk|exact Hp].
Defined.

End SessionProperties.
