(* ===== verification/SessionThreads.v ===== *)
(** * Threads sharing a session

    [ExpresslaneSession] is [Sync]: any thread may call any method at any time.
    This file refines the calls of [Session] into the steps between which other
    threads can run: acquiring and releasing the [next_self] and [rx] mutexes and
    the [current_self] reader-writer lock, and the single atomic operations on
    counters and flags.  A configuration is the shared session, the state of the
    locks and a program point per thread; [act] is one step of one thread, and
    memory is sequentially consistent.  A call that waits for its first lock has
    not taken a step yet; only [promote_self_key] waits while holding one.

    Every call that returns a result is logged at the step that determines it.
    The proofs show that the log is a sequential run of [SessionTrace]. *)

From stdpp Require Import base numbers list list_numbers option gmap sets functions.
From Stdlib Require Import Strings.Byte.
From S2P Require Import Prelude Threads ReplayWindow ReplayReference AntiReplay Cipher Session SessionFacts SessionProperties.
Import Tracking SessionSpec SessionFacts SessionTrace.

Module SessionThreads.

(** Where a thread is inside a call. *)
Inductive pc (K : Type) : Type :=
| Idle
(** [encrypt]: holds a read guard of [current_self]; then only the count is left *)
| Sealing (counter : Z) (session_id plain iv : list byte) (is_encoded : bool) (out : list byte)
| Counting
(** [update_next_self_key], [promote_self_key]: hold [next_self] *)
| Staging (key : ExpresslaneKey) (cipher : Cipher K)
| Promoting
| Installing (cipher : Cipher K)
| Writing (cipher : Cipher K)
| Flagging
(** [update_peer_key], [decrypt]: hold [rx] *)
| Replacing (key : ExpresslaneKey) (cipher : Cipher K)
| PeerFlagging
| Opening (session_id wire out : list byte)
(** [has_valid_keys]: the first load answered [true] *)
| Loading.
Arguments Idle {K}.
Arguments Sealing {K}.
Arguments Counting {K}.
Arguments Staging {K}.
Arguments Promoting {K}.
Arguments Installing {K}.
Arguments Writing {K}.
Arguments Flagging {K}.
Arguments Replacing {K}.
Arguments PeerFlagging {K}.
Arguments Opening {K}.
Arguments Loading {K}.

Definition holds_next {K} (p : pc K) : bool :=
  match p with Staging _ _ | Promoting | Installing _ | Writing _ | Flagging => true | _ => false end.
Definition holds_rx {K} (p : pc K) : bool :=
  match p with Replacing _ _ | PeerFlagging | Opening _ _ _ => true | _ => false end.
Definition is_sealing {K} (p : pc K) : bool := match p with Sealing _ _ _ _ _ _ => true | _ => false end.
Definition is_counting {K} (p : pc K) : bool := match p with Counting => true | _ => false end.
Definition is_writing {K} (p : pc K) : bool := match p with Writing _ => true | _ => false end.
Definition is_idle {K} (p : pc K) : bool := match p with Idle => true | _ => false end.

(** [readers] and [writer] are the state of the reader-writer lock.  [counting],
    [log] and [hints] are history: the threads about to count a packet, the
    calls whose result is determined, and the answers of [has_valid_keys]. *)
Record config (W K : Type) : Type := mkConfig {
  shared : ExpresslaneSession W K;
  next_lock : option nat;
  rx_lock : option nat;
  readers : gset nat;
  writer : option nat;
  pcs : nat -> pc K;
  counting : gset nat;
  log : list (nat * (op * event));
  hints : list (nat * bool);
}.
Arguments mkConfig {W K}.
Arguments shared {W K}.
Arguments next_lock {W K}.
Arguments rx_lock {W K}.
Arguments readers {W K}.
Arguments writer {W K}.
Arguments pcs {W K}.
Arguments counting {W K}.
Arguments log {W K}.
Arguments hints {W K}.

(** A step starts a call or continues the one the thread is in. *)
Inductive action : Type :=
| Call (o : op)
| CallHasValidKeys
| Continue.

Definition action_wf (a : action) : Prop := match a with Call o => op_wf o | _ => True end.

Section SessionThreads.
Context {W : Type} `{AntiReplay W} `{Aead}.
Abbreviation session := (ExpresslaneSession W aead_key).
Abbreviation config := (config W aead_key).
Abbreviation pc := (pc aead_key).
Implicit Types (c : config) (s : session) (p : pc) (t : nat).

Definition init (v : ExpresslaneVersion) : config :=
  mkConfig (new v) None None ∅ None (fun _ => Idle) ∅ [] [].

Definition go (t : nat) (p : pc) (c : config) : config :=
  mkConfig (shared c) (next_lock c) (rx_lock c) (readers c) (writer c) (<[t := p]> (pcs c))
    (counting c) (log c) (hints c).
Definition set_shared (s : session) (c : config) : config :=
  mkConfig s (next_lock c) (rx_lock c) (readers c) (writer c) (pcs c) (counting c) (log c) (hints c).
Definition set_next_lock (l : option nat) (c : config) : config :=
  mkConfig (shared c) l (rx_lock c) (readers c) (writer c) (pcs c) (counting c) (log c) (hints c).
Definition set_rx_lock (l : option nat) (c : config) : config :=
  mkConfig (shared c) (next_lock c) l (readers c) (writer c) (pcs c) (counting c) (log c) (hints c).
Definition set_readers (r : gset nat) (c : config) : config :=
  mkConfig (shared c) (next_lock c) (rx_lock c) r (writer c) (pcs c) (counting c) (log c) (hints c).
Definition set_writer (l : option nat) (c : config) : config :=
  mkConfig (shared c) (next_lock c) (rx_lock c) (readers c) l (pcs c) (counting c) (log c) (hints c).
Definition set_counting (r : gset nat) (c : config) : config :=
  mkConfig (shared c) (next_lock c) (rx_lock c) (readers c) (writer c) (pcs c) r (log c) (hints c).
Definition record (t : nat) (o : op) (ev : event) (c : config) : config :=
  mkConfig (shared c) (next_lock c) (rx_lock c) (readers c) (writer c) (pcs c) (counting c)
    (log c ++ [(t, (o, ev))]) (hints c).
Definition answer (t : nat) (b : bool) (c : config) : config :=
  mkConfig (shared c) (next_lock c) (rx_lock c) (readers c) (writer c) (pcs c) (counting c) (log c)
    (hints c ++ [(t, b)]).

(** The stores of the methods, one field each. *)
Definition store_current_self (k : option (Cipher aead_key)) (s : session) : session :=
  mkSession (version s) k (next_self s) (next_counter s) (packets_sent s) (rx s)
    (self_key_installed s) (peer_key_installed s).
Definition store_next_self (k : option (Cipher aead_key)) (s : session) : session :=
  mkSession (version s) (current_self s) k (next_counter s) (packets_sent s) (rx s)
    (self_key_installed s) (peer_key_installed s).
Definition store_self_flag (b : bool) (s : session) : session :=
  mkSession (version s) (current_self s) (next_self s) (next_counter s) (packets_sent s) (rx s)
    b (peer_key_installed s).
Definition store_peer_flag (b : bool) (s : session) : session :=
  mkSession (version s) (current_self s) (next_self s) (next_counter s) (packets_sent s) (rx s)
    (self_key_installed s) b.

(** The start of a call: what happens before its first lock is held. *)
Definition begin_call (t : nat) (o : op) (c : config) : option config :=
  match o with
  | OReserve =>
      let '(n, s) := reserve_counter (shared c) in
      Some (record t o (Reserved n) (set_shared s c))
  | OStage key =>
      if is_invalid key then Some (record t o (KeyResult (Err InvalidKey)) c)
      else match cipher_new key with
      | Err e => Some (record t o (KeyResult (Err e)) c)
      | Ok cipher =>
          if decide (next_lock c = None) then Some (go t (Staging key cipher) (set_next_lock (Some t) c)) else None
      end
  | OPromote =>
      if decide (next_lock c = None) then Some (go t Promoting (set_next_lock (Some t) c)) else None
  | OEncrypt counter sid plain iv e out =>
      if decide (length out < WIRE_OVERHEAD + length plain) then
        Some (record t o (Sent (Err BufferTooSmall) out) c)
      else if (u16_MAX <? Z.of_nat (length plain))%Z then Some (record t o (Sent (Err InvalidData) out) c)
      else if decide (writer c = None) then
        Some (go t (Sealing counter sid plain iv e out) (set_readers ({[t]} ∪ readers c) c))
      else None
  | OPeerKey key =>
      if is_invalid key then Some (record t o (KeyResult (Err InvalidKey)) c)
      else match cipher_new key with
      | Err e => Some (record t o (KeyResult (Err e)) c)
      | Ok cipher =>
          if decide (rx_lock c = None) then Some (go t (Replacing key cipher) (set_rx_lock (Some t) c)) else None
      end
  | ODecrypt sid wire out =>
      if decide (length wire < WIRE_OVERHEAD) then
        Some (record t o (Received (h_counter (decode_header wire)) (Err InsufficientData) out) c)
      else if decide (rx_lock c = None) then Some (go t (Opening sid wire out) (set_rx_lock (Some t) c)) else None
  end.

(** The rest of a call, one step per access to shared state. *)
Definition continue (t : nat) (p : pc) (c : config) : option config :=
  match p with
  | Idle => None
  | Sealing counter sid plain iv e out =>
      match encrypt counter sid plain iv e out (shared c) with
      | Panic => None
      | Ret (r, out', _) =>
          let c := record t (OEncrypt counter sid plain iv e out) (Sent r out') (set_readers (readers c ∖ {[t]}) c) in
          match r with
          | Ok _ => Some (go t Counting (set_counting ({[t]} ∪ counting c) c))
          | Err _ => Some (go t Idle c)
          end
      end
  | Counting =>
      let s := set_packets_sent (wrap64 (packets_sent (shared c) + 1)) (shared c) in
      Some (go t Idle (set_counting (counting c ∖ {[t]}) (set_shared s c)))
  | Staging key cipher =>
      Some (go t Idle (record t (OStage key) (KeyResult (Ok tt))
              (set_next_lock None (set_shared (store_next_self (Some cipher) (shared c)) c))))
  | Promoting =>
      match next_self (shared c) with
      | None => Some (go t Idle (record t OPromote Promoted (set_next_lock None c)))
      | Some cipher => Some (go t (Installing cipher) (set_shared (store_next_self None (shared c)) c))
      end
  | Installing cipher =>
      if decide (readers c = ∅ /\ writer c = None) then Some (go t (Writing cipher) (set_writer (Some t) c)) else None
  | Writing cipher =>
      Some (go t Flagging (record t OPromote Promoted
              (set_writer None (set_shared (store_current_self (Some cipher) (shared c)) c))))
  | Flagging => Some (go t Idle (set_next_lock None (set_shared (store_self_flag true (shared c)) c)))
  | Replacing key cipher =>
      let r := rx (shared c) in
      let s := set_rx (mkRx (Some cipher) (current_peer r) (replay_window r)) (shared c) in
      Some (go t PeerFlagging (record t (OPeerKey key) (KeyResult (Ok tt)) (set_shared s c)))
  | PeerFlagging => Some (go t Idle (set_rx_lock None (set_shared (store_peer_flag true (shared c)) c)))
  | Opening sid wire out =>
      match decrypt sid wire out (shared c) with
      | Panic => None
      | Ret (r, out', s) =>
          Some (go t Idle (record t (ODecrypt sid wire out) (Received (h_counter (decode_header wire)) r out')
                  (set_rx_lock None (set_shared s c))))
      end
  | Loading => Some (go t Idle (answer t (self_key_installed (shared c)) c))
  end.

Definition act (t : nat) (a : action) (c : config) : option config :=
  match pcs c t, a with
  | Idle, Call o => begin_call t o c
  | Idle, CallHasValidKeys =>
      if peer_key_installed (shared c) then Some (go t Loading c) else Some (answer t false c)
  | p, Continue => continue t p c
  | _, _ => None
  end.

(** Any number of threads, any well-formed calls, any interleaving. *)
Inductive reachable (v : ExpresslaneVersion) : config -> Prop :=
| reachable_init : reachable v (init v)
| reachable_step t a c c' : reachable v c -> action_wf a -> act t a c = Some c' -> reachable v c'.

(** The same for a given schedule, as a function. *)
Fixpoint run_schedule (sched : list (nat * action)) (c : config) : option config :=
  match sched with
  | [] => Some c
  | (t, a) :: sched => c' ← act t a c; run_schedule sched c'
  end.

(** ** The sequential view

    The session with the effects of calls that are logged but have stores left,
    and without the effect of a promotion that has only taken the staged key. *)
Definition holder_pc (l : option nat) (f : nat -> pc) : pc := match l with Some t => f t | None => Idle end.
Definition next_pc (c : config) : pc := holder_pc (next_lock c) (pcs c).
Definition rx_pc (c : config) : pc := holder_pc (rx_lock c) (pcs c).

Definition staged (c : config) : option (Cipher aead_key) :=
  match next_pc c with
  | Installing cipher | Writing cipher => Some cipher
  | _ => next_self (shared c)
  end.
Definition self_flag (c : config) : bool :=
  match next_pc c with Flagging => true | _ => self_key_installed (shared c) end.
Definition peer_flag (c : config) : bool :=
  match rx_pc c with PeerFlagging => true | _ => peer_key_installed (shared c) end.

Definition view (c : config) : session :=
  let s := shared c in
  mkSession (version s) (current_self s) (staged c) (next_counter s)
    (wrap64 (packets_sent s + Z.of_nat (size (counting c)))) (rx s) (self_flag c) (peer_flag c).

Definition ops_of (c : config) : list op := (log c).*2.*1.
Definition events_of (c : config) : list event := (log c).*2.*2.
Definition quiescent (c : config) : Prop := forall t, pcs c t = Idle.

End SessionThreads.
End SessionThreads.
Import SessionThreads.

(** ** Lock discipline *)

Module ThreadFacts.

Section ThreadFacts.
Context {W : Type} `{AntiReplay W} `{Aead} `{!AeadLaws}.
Abbreviation session := (ExpresslaneSession W aead_key).
Abbreviation config := (config W aead_key).
Abbreviation pc := (pc aead_key).
Implicit Types (c : config) (s : session) (p : pc) (t : nat).

Lemma holder_keep (h : pc -> bool) l f t p :
  tracks l h f -> h (f t) = false -> holder_pc l (<[t := p]> f) = holder_pc l f.
Proof.
  intros Hl Ht. destruct l as [u|]; [|done]. simpl. apply fn_lookup_insert_ne. intros ->.
  assert (h (f u) = true) by (by apply Hl). congruence.
Qed.

Lemma holder_here f t p : holder_pc (Some t) (<[t := p]> f) = p.
Proof. apply fn_lookup_insert. Qed.

(** What a thread knows about the arguments it carries. *)
Definition pc_ok (p : pc) : Prop :=
  match p with
  | Sealing counter sid plain iv e out => op_wf (OEncrypt counter sid plain iv e out)
  | Staging key cipher | Replacing key cipher => is_invalid key = false /\ cipher_new key = Ok cipher /\ key_wf key
  | Opening sid _ _ => length sid = 8
  | _ => True
  end.

Record threads_ok c : Prop := {
  ok_next : tracks (next_lock c) holds_next (pcs c);
  ok_rx : tracks (rx_lock c) holds_rx (pcs c);
  ok_readers : tracks_set (readers c) is_sealing (pcs c);
  ok_writer : tracks (writer c) is_writing (pcs c);
  ok_counting : tracks_set (counting c) is_counting (pcs c);
  ok_excl : writer c = None \/ readers c = ∅;
  ok_taken : match next_pc c with Installing _ | Writing _ => next_self (shared c) = None | _ => True end;
  ok_args : forall t, pc_ok (pcs c t);
  ok_sent : is_u64 (packets_sent (shared c));
}.

Lemma threads_ok_init v : threads_ok (init v).
Proof. split; try done; try (intros t; simpl; set_solver). by left. Qed.

(** A thread inside a critical section holds its lock. *)
Lemma holds_next_lock c t : threads_ok c -> holds_next (pcs c t) = true -> next_lock c = Some t.
Proof. intros Hok Ht. by apply (ok_next _ Hok). Qed.

Lemma holds_rx_lock c t : threads_ok c -> holds_rx (pcs c t) = true -> rx_lock c = Some t.
Proof. intros Hok Ht. by apply (ok_rx _ Hok). Qed.

Lemma holds_writer c t : threads_ok c -> is_writing (pcs c t) = true -> writer c = Some t.
Proof. intros Hok Ht. by apply (ok_writer _ Hok). Qed.

(** While a promotion is between its two locks, no key is staged. *)
Lemma taken_here c t cipher :
  threads_ok c -> pcs c t = Installing cipher \/ pcs c t = Writing cipher -> next_self (shared c) = None.
Proof.
  intros Hok Hpc. pose proof (ok_taken _ Hok) as Htaken. unfold next_pc in Htaken.
  rewrite (holds_next_lock c t) in Htaken by (done || by destruct Hpc as [->| ->]). simpl in Htaken.
  by destruct Hpc as [Hp|Hp]; rewrite Hp in Htaken.
Qed.

Lemma args_insert (f : nat -> pc) t p : (forall u, pc_ok (f u)) -> pc_ok p -> forall u, pc_ok (<[t := p]> f u).
Proof.
  intros Hf Hp u. destruct (decide (u = t)) as [->|Hu]; [by rewrite fn_lookup_insert|].
  by rewrite fn_lookup_insert_ne.
Qed.

(** The facts about the locks a step at program point [Hpc] starts from. *)
Ltac lock_facts Hok Hpc :=
  try (pose proof (holds_next_lock _ _ Hok (eq_trans (f_equal holds_next Hpc) eq_refl)));
  try (pose proof (holds_rx_lock _ _ Hok (eq_trans (f_equal holds_rx Hpc) eq_refl)));
  try (pose proof (holds_writer _ _ Hok (eq_trans (f_equal is_writing Hpc) eq_refl))).

(** Where the holder of a lock is after the step. *)
Ltac holder Hok Hpc :=
  first
    [ rewrite holder_here || rewrite fn_lookup_insert
    | rewrite (holder_keep holds_next) by (first [apply (ok_next _ Hok)|by rewrite Hpc])
    | rewrite (holder_keep holds_rx) by (first [apply (ok_rx _ Hok)|by rewrite Hpc])
    | match goal with Hl : next_lock _ = _ |- context [next_lock _] => rewrite Hl end
    | match goal with Hl : rx_lock _ = _ |- context [rx_lock _] => rewrite Hl end ].

(** Each lock is kept, acquired or released with its program point. *)
Ltac tracking Hok Hpc :=
  first
    [ by apply Hok
    | by apply tracks_keep; [apply Hok|rewrite Hpc]
    | by apply tracks_set_keep; [apply Hok|rewrite Hpc]
    | by apply tracks_acquire; [match goal with Hl : _ = None |- _ => rewrite <- Hl; apply Hok end|]
    | by eapply tracks_release; [match goal with Hl : _ = Some _ |- _ => rewrite <- Hl; apply Hok end|]
    | by apply tracks_set_add; [apply Hok|]
    | by apply tracks_set_remove; [apply Hok|] ].

Ltac step_ok Hok Hpc :=
  lock_facts Hok Hpc; pose proof (ok_taken _ Hok); split; simpl;
  [ tracking Hok Hpc | tracking Hok Hpc | tracking Hok Hpc | tracking Hok Hpc | tracking Hok Hpc
  | first [by apply Hok|by left|by right
          |destruct (ok_excl _ Hok) as [?|Hempty]; [by left|right; rewrite Hempty; set_solver]]
  | unfold next_pc in *; simpl in *; repeat holder Hok Hpc; try done;
    try (by eapply taken_here; eauto)
  | try (by apply Hok); try (by apply args_insert; [apply Hok|])
  | first [by apply Hok|apply wrap64_range|idtac] ].

Lemma begin_ok t o c c' : threads_ok c -> op_wf o -> pcs c t = Idle -> begin_call t o c = Some c' -> threads_ok c'.
Proof.
  intros Hok Hwf Hpc Hact. destruct o; simpl in *.
  - simplify_eq. step_ok Hok Hpc.
  - destruct (is_invalid key) eqn:?; [simplify_eq; step_ok Hok Hpc|].
    destruct (cipher_new key) eqn:?; [case_decide|]; simplify_eq; step_ok Hok Hpc.
  - case_decide; simplify_eq. step_ok Hok Hpc.
  - repeat case_decide; repeat case_match; simplify_eq; step_ok Hok Hpc.
  - destruct (is_invalid key) eqn:?; [simplify_eq; step_ok Hok Hpc|].
    destruct (cipher_new key) eqn:?; [case_decide|]; simplify_eq; step_ok Hok Hpc.
  - repeat case_decide; simplify_eq; step_ok Hok Hpc.
Qed.

Lemma continue_ok t c c' : threads_ok c -> continue t (pcs c t) c = Some c' -> threads_ok c'.
Proof.
  intros Hok Hact. pose proof (ok_args _ Hok t) as Hargs.
  destruct (pcs c t) as [|n sid plain iv e out| | | | | | | | |sid wire out|] eqn:Hpc; simpl in *; [done|..].
  - destruct Hargs as (_ & ? & ?). rewrite encrypt_meets_spec in Hact by done.
    destruct (encrypt_spec _ _ _ _ _ _ _) as [[[r|r] out'] s']; simplify_eq; step_ok Hok Hpc.
  - simplify_eq. step_ok Hok Hpc.
  - simplify_eq. step_ok Hok Hpc.
  - destruct (next_self (shared c)) eqn:?; simplify_eq; step_ok Hok Hpc.
  - case_decide as Hfree; [destruct Hfree|]; simplify_eq. step_ok Hok Hpc.
  - simplify_eq. step_ok Hok Hpc.
  - simplify_eq. step_ok Hok Hpc.
  - simplify_eq. step_ok Hok Hpc.
  - simplify_eq. step_ok Hok Hpc.
  - rewrite decrypt_meets_spec in Hact by done.
    destruct (decrypt_spec sid wire out (shared c)) as [[r out'] s'] eqn:Hs. simplify_eq.
    apply decrypt_spec_cases in Hs as [(? & _ & ->)|(? & ? & _ & _ & _ & ->)]; step_ok Hok Hpc.
  - simplify_eq. step_ok Hok Hpc.
Qed.

Lemma act_ok t a c c' : threads_ok c -> action_wf a -> act t a c = Some c' -> threads_ok c'.
Proof.
  intros Hok Hwf Hact. unfold act in Hact.
  destruct a; [destruct (pcs c t) eqn:Hpc; try done; by eapply begin_ok| |].
  - destruct (pcs c t) eqn:Hpc; try done. destruct (peer_key_installed _); simplify_eq; step_ok Hok Hpc.
  - apply (continue_ok t c c' Hok). by destruct (pcs c t).
Qed.

Lemma reachable_ok v c : reachable v c -> threads_ok c.
Proof. induction 1; [apply threads_ok_init|by eapply act_ok]. Qed.

(** ** Simulation by the sequential session *)

(** [encrypt] reads version and send key, and counts. *)
Lemma encrypt_congr n sid plain iv e out s1 s2 :
  version s1 = version s2 -> current_self s1 = current_self s2 ->
  encrypt_spec n sid plain iv e out s2 =
    ((encrypt_spec n sid plain iv e out s1).1,
     match (encrypt_spec n sid plain iv e out s1).1.1 with
     | Ok _ => set_packets_sent (wrap64 (packets_sent s2 + 1)) s2
     | Err _ => s2
     end).
Proof.
  intros Hv Hs. unfold encrypt_spec. rewrite Hv, Hs. repeat case_decide; try done.
  destruct (current_self s2); [|done]. by destruct (cipher_encrypt _ _ _ _) as [[]].
Qed.

(** [decrypt] reads version and receive state, and changes the latter. *)
Lemma decrypt_congr sid wire out s1 s2 :
  version s1 = version s2 -> rx s1 = rx s2 ->
  decrypt_spec sid wire out s2 =
    ((decrypt_spec sid wire out s1).1, set_rx (rx (decrypt_spec sid wire out s1).2) s2).
Proof.
  intros Hv Hr. unfold decrypt_spec, peer_keys, accept_counter. rewrite Hv, Hr.
  assert (Hset : set_rx (rx s2) s2 = s2) by (by destruct s2).
  repeat case_decide; try (destruct (ar_would_reject _ _)); try case_match; simpl; by rewrite ?Hr, ?Hset.
Qed.

(** A step either is invisible to the sequential view, or is one sequential call
    with the result the log records. *)
Definition simulates (t : nat) c c' : Prop :=
  (log c' = log c /\ view c' = view c) \/
  exists o ev, op_wf o /\ log c' = log c ++ [(t, (o, ev))] /\ exec (view c) o = Ret (ev, view c').

Ltac viewing Hok Hpc :=
  lock_facts Hok Hpc; unfold view, staged, self_flag, peer_flag, next_pc, rx_pc; simpl;
  repeat holder Hok Hpc; simpl.

Lemma begin_simulates t o c c' :
  threads_ok c -> op_wf o -> pcs c t = Idle -> begin_call t o c = Some c' -> simulates t c c'.
Proof.
  intros Hok Hwf Hpc Hact. destruct o as [|key| |n sid plain iv e out|key|sid wire out]; simpl in *.
  - simplify_eq. right. exists OReserve. by eexists.
  - destruct (is_invalid key) eqn:Hi; [|destruct (cipher_new key) eqn:Hc; [case_decide|]]; simplify_eq.
    + right. exists (OStage key). eexists. split_and!; [done..|]. simpl. unfold update_next_self_key. by rewrite Hi.
    + left. split; [done|]. viewing Hok Hpc. done.
    + right. exists (OStage key). eexists. split_and!; [done..|]. simpl. unfold update_next_self_key. by rewrite Hi, Hc.
  - case_decide; simplify_eq. left. split; [done|]. viewing Hok Hpc. done.
  - destruct Hwf as (? & ? & ?). change WIRE_OVERHEAD with 40 in Hact.
    case_decide; [|destruct (u16_MAX <? _)%Z eqn:Hmax; unfold u16_MAX in Hmax; zbool; [|case_decide]]; simplify_eq.
    1, 2: right; exists (OEncrypt n sid plain iv e out); eexists; split_and!; [done|reflexivity|];
      simpl; rewrite encrypt_meets_spec, bind_ret by done; unfold encrypt_spec.
    + by rewrite decide_True.
    + by rewrite decide_False, decide_True by lia.
    + left. split; [done|]. viewing Hok Hpc. done.
  - destruct (is_invalid key) eqn:Hi; [|destruct (cipher_new key) eqn:Hc; [case_decide|]]; simplify_eq.
    + right. exists (OPeerKey key). eexists. split_and!; [done..|]. simpl. unfold update_peer_key. by rewrite Hi.
    + left. split; [done|]. viewing Hok Hpc. done.
    + right. exists (OPeerKey key). eexists. split_and!; [done..|]. simpl. unfold update_peer_key. by rewrite Hi, Hc.
  - change WIRE_OVERHEAD with 40 in Hact. case_decide; [|case_decide]; simplify_eq.
    + right. exists (ODecrypt sid wire out). eexists. split_and!; [done|reflexivity|].
      simpl. rewrite decrypt_meets_spec, bind_ret by done. unfold decrypt_spec. by rewrite decide_True.
    + left. split; [done|]. viewing Hok Hpc. done.
Qed.

Lemma not_counting c t : threads_ok c -> is_counting (pcs c t) = false -> t ∉ counting c.
Proof. intros Hok Hp Hin%(ok_counting _ Hok). congruence. Qed.

Lemma seal_simulates t n sid plain iv e out c c' :
  threads_ok c -> pcs c t = Sealing n sid plain iv e out ->
  continue t (Sealing n sid plain iv e out) c = Some c' -> simulates t c c'.
Proof.
  intros Hok Hpc Hact. pose proof (ok_args _ Hok t) as Hargs. rewrite Hpc in Hargs. simpl in *.
  destruct Hargs as (? & ? & ?). rewrite encrypt_meets_spec in Hact by done.
  pose proof (encrypt_congr n sid plain iv e out (shared c) (view c) eq_refl eq_refl) as Hc.
  right. exists (OEncrypt n sid plain iv e out). simpl. rewrite encrypt_meets_spec, bind_ret by done. rewrite Hc.
  destruct (encrypt_spec n sid plain iv e out (shared c)) as [[[r|r] out'] s']; simplify_eq; simpl;
    (eexists; split_and!; [done..|]); do 2 f_equal.
  - unfold set_packets_sent. viewing Hok Hpc. f_equal.
    rewrite wrap64_add_l, size_add by (apply (not_counting c t Hok); by rewrite Hpc). f_equal. lia.
  - viewing Hok Hpc. done.
Qed.

Lemma continue_simulates t c c' : threads_ok c -> continue t (pcs c t) c = Some c' -> simulates t c c'.
Proof.
  intros Hok Hact. pose proof (ok_args _ Hok t) as Hargs.
  destruct (pcs c t) as [|n sid plain iv e out| |key k| |k|k| |key k| |sid wire out|] eqn:Hpc; [done|..].
  { by eapply seal_simulates. }
  all: simpl in *.
  - simplify_eq. left. split; [done|]. viewing Hok Hpc. f_equal.
    rewrite wrap64_add_l. rewrite (size_remove (counting c) t) by (apply (ok_counting _ Hok); by rewrite Hpc). f_equal. lia.
  - simplify_eq. destruct Hargs as (Hi & Hk & Hwf). right. exists (OStage key). eexists. split_and!; [done..|].
    simpl. unfold update_next_self_key. rewrite Hi, Hk. do 2 f_equal. viewing Hok Hpc. rewrite ?Hpc. done.
  - destruct (next_self (shared c)) as [k|] eqn:Hn; simplify_eq.
    + left. split; [done|]. viewing Hok Hpc. by rewrite ?Hpc, ?Hn.
    + right. exists OPromote. eexists. split_and!; [done..|]. simpl. do 2 f_equal. unfold promote_self_key.
      viewing Hok Hpc. rewrite ?Hpc, Hn. simpl. by rewrite ?Hpc.
  - case_decide as Hfree; [destruct Hfree|]; simplify_eq. left. split; [done|]. viewing Hok Hpc. by rewrite ?Hpc.
  - simplify_eq. right. exists OPromote. eexists. split_and!; [done..|]. simpl. do 2 f_equal.
    assert (Htaken : next_self (shared c) = None) by (eapply taken_here; eauto).
    unfold promote_self_key. viewing Hok Hpc. rewrite ?Hpc. simpl. by rewrite Htaken.
  - simplify_eq. left. split; [done|]. viewing Hok Hpc. by rewrite ?Hpc.
  - simplify_eq. destruct Hargs as (Hi & Hk & Hwf). right. exists (OPeerKey key). eexists. split_and!; [done..|].
    simpl. unfold update_peer_key. rewrite Hi, Hk. do 2 f_equal. viewing Hok Hpc. rewrite ?Hpc. done.
  - simplify_eq. left. split; [done|]. viewing Hok Hpc. by rewrite ?Hpc.
  - rewrite decrypt_meets_spec in Hact by done.
    pose proof (decrypt_congr sid wire out (shared c) (view c) eq_refl eq_refl) as Hc.
    right. exists (ODecrypt sid wire out). simpl. rewrite decrypt_meets_spec, bind_ret by done. rewrite Hc.
    destruct (decrypt_spec sid wire out (shared c)) as [[r out'] s'] eqn:Hs. simplify_eq.
    eexists. split_and!; [done..|]. simpl. do 2 f_equal.
    apply decrypt_spec_cases in Hs as [(? & _ & ->)|(? & ? & _ & _ & _ & ->)]; unfold set_rx;
      viewing Hok Hpc; rewrite ?Hpc; done.
  - simplify_eq. left. split; [done|]. viewing Hok Hpc. by rewrite ?Hpc.
Qed.

Lemma act_simulates t a c c' : threads_ok c -> action_wf a -> act t a c = Some c' -> simulates t c c'.
Proof.
  intros Hok Hwf Hact. unfold act in Hact. destruct a; destruct (pcs c t) eqn:Hpc; try done.
  { by eapply begin_simulates. }
  { destruct (peer_key_installed _); simplify_eq; left; split; try done. viewing Hok Hpc. done. }
  all: apply (continue_simulates t c c' Hok); by rewrite Hpc.
Qed.

Lemma run_snoc s ops evs s1 o ev s2 :
  run s ops = Ret (evs, s1) -> exec s1 o = Ret (ev, s2) -> run s (ops ++ [o]) = Ret (evs ++ [ev], s2).
Proof.
  revert s evs. induction ops as [|o' ops IH]; intros s evs Hrun Hexec; simpl in *.
  { simplify_eq. by rewrite Hexec, !bind_ret. }
  destruct (exec s o') as [[ev' s']|]; [|done]. rewrite bind_ret in *.
  destruct (run s' ops) as [[evs' s'']|] eqn:Hrun'; [|done]. rewrite bind_ret in Hrun. simplify_eq.
  by rewrite (IH s' evs' Hrun' Hexec), bind_ret.
Qed.

(** The log of every reachable configuration is a sequential run. *)
Lemma reachable_run v c :
  reachable v c -> Forall op_wf (ops_of c) /\ run (new v : session) (ops_of c) = Ret (events_of c, view c).
Proof.
  induction 1 as [|t a c c' Hreach [Hwf Hrun] Ha Hact].
  { split; [constructor|]. done. }
  destruct (act_simulates t a c c' (reachable_ok _ _ Hreach) Ha Hact) as [[Hl Hv]|(o & ev & Ho & Hl & Hexec)];
    unfold ops_of, events_of in *; rewrite Hl.
  - by rewrite Hv.
  - rewrite !fmap_app. simpl. split; [apply Forall_app; split; [done|by constructor]|]. by eapply run_snoc.
Qed.

Lemma reachable_inv v c : reachable v c -> session_inv (events_of c) (view c).
Proof.
  intros Hreach. destruct (reachable_run v c Hreach) as [Hwf Hrun].
  destruct (run_inv (ops_of c) [] _ Hwf (session_inv_new v)) as (evs & s & Hrun' & Hinv).
  rewrite Hrun in Hrun'. by simplify_eq.
Qed.

(** Schedules stay within the reachable configurations. *)
Lemma schedule_reachable v sched : forall c,
  reachable v c -> Forall (fun x => action_wf x.2) sched -> reachable v (default c (run_schedule sched c)).
Proof.
  enough (Hs : forall c c', reachable v c -> Forall (fun x => action_wf x.2) sched -> run_schedule sched c = Some c' ->
    reachable v c').
  { intros c Hc Hwf. destruct (run_schedule sched c) eqn:Hrun; [by eapply Hs|done]. }
  induction sched as [|[t a] sched IH]; intros c c' Hc Hwf Hrun; simpl in Hrun; [by simplify_eq|].
  apply Forall_cons_1 in Hwf as [Ha Hwf]. destruct (act t a c) as [c1|] eqn:Hact; [|done]. simpl in Hrun.
  eapply IH; [|done..]. by eapply reachable_step.
Qed.

Lemma quiescent_unlocked c :
  threads_ok c -> quiescent c -> next_lock c = None /\ rx_lock c = None /\ writer c = None /\ counting c = ∅.
Proof.
  intros Hok Hq. split_and!.
  - apply (tracks_none _ _ _ (ok_next _ Hok)). intros t. by rewrite Hq.
  - apply (tracks_none _ _ _ (ok_rx _ Hok)). intros t. by rewrite Hq.
  - apply (tracks_none _ _ _ (ok_writer _ Hok)). intros t. by rewrite Hq.
  - apply leibniz_equiv. intros t. split; [|set_solver]. intros Hin%(ok_counting _ Hok). by rewrite Hq in Hin.
Qed.

(** What the answers of [has_valid_keys] tell. *)
Record hints_ok c : Prop := {
  ok_loading : forall t, pcs c t = Loading -> peer_flag c = true;
  ok_hint : forall t, (t, true) ∈ hints c -> has_valid_keys (view c) = true;
}.

Lemma flags_monotone t c c' :
  simulates t c c' ->
  (self_flag c = true -> self_flag c' = true) /\ (peer_flag c = true -> peer_flag c' = true).
Proof.
  intros [[_ Hv]|(o & ev & Ho & _ & Hexec)].
  - change (self_flag c') with (self_key_installed (view c')). change (peer_flag c') with (peer_key_installed (view c')).
    by rewrite Hv.
  - by apply (SessionProperties.exec_flags_monotone (view c) o ev (view c')).
Qed.

Lemma shared_flags c :
  (self_key_installed (shared c) = true -> self_flag c = true) /\
  (peer_key_installed (shared c) = true -> peer_flag c = true).
Proof. unfold self_flag, peer_flag. split; intros; by case_match. Qed.

Lemma loading_insert (f : nat -> pc) t p u : p <> Loading -> <[t := p]> f u = Loading -> f u = Loading.
Proof.
  intros Hp. destruct (decide (u = t)) as [->|Hu]; [by rewrite fn_lookup_insert|by rewrite fn_lookup_insert_ne].
Qed.

Lemma continue_hints t p c c' :
  continue t p c = Some c' ->
  (forall u, pcs c' u = Loading -> pcs c u = Loading) /\
  (forall u, (u, true) ∈ hints c' -> (u, true) ∈ hints c \/ (p = Loading /\ self_key_installed (shared c) = true)).
Proof.
  intros Hact. destruct p; simpl in Hact; repeat (case_match; simplify_eq); simplify_eq; simpl;
    (split; [intros u; by apply loading_insert|]); intros u Hin; auto.
  apply elem_of_app in Hin as [Hin|Hin]; [by left|]. apply list_elem_of_singleton in Hin. simplify_eq. auto.
Qed.

Lemma begin_hints t o c c' :
  begin_call t o c = Some c' -> (forall u, pcs c' u = Loading -> pcs c u = Loading) /\ hints c' = hints c.
Proof.
  intros Hact. destruct o; simpl in Hact; repeat (case_match; simplify_eq); simplify_eq; simpl; (split; [|done]);
    intros u; try done; by apply loading_insert.
Qed.

Lemma act_hints_ok t a c c' :
  threads_ok c -> action_wf a -> act t a c = Some c' -> hints_ok c -> hints_ok c'.
Proof.
  intros Hok Hwf Hact [Hload Hhint].
  destruct (flags_monotone t c c' (act_simulates _ _ _ _ Hok Hwf Hact)) as [Hself Hpeer].
  assert (Hkeys : has_valid_keys (view c) = true -> has_valid_keys (view c') = true).
  { unfold has_valid_keys. simpl. rewrite !andb_true_iff. tauto. }
  destruct (shared_flags c) as [Hs1 Hs2]. unfold act in Hact.
  destruct a; destruct (pcs c t) eqn:Hpc; try done.
  { apply begin_hints in Hact as [Hl Hh]. split; [eauto|]. rewrite Hh. eauto. }
  { destruct (peer_key_installed (shared c)) eqn:Hp; simplify_eq; (split; [|simpl; intros u Hin]).
    - intros u _. auto.
    - apply Hkeys. by apply (Hhint u).
    - eauto.
    - apply elem_of_app in Hin as [Hin|Hin%list_elem_of_singleton]; [|done]. by apply (Hhint u). }
  all: apply continue_hints in Hact as [Hl Hh]; split; [eauto|]; intros u Hin; destruct (Hh u Hin) as [Hin'|[Heq Hf]];
    try done; try (by apply Hkeys, (Hhint u)).
  unfold has_valid_keys. simpl. rewrite (Hpeer (Hload t Hpc)), (Hself (Hs1 Hf)). done.
Qed.

Lemma reachable_hints v c : reachable v c -> hints_ok c.
Proof.
  induction 1 as [|t a c c' Hreach IH Ha Hact]; [split; [done|]; intros t Hin; by apply elem_of_nil in Hin|].
  apply (act_hints_ok t a c c' (reachable_ok _ _ Hreach) Ha Hact IH).
Qed.

(** A packet call that failed for want of a key. *)
Definition key_missing (ev : event) : bool :=
  match ev with Sent (Err KeyNotSet) _ | Received _ (Err KeyNotSet) _ => true | _ => false end.

Lemma exec_key_present s o ev s' :
  is_Some (current_self s) -> is_Some (current_peer (rx s)) -> op_wf o -> exec s o = Ret (ev, s') ->
  key_missing ev = false.
Proof.
  intros Hself Hpeer Ho Hexec. destruct o as [| | |n sid plain iv e out| |sid wire out]; simpl in Hexec.
  4: { destruct Ho as (_ & ? & ?). rewrite encrypt_meets_spec, bind_ret in Hexec by done.
    pose proof (SessionProperties.encrypt_has_key n sid plain iv e out s Hself) as Hr.
    destruct (encrypt_spec _ _ _ _ _ _ _) as [[[|[]] out'] s1]; by simplify_eq. }
  5: { rewrite decrypt_meets_spec, bind_ret in Hexec by done.
    pose proof (SessionProperties.decrypt_has_key sid wire out s Hpeer) as Hr.
    destruct (decrypt_spec _ _ _ _) as [[[|[]] out'] s1]; by simplify_eq. }
  all: repeat (case_match; simplify_eq); by simplify_eq.
Qed.

(** The steps a call has left. *)
Definition steps_left (p : pc) : nat :=
  match p with
  | Idle => 0
  | Counting | Staging _ _ | Flagging | PeerFlagging | Opening _ _ _ | Loading => 1
  | Sealing _ _ _ _ _ _ | Writing _ | Replacing _ _ => 2
  | Installing _ => 3
  | Promoting => 4
  end.

Lemma continue_steps t c c' :
  act t Continue c = Some c' -> steps_left (pcs c' t) < steps_left (pcs c t).
Proof.
  unfold act. destruct (pcs c t) eqn:Hpc; simpl; intros Hact; repeat (case_match; simplify_eq); simplify_eq; simpl;
    rewrite fn_lookup_insert; simpl; lia.
Qed.

(** Only the wait for the write lock can block a started call. *)
Lemma continue_enabled t c :
  threads_ok c -> pcs c t <> Idle -> (forall k, pcs c t = Installing k -> readers c = ∅ /\ writer c = None) ->
  exists c', act t Continue c = Some c'.
Proof.
  intros Hok Hidle Hw. pose proof (ok_args _ Hok t) as Hargs. unfold act.
  destruct (pcs c t) eqn:Hpc; simpl in *; try done; try (by eexists).
  - destruct Hargs as (_ & ? & ?). rewrite encrypt_meets_spec by done.
    destruct (encrypt_spec _ _ _ _ _ _ _) as [[[|] ?] ?]; by eexists.
  - case_match; by eexists.
  - rewrite decide_True by (by eapply Hw). by eexists.
  - rewrite decrypt_meets_spec by done. destruct (decrypt_spec _ _ _ _) as [[? ?] ?]. by eexists.
Qed.

(** While some thread is inside a call, some thread can continue its call: the
    writer, or else a reader, or else anyone. *)
Lemma some_thread_continues c t :
  threads_ok c -> pcs c t <> Idle -> exists u c', pcs c u <> Idle /\ act u Continue c = Some c'.
Proof.
  intros Hok Ht. destruct (decide (readers c = ∅)) as [Hr|Hr].
  - destruct (writer c) as [u|] eqn:Hw.
    + assert (Hu : is_writing (pcs c u) = true) by (by apply (ok_writer _ Hok)).
      exists u. destruct (continue_enabled u c Hok) as [c' Hact]; [by intros He; rewrite He in Hu| |].
      { intros k Hk. by rewrite Hk in Hu. }
      exists c'. split; [|done]. intros He. by rewrite He in Hu.
    + destruct (continue_enabled t c Hok Ht) as [c' Hact]; [done|]. eauto.
  - apply set_choose_L in Hr as [u Hu%(ok_readers _ Hok)].
    assert (Hidle : pcs c u <> Idle) by (intros He; by rewrite He in Hu).
    destruct (continue_enabled u c Hok Hidle) as [c' Hact]; [intros k Hk; by rewrite Hk in Hu|]. eauto.
Qed.

Lemma quiescent_enabled c t o : threads_ok c -> quiescent c -> exists c', act t (Call o) c = Some c'.
Proof.
  intros Hok Hq. destruct (quiescent_unlocked c Hok Hq) as (Hn & Hr & Hw & _). unfold act. rewrite (Hq t).
  destruct o; simpl; rewrite ?Hn, ?Hr, ?Hw; repeat case_match; try done; by eexists.
Qed.

End ThreadFacts.
End ThreadFacts.
Import ThreadFacts.

(** ** Properties *)

Module ThreadProperties.

Section ThreadProperties.
Context {W : Type} `{AntiReplay W} `{Aead} `{!AeadLaws}.
Implicit Types (c : config W aead_key).

(** C3: calls are linearizable.  However the steps of any number of threads
    interleave, the calls in the order of their deciding steps, with the results
    they return, are a sequential run of a new session; it ends in the shared
    session once the stores still outstanding are made, and exactly in the shared
    session when no thread is inside a call. *)
Theorem interleavings_linearize v c :
  reachable v c ->
  run (new v : ExpresslaneSession W aead_key) (ops_of c) = Ret (events_of c, view c) /\
  (quiescent c -> view c = shared c).
Proof.
  intros Hreach. split; [by apply reachable_run|]. intros Hq. pose proof (reachable_ok _ _ Hreach) as Hok.
  destruct (quiescent_unlocked c Hok Hq) as (Hn & Hr & _ & Hc).
  unfold view, staged, self_flag, peer_flag, next_pc, rx_pc. rewrite Hn, Hr, Hc.
  rewrite size_empty, Z.add_0_r, wrap64_small by apply Hok. by destruct (shared c).
Qed.

(** no packet is delivered twice and no counter reserved twice, also when
    threads share the session: the counters of delivered packets are pairwise
    distinct, and so are the first [2^64 - 1] reserved ones. *)
Theorem threads_counters_distinct v c :
  reachable v c ->
  NoDup (delivered (events_of c)) /\
  ((Z.of_nat (length (reserved (events_of c))) < 2 ^ 64)%Z -> NoDup (reserved (events_of c))).
Proof.
  intros Hreach. pose proof (reachable_inv _ _ Hreach) as Hinv. split; [apply Hinv|]. intros Hn.
  rewrite (inv_reserved_seq _ _ Hinv). by apply SessionProperties.NoDup_seq_wrap.
Qed.

(** the locks exclude.  At most one thread is between locking and releasing
    [rx], at most one holds [next_self], and while a promotion writes the send
    key no thread is sealing under it. *)
Theorem locks_exclude v c t u :
  reachable v c ->
  (holds_rx (pcs c t) = true -> holds_rx (pcs c u) = true -> t = u) /\
  (holds_next (pcs c t) = true -> holds_next (pcs c u) = true -> t = u) /\
  (is_writing (pcs c t) = true -> is_sealing (pcs c u) = false).
Proof.
  intros Hreach. pose proof (reachable_ok _ _ Hreach) as Hok. split_and!.
  - intros Ht%(ok_rx _ Hok) Hu%(ok_rx _ Hok). congruence.
  - intros Ht%(ok_next _ Hok) Hu%(ok_next _ Hok). congruence.
  - intros Ht%(ok_writer _ Hok). destruct (ok_excl _ Hok) as [Hw|Hr]; [congruence|].
    destruct (is_sealing (pcs c u)) eqn:Hu; [|done]. apply (ok_readers _ Hok) in Hu. set_solver.
Qed.

(** C13: no deadlock, no panic and no lost lock.  While a thread is inside a call,
    some thread inside a call can take its next step; every such step brings its
    call closer to its end, at most four steps away; and when no thread is inside
    a call, every call can start. *)
Theorem session_deadlock_free v c :
  reachable v c ->
  (forall t, pcs c t <> Idle -> exists u c', pcs c u <> Idle /\ act u Continue c = Some c') /\
  (forall t c', act t Continue c = Some c' -> steps_left (pcs c' t) < steps_left (pcs c t) <= 4) /\
  (quiescent c -> forall t o, exists c', act t (Call o) c = Some c').
Proof.
  intros Hreach. pose proof (reachable_ok _ _ Hreach) as Hok. split_and!.
  - intros t Ht. by eapply some_thread_continues.
  - intros t c' Hact. split; [by apply continue_steps|]. destruct (pcs c t); simpl; lia.
  - intros Hq t o. by apply quiescent_enabled.
Qed.

(** C14: the lock-free key hint never misleads.  Once some thread saw
    [has_valid_keys] answer [true], no call of any thread decided after that
    fails with [KeyNotSet], although the two flags are read one after the other
    and stored after the keys. *)
Theorem hint_never_misleads v c t0 t a c' o ev :
  reachable v c -> (t0, true) ∈ hints c -> action_wf a -> act t a c = Some c' ->
  log c' = log c ++ [(t, (o, ev))] ->
  key_missing ev = false.
Proof.
  intros Hreach Hhint Hwf Hact Hlog. pose proof (reachable_ok _ _ Hreach) as Hok.
  pose proof (ok_hint _ (reachable_hints _ _ Hreach) _ Hhint) as Hkeys.
  destruct (SessionProperties.inv_valid_keys _ _ (reachable_inv _ _ Hreach) Hkeys) as [Hself Hpeer].
  destruct (act_simulates _ _ _ _ Hok Hwf Hact) as [[Hl _]|(o' & ev' & Ho & Hl & Hexec)];
    rewrite Hl in Hlog; [by apply (f_equal length) in Hlog; rewrite length_app in Hlog; simpl in Hlog; lia|].
  apply (inj (app (log c))) in Hlog. simplify_eq. by eapply exec_key_present.
Qed.

End ThreadProperties.

(** ** Witnesses

    Three threads: thread 0 stages and promotes a send key while thread 1 already
    encrypts, thread 2 installs the peer key, asks for the hint and decrypts
    before thread 1 has counted its packet. *)
Import SessionProperties.SessionProperties.

Definition w_schedule : list (nat * action) :=
  [(0, Call (OStage (w_key x01))); (0, Continue); (0, Call OPromote); (0, Continue);
   (1, Call (OEncrypt 9 w_sid w_plain w_iv true (zeros 43))); (1, Continue);
   (0, Continue); (0, Continue); (1, Call OReserve);
   (1, Call (OEncrypt 1 w_sid w_plain w_iv true (zeros 43))); (2, Call (OPeerKey (w_key x01)));
   (1, Continue); (2, Continue); (0, Continue); (2, Continue);
   (2, CallHasValidKeys); (2, Continue); (2, Call (ODecrypt w_sid w_wire (zeros 3)))].

Definition w_config (n : nat) : config Ring.ReplayWindow (@aead_key ToyAead.toy_aead) :=
  default (init Version2) (run_schedule (take n w_schedule) (init Version2)).

Lemma w_reachable n : reachable Version2 (w_config n).
Proof.
  apply schedule_reachable; [constructor|]. apply Forall_take. unfold w_schedule.
  repeat (apply Forall_cons_2; [vm_compute; done|]). apply Forall_nil_2.
Defined.

(** After the whole schedule thread 2 is decrypting and thread 1 has not counted. *)
Lemma interleavings_linearize_witness :
  length (ops_of (w_config 18)) = 6 /\
  run (new Version2 : w_session) (ops_of (w_config 18)) = Ret (events_of (w_config 18), view (w_config 18)).
Proof.
  split; [vm_compute; reflexivity|]. exact (proj1 (interleavings_linearize Version2 _ (w_reachable 18))).
Defined.

Lemma threads_counters_distinct_witness :
  reserved (events_of (w_config 18)) = [1%Z] /\ NoDup (reserved (events_of (w_config 18))).
Proof.
  split; [vm_compute; reflexivity|].
  apply (proj2 (threads_counters_distinct Version2 _ (w_reachable 18))). vm_compute. reflexivity.
Defined.

(** While thread 0 writes the send key, nobody seals. *)
Lemma locks_exclude_witness : is_sealing (pcs (w_config 7) 1) = false.
Proof.
  apply (proj2 (proj2 (locks_exclude Version2 (w_config 7) 0 1 (w_reachable 7)))). vm_compute. reflexivity.
Defined.

(** Thread 0 waits for the write lock while thread 1 seals. *)
Lemma session_deadlock_free_witness :
  act 0 Continue (w_config 5) = None /\
  exists u c', pcs (w_config 5) u <> Idle /\ act u Continue (w_config 5) = Some c'.
Proof.
  split; [vm_compute; reflexivity|].
  apply (proj1 (session_deadlock_free Version2 (w_config 5) (w_reachable 5)) 0). vm_compute. discriminate.
Defined.

Lemma hint_never_misleads_witness :
  exists c' ev, act 2 Continue (w_config 18) = Some c' /\
    log c' = log (w_config 18) ++ [(2, (ODecrypt w_sid w_wire (zeros 3), ev))] /\ key_missing ev = false.
Proof.
  assert (Hsome : match act 2 Continue (w_config 18) with Some _ => true | None => false end = true) by (vm_compute; reflexivity).
  destruct (act 2 Continue (w_config 18)) as [c'|] eqn:Hact; [|discriminate Hsome]. exists c', (Received 1 (Ok (3, true)) w_plain).
  assert (Hlog : log c' = log (w_config 18) ++ [(2, (ODecrypt w_sid w_wire (zeros 3), Received 1 (Ok (3, true)) w_plain))]).
  { assert (Hl : log <$> act 2 Continue (w_config 18) =
      Some (log (w_config 18) ++ [(2, (ODecrypt w_sid w_wire (zeros 3), Received 1 (Ok (3, true)) w_plain))]))
      by (vm_compute; reflexivity).
    rewrite Hact in Hl. by injection Hl. }
  split; [reflexivity|]. split; [exact Hlog|].
  apply (hint_never_misleads Version2 (w_config 18) 2 2 Continue c' (ODecrypt w_sid w_wire (zeros 3)));
    [apply w_reachable| |done|exact Hact|exact Hlog].
  assert (Hh : hints (w_config 18) = [(2, true)]) by (vm_compute; reflexivity). rewrite Hh. apply list_elem_of_here.
Defined.

End ThreadProperties.
