(* ===== verification/AesGcm.v ===== *)
(** * AES-256-GCM, and the golden wire vectors

    The cipher that the parameter [Aead] stands for, written from its standards
    (FIPS 197, SP 800-38D) for 12-byte nonces.  It satisfies [AeadLaws], so every
    theorem about sessions holds with it, and it lets the vectors that
    [tests/wire_vectors.rs] and [tests/wire_vectors_v1.rs] pin be evaluated. *)

From stdpp Require Import base numbers strings list list_numbers option.
From Stdlib Require Import Strings.Byte Strings.Ascii.
From S2P Require Import Prelude ReplayWindow AntiReplay Cipher Session.
Import Session.


(** ** AES-256 (FIPS 197) *)

Module Aes.

Definition sbox (b : byte) : byte :=
  match b with
  | x00 => x63 | x01 => x7c | x02 => x77 | x03 => x7b | x04 => xf2 | x05 => x6b | x06 => x6f | x07 => xc5
  | x08 => x30 | x09 => x01 | x0a => x67 | x0b => x2b | x0c => xfe | x0d => xd7 | x0e => xab | x0f => x76
  | x10 => xca | x11 => x82 | x12 => xc9 | x13 => x7d | x14 => xfa | x15 => x59 | x16 => x47 | x17 => xf0
  | x18 => xad | x19 => xd4 | x1a => xa2 | x1b => xaf | x1c => x9c | x1d => xa4 | x1e => x72 | x1f => xc0
  | x20 => xb7 | x21 => xfd | x22 => x93 | x23 => x26 | x24 => x36 | x25 => x3f | x26 => xf7 | x27 => xcc
  | x28 => x34 | x29 => xa5 | x2a => xe5 | x2b => xf1 | x2c => x71 | x2d => xd8 | x2e => x31 | x2f => x15
  | x30 => x04 | x31 => xc7 | x32 => x23 | x33 => xc3 | x34 => x18 | x35 => x96 | x36 => x05 | x37 => x9a
  | x38 => x07 | x39 => x12 | x3a => x80 | x3b => xe2 | x3c => xeb | x3d => x27 | x3e => xb2 | x3f => x75
  | x40 => x09 | x41 => x83 | x42 => x2c | x43 => x1a | x44 => x1b | x45 => x6e | x46 => x5a | x47 => xa0
  | x48 => x52 | x49 => x3b | x4a => xd6 | x4b => xb3 | x4c => x29 | x4d => xe3 | x4e => x2f | x4f => x84
  | x50 => x53 | x51 => xd1 | x52 => x00 | x53 => xed | x54 => x20 | x55 => xfc | x56 => xb1 | x57 => x5b
  | x58 => x6a | x59 => xcb | x5a => xbe | x5b => x39 | x5c => x4a | x5d => x4c | x5e => x58 | x5f => xcf
  | x60 => xd0 | x61 => xef | x62 => xaa | x63 => xfb | x64 => x43 | x65 => x4d | x66 => x33 | x67 => x85
  | x68 => x45 | x69 => xf9 | x6a => x02 | x6b => x7f | x6c => x50 | x6d => x3c | x6e => x9f | x6f => xa8
  | x70 => x51 | x71 => xa3 | x72 => x40 | x73 => x8f | x74 => x92 | x75 => x9d | x76 => x38 | x77 => xf5
  | x78 => xbc | x79 => xb6 | x7a => xda | x7b => x21 | x7c => x10 | x7d => xff | x7e => xf3 | x7f => xd2
  | x80 => xcd | x81 => x0c | x82 => x13 | x83 => xec | x84 => x5f | x85 => x97 | x86 => x44 | x87 => x17
  | x88 => xc4 | x89 => xa7 | x8a => x7e | x8b => x3d | x8c => x64 | x8d => x5d | x8e => x19 | x8f => x73
  | x90 => x60 | x91 => x81 | x92 => x4f | x93 => xdc | x94 => x22 | x95 => x2a | x96 => x90 | x97 => x88
  | x98 => x46 | x99 => xee | x9a => xb8 | x9b => x14 | x9c => xde | x9d => x5e | x9e => x0b | x9f => xdb
  | xa0 => xe0 | xa1 => x32 | xa2 => x3a | xa3 => x0a | xa4 => x49 | xa5 => x06 | xa6 => x24 | xa7 => x5c
  | xa8 => xc2 | xa9 => xd3 | xaa => xac | xab => x62 | xac => x91 | xad => x95 | xae => xe4 | xaf => x79
  | xb0 => xe7 | xb1 => xc8 | xb2 => x37 | xb3 => x6d | xb4 => x8d | xb5 => xd5 | xb6 => x4e | xb7 => xa9
  | xb8 => x6c | xb9 => x56 | xba => xf4 | xbb => xea | xbc => x65 | xbd => x7a | xbe => xae | xbf => x08
  | xc0 => xba | xc1 => x78 | xc2 => x25 | xc3 => x2e | xc4 => x1c | xc5 => xa6 | xc6 => xb4 | xc7 => xc6
  | xc8 => xe8 | xc9 => xdd | xca => x74 | xcb => x1f | xcc => x4b | xcd => xbd | xce => x8b | xcf => x8a
  | xd0 => x70 | xd1 => x3e | xd2 => xb5 | xd3 => x66 | xd4 => x48 | xd5 => x03 | xd6 => xf6 | xd7 => x0e
  | xd8 => x61 | xd9 => x35 | xda => x57 | xdb => xb9 | xdc => x86 | xdd => xc1 | xde => x1d | xdf => x9e
  | xe0 => xe1 | xe1 => xf8 | xe2 => x98 | xe3 => x11 | xe4 => x69 | xe5 => xd9 | xe6 => x8e | xe7 => x94
  | xe8 => x9b | xe9 => x1e | xea => x87 | xeb => xe9 | xec => xce | xed => x55 | xee => x28 | xef => xdf
  | xf0 => x8c | xf1 => xa1 | xf2 => x89 | xf3 => x0d | xf4 => xbf | xf5 => xe6 | xf6 => x42 | xf7 => x68
  | xf8 => x41 | xf9 => x99 | xfa => x2d | xfb => x0f | xfc => xb0 | xfd => x54 | xfe => xbb | xff => x16
  end.

(** Multiplication by [x] in GF(2^8). *)
Definition xtime (b : byte) : byte :=
  let z := Z_of_byte b in byte_of_Z (Z.lxor (2 * z) (if (128 <=? z)%Z then 0x11B else 0)).

Definition xor_word (a b : list byte) : list byte := zip_with xor_byte a b.

(** Sixteen bytes by index; what is missing counts as zero. *)
Definition block (f : nat -> byte) : list byte := f <$> seq 0 16.
Definition xor_block (a b : list byte) : list byte := block (fun i => xor_byte (a !!! i) (b !!! i)).

(** *** Key expansion: sixty words, the last one first *)

Definition rot_word (w : list byte) : list byte := drop 1 w ++ take 1 w.
Definition sub_word (w : list byte) : list byte := sbox <$> w.

Fixpoint rcon (i : nat) : byte := match i with 0 | 1 => x01 | S i => xtime (rcon i) end.

(** The word after [ws], the [i]-th. *)
Definition next_word (i : nat) (ws : list (list byte)) : list byte :=
  let temp := ws !!! 0 in
  let temp :=
    if decide (i `mod` 8 = 0) then xor_word (sub_word (rot_word temp)) [rcon (i / 8); x00; x00; x00]
    else if decide (i `mod` 8 = 4) then sub_word temp
    else temp in
  xor_word (ws !!! 7) temp.

Fixpoint words4 (n : nat) (bs : list byte) : list (list byte) :=
  match n with O => [] | S n => take 4 bs :: words4 n (drop 4 bs) end.

Definition expand_words (key : list byte) : list (list byte) :=
  reverse (foldl (fun ws i => next_word i ws :: ws) (reverse (words4 8 key)) (seq 8 52)).

Definition key_schedule (key : list byte) : list (list byte) :=
  let ws := expand_words key in
  (fun r => mjoin (take 4 (drop (4 * r) ws))) <$> seq 0 15.

(** *** The block cipher, on the sixteen bytes of the state column by column *)

Definition sub_bytes (s : list byte) : list byte := sbox <$> s.
Definition shift_rows (s : list byte) : list byte := block (fun i => s !!! ((5 * i) `mod` 16)).

(** Row [r] of a column: [2 a_r + 3 a_(r+1) + a_(r+2) + a_(r+3)]. *)
Definition mix_byte (s : list byte) (i : nat) : byte :=
  let a k := s !!! (4 * (i / 4) + (i + k) `mod` 4) in
  xor_byte (xor_byte (xtime (a 0)) (xor_byte (xtime (a 1)) (a 1))) (xor_byte (a 2) (a 3)).

Definition mix_columns (s : list byte) : list byte := block (mix_byte s).

Definition round (s rk : list byte) : list byte := xor_block (mix_columns (shift_rows (sub_bytes s))) rk.

Definition encrypt_block (rks : list (list byte)) (b : list byte) : list byte :=
  let s := foldl round (xor_block b (rks !!! 0)) (take 13 (drop 1 rks)) in
  xor_block (shift_rows (sub_bytes s)) (rks !!! 14).

(** The example of FIPS 197, appendix C.3. *)
Example aes256_fips_197 :
  encrypt_block (key_schedule (byte_of_Z <$> seqZ 0 32)) ((fun i => byte_of_Z (17 * i)) <$> seqZ 0 16) =
    [x8e; xa2; xb7; xca; x51; x67; x45; xbf; xea; xfc; x49; x90; x4b; x49; x60; x89].
Proof. vm_compute. reflexivity. Qed.

End Aes.

(** ** Galois/counter mode (SP 800-38D) *)

Module Gcm.
Import Aes.

(** Multiplication in GF(2^128); bit 0 of a block is its most significant one. *)
Definition R : Z := Z.shiftl 0xE1 120.

Definition mul_step (x : Z) (zv : Z * Z) (i : Z) : Z * Z :=
  let '(z, v) := zv in
  (if Z.testbit x (127 - i) then Z.lxor z v else z,
   if Z.testbit v 0 then Z.lxor (Z.shiftr v 1) R else Z.shiftr v 1).

Definition gf_mul (x y : Z) : Z := (foldl (mul_step x) (0%Z, y) (seqZ 0 128)).1.

(** The sixteen-byte blocks of a string, the last one padded with zeros. *)
Definition blocks (bs : list byte) : list Z :=
  (fun i => be_value (block (fun j => bs !!! (16 * i + j)))) <$> seq 0 ((length bs + 15) / 16).

Definition ghash (h : Z) (xs : list Z) : Z := foldl (fun y x => gf_mul (Z.lxor y x) h) 0%Z xs.

(** The counter block of the [i]-th use of the key with an iv. *)
Definition counter_block (iv : list byte) (i : nat) : list byte := take 12 iv ++ be_bytes 4 (Z.of_nat i).

Definition keystream (rks : list (list byte)) (iv : list byte) (n : nat) : list byte :=
  take n (mjoin ((fun i => encrypt_block rks (counter_block iv (i + 2))) <$> seq 0 ((n + 15) / 16))).

Definition ctr (rks : list (list byte)) (iv text : list byte) : list byte :=
  zip_with xor_byte text (keystream rks iv (length text)).

Definition tag (rks : list (list byte)) (iv aad ct : list byte) : list byte :=
  let h := be_value (encrypt_block rks (zeros 16)) in
  let lens := (Z.shiftl (8 * Z.of_nat (length aad)) 64 + 8 * Z.of_nat (length ct))%Z in
  xor_block (be_bytes 16 (ghash h (blocks aad ++ blocks ct ++ [lens]))) (encrypt_block rks (counter_block iv 1)).

(** The longest text, [2^36 - 32] bytes. *)
Definition too_long (text : list byte) : bool := (2 ^ 36 - 32 <? Z.of_nat (length text))%Z.

Definition aes_256_gcm : Aead := {|
  aead_key := list (list byte);
  unbound_key_new bs := if decide (length bs = 32) then Some (key_schedule bs) else None;
  seal_in_place rks iv aad p :=
    if too_long p then (None, p) else let c := ctr rks iv p in (Some (tag rks iv aad c), c);
  open_in_place rks iv aad t c :=
    if too_long c then (false, c)
    else if decide (t = tag rks iv aad c) then (true, ctr rks iv c) else (false, zeros (length c));
|}.

Lemma length_block f : length (block f) = 16.
Proof. unfold block. by rewrite length_fmap, length_seq. Qed.

Lemma length_keystream rks iv n : length (keystream rks iv n) = n.
Proof.
  unfold keystream. rewrite length_take.
  assert (Hl : forall l, length (mjoin ((fun i => encrypt_block rks (counter_block iv (i + 2))) <$> l)) = 16 * length l).
  { induction l as [|i l IH]; [done|]. rewrite fmap_cons.
    match goal with |- length (mjoin (?b :: ?l)) = _ => change (mjoin (b :: l)) with (b ++ mjoin l) end.
    rewrite length_app, IH. cbn [length].
    unfold encrypt_block at 1, xor_block at 1. rewrite length_block. lia. }
  rewrite Hl, length_seq. pose proof (Nat.div_mod_eq (n + 15) 16). pose proof (Nat.mod_upper_bound (n + 15) 16). lia.
Qed.

Lemma length_ctr rks iv text : length (ctr rks iv text) = length text.
Proof. unfold ctr. rewrite length_zip_with, length_keystream. lia. Qed.

Lemma zip_xor_involutive : forall (l ks : list byte), length ks = length l ->
  zip_with xor_byte (zip_with xor_byte l ks) ks = l.
Proof.
  induction l as [|b l IH]; intros [|k ks] Hl; simplify_eq/=; [done|]. rewrite IH by done.
  f_equal. rewrite (xor_byte_comm b k), (xor_byte_comm _ k). apply xor_byte_involutive.
Qed.

Lemma ctr_involutive rks iv text : ctr rks iv (ctr rks iv text) = text.
Proof.
  unfold ctr at 1. rewrite length_ctr. apply zip_xor_involutive. apply length_keystream.
Qed.

(** The laws hold of AES-256-GCM itself. *)
Lemma aes_256_gcm_laws : @AeadLaws aes_256_gcm.
Proof.
  assert (Hlong : forall rks iv text, too_long (ctr rks iv text) = too_long text).
  { intros. unfold too_long. by rewrite length_ctr. }
  split; simpl.
  - intros bs. case_decide; split; try done.
  - intros k n a p. case_match; [done|apply length_ctr].
  - intros k n a t c. case_match; [done|]. case_decide; simpl; [apply length_ctr|apply length_zeros].
  - intros k n a p _ Hp. unfold too_long. unfold MAX_SEAL_LEN in Hp. rewrite (proj2 (Z.ltb_ge _ _)) by lia.
    eexists. split; [done|apply length_block].
  - intros k n a p t c. destruct (too_long p) eqn:Hp; intros ?; simplify_eq.
    rewrite Hlong, Hp, decide_True by done. by rewrite ctr_involutive.
  - intros k n a t c p. destruct (too_long c) eqn:Hc; [done|]. case_decide; intros ?; simplify_eq.
    by rewrite Hlong, Hc, ctr_involutive.
Qed.

End Gcm.

(** ** The golden wire vectors ([tests/wire_vectors.rs], [tests/wire_vectors_v1.rs]) *)

Module WireVectors.

Definition hex_digit (c : ascii) : option Z :=
  let n := Z.of_N (N_of_ascii c) in
  if decide (48 <= n <= 57)%Z then Some (n - 48)%Z
  else if decide (97 <= n <= 102)%Z then Some (n - 87)%Z
  else if decide (65 <= n <= 70)%Z then Some (n - 55)%Z
  else None.

(** [decode_hex] of the tests, which panics on anything but pairs of digits. *)
Fixpoint decode_hex (s : string) : outcome (list byte) :=
  match s with
  | EmptyString => Ret []
  | String a (String b s) =>
      match hex_digit a, hex_digit b with
      | Some hi, Some lo => bs ← decode_hex s; Ret (byte_of_Z (16 * hi + lo) :: bs)
      | _, _ => Panic
      end
  | String _ EmptyString => Panic
  end.

Definition GOLDEN_V2 : string :=
  "0000000000000001090909090909090909090909cd57bbb8026b4faf70e457412a1f6ef60019000058b1d91834ea34259ee915adb156c9280a40229f78cd5b7e71".
Definition GOLDEN_V1 : string :=
  "0000000000000001090909090909090909090909f48a6db842e8b2f97cfbe8a39ca834640019000058b1d91834ea34259ee915adb156c9280a40229f78cd5b7e71".

Definition KEY : list byte := replicate 32 x42.
Definition SESSION_ID : list byte := [x01; x02; x03; x04; x05; x06; x07; x08].
Definition IV : list byte := replicate 12 x09.
Definition PLAINTEXT : list byte := byte_of_Z <$> [101; 120; 112; 114; 101; 115; 115; 108; 97; 110; 101; 32;
  103; 111; 108; 100; 101; 110; 32; 118; 101; 99; 116; 111; 114]%Z.

#[local] Existing Instance Gcm.aes_256_gcm.

Definition sender (v : ExpresslaneVersion) : ExpresslaneSession Ring.ReplayWindow aead_key :=
  promote_self_key (update_next_self_key (mkKey KEY) (new v)).2.

Definition receiver (v : ExpresslaneVersion) : ExpresslaneSession Ring.ReplayWindow aead_key :=
  (update_peer_key (mkKey KEY) (new v)).2.

(** What the sender writes, and what the receiver reads from given bytes. *)
Definition sent_wire (v : ExpresslaneVersion) : outcome (list byte) :=
  '(r, out, _) ← encrypt 1 SESSION_ID PLAINTEXT IV false (zeros (WIRE_OVERHEAD + length PLAINTEXT)) (sender v);
  match r with Ok n => Ret (take n out) | Err _ => Panic end.

Definition received (v : ExpresslaneVersion) (wire : list byte) : outcome (list byte * bool) :=
  '(r, out, _) ← decrypt SESSION_ID wire (zeros (length PLAINTEXT)) (receiver v);
  match r with Ok (len, is_encoded) => Ret (take len out, is_encoded) | Err _ => Panic end.

(** The shared bodies of the tests of the two versions. *)
Definition encrypt_matches (v : ExpresslaneVersion) (golden : string) : outcome unit :=
  out ← sent_wire v;
  expected ← decode_hex golden;
  _ ← assert_eq out expected;
  counter ← slice expected 0 8; _ ← assert_eq counter (be_bytes 8 1);
  iv ← slice expected 8 20; _ ← assert_eq iv IV;
  len ← slice expected 36 38; _ ← assert_eq (Z.to_nat (be_value len)) (length PLAINTEXT);
  flags ← slice expected 38 40; assert_eq flags [x00; x00].

Definition decrypts_back (v : ExpresslaneVersion) (golden : string) : outcome unit :=
  wire ← decode_hex golden;
  '(out, is_encoded) ← received v wire;
  _ ← assert_eq out PLAINTEXT; assert (negb is_encoded).

Definition v2_encrypt_matches_golden_vector : outcome unit := encrypt_matches Version2 GOLDEN_V2.
Definition golden_vector_decrypts_back_to_plaintext : outcome unit := decrypts_back Version2 GOLDEN_V2.
Definition v1_encrypt_matches_golden_vector : outcome unit := encrypt_matches Version1 GOLDEN_V1.
Definition v1_golden_vector_decrypts_back_to_plaintext : outcome unit := decrypts_back Version1 GOLDEN_V1.

Definition v1_and_v2_differ_only_in_the_tag : outcome unit :=
  v1 ← decode_hex GOLDEN_V1;
  v2 ← decode_hex GOLDEN_V2;
  a ← slice v1 0 20; b ← slice v2 0 20; _ ← assert_eq a b;
  a ← slice v1 20 36; b ← slice v2 20 36; _ ← assert (negb (bool_decide (a = b)));
  a ← slice v1 36 (length v1); b ← slice v2 36 (length v2); assert_eq a b.

(** the session speaks the pinned wire format.  With AES-256-GCM in place of
    the cipher parameter, encrypting the test's packet gives byte for byte the
    golden vectors of both versions, each is decrypted only under its own
    version, and all the tests of the vectors pass: the fields lie where they
    should, the vectors decrypt back to the plaintext with the flag clear, and the
    two versions differ in the tag alone. *)
Theorem golden_vectors :
  sent_wire Version2 = decode_hex GOLDEN_V2 /\ sent_wire Version1 = decode_hex GOLDEN_V1 /\
  (w ← decode_hex GOLDEN_V1; received Version2 w) = Panic /\ (w ← decode_hex GOLDEN_V2; received Version1 w) = Panic /\
  Forall (fun t => t = Ret tt)
    [ v2_encrypt_matches_golden_vector; golden_vector_decrypts_back_to_plaintext; v1_encrypt_matches_golden_vector;
      v1_golden_vector_decrypts_back_to_plaintext; v1_and_v2_differ_only_in_the_tag ].
Proof.
  split_and!; [vm_compute; reflexivity..|]. repeat (constructor; [vm_compute; reflexivity|]). constructor.
Qed.

End WireVectors.
