(* ===== verification/SessionTests.v ===== *)
(** * The unit tests of the data plane, evaluated

    The sequential tests of [session.rs], [cipher.rs], [key.rs] and [version.rs],
    translated statement by statement and run on the model with AES-256-GCM as
    the cipher: a failed assertion or [unwrap] is a [Panic].  The two tests that
    start threads are in [ThreadedTests]. *)

From stdpp Require Import base numbers strings list list_numbers option.
From Stdlib Require Import Strings.Byte.
From S2P Require Import Prelude ReplayWindow AntiReplay Cipher Session AesGcm.
Import Session.

Module SessionTests.

#[local] Existing Instance Gcm.aes_256_gcm.
Abbreviation session := (ExpresslaneSession Ring.ReplayWindow aead_key).

#[local] Instance result_eq_dec {A E} `{EqDecision A} `{EqDecision E} : EqDecision (result A E).
Proof. solve_decision. Defined.

Abbreviation unwrap := expect.

Definition b_ (s : string) : list byte := String.list_byte_of_string s.
Definition key (b : byte) : ExpresslaneKey := mkKey (replicate 32 b).
Definition test_iv_for (counter : Z) : list byte := be_bytes 8 counter ++ zeros 4.

(** The lines most tests start with. *)
Definition with_self (k : ExpresslaneKey) (s : session) : outcome session :=
  let '(r, s) := update_next_self_key k s in
  _ ← unwrap r; Ret (promote_self_key s).

Definition with_peer (k : ExpresslaneKey) (s : session) : outcome session :=
  let '(r, s) := update_peer_key k s in _ ← unwrap r; Ret s.

(** [encrypt(..).unwrap()] into a buffer of the right size, truncated. *)
Definition seal (counter : Z) (sid pt iv : list byte) (enc : bool) (s : session) : outcome (list byte * session) :=
  '(r, out, s) ← encrypt counter sid pt iv enc (zeros (WIRE_OVERHEAD + length pt)) s;
  n ← unwrap r; Ret (take n out, s).

(** [decrypt(..).unwrap()]. *)
Definition open (sid wire out : list byte) (s : session) : outcome (list byte * bool * session) :=
  '(r, out, s) ← decrypt sid wire out s;
  '(len, enc) ← unwrap r; Ret (take len out, enc, s).

(** The error of a failing call. *)
Definition fails {A} (e : ExpresslaneError) (o : outcome (ExpresslaneResult A * list byte * session)) : outcome session :=
  '(r, _, s) ← o;
  match r with Ok _ => Panic | Err e' => _ ← assert_eq e' e; Ret s end.

(** [buf[i] = f(buf[i])]. *)
Definition update (i : nat) (f : Z -> Z) (buf : list byte) : outcome (list byte) :=
  match buf !! i with Some b => Ret (<[i := byte_of_Z (f (Z_of_byte b))]> buf) | None => Panic end.

Definition get_byte (i : nat) (buf : list byte) : outcome Z :=
  match buf !! i with Some b => Ret (Z_of_byte b) | None => Panic end.

(** ** [session.rs] *)

Definition reserve_counter_starts_at_one_and_increments : outcome unit :=
  let s : session := new Version2 in
  let '(a, s) := reserve_counter s in
  let '(b, s) := reserve_counter s in
  let '(c, s) := reserve_counter s in
  _ ← assert_eq a 1%Z; _ ← assert_eq b 2%Z; assert_eq c 3%Z.

Definition encrypt_without_key_returns_key_not_set : outcome unit :=
  _ ← fails KeyNotSet (encrypt 1 (replicate 8 x01) (b_ "test") (zeros 12) false (zeros (WIRE_OVERHEAD + 4)) (new Version2));
  Ret tt.

Definition update_next_self_key_then_promote_enables_encrypt : outcome unit :=
  s ← with_self (key x01) (new Version2);
  let out := zeros (WIRE_OVERHEAD + 9) in
  '(r, out, _) ← encrypt 1 (replicate 8 x01) (b_ "test data") (zeros 12) false out s;
  n ← unwrap r; assert_eq n (length out).

Definition promote_without_staged_key_is_a_no_op : outcome unit :=
  let s : session := promote_self_key (new Version2) in
  _ ← fails KeyNotSet (encrypt 1 (replicate 8 x01) (b_ "test") (zeros 12) false (zeros (WIRE_OVERHEAD + 4)) s);
  Ret tt.

Definition encrypt_writes_expected_wire_layout : outcome unit :=
  s ← with_self (key x01) (new Version2);
  let plain_text := b_ "test data" in
  let iv := replicate 12 x09 in
  '(out, _) ← seal 5 (replicate 8 x01) plain_text iv false s;
  counter ← slice out 0 8; _ ← assert_eq (be_value counter) 5%Z;
  iv' ← slice out 8 20; _ ← assert_eq iv' iv;
  len ← slice out 36 38; _ ← assert_eq (be_value len) (Z.of_nat (length plain_text));
  assert_eq (length out) (WIRE_OVERHEAD + length plain_text).

Definition encrypt_rejects_buffer_too_small : outcome unit :=
  s ← with_self (key x01) (new Version2);
  _ ← fails BufferTooSmall (encrypt 1 (replicate 8 x01) (b_ "x") (zeros 12) false (zeros WIRE_OVERHEAD) s);
  Ret tt.

Definition packets_sent_counts_successful_encrypts_only : outcome unit :=
  s ← with_self (key x01) (new Version2);
  _ ← assert_eq (packets_sent s) 0%Z;
  '(r, out, s) ← encrypt 1 (replicate 8 x01) (b_ "test") (zeros 12) false (zeros (WIRE_OVERHEAD + 4)) s;
  _ ← unwrap r;
  '(r, _, s) ← encrypt 2 (replicate 8 x01) (b_ "test") (zeros 12) false out s;
  _ ← unwrap r;
  _ ← assert_eq (packets_sent s) 2%Z;
  '(_, _, s) ← encrypt 3 (replicate 8 x01) (b_ "test") (zeros 12) false (zeros 4) s;
  assert_eq (packets_sent s) 2%Z.

Definition wire_counter_increments_independently_of_encrypt_calls : outcome unit :=
  s ← with_self (key x01) (new Version2);
  '(out, _) ← seal 1000 (replicate 8 x01) (b_ "test") (zeros 12) false s;
  counter ← slice out 0 8; assert_eq (be_value counter) 1000%Z.

Definition round_trip_encryption_decryption : outcome unit :=
  sender ← with_self (key x2a) (new Version2);
  receiver ← with_peer (key x2a) (new Version2);
  let session_id := [x01; x02; x03; x04; x05; x06; x07; x08] in
  let plain_text := b_ "Hello, ExpressLane!" in
  let iv := [x09; x0a; x0b; x0c; x0d; x0e; x0f; x10; x11; x12; x13; x14] in
  '(wire, _) ← seal 1 session_id plain_text iv false sender;
  '(out, is_encoded, _) ← open session_id wire (zeros (length plain_text)) receiver;
  _ ← assert_eq out plain_text; assert (negb is_encoded).

Definition round_trip_with_encoded_flag : outcome unit :=
  sender ← with_self (key x2a) (new Version2);
  receiver ← with_peer (key x2a) (new Version2);
  let session_id := replicate 8 x01 in
  let plain_text := b_ "Encoded payload" in
  '(wire, _) ← seal 1 session_id plain_text (zeros 12) true sender;
  '(out, is_encoded, _) ← open session_id wire (zeros (length plain_text)) receiver;
  _ ← assert_eq out plain_text; assert is_encoded.

Definition decrypt_without_key_returns_key_not_set : outcome unit :=
  _ ← fails KeyNotSet (decrypt (replicate 8 x01) (zeros WIRE_OVERHEAD) (zeros 4) (new Version2)); Ret tt.

Definition decrypt_rejects_insufficient_data : outcome unit :=
  _ ← fails InsufficientData (decrypt (replicate 8 x01) (zeros (WIRE_OVERHEAD - 1)) (zeros 4) (new Version2)); Ret tt.

Definition decrypt_rejects_replay : outcome unit :=
  sender ← with_self (key x2a) (new Version2);
  receiver ← with_peer (key x2a) (new Version2);
  let session_id := replicate 8 x01 in
  let plain_text := b_ "replay me" in
  '(wire, _) ← seal 1 session_id plain_text (zeros 12) false sender;
  '(r, out, receiver) ← decrypt session_id wire (zeros (length plain_text)) receiver;
  _ ← unwrap r;
  _ ← fails Replayed (decrypt session_id wire out receiver); Ret tt.

Definition decrypt_falls_back_to_prev_peer_key_during_rotation : outcome unit :=
  sender ← with_self (key x01) (new Version2);
  receiver ← with_peer (key x01) (new Version2);
  let session_id := replicate 8 x01 in
  let plain_text := b_ "in flight during rotation" in
  '(wire, _) ← seal 1 session_id plain_text (zeros 12) false sender;
  receiver ← with_peer (key x02) receiver;
  '(out, _, _) ← open session_id wire (zeros (length plain_text)) receiver;
  assert_eq out plain_text.

(** One arm of the next test: both the scrub and the sentinel behind it. *)
Definition rejected_and_scrubbed (n : nat) (session_id wire : list byte) (receiver : session) : outcome unit :=
  '(r, out, _) ← decrypt session_id wire (replicate (n + 1) xcc) receiver;
  _ ← match r with Ok _ => Panic | Err e => assert_eq e InvalidData end;
  scrubbed ← slice out 0 n;
  _ ← assert_eq scrubbed (zeros n);
  last ← get_byte n out; assert_eq last 0xCC%Z.

Definition failed_decrypt_scrubs_out_without_overrunning_data_len (payload_len : nat) : outcome unit :=
  let plain_text := replicate payload_len x5a in
  let session_id := replicate 8 x07 in
  sender ← with_self (key x01) (new Version2);
  '(wire, _) ← seal 1 session_id plain_text (test_iv_for 1) false sender;
  no_prev ← with_peer (key x02) (new Version2);
  with_prev ← with_peer (key x02) (new Version2);
  with_prev ← with_peer (key x03) with_prev;
  _ ← rejected_and_scrubbed payload_len session_id wire no_prev;
  _ ← rejected_and_scrubbed payload_len session_id wire with_prev;
  good ← with_peer (key x01) (new Version2);
  '(r, out, _) ← decrypt session_id wire (replicate (payload_len + 1) xcc) good;
  '(len, _) ← unwrap r;
  _ ← assert_eq (take len out) plain_text;
  last ← get_byte payload_len out; assert_eq last 0xCC%Z.

Definition cross_version_v1_to_v2_fails : outcome unit :=
  sender ← with_self (key x2a) (new Version1);
  receiver ← with_peer (key x2a) (new Version2);
  let session_id := replicate 8 x01 in
  let plain_text := b_ "v1 to v2" in
  '(wire, _) ← seal 1 session_id plain_text (zeros 12) false sender;
  _ ← fails InvalidData (decrypt session_id wire (zeros (length plain_text)) receiver); Ret tt.

Definition tampered_flags_rejected_by_aead : outcome unit :=
  sender ← with_self (key x2a) (new Version2);
  receiver ← with_peer (key x2a) (new Version2);
  let session_id := replicate 8 x01 in
  let plain_text := b_ "sensitive payload" in
  '(wire, _) ← seal 1 session_id plain_text (zeros 12) false sender;
  b ← get_byte 38 wire; _ ← assert_eq (Z.land b 0x80) 0%Z;
  wire ← update 38 (fun z => Z.lor z 0x80) wire;
  _ ← fails InvalidData (decrypt session_id wire (zeros (length plain_text)) receiver); Ret tt.

Definition forged_packet_does_not_poison_replay_window : outcome unit :=
  sender ← with_self (key x2a) (new Version2);
  receiver ← with_peer (key x2a) (new Version2);
  let session_id := replicate 8 x01 in
  let plain_text := b_ "hello expresslane" in
  '(wire1, sender) ← seal 1 session_id plain_text (zeros 12) false sender;
  '(r, out, receiver) ← decrypt session_id wire1 (zeros (length plain_text)) receiver;
  _ ← unwrap r;
  _ ← assert_eq (packets_received receiver) 1%Z;
  forged ← copy_from_slice (zeros (WIRE_OVERHEAD + length plain_text)) 0 8 (be_bytes 8 (u64_MAX - 1));
  forged ← copy_from_slice forged 36 38 (be_bytes 2 (Z.of_nat (length plain_text)));
  receiver ← fails InvalidData (decrypt session_id forged (zeros (length plain_text)) receiver);
  _ ← assert_eq (packets_received receiver) 1%Z;
  '(wire2, _) ← seal 2 session_id plain_text (zeros 12) false sender;
  '(out, _, receiver) ← open session_id wire2 out receiver;
  _ ← assert_eq out plain_text;
  assert_eq (packets_received receiver) 2%Z.

Definition has_valid_keys_requires_both_self_and_peer : outcome unit :=
  let s : session := new Version2 in
  _ ← assert (negb (has_valid_keys s));
  s ← with_self (key x01) s;
  _ ← assert (negb (has_valid_keys s));
  s ← with_peer (key x02) s;
  assert (has_valid_keys s).

Definition v1_round_trip_without_flags_in_aad : outcome unit :=
  sender ← with_self (key x2a) (new Version1);
  receiver ← with_peer (key x2a) (new Version1);
  let session_id := replicate 8 x01 in
  let plain_text := b_ "v1 payload" in
  '(wire, _) ← seal 1 session_id plain_text (zeros 12) false sender;
  '(out, is_encoded, _) ← open session_id wire (zeros (length plain_text)) receiver;
  _ ← assert_eq out plain_text; assert (negb is_encoded).

Definition v2_reserved_flag_bit_tamper_is_rejected : outcome unit :=
  sender ← with_self (key x2a) (new Version2);
  receiver ← with_peer (key x2a) (new Version2);
  let session_id := replicate 8 x01 in
  let plain_text := b_ "reserved bit test" in
  '(wire, _) ← seal 1 session_id plain_text (zeros 12) false sender;
  b ← get_byte 39 wire; _ ← assert_eq (Z.land b 0x01) 0%Z;
  wire ← update 39 (fun z => Z.lor z 0x01) wire;
  _ ← fails InvalidData (decrypt session_id wire (zeros (length plain_text)) receiver); Ret tt.

Definition decrypt_rejects_data_len_exceeding_packet : outcome unit :=
  receiver ← with_peer (key x01) (new Version2);
  wire ← copy_from_slice (zeros WIRE_OVERHEAD) 36 38 (be_bytes 2 100);
  _ ← fails InsufficientData (decrypt (replicate 8 x01) wire (zeros 100) receiver); Ret tt.

Definition update_key_rejects_all_zero_invalid_sentinel : outcome unit :=
  let s : session := new Version2 in
  let '(r1, s) := update_next_self_key INVALID s in
  _ ← assert_eq r1 (Err InvalidKey);
  let '(r2, s) := update_peer_key INVALID s in
  _ ← assert_eq r2 (Err InvalidKey);
  assert (negb (has_valid_keys s)).

Definition decrypt_accepts_out_of_order_within_window : outcome unit :=
  sender ← with_self (key x2a) (new Version2);
  receiver ← with_peer (key x2a) (new Version2);
  let session_id := replicate 8 x01 in
  '(p3, sender) ← seal 3 session_id (b_ "ordered") (replicate 12 x03) false sender;
  '(p1, sender) ← seal 1 session_id (b_ "ordered") (replicate 12 x01) false sender;
  '(r, out, receiver) ← decrypt session_id p3 (zeros 7) receiver;
  _ ← unwrap r;
  '(r, out, receiver) ← decrypt session_id p1 out receiver;
  _ ← unwrap r;
  receiver ← fails Replayed (decrypt session_id p3 out receiver);
  assert_eq (packets_received receiver) 2%Z.

Definition reserve_counter_wraps_through_zero_without_panicking : outcome unit :=
  let s : session := seed_counter_for_test (u64_MAX - 1) (new Version2) in
  let '(a, s) := reserve_counter s in
  let '(b, s) := reserve_counter s in
  let '(c, s) := reserve_counter s in
  _ ← assert_eq a u64_MAX; _ ← assert_eq b 0%Z; assert_eq c 1%Z.

(** ** [cipher.rs], [key.rs] and [version.rs] *)

Definition round_trip : outcome unit :=
  c ← unwrap (cipher_new (key x2a));
  let iv := replicate 12 x07 in
  let aad := b_ "session-id-and-counter" in
  let text := b_ "Hello, ExpressLane!" in
  let '(r, buf) := cipher_encrypt c iv aad text in
  tag ← unwrap r;
  _ ← assert (negb (bool_decide (buf = text)));
  let '(r, buf) := cipher_decrypt c iv aad buf tag in
  _ ← unwrap r; assert_eq buf text.

Definition decrypt_rejects_wrong_key : outcome unit :=
  a ← unwrap (cipher_new (key x01));
  b ← unwrap (cipher_new (key x02));
  let iv := replicate 12 x07 in
  let '(r, buf) := cipher_encrypt a iv (b_ "aad") (b_ "secret payload!!") in
  tag ← unwrap r;
  assert_eq (cipher_decrypt b iv (b_ "aad") buf tag).1 (Err InvalidData).

(** Without the pin of what [ring] leaves in the buffer, which is no contract. *)
Definition retry_after_tag_mismatch : outcome unit :=
  a ← unwrap (cipher_new (key x03));
  b ← unwrap (cipher_new (key x04));
  let iv := replicate 12 x0b in
  let '(r, buf) := cipher_encrypt a iv (b_ "aad") (replicate 96 xa5) in
  tag ← unwrap r;
  let ciphertext := buf in
  _ ← assert_eq (cipher_decrypt b iv (b_ "aad") buf tag).1 (Err InvalidData);
  let '(r, buf) := cipher_decrypt a iv (b_ "aad") ciphertext tag in
  _ ← unwrap r; assert_eq buf (replicate 96 xa5).

Definition decrypt_rejects_tampered_aad : outcome unit :=
  c ← unwrap (cipher_new (key x09));
  let iv := replicate 12 x01 in
  let '(r, buf) := cipher_encrypt c iv (b_ "aad-v1") (b_ "payload!") in
  tag ← unwrap r;
  assert_eq (cipher_decrypt c iv (b_ "aad-v2") buf tag).1 (Err InvalidData).

Definition ring_rejects_wrong_length_aes_256_key : outcome unit :=
  assert (bool_decide (is_Some (unbound_key_new (zeros 16)) -> False)).

Definition key_tests : outcome unit :=
  _ ← assert_eq (key_bytes INVALID) (zeros EXPRESSLANE_KEY_SIZE);
  _ ← assert (is_invalid INVALID);
  _ ← assert (negb (is_invalid (key x01)));
  assert_eq (key_bytes (mkKey (replicate EXPRESSLANE_KEY_SIZE x07))) (replicate EXPRESSLANE_KEY_SIZE x07).

Definition version_tests : outcome unit :=
  _ ← assert_eq (version_from_u8 1) Version1;
  _ ← assert_eq (version_from_u8 2) Version2;
  _ ← assert_eq (version_from_u8 0) Unknown;
  _ ← assert_eq (version_from_u8 3) Unknown;
  _ ← assert_eq (version_from_u8 255) Unknown;
  _ ← assert (version_ge Version2 Version1);
  assert (version_ge Version1 Unknown).

Definition session_tests : list (outcome unit) :=
  [ reserve_counter_starts_at_one_and_increments; encrypt_without_key_returns_key_not_set;
    update_next_self_key_then_promote_enables_encrypt; promote_without_staged_key_is_a_no_op;
    encrypt_writes_expected_wire_layout; encrypt_rejects_buffer_too_small;
    packets_sent_counts_successful_encrypts_only; wire_counter_increments_independently_of_encrypt_calls;
    round_trip_encryption_decryption; round_trip_with_encoded_flag; decrypt_without_key_returns_key_not_set;
    decrypt_rejects_insufficient_data; decrypt_rejects_replay; decrypt_falls_back_to_prev_peer_key_during_rotation;
    failed_decrypt_scrubs_out_without_overrunning_data_len 1350; cross_version_v1_to_v2_fails;
    tampered_flags_rejected_by_aead; forged_packet_does_not_poison_replay_window;
    has_valid_keys_requires_both_self_and_peer; v1_round_trip_without_flags_in_aad;
    v2_reserved_flag_bit_tamper_is_rejected; decrypt_rejects_data_len_exceeding_packet;
    update_key_rejects_all_zero_invalid_sentinel; decrypt_accepts_out_of_order_within_window;
    reserve_counter_wraps_through_zero_without_panicking;
    round_trip; decrypt_rejects_wrong_key; retry_after_tag_mismatch; decrypt_rejects_tampered_aad;
    ring_rejects_wrong_length_aes_256_key; key_tests; version_tests ].

(** the model passes the crate's own tests.  Every sequential unit test of
    the session, the cipher, the key and the version, run on the definitions of
    this development with AES-256-GCM as the cipher, ends without a failed
    assertion. *)
Theorem unit_tests_pass : Forall (fun t => t = Ret tt) session_tests.
Proof. repeat (constructor; [vm_compute; reflexivity|]). constructor. Qed.

End SessionTests.
