(* ===== verification/SessionTraffic.v ===== *)
(** * From sending threads to the receiver

    What two sessions do together.  [Delivery] is the receiving loop of
    [session.rs]'s tests and shows that it delivers every packet sealed under a
    key the receiver holds, in any order the window tolerates.  [Senders] lets
    any number of threads reserve counters and encrypt on one shared session
    while another promotes the staged key, over the steps of [SessionThreads];
    whatever the interleaving, the packets have distinct counters, carry the
    threads' payloads in order and are all delivered.  The two tests of
    [session.rs] that start threads are instances, for every schedule. *)

From stdpp Require Import base numbers strings pretty list list_numbers option gmap sets functions sorting.
From Stdlib Require Import Strings.Byte.
From S2P Require Import Prelude Threads ReplayWindow ReplayReference AntiReplay Cipher Session SessionFacts SessionProperties SessionThreads.
Import Tracking SessionSpec SessionFacts SessionTrace SessionThreads ThreadFacts.

(** ** Delivery *)

Module Delivery.

(** A sealed payload and the key it was sealed under. *)
Record packet (K : Type) : Type := mkPacket {
  p_key : Cipher K;
  p_counter : Z;
  p_plain : list byte;
  p_iv : list byte;
  p_enc : bool;
  p_tag : list byte;
  p_ct : list byte;
}.
Arguments mkPacket {K}.
Arguments p_key {K}.
Arguments p_counter {K}.
Arguments p_plain {K}.
Arguments p_iv {K}.
Arguments p_enc {K}.
Arguments p_tag {K}.
Arguments p_ct {K}.

Definition p_wire {K} (p : packet K) : list byte :=
  sealed_wire (p_counter p) (p_iv p) (p_enc p) (p_plain p) (p_tag p) (p_ct p).

Section Delivery.
Context {W : Type} `{AntiReplay W} `{Aead}.
Abbreviation session := (ExpresslaneSession W aead_key).
Abbreviation packet := (packet aead_key).
Implicit Types (s : session) (p : packet).

(** The receiving loop of the tests: a zeroed buffer of the payload's size per
    packet, [decrypt(..).unwrap()], and the length it reports is the buffer's. *)
Fixpoint receive_all (session_id : list byte) (packets : list (list byte)) (s : session)
    : outcome (list (list byte) * session) :=
  match packets with
  | [] => Ret ([], s)
  | packet :: packets =>
      if decide (length packet < WIRE_OVERHEAD) then Panic
      else
        '(r, out, s) ← decrypt session_id packet (zeros (length packet - WIRE_OVERHEAD)) s;
        '(n, _) ← expect r;
        _ ← assert_eq n (length out);
        '(outs, s) ← receive_all session_id packets s;
        Ret (out :: outs, s)
  end.

(** The packet is well formed and [p_key] sealed it. *)
Definition packet_ok (v : ExpresslaneVersion) (sid : list byte) p : Prop :=
  is_u64 (p_counter p) /\ length (p_iv p) = 12 /\ (Z.of_nat (length (p_plain p)) <= 65535)%Z /\
  length (p_tag p) = 16 /\ length (p_ct p) = length (p_plain p) /\
  seals (p_key p) v sid (p_counter p) (p_iv p) (p_enc p) (p_plain p) (p_tag p) (p_ct p).

(** No key of [ks] but the sealing one authenticates the packet. *)
Definition only_sealer (v : ExpresslaneVersion) (sid : list byte) (ks : list (Cipher aead_key)) p : Prop :=
  forall k, k ∈ ks -> k <> p_key p ->
    is_ok (cipher_decrypt k (p_iv p)
             (aad_of v sid (p_counter p) (if p_enc p then FLAG_ENCODED else 0%Z)) (p_ct p) (p_tag p)).1 = false.

(** Every counter is new and at most 8191 behind those that arrived before it. *)
Fixpoint arrivals_ok (h cs : list Z) : Prop :=
  match cs with
  | [] => True
  | c :: cs => (c ∉ h) /\ (forall d, d ∈ h -> (d - c < Spec.window)%Z) /\ arrivals_ok (c :: h) cs
  end.

Lemma arrivals_ok_range h cs :
  NoDup (cs ++ h) -> (forall c d, c ∈ cs -> d ∈ cs ++ h -> (d - c < Spec.window)%Z) -> arrivals_ok h cs.
Proof.
  revert h. induction cs as [|c cs IH]; intros h Hnd Hr; simpl; [done|].
  assert (Hnd' : NoDup (cs ++ c :: h)) by (by rewrite <- Permutation_middle).
  apply NoDup_cons in Hnd as [Hc _]. split_and!.
  - intros Hin. apply Hc, elem_of_app. by right.
  - intros d Hd. apply Hr; [apply list_elem_of_here|]. simpl. apply list_elem_of_further, elem_of_app. by right.
  - apply IH; [done|]. intros c' d Hc' Hd. apply Hr; [by apply list_elem_of_further|].
    simpl. rewrite elem_of_cons. rewrite elem_of_app, elem_of_cons in Hd. rewrite elem_of_app. tauto.
Qed.

Context `{!AeadLaws}.

Lemma length_p_wire v sid p : packet_ok v sid p -> length (p_wire p) = WIRE_OVERHEAD + length (p_plain p).
Proof.
  intros (Hc & Hiv & Hmax & Htag & Hct & _). unfold p_wire, sealed_wire.
  rewrite length_app, length_encode_header; [unfold WIRE_OVERHEAD; lia|].
  unfold header_wf. simpl. split_and!; try done; [unfold is_u16; lia|apply SessionProperties.flags_u16].
Qed.

Lemma p_wire_counter v sid p : packet_ok v sid p -> be_value (take 8 (p_wire p)) = p_counter p.
Proof.
  intros (Hc & _). unfold p_wire, sealed_wire, encode_header. simpl h_counter. rewrite <- app_assoc.
  rewrite take_app_length' by lens. by apply be_value_be_bytes_u64.
Qed.

(** If some key of the list opens a packet, the first one that does opens it to a
    text of the same length, and to the sealed one when no other key opens it. *)
Lemma first_open_finds h aad ct (ks : list (Cipher aead_key)) k plain :
  k ∈ ks -> open_with h aad ct k = Some plain ->
  exists plain', first_open h aad ct ks = Some plain' /\
    ((forall k', k' ∈ ks -> k' <> k -> open_with h aad ct k' = None) -> plain' = plain).
Proof.
  intros Hk Hopen. induction ks as [|k0 ks IH]; [by apply elem_of_nil in Hk|]. simpl.
  destruct (open_with h aad ct k0) as [x|] eqn:E.
  - exists x. split; [done|]. intros Hall.
    destruct (decide (x = plain)) as [->|Hx]; [done|].
    rewrite Hall in E; [done|apply list_elem_of_here|]. intros ->. congruence.
  - apply elem_of_cons in Hk as [->|Hk]; [congruence|]. destruct (IH Hk) as (x & Hx & Huniq).
    exists x. split; [done|]. intros Hall. apply Huniq. intros k' Hk'. apply Hall. by apply list_elem_of_further.
Qed.

(** A packet under one of the receiver's keys that the window accepts. *)
Lemma receive_one sid p s :
  length sid = 8 -> packet_ok (version s) sid p -> p_key p ∈ peer_keys s ->
  ar_would_reject (replay_window (rx s)) (p_counter p) = false ->
  exists plain,
    decrypt sid (p_wire p) (zeros (length (p_plain p))) s =
      Ret (Ok (length (p_plain p), p_enc p), plain, accept_counter (p_counter p) s) /\
    length plain = length (p_plain p) /\
    (only_sealer (version s) sid (peer_keys s) p -> plain = p_plain p).
Proof.
  intros Hsid Hok Hk Hrej. pose proof Hok as (Hc & Hiv & Hmax & Htag & Hct & Hs).
  set (flags := if p_enc p then FLAG_ENCODED else 0%Z).
  set (h := mkHeader (p_counter p) (p_iv p) (p_tag p) (Z.of_nat (length (p_plain p))) flags).
  set (aad := aad_of (version s) sid (p_counter p) flags).
  assert (Hopen : open_with h aad (p_ct p) (p_key p) = Some (p_plain p))
    by (by eapply SessionProperties.open_sealed_with).
  destruct (first_open_finds h aad (p_ct p) (peer_keys s) _ _ Hk Hopen) as (plain & Hfirst & Huniq).
  pose proof (first_open_length _ _ _ _ _ Hfirst) as Hlen. exists plain. split_and!; [|lia|].
  - unfold p_wire, sealed_wire. fold flags.
    replace (mkHeader _ _ _ _ _) with (mkHeader (p_counter p) (p_iv p) (p_tag p) (Z.of_nat (length plain)) flags)
      by (by rewrite Hlen, Hct).
    replace (length (p_plain p)) with (length plain) by lia.
    rewrite (SessionProperties.decrypt_sealed (p_counter p) sid plain (p_iv p) (p_enc p) (p_tag p) (p_ct p));
      try done; try lia; [|lens|].
    + rewrite drop_ge by lens. by rewrite app_nil_r.
    + rewrite Hlen, Hct. exact Hfirst.
  - intros Honly. apply Huniq. intros k Hk' Hne. specialize (Honly k Hk' Hne). unfold open_with. simpl.
    unfold aad. by destruct (cipher_decrypt k _ _ _ _) as [[?|?] ?].
Qed.

Lemma accept_counter_keys c s : peer_keys (accept_counter c s) = peer_keys s.
Proof. done. Qed.

(** Everything that arrives within the window is delivered. *)
Lemma receive_all_delivers sid ps : forall h s,
  length sid = 8 -> Forall (packet_ok (version s) sid) ps -> Forall (fun p => p_key p ∈ peer_keys s) ps ->
  ar_models (replay_window (rx s)) h -> arrivals_ok h (p_counter <$> ps) ->
  exists outs s', receive_all sid (p_wire <$> ps) s = Ret (outs, s') /\
    Forall2 (fun p out => length out = length (p_plain p) /\
      (only_sealer (version s) sid (peer_keys s) p -> out = p_plain p)) ps outs /\
    ar_models (replay_window (rx s')) (reverse (p_counter <$> ps) ++ h).
Proof.
  induction ps as [|p ps IH]; intros h s Hsid Hok Hks Hm Harr.
  { exists [], s. by repeat constructor. }
  apply Forall_cons in Hok as [Hp Hok]. apply Forall_cons in Hks as [Hk Hks]. rewrite fmap_cons in *.
  destruct Harr as (Hnew & Hbehind & Harr). pose proof Hp as (Hc & _).
  assert (Hrej : ar_would_reject (replay_window (rx s)) (p_counter p) = false).
  { rewrite (ar_would_reject_models _ h) by done. apply negb_false_iff, Properties.acceptable_iff; [by eapply ar_u64|done]. }
  destruct (receive_one sid p s Hsid Hp Hk Hrej) as (plain & Hdec & Hlen & Hplain).
  rewrite fmap_cons. cbn [receive_all]. rewrite (length_p_wire _ _ _ Hp). rewrite decide_False by lia.
  rewrite Nat.add_comm, Nat.add_sub, Hdec, bind_ret. cbn [expect]. rewrite bind_ret.
  unfold assert_eq. rewrite bool_decide_true by lia. cbn [assert]. rewrite bind_ret.
  destruct (IH (p_counter p :: h) (accept_counter (p_counter p) s)) as (outs & s' & Hrun & Hall & Hm'); try done.
  { by apply ar_commit_models. }
  exists (plain :: outs), s'. rewrite Hrun, bind_ret. split_and!; [done|by constructor|].
  rewrite reverse_cons, <- app_assoc. exact Hm'.
Qed.

End Delivery.
End Delivery.
Import Delivery.

(** ** Threads that send *)

Module Senders.

(** A payload to send; the iv may be made from the counter.  A thread's program
    is a list of commands: reserve a counter and encrypt, or promote. *)
Record job : Type := mkJob {
  j_plain : list byte;
  j_iv : Z -> list byte;
  j_enc : bool;
}.

Inductive cmd : Type :=
| CSend (j : job)
| CPromote.

Definition sends (l : list cmd) : list job :=
  omap (fun m => match m with CSend j => Some j | CPromote => None end) l.

(** What a thread has left, and the counter it has reserved and not used yet. *)
Record task : Type := mkTask {
  todo : list cmd;
  pending : option Z;
}.

Record traffic (W K : Type) : Type := mkTraffic {
  base : config W K;
  tasks : list task;
}.
Arguments mkTraffic {W K}.
Arguments base {W K}.
Arguments tasks {W K}.

(** [encrypt(counter, session_id, ..)] into a zeroed buffer of the right size. *)
Definition packet_buf (j : job) : list byte := zeros (WIRE_OVERHEAD + length (j_plain j)).
Definition send_op (sid : list byte) (n : Z) (j : job) : op :=
  OEncrypt n sid (j_plain j) (j_iv j n) (j_enc j) (packet_buf j).

(** The packet a logged call produced: [buf.truncate(n)]. *)
Definition packet_entry (e : nat * (op * event)) : option (nat * list byte) :=
  match e with
  | (t, (OEncrypt _ _ _ _ _ _, Sent (Ok n) out)) => Some (t, take n out)
  | _ => None
  end.

(** The entries of one thread, in order. *)
Definition by_thread {A} (t : nat) (l : list (nat * A)) : list A := (filter (fun e => e.1 = t) l).*2.

(** The sends a task has not reserved a counter for. *)
Definition need (k : task) : nat :=
  length (sends (todo k)) - match pending k with Some _ => 1 | None => 0 end.

Section Senders.
Context {W : Type} `{AntiReplay W} `{Aead}.
Abbreviation config := (config W aead_key).
Abbreviation traffic := (traffic W aead_key).
Abbreviation packet := (packet aead_key).
Variable sid : list byte.
Implicit Types (c : config) (x : traffic) (t : nat) (ps : list (nat * packet)).

Definition spawn c (progs : list (list cmd)) : traffic := mkTraffic c ((fun l => mkTask l None) <$> progs).

(** One step of thread [t]: inside a call it continues the call, otherwise it
    starts the next one of its program. *)
Definition step t x : option traffic :=
  match tasks x !! t with
  | None => None
  | Some k =>
      if is_idle (pcs (base x) t) then
        match todo k, pending k with
        | [], _ => None
        | CPromote :: rest, _ =>
            c ← act t (Call OPromote) (base x); Some (mkTraffic c (<[t := mkTask rest None]> (tasks x)))
        | CSend j :: rest, None =>
            c ← act t (Call OReserve) (base x);
            Some (mkTraffic c (<[t := mkTask (todo k) (Some (reserve_counter (shared (base x))).1)]> (tasks x)))
        | CSend j :: rest, Some n =>
            c ← act t (Call (send_op sid n j)) (base x);
            Some (mkTraffic c (<[t := mkTask rest None]> (tasks x)))
        end
      else c ← act t Continue (base x); Some (mkTraffic c (tasks x))
  end.

Fixpoint follow (sched : list nat) x : option traffic :=
  match sched with
  | [] => Some x
  | t :: sched => x ← step t x; follow sched x
  end.

Definition task_done x t : bool :=
  is_idle (pcs (base x) t) && match tasks x !! t with Some (mkTask (_ :: _) _) => false | _ => true end.
Definition finished x : bool := forallb (task_done x) (seq 0 (length (tasks x))).

(** What the threads produced, thread by thread, as the joins collect it. *)
Definition produced x t : list (list byte) := by_thread t (omap packet_entry (log (base x))).
Definition packets x : list (list byte) := concat (produced x <$> seq 0 (length (tasks x))).

Definition job_ok (j : job) : Prop :=
  (Z.of_nat (length (j_plain j)) <= 65535)%Z /\ forall n, length (j_iv j n) = 12.
Definition progs_ok (progs : list (list cmd)) : Prop := Forall (fun l => Forall job_ok (sends l)) progs.
Definition total (progs : list (list cmd)) : nat := sum_list_with (length ∘ sends) progs.

(** The state the threads start from: a key of [ks] is installed, nothing but
    keys of [ks] is staged, and no counter is reserved. *)
Record ready (v : ExpresslaneVersion) (ks : list (Cipher aead_key)) c : Prop := {
  ready_reach : reachable v c;
  ready_quiet : quiescent c;
  ready_reserved : reserved (events_of c) = [];
  ready_unsent : omap packet_entry (log c) = [];
  ready_current : exists k, current_self (shared c) = Some k /\ k ∈ ks;
  ready_staged : forall k, next_self (shared c) = Some k -> k ∈ ks;
}.

(** ** The invariant of a run

    [ps] is the list of packets behind the logged calls. *)

Definition counters ps : list Z := p_counter <$> ps.*2.

(** Where the reserved counters [res] are: used up by a packet, or with exactly
    one thread, or dropped. *)
Record flights (fly : nat -> option Z) (used res : list Z) : Prop := {
  fl_fresh : NoDup used;
  fl_used n : n ∈ used -> n ∈ res;
  fl_flying t n : fly t = Some n -> (n ∉ used) /\ n ∈ res;
  fl_apart t u n : fly t = Some n -> fly u = Some n -> t = u;
}.

Definition flying x t : option Z :=
  match pcs (base x) t with
  | Sealing n _ _ _ _ _ => Some n
  | _ => tasks x !! t ≫= pending
  end.

Definition flight_ok (p : pc aead_key) (fl : list job) : Prop :=
  match p with
  | Sealing n sid' plain iv e out => exists j, fl = [j] /\ send_op sid n j = OEncrypt n sid' plain iv e out
  | _ => fl = []
  end.

(** The program points of [encrypt] and [promote_self_key]. *)
Definition sender_pc (p : pc aead_key) : bool :=
  match p with Idle | Sealing _ _ _ _ _ _ | Counting | Promoting | Installing _ | Writing _ | Flagging => true | _ => false end.

Definition carries (p : packet) (j : job) : Prop :=
  p_plain p = j_plain j /\ p_iv p = j_iv j (p_counter p) /\ p_enc p = j_enc j.

Record traffic_inv (v : ExpresslaneVersion) (ks : list (Cipher aead_key)) (progs : list (list cmd)) x ps : Prop := {
  ti_reach : reachable v (base x);
  ti_log : omap packet_entry (log (base x)) = prod_map id p_wire <$> ps;
  ti_packets : Forall (fun e => e.1 < length progs /\ packet_ok v sid e.2 /\ p_key e.2 ∈ ks) ps;
  ti_len : length (tasks x) = length progs;
  ti_flights : flights (flying x) (counters ps) (reserved (events_of (base x)));
  ti_jobs t k l : tasks x !! t = Some k -> progs !! t = Some l ->
    exists done fl, sends l = done ++ fl ++ sends (todo k) /\ flight_ok (pcs (base x) t) fl /\
      Forall2 carries (by_thread t ps) done;
  ti_count : length (reserved (events_of (base x))) + sum_list_with need (tasks x) = total progs;
  ti_pending t k n : tasks x !! t = Some k -> pending k = Some n ->
    pcs (base x) t = Idle /\ exists j rest, todo k = CSend j :: rest;
  ti_pcs t : sender_pc (pcs (base x) t) = true;
  ti_idle t : length progs <= t -> pcs (base x) t = Idle;
  ti_version : version (view (base x)) = v;
  ti_current : exists k, current_self (view (base x)) = Some k /\ k ∈ ks;
  ti_staged k : next_self (view (base x)) = Some k -> k ∈ ks;
}.

End Senders.
End Senders.
Import Senders.

Module SenderFacts.

Lemma sum_list_with_insert {A} (f : A -> nat) l i x y :
  l !! i = Some x -> sum_list_with f (<[i := y]> l) + f x = sum_list_with f l + f y.
Proof.
  revert i. induction l as [|z l IH]; intros [|i] Hi; simpl in *; simplify_eq; [lia|].
  specialize (IH i Hi). lia.
Qed.

Lemma by_thread_app {A} t (l1 l2 : list (nat * A)) : by_thread t (l1 ++ l2) = by_thread t l1 ++ by_thread t l2.
Proof. unfold by_thread. by rewrite filter_app, fmap_app. Qed.

Lemma by_thread_here {A} t (a : A) : by_thread t [(t, a)] = [a].
Proof. unfold by_thread. by rewrite filter_cons_True. Qed.

Lemma by_thread_other {A} t u (a : A) : u <> t -> by_thread t [(u, a)] = [].
Proof. intros Hne. unfold by_thread. by rewrite filter_cons_False. Qed.

Lemma by_thread_map {A B} (f : A -> B) t l : by_thread t (prod_map id f <$> l) = f <$> by_thread t l.
Proof.
  induction l as [|[u a] l IH]; [done|]. rewrite fmap_cons.
  change (prod_map id f (u, a) :: (prod_map id f <$> l)) with ([(u, f a)] ++ (prod_map id f <$> l)).
  change ((u, a) :: l) with ([(u, a)] ++ l). rewrite !by_thread_app, fmap_app, IH.
  destruct (decide (u = t)) as [->|Hne]; [by rewrite !by_thread_here|by rewrite !by_thread_other].
Qed.

(** Collecting thread by thread permutes the whole list. *)
Lemma by_thread_permutation {A} (l : list (nat * A)) n :
  Forall (fun e => e.1 < n) l -> concat ((fun t => by_thread t l) <$> seq 0 n) ≡ₚ l.*2.
Proof.
  intros Hl. trans ((filter (fun e => e.1 < n) l).*2).
  2: { replace (filter _ l) with l; [done|]. induction Hl as [|e l He Hl IH]; [done|].
    by rewrite filter_cons_True, <- IH. }
  clear Hl. induction n as [|n IH].
  { replace (filter _ l) with (@nil (nat * A)); [done|]. induction l as [|e l IH]; [done|].
    rewrite filter_cons_False by lia. done. }
  rewrite seq_S, fmap_app, concat_app, IH. simpl. rewrite app_nil_r. unfold by_thread. rewrite <- fmap_app.
  apply fmap_Permutation. clear IH. induction l as [|e l IH]; [done|].
  destruct (lt_eq_lt_dec e.1 n) as [[Hlt|Heq]|Hgt].
  - rewrite filter_cons_True, (filter_cons_False _ e), (filter_cons_True _ e) by lia. simpl. by rewrite IH.
  - rewrite filter_cons_False, (filter_cons_True _ e), (filter_cons_True _ e) by lia. by rewrite <- Permutation_middle, IH.
  - by rewrite !filter_cons_False by lia.
Qed.

Lemma fmap_concat {A B} (f : A -> B) (ls : list (list A)) : f <$> concat ls = concat ((fun l : list A => f <$> l) <$> ls) :> list B.
Proof. induction ls as [|l ls IH]; [done|]. simpl. by rewrite fmap_app, IH. Qed.

Lemma Forall2_concat {A B} (P : A -> B -> Prop) ls ks : Forall2 (Forall2 P) ls ks -> Forall2 P (concat ls) (concat ks).
Proof. induction 1; simpl; [done|by apply Forall2_app]. Qed.

Lemma Forall2_impl_in {A B} (P Q : A -> B -> Prop) l k :
  Forall2 P l k -> (forall a b, a ∈ l -> b ∈ k -> P a b -> Q a b) -> Forall2 Q l k.
Proof.
  induction 1 as [|a b l k Hab Hlk IH]; intros Himp; constructor.
  - by apply Himp; [apply list_elem_of_here..|].
  - apply IH. intros a' b' Ha Hb. by apply Himp; apply list_elem_of_further.
Qed.

(** Two lists related to a third, element by element. *)
Lemma Forall2_through {A B C} (P : A -> B -> Prop) (Q : A -> C -> Prop) l k m :
  Forall2 P l k -> Forall2 Q l m -> Forall2 (fun b c => exists a, a ∈ l /\ P a b /\ Q a c) k m.
Proof.
  intros Hk. revert m. induction Hk as [|a b l k Hab Hlk IH]; intros m Hm; inversion Hm as [|? c ? m' Hac Hlm]; subst; constructor.
  - exists a. split; [apply list_elem_of_here|done].
  - eapply Forall2_impl; [by apply IH|]. intros b' c' (a' & Ha & ?). exists a'. split; [by apply list_elem_of_further|done].
Qed.

Lemma forallb_false {A} (f : A -> bool) l : forallb f l = false -> exists a, a ∈ l /\ f a = false.
Proof.
  induction l as [|a l IH]; [done|]. simpl. destruct (f a) eqn:Ha; simpl.
  - intros (b & Hb & Hf)%IH. exists b. split; [by apply list_elem_of_further|done].
  - intros _. exists a. split; [apply list_elem_of_here|done].
Qed.

(** *** Counters in flight *)

Lemma flights_ext fly fly' used res : (forall u, fly' u = fly u) -> flights fly used res -> flights fly' used res.
Proof.
  intros Hext Hf. split; [apply Hf|apply Hf| |].
  - intros t n. rewrite Hext. apply Hf.
  - intros t u n. rewrite !Hext. apply Hf.
Qed.

Lemma flights_reserve fly fly' used res t n :
  flights fly used res -> n ∉ res -> fly' t = Some n -> (forall u, u <> t -> fly' u = fly u) ->
  flights fly' used (res ++ [n]).
Proof.
  intros Hf Hn Ht Hu. split; [apply Hf|..].
  - intros m Hm. apply elem_of_app. left. by apply (fl_used _ _ _ Hf).
  - intros u m Hm. rewrite elem_of_app. destruct (decide (u = t)) as [->|Hne].
    + rewrite Ht in Hm. simplify_eq. split; [|right; apply list_elem_of_here]. intros Hin. by apply Hn, (fl_used _ _ _ Hf).
    + rewrite Hu in Hm by done. destruct (fl_flying _ _ _ Hf u m Hm). auto.
  - intros u1 u2 m H1 H2. destruct (decide (u1 = t)) as [->|Hu1], (decide (u2 = t)) as [->|Hu2]; try done.
    + rewrite Ht in H1. rewrite Hu in H2 by done. simplify_eq. by destruct Hn; apply (fl_flying _ _ _ Hf u2).
    + rewrite Ht in H2. rewrite Hu in H1 by done. simplify_eq. by destruct Hn; apply (fl_flying _ _ _ Hf u1).
    + rewrite Hu in H1, H2 by done. by eapply (fl_apart _ _ _ Hf).
Qed.

Lemma flights_land fly fly' used res t n :
  flights fly used res -> fly t = Some n -> fly' t = None -> (forall u, u <> t -> fly' u = fly u) ->
  flights fly' (used ++ [n]) res.
Proof.
  intros Hf Hn Ht Hu. destruct (fl_flying _ _ _ Hf t n Hn) as [Hnew Hin].
  assert (Hfly : forall u m, fly' u = Some m -> u <> t /\ fly u = Some m).
  { intros u m Hm. destruct (decide (u = t)) as [->|Hne]; [congruence|]. by rewrite Hu in Hm. }
  split.
  - apply NoDup_app. split_and!; [apply Hf| |apply NoDup_singleton]. intros m Hm ->%list_elem_of_singleton. done.
  - intros m [Hm| ->%list_elem_of_singleton]%elem_of_app; [by apply (fl_used _ _ _ Hf)|done].
  - intros u m [Hne Hm]%Hfly. destruct (fl_flying _ _ _ Hf u m Hm) as [Hm1 Hm2]. split; [|done].
    intros [?| ->%list_elem_of_singleton]%elem_of_app; [done|]. by apply Hne, (fl_apart _ _ _ Hf u t n).
  - intros u1 u2 m [_ H1]%Hfly [_ H2]%Hfly. by eapply (fl_apart _ _ _ Hf).
Qed.

Section SenderFacts.
Context {W : Type} `{AntiReplay W} `{Aead} `{!AeadLaws}.
Abbreviation config := (config W aead_key).
Abbreviation traffic := (traffic W aead_key).
Abbreviation packet := (packet aead_key).
Variable sid : list byte.
Hypothesis Hsid : length sid = 8.
Implicit Types (c : config) (x : traffic) (t : nat) (ps : list (nat * packet)) (s : ExpresslaneSession W aead_key).

Lemma length_packet_buf j : length (packet_buf j) = 40 + length (j_plain j).
Proof. unfold packet_buf. lens. Qed.

(** What a step does to the log, the program points and the tasks. *)
Inductive moved (v : ExpresslaneVersion) (ks : list (Cipher aead_key)) t x x' : Prop :=
| m_reserve k j rest n :
    tasks x !! t = Some k -> todo k = CSend j :: rest -> pending k = None -> pcs (base x) t = Idle ->
    log (base x') = log (base x) ++ [(t, (OReserve, Reserved n))] -> pcs (base x') = pcs (base x) ->
    tasks x' = <[t := mkTask (todo k) (Some n)]> (tasks x) -> moved v ks t x x'
| m_begin k j rest n :
    tasks x !! t = Some k -> todo k = CSend j :: rest -> pending k = Some n ->
    log (base x') = log (base x) ->
    pcs (base x') = <[t := Sealing n sid (j_plain j) (j_iv j n) (j_enc j) (packet_buf j)]>
      (pcs (base x)) ->
    tasks x' = <[t := mkTask rest None]> (tasks x) -> moved v ks t x x'
| m_seal n j (p : packet) :
    pcs (base x) t = Sealing n sid (j_plain j) (j_iv j n) (j_enc j) (packet_buf j) ->
    log (base x') = log (base x) ++ [(t, (send_op sid n j, Sent (Ok (length (p_wire p))) (p_wire p)))] ->
    packet_ok v sid p -> p_key p ∈ ks -> p_counter p = n -> carries p j ->
    pcs (base x') = <[t := Counting]> (pcs (base x)) -> tasks x' = tasks x -> moved v ks t x x'
| m_other k q l :
    tasks x !! t = Some k ->
    is_sealing (pcs (base x) t) = false -> is_sealing q = false -> sender_pc q = true ->
    log (base x') = log (base x) ++ l -> l = [] \/ l = [(t, (OPromote, Promoted))] ->
    pcs (base x') = <[t := q]> (pcs (base x)) ->
    (tasks x' = tasks x /\ pcs (base x) t <> Idle \/
     exists rest, todo k = CPromote :: rest /\ tasks x' = <[t := mkTask rest None]> (tasks x) /\
       pcs (base x) t = Idle /\ q = Promoting) ->
    moved v ks t x x'.

Lemma act_reserve t c c' :
  act t (Call OReserve) c = Some c' ->
  pcs c t = Idle /\ c' = record t OReserve (Reserved (reserve_counter (shared c)).1) (set_shared (reserve_counter (shared c)).2 c).
Proof. unfold act. destruct (pcs c t); by intros [= <-]. Qed.

Lemma act_promote t c c' :
  act t (Call OPromote) c = Some c' -> c' = go t Promoting (set_next_lock (Some t) c).
Proof. unfold act, begin_call. destruct (pcs c t); try done. case_decide; [|done]. by intros [= <-]. Qed.

Lemma act_send t n j c c' :
  job_ok j -> act t (Call (send_op sid n j)) c = Some c' ->
  c' = go t (Sealing n sid (j_plain j) (j_iv j n) (j_enc j) (packet_buf j))
         (set_readers ({[t]} ∪ readers c) c).
Proof.
  intros [Hmax _]. unfold act, begin_call, send_op. destruct (pcs c t); try done.
  rewrite length_packet_buf, decide_False by (unfold WIRE_OVERHEAD; lia). destruct (u16_MAX <? _)%Z eqn:Hm; unfold u16_MAX in Hm; zbool; [lia|].
  case_decide; [|done]. by intros [= <-].
Qed.

(** A continued promotion, or the count after an encryption. *)
Lemma continue_other t c c' :
  act t Continue c = Some c' -> sender_pc (pcs c t) = true -> is_sealing (pcs c t) = false ->
  exists q l, is_sealing q = false /\ sender_pc q = true /\ log c' = log c ++ l /\
    (l = [] \/ l = [(t, (OPromote, Promoted))]) /\ pcs c' = <[t := q]> (pcs c).
Proof.
  intros Hact Hp Hs. unfold act in Hact.
  destruct (pcs c t) eqn:Hpc; simpl in *; try done; repeat (case_match; simplify_eq); simplify_eq; simpl;
    first [ eexists _, []; split_and!; [| |by rewrite app_nil_r|by left|reflexivity]; done
          | eexists _, [_]; split_and!; [| |reflexivity|by right|reflexivity]; done ].
Qed.

(** Completing an encryption under the installed key. *)
Lemma continue_seal v (ks : list (Cipher aead_key)) t n j c c' :
  threads_ok c -> job_ok j ->
  pcs c t = Sealing n sid (j_plain j) (j_iv j n) (j_enc j) (packet_buf j) ->
  version (shared c) = v -> (exists k, current_self (shared c) = Some k /\ k ∈ ks) ->
  act t Continue c = Some c' ->
  exists p, packet_ok v sid p /\ p_key p ∈ ks /\ p_counter p = n /\ carries p j /\
    log c' = log c ++ [(t, (send_op sid n j, Sent (Ok (length (p_wire p))) (p_wire p)))] /\
    pcs c' = <[t := Counting]> (pcs c).
Proof.
  intros Hok [Hmax Hiv] Hpc <- (k & Hcur & Hk) Hact. pose proof (ok_args _ Hok t) as Hargs. rewrite Hpc in Hargs.
  destruct Hargs as [Hn _]. unfold act in Hact. rewrite Hpc in Hact. cbn [continue] in Hact.
  destruct (SessionProperties.encrypt_success k n sid (j_plain j) (j_iv j n) (j_enc j)
    (packet_buf j) (shared c)) as (tag & ct & Hs & Htag & Hct & Henc);
    [exact Hsid|apply Hiv|exact Hmax|rewrite length_packet_buf; lia|exact Hcur|].
  set (p := mkPacket k n (j_plain j) (j_iv j n) (j_enc j) tag ct).
  assert (Hp : packet_ok (version (shared c)) sid p) by (unfold packet_ok; simpl; split_and!; auto).
  rewrite Henc in Hact. rewrite drop_ge, app_nil_r in Hact by (rewrite length_packet_buf; lia).
  injection Hact as <-. exists p.
  split_and!; try done. rewrite (length_p_wire _ _ _ Hp). done.
Qed.

Lemma progs_job progs t l (j : job) : progs_ok progs -> progs !! t = Some l -> j ∈ sends l -> job_ok j.
Proof. intros Hp Hl Hj. eapply (proj1 (Forall_forall _ _)); [|exact Hj]. by eapply (Forall_lookup_1 _ _ _ _ Hp). Qed.

Lemma exec_version s o ev s' : op_wf o -> exec s o = Ret (ev, s') -> version s' = version s.
Proof.
  intros Hwf Hexec. destruct o as [| | |n sid' plain iv e out| |sid' wire out]; simpl in Hexec.
  4: { destruct Hwf as (_ & ? & ?). rewrite encrypt_meets_spec, bind_ret in Hexec by done.
    unfold encrypt_spec in Hexec. repeat case_decide; repeat case_match; by simplify_eq. }
  5: { rewrite decrypt_meets_spec, bind_ret in Hexec by done.
    destruct (decrypt_spec _ _ _ _) as [[r out'] s1] eqn:Hs. simplify_eq.
    by apply decrypt_spec_cases in Hs as [(? & _ & ->)|(? & ? & _ & _ & _ & ->)]. }
  all: unfold update_next_self_key, update_peer_key, promote_self_key in Hexec; repeat (case_match; simplify_eq); by simplify_eq.
Qed.

Lemma run_version ops : forall s evs s', Forall op_wf ops -> run s ops = Ret (evs, s') -> version s' = version s.
Proof.
  induction ops as [|o ops IH]; intros s evs s' Hwf Hrun; simpl in Hrun; [by simplify_eq|].
  apply Forall_cons in Hwf as [Ho Hops]. destruct (exec s o) as [[ev s1]|] eqn:Hexec; [|done].
  rewrite bind_ret in Hrun. destruct (run s1 ops) as [[evs1 s2]|] eqn:Hrun1; [|done]. rewrite bind_ret in Hrun.
  simplify_eq. rewrite (IH _ _ _ Hops Hrun1). by eapply exec_version.
Qed.

Section Step.
Context (v : ExpresslaneVersion) (ks : list (Cipher aead_key)) (progs : list (list cmd)).
Hypothesis Hprogs : progs_ok progs.

Lemma task_prog x ps t k :
  traffic_inv sid v ks progs x ps -> tasks x !! t = Some k ->
  exists l done fl, progs !! t = Some l /\ sends l = done ++ fl ++ sends (todo k) /\
    flight_ok sid (pcs (base x) t) fl /\ Forall2 carries (by_thread t ps) done.
Proof.
  intros Hinv Hk. destruct (lookup_lt_is_Some_2 progs t) as [l Hl].
  { rewrite <- (ti_len _ _ _ _ _ _ Hinv). by eapply lookup_lt_Some. }
  destruct (ti_jobs _ _ _ _ _ _ Hinv t k l Hk Hl) as (done & fl & ? & ? & ?). by exists l, done, fl.
Qed.

Lemma todo_job x ps t k j rest :
  traffic_inv sid v ks progs x ps -> tasks x !! t = Some k -> todo k = CSend j :: rest -> job_ok j.
Proof.
  intros Hinv Hk Htodo. destruct (task_prog x ps t k Hinv Hk) as (l & done & fl & Hl & Hsends & _).
  eapply progs_job; [done..|]. rewrite Hsends, Htodo. simpl. rewrite !elem_of_app, elem_of_cons. tauto.
Qed.

Lemma step_moved x x' ps t :
  traffic_inv sid v ks progs x ps -> step sid t x = Some x' -> moved v ks t x x'.
Proof.
  intros Hinv Hstep. pose proof (reachable_ok _ _ (ti_reach _ _ _ _ _ _ Hinv)) as Hok. unfold step in Hstep.
  destruct (tasks x !! t) as [k|] eqn:Hk; [|done].
  destruct (is_idle (pcs (base x) t)) eqn:Hidle.
  - assert (Hpc : pcs (base x) t = Idle) by (by destruct (pcs (base x) t)).
    destruct (todo k) as [|[j|] rest] eqn:Htodo; [done| |].
    + destruct (pending k) as [n|] eqn:Hpend.
      * destruct (act _ _ _) as [c|] eqn:Hact; simplify_eq/=.
        apply act_send in Hact as ->; [|by eapply todo_job]. by eapply m_begin.
      * destruct (act _ _ _) as [c|] eqn:Hact; simplify_eq/=.
        apply act_reserve in Hact as [_ ->]. eapply m_reserve; try done; by rewrite Htodo.
    + assert (Hs : is_sealing (pcs (base x) t) = false) by (by rewrite Hpc).
      destruct (act _ _ _) as [c|] eqn:Hact; [|by destruct (pending k)].
      assert (x' = mkTraffic c (<[t := mkTask rest None]> (tasks x))) as -> by (by destruct (pending k); simplify_eq/=).
      apply act_promote in Hact as ->. eapply (m_other _ _ _ _ _ k Promoting []); try done; simpl;
        [by rewrite app_nil_r|by left|]. right. by eexists.
  - destruct (act t Continue (base x)) as [c|] eqn:Hact; simplify_eq/=.
    assert (Hne : pcs (base x) t <> Idle) by (intros He; by rewrite He in Hidle).
    destruct (is_sealing (pcs (base x) t)) eqn:Hs.
    + destruct (task_prog x ps t k Hinv Hk) as (l & done & fl & Hl & Hsends & Hfl & _).
      destruct (pcs (base x) t) as [|n sid' plain iv e out| | | | | | | | | |] eqn:Hpc; try done.
      destruct Hfl as (j & -> & Hop). injection Hop as <- <- <- <- <-.
      destruct (continue_seal v ks t n j (base x) c) as (p & Hp & Hkey & Hn & Hj & Hlog & Hpcs);
        [exact Hok| |exact Hpc|apply Hinv|apply (ti_current _ _ _ _ _ _ Hinv)|exact Hact|
         eapply m_seal; eauto].
      eapply progs_job; [done..|]. rewrite Hsends. rewrite !elem_of_app. right. left. apply list_elem_of_here.
    + destruct (continue_other t (base x) c Hact (ti_pcs _ _ _ _ _ _ Hinv t) Hs) as (q & l & Hq & Hq' & Hlog & Hl & Hpcs).
      eapply m_other; try done. by left.
Qed.

(** *** A step keeps the invariant *)

Lemma step_act x x' ps t :
  traffic_inv sid v ks progs x ps -> step sid t x = Some x' ->
  exists a, action_wf a /\ act t a (base x) = Some (base x') /\ (a = Continue \/ pcs (base x) t = Idle).
Proof.
  intros Hinv Hstep. unfold step in Hstep.
  destruct (tasks x !! t) as [k|] eqn:Hk; [|done].
  destruct (is_idle (pcs (base x) t)) eqn:Hidle.
  2: { destruct (act t Continue (base x)) as [c|] eqn:Hact; simplify_eq/=. exists Continue. by split_and!; [| |left]. }
  assert (Hpc : pcs (base x) t = Idle) by (by destruct (pcs (base x) t)).
  destruct (todo k) as [|[j|] rest] eqn:Htodo; [done| |].
  - destruct (pending k) as [n|] eqn:Hpend.
    + destruct (act _ _ _) as [c|] eqn:Hact; simplify_eq/=. eexists. split_and!; [|exact Hact|by right].
      destruct (todo_job x ps t k j rest Hinv Hk Htodo) as [_ Hiv]. split_and!; [|done|apply Hiv].
      assert (Hfly : flying x t = Some n) by (unfold flying; by rewrite Hpc, Hk).
      destruct (fl_flying _ _ _ (ti_flights _ _ _ _ _ _ Hinv) t n Hfly) as [_ Hin]. revert Hin.
      rewrite (inv_reserved_seq _ _ (reachable_inv _ _ (ti_reach _ _ _ _ _ _ Hinv))).
      intros (i & -> & _)%list_elem_of_fmap. apply wrap64_range.
    + destruct (act _ _ _) as [c|] eqn:Hact; simplify_eq/=. eexists. by split_and!; [|exact Hact|right].
  - destruct (act _ _ _) as [c|] eqn:Hact; [|by destruct (pending k)]. exists (Call OPromote).
    rewrite Hact. by destruct (pending k); simplify_eq/=; split_and!; try right.
Qed.

Lemma step_reach x x' ps t :
  traffic_inv sid v ks progs x ps -> step sid t x = Some x' -> reachable v (base x').
Proof.
  intros Hinv (a & Hwf & Hact & _)%(step_act x x' ps t Hinv). eapply reachable_step; [apply Hinv|done..].
Qed.

(** Which keys the session holds. *)
Definition keys_in (s : ExpresslaneSession W aead_key) : Prop :=
  version s = v /\ (exists k, current_self s = Some k /\ k ∈ ks) /\ (forall k, next_self s = Some k -> k ∈ ks).

Lemma exec_keys_in s o ev s' :
  match o with OReserve | OPromote | OEncrypt _ _ _ _ _ _ => True | _ => False end ->
  op_wf o -> exec s o = Ret (ev, s') -> keys_in s -> keys_in s'.
Proof.
  intros Ho Hwf Hexec Hkeys. pose proof Hkeys as (Hv & Hcur & Hnext). destruct o; try done; simpl in Hexec.
  - by simplify_eq.
  - unfold promote_self_key in Hexec. destruct (next_self s) as [k|] eqn:Hn; simplify_eq/=; [|done].
    split_and!; simpl; [done| |congruence]. exists k. split; [done|]. by apply Hnext.
  - destruct Hwf as (_ & ? & ?). rewrite encrypt_meets_spec, bind_ret in Hexec by done.
    unfold encrypt_spec in Hexec. repeat case_decide; repeat case_match; simplify_eq/=; first [exact Hkeys|by unfold keys_in in *; destruct_and?; split_and!].
Qed.

Lemma step_keys x x' ps t :
  traffic_inv sid v ks progs x ps -> step sid t x = Some x' -> keys_in (view (base x')).
Proof.
  intros Hinv Hstep. pose proof (step_moved x x' ps t Hinv Hstep) as Hm.
  destruct (step_act x x' ps t Hinv Hstep) as (a & Hwf & Hact & _).
  assert (Hkeys : keys_in (view (base x))) by (split_and!; apply Hinv).
  destruct (act_simulates t a _ _ (reachable_ok _ _ (ti_reach _ _ _ _ _ _ Hinv)) Hwf Hact)
    as [[_ Hv]|(o & ev & Ho & Hlog & Hexec)]; [by rewrite Hv|].
  apply (exec_keys_in (view (base x)) o ev); try done. destruct Hm as [? ? ? ? ? ? ? ? Hl|? ? ? ? ? ? ? Hl|? ? ? ? Hl|? ? ? ? ? ? ? Hl Hl']; rewrite Hl in Hlog.
  - apply (inj (app (log (base x)))) in Hlog. by simplify_eq.
  - apply (f_equal length) in Hlog. rewrite length_app in Hlog. simpl in Hlog. lia.
  - apply (inj (app (log (base x)))) in Hlog. unfold send_op in Hlog. by simplify_eq.
  - apply (inj (app (log (base x)))) in Hlog. destruct Hl' as [->| ->]; by simplify_eq.
Qed.

Hypothesis Htotal : (Z.of_nat (total progs) < 2 ^ 64)%Z.

(** The fields of the invariant that follow from the shared session alone. *)
Ltac shared_fields Hinv Hstep :=
  pose proof (step_reach _ _ _ _ Hinv Hstep) as Hreach';
  pose proof (step_keys _ _ _ _ Hinv Hstep) as (Hv' & Hcur' & Hnext').

Lemma events_app x x' l :
  log (base x') = log (base x) ++ l -> events_of (base x') = events_of (base x) ++ l.*2.*2.
Proof. intros Hl. unfold events_of. by rewrite Hl, !fmap_app. Qed.

Lemma reserved_app evs evs' : reserved (evs ++ evs') = reserved evs ++ reserved evs'.
Proof. apply omap_app. Qed.

(** A thread with a task is one of the program's. *)
Lemma task_lt x ps t k : traffic_inv sid v ks progs x ps -> tasks x !! t = Some k -> t < length progs.
Proof. intros Hinv Hk. rewrite <- (ti_len _ _ _ _ _ _ Hinv). by eapply lookup_lt_Some. Qed.

Lemma idle_insert x ps t k q :
  traffic_inv sid v ks progs x ps -> tasks x !! t = Some k ->
  forall u, length progs <= u -> (<[t := q]> (pcs (base x))) u = Idle.
Proof.
  intros Hinv Hk u Hu. pose proof (task_lt x ps t k Hinv Hk). rewrite fn_lookup_insert_ne by lia. by apply Hinv.
Qed.

Lemma pcs_insert x ps t q :
  traffic_inv sid v ks progs x ps -> sender_pc q = true -> forall u, sender_pc ((<[t := q]> (pcs (base x))) u) = true.
Proof.
  intros Hinv Hq u. destruct (decide (u = t)) as [->|Hu]; [by rewrite fn_lookup_insert|].
  rewrite fn_lookup_insert_ne by done. by apply Hinv.
Qed.

(** Only the stepping thread's counter in flight changes. *)
Lemma flying_other x x' t u q k :
  u <> t -> (pcs (base x') = <[t := q]> (pcs (base x)) \/ pcs (base x') = pcs (base x)) ->
  (tasks x' = <[t := k]> (tasks x) \/ tasks x' = tasks x) -> flying x' u = flying x u.
Proof.
  intros Hne Hpcs Htasks. unfold flying.
  assert (pcs (base x') u = pcs (base x) u) as -> by (destruct Hpcs as [-> | ->]; by rewrite ?fn_lookup_insert_ne).
  assert (tasks x' !! u = tasks x !! u) as ->; [|done].
  destruct Htasks as [-> | ->]; by rewrite ?list_lookup_insert_ne.
Qed.

Lemma reserve_inv x x' ps t k j rest n :
  traffic_inv sid v ks progs x ps -> step sid t x = Some x' ->
  tasks x !! t = Some k -> todo k = CSend j :: rest -> pending k = None -> pcs (base x) t = Idle ->
  log (base x') = log (base x) ++ [(t, (OReserve, Reserved n))] -> pcs (base x') = pcs (base x) ->
  tasks x' = <[t := mkTask (todo k) (Some n)]> (tasks x) -> traffic_inv sid v ks progs x' ps.
Proof.
  intros Hinv Hstep Hk Htodo Hpend Hpc Hlog Hpcs Htasks. shared_fields Hinv Hstep.
  assert (Hlt : t < length (tasks x)) by (by eapply lookup_lt_Some).
  assert (Hres : reserved (events_of (base x')) = reserved (events_of (base x)) ++ [n]).
  { by rewrite (events_app _ _ _ Hlog), reserved_app. }
  assert (Hcount : length (reserved (events_of (base x'))) + sum_list_with need (tasks x') = total progs).
  { rewrite Hres, Htasks, length_app. pose proof (ti_count _ _ _ _ _ _ Hinv) as Hc.
    pose proof (sum_list_with_insert need (tasks x) t k (mkTask (todo k) (Some n)) Hk) as Hs.
    assert (Hn : need k = S (need (mkTask (todo k) (Some n)))) by (unfold need; simpl; rewrite Htodo, Hpend; simpl; lia).
    simpl length. lia. }
  assert (Hnd : NoDup (reserved (events_of (base x')))).
  { rewrite (inv_reserved_seq _ _ (reachable_inv _ _ Hreach')). apply SessionProperties.NoDup_seq_wrap. lia. }
  rewrite Hres in Hnd. apply NoDup_app in Hnd as (_ & Hnew & _).
  assert (Hn : n ∉ reserved (events_of (base x))) by (intros Hin; by apply (Hnew n Hin), list_elem_of_here).
  assert (Hflyt : flying x' t = Some n).
  { unfold flying. rewrite Hpcs, Hpc, Htasks, list_lookup_insert_eq by done. done. }
  assert (Hflyu : forall u, u <> t -> flying x' u = flying x u) by (intros u Hu; by eapply (flying_other x x' t u Idle); eauto).
  split; try done.
  - rewrite Hlog, omap_app. simpl. rewrite app_nil_r. apply Hinv.
  - apply Hinv.
  - rewrite Htasks, length_insert. apply Hinv.
  - rewrite Hres. by eapply flights_reserve; [apply Hinv|..].
  - intros u k' l Hk' Hl. rewrite Hpcs. destruct (decide (u = t)) as [->|Hu].
    + rewrite Htasks, list_lookup_insert_eq in Hk' by done. simplify_eq/=. by eapply (ti_jobs _ _ _ _ _ _ Hinv).
    + rewrite Htasks, list_lookup_insert_ne in Hk' by done. by eapply (ti_jobs _ _ _ _ _ _ Hinv).
  - intros u k' m Hk' Hm. rewrite Hpcs. destruct (decide (u = t)) as [->|Hu].
    + rewrite Htasks, list_lookup_insert_eq in Hk' by done. simplify_eq/=. eauto.
    + rewrite Htasks, list_lookup_insert_ne in Hk' by done. by eapply (ti_pending _ _ _ _ _ _ Hinv).
  - rewrite Hpcs. apply Hinv.
  - rewrite Hpcs. apply Hinv.
Qed.

(** A step of thread [t] that reserves nothing. *)
Lemma advance_inv x x' ps t k k' q l psl :
  traffic_inv sid v ks progs x ps -> step sid t x = Some x' -> tasks x !! t = Some k ->
  pcs (base x') = <[t := q]> (pcs (base x)) -> sender_pc q = true ->
  tasks x' = <[t := k']> (tasks x) -> pending k' = None -> need k' = need k ->
  log (base x') = log (base x) ++ l -> reserved l.*2.*2 = [] ->
  omap packet_entry l = prod_map id p_wire <$> psl ->
  Forall (fun e => e.1 = t /\ packet_ok v sid e.2 /\ p_key e.2 ∈ ks) psl ->
  flights (flying x') (counters (ps ++ psl)) (reserved (events_of (base x))) ->
  (forall prog, progs !! t = Some prog -> exists done fl, sends prog = done ++ fl ++ sends (todo k') /\
     flight_ok sid q fl /\ Forall2 carries (by_thread t (ps ++ psl)) done) ->
  traffic_inv sid v ks progs x' (ps ++ psl).
Proof.
  intros Hinv Hstep Hk Hpcs Hq Htasks Hpend Hneed Hlog Hres Hps Hpsl Hfl Hjobs. shared_fields Hinv Hstep.
  pose proof (task_lt x ps t k Hinv Hk) as Hlt.
  assert (Hev : reserved (events_of (base x')) = reserved (events_of (base x))).
  { by rewrite (events_app _ _ _ Hlog), reserved_app, Hres, app_nil_r. }
  assert (Htask : forall u k'', tasks x' !! u = Some k'' -> (u = t /\ k'' = k') \/ (u <> t /\ tasks x !! u = Some k'')).
  { intros u k'' Hu. rewrite Htasks in Hu. apply list_lookup_insert_Some in Hu as [(-> & -> & _)|[? ?]]; auto. }
  split; try done.
  - by rewrite Hlog, omap_app, fmap_app, Hps, (ti_log _ _ _ _ _ _ Hinv).
  - apply Forall_app. split; [apply Hinv|]. eapply Forall_impl; [exact Hpsl|]. intros e (-> & ? & ?). done.
  - rewrite Htasks, length_insert. apply Hinv.
  - by rewrite Hev.
  - intros u k'' prog [[-> ->]|[Hu Hk'']]%Htask Hprog; rewrite Hpcs.
    + rewrite fn_lookup_insert. by apply Hjobs.
    + rewrite fn_lookup_insert_ne by done. destruct (ti_jobs _ _ _ _ _ _ Hinv u k'' prog Hk'' Hprog) as (done & fl & ? & ? & Hall).
      exists done, fl. split_and!; try done. rewrite by_thread_app.
      replace (by_thread u psl) with (@nil packet); [by rewrite app_nil_r|].
      clear -Hpsl Hu. induction Hpsl as [|[w p] psl [Hw _] _ IH]; [done|]. simpl in Hw. subst w.
      change ((t, p) :: psl) with ([(t, p)] ++ psl). by rewrite by_thread_app, by_thread_other, <- IH.
  - rewrite Hev, Htasks. pose proof (sum_list_with_insert need (tasks x) t k k' Hk).
    pose proof (ti_count _ _ _ _ _ _ Hinv). lia.
  - intros u k'' n [[-> ->]|[Hu Hk'']]%Htask Hn; [congruence|].
    rewrite Hpcs, fn_lookup_insert_ne by done. by eapply (ti_pending _ _ _ _ _ _ Hinv).
  - rewrite Hpcs. by eapply pcs_insert.
  - rewrite Hpcs. by eapply idle_insert.
Qed.

Lemma flying_task x t k : tasks x !! t = Some k -> is_sealing (pcs (base x) t) = false -> flying x t = pending k.
Proof. intros Hk Hp. unfold flying. rewrite Hk. by destruct (pcs (base x) t). Qed.

Lemma begin_inv x x' ps t k j rest n :
  traffic_inv sid v ks progs x ps -> step sid t x = Some x' ->
  tasks x !! t = Some k -> todo k = CSend j :: rest -> pending k = Some n ->
  log (base x') = log (base x) ->
  pcs (base x') = <[t := Sealing n sid (j_plain j) (j_iv j n) (j_enc j) (packet_buf j)]> (pcs (base x)) ->
  tasks x' = <[t := mkTask rest None]> (tasks x) -> traffic_inv sid v ks progs x' ps.
Proof.
  intros Hinv Hstep Hk Htodo Hpend Hlog Hpcs Htasks.
  destruct (ti_pending _ _ _ _ _ _ Hinv t k n Hk Hpend) as [Hpc _].
  rewrite <- (app_nil_r ps). eapply (advance_inv x x' ps t k _ _ []); try done.
  - unfold need. rewrite Htodo, Hpend. simpl. lia.
  - by rewrite app_nil_r.
  - rewrite app_nil_r. apply (flights_ext (flying x)); [|apply Hinv]. intros u.
    destruct (decide (u = t)) as [->|Hu]; [|by eapply flying_other; eauto].
    rewrite (flying_task x t k) by (done || by rewrite Hpc). unfold flying. by rewrite Hpcs, fn_lookup_insert.
  - intros prog Hprog. destruct (ti_jobs _ _ _ _ _ _ Hinv t k prog Hk Hprog) as (done & fl & Hs & Hfl & Hall).
    rewrite Hpc in Hfl. simpl in Hfl. subst fl. exists done, [j]. rewrite app_nil_r. split_and!; [|by exists j|done].
    by rewrite Hs, Htodo.
Qed.

Lemma seal_inv x x' ps t n j p :
  traffic_inv sid v ks progs x ps -> step sid t x = Some x' ->
  pcs (base x) t = Sealing n sid (j_plain j) (j_iv j n) (j_enc j) (packet_buf j) ->
  log (base x') = log (base x) ++ [(t, (send_op sid n j, Sent (Ok (length (p_wire p))) (p_wire p)))] ->
  packet_ok v sid p -> p_key p ∈ ks -> p_counter p = n -> carries p j ->
  pcs (base x') = <[t := Counting]> (pcs (base x)) -> tasks x' = tasks x ->
  traffic_inv sid v ks progs x' (ps ++ [(t, p)]).
Proof.
  intros Hinv Hstep Hpc Hlog Hp Hkey Hn Hcar Hpcs Htasks.
  destruct (tasks x !! t) as [k|] eqn:Hk; [|unfold step in Hstep; by rewrite Hk in Hstep].
  assert (Hpend : pending k = None).
  { destruct (pending k) as [m|] eqn:Hm; [|done].
    destruct (ti_pending _ _ _ _ _ _ Hinv t k m Hk Hm) as [Hi _]. congruence. }
  assert (Hfly : flying x t = Some n) by (unfold flying; by rewrite Hpc).
  eapply (advance_inv x x' ps t k k _ _ [(t, p)]); try done.
  - by rewrite list_insert_id.
  - cbn. by rewrite firstn_all.
  - by apply Forall_singleton.
  - unfold counters. rewrite !fmap_app. simpl. rewrite Hn. eapply flights_land; [apply Hinv|done|..].
    + rewrite <- Hpend. apply flying_task; [by rewrite Htasks|by rewrite Hpcs, fn_lookup_insert].
    + intros u Hu. by eapply (flying_other x x' t u _ k); eauto.
  - intros prog Hprog. destruct (ti_jobs _ _ _ _ _ _ Hinv t k prog Hk Hprog) as (done & fl & Hs & Hfl & Hall).
    rewrite Hpc in Hfl. destruct Hfl as (j' & -> & Hop). exists (done ++ [j']), []. split_and!; [|done|].
    + by rewrite <- app_assoc.
    + rewrite by_thread_app, by_thread_here. apply Forall2_app; [done|]. apply Forall2_cons. split; [|done].
      injection Hop as Hplain Hiv Henc _. destruct Hcar as (Hc1 & Hc2 & Hc3). unfold carries. rewrite Hn in *. split_and!; congruence.
Qed.

Lemma other_inv x x' ps t k q l :
  traffic_inv sid v ks progs x ps -> step sid t x = Some x' -> tasks x !! t = Some k ->
  is_sealing (pcs (base x) t) = false -> is_sealing q = false -> sender_pc q = true ->
  log (base x') = log (base x) ++ l -> l = [] \/ l = [(t, (OPromote, Promoted))] ->
  pcs (base x') = <[t := q]> (pcs (base x)) ->
  (tasks x' = tasks x /\ pcs (base x) t <> Idle \/
   exists rest, todo k = CPromote :: rest /\ tasks x' = <[t := mkTask rest None]> (tasks x) /\
     pcs (base x) t = Idle /\ q = Promoting) ->
  traffic_inv sid v ks progs x' ps.
Proof.
  intros Hinv Hstep Hk Hs Hq Hq' Hlog Hl Hpcs Htasks.
  assert (Hpend : pending k = None).
  { destruct (pending k) as [m|] eqn:Hm; [|done].
    destruct (ti_pending _ _ _ _ _ _ Hinv t k m Hk Hm) as [Hi (j & rest & Ht)].
    destruct Htasks as [[_ ?]|(? & ? & _)]; congruence. }
  assert (exists k', tasks x' = <[t := k']> (tasks x) /\ pending k' = None /\ sends (todo k') = sends (todo k))
    as (k' & Htasks' & Hpend' & Hsends).
  { destruct Htasks as [[Ht _]|(rest & Htodo & Ht & _)].
    - exists k. by rewrite list_insert_id.
    - eexists. split_and!; [done..|]. by rewrite Htodo. }
  rewrite <- (app_nil_r ps). eapply (advance_inv x x' ps t k k' q l); try done.
  - unfold need. by rewrite Hsends, Hpend, Hpend'.
  - by destruct Hl as [->| ->].
  - by destruct Hl as [->| ->].
  - rewrite app_nil_r. apply (flights_ext (flying x)); [|apply Hinv]. intros u.
    destruct (decide (u = t)) as [->|Hu]; [|by eapply flying_other; eauto].
    rewrite (flying_task x t k) by done. rewrite (flying_task x' t k'); [congruence| |by rewrite Hpcs, fn_lookup_insert].
    rewrite Htasks', list_lookup_insert_eq; [done|by eapply lookup_lt_Some].
  - intros prog Hprog. destruct (ti_jobs _ _ _ _ _ _ Hinv t k prog Hk Hprog) as (done & fl & Hsnd & Hfl & Hall).
    assert (fl = []) as -> by (by destruct (pcs (base x) t)). exists done, []. rewrite app_nil_r, Hsends.
    split_and!; try done. by destruct q.
Qed.

Lemma step_inv x x' ps t :
  traffic_inv sid v ks progs x ps -> step sid t x = Some x' ->
  exists psl, traffic_inv sid v ks progs x' (ps ++ psl).
Proof.
  intros Hinv Hstep. destruct (step_moved x x' ps t Hinv Hstep).
  - exists []. rewrite app_nil_r. by eapply reserve_inv.
  - exists []. rewrite app_nil_r. by eapply begin_inv.
  - eexists. by eapply seal_inv.
  - exists []. rewrite app_nil_r. by eapply other_inv.
Qed.

Lemma follow_inv sched : forall x x' ps,
  traffic_inv sid v ks progs x ps -> follow sid sched x = Some x' ->
  exists ps', traffic_inv sid v ks progs x' ps'.
Proof.
  induction sched as [|t sched IH]; intros x x' ps Hinv Hf; simpl in Hf; [simplify_eq; eauto|].
  destruct (step sid t x) as [x1|] eqn:Hstep; [|done].
  destruct (step_inv x x1 ps t Hinv Hstep) as [psl Hinv1]. by eapply IH.
Qed.

Lemma spawn_inv c : ready v ks c -> traffic_inv sid v ks progs (spawn c progs) [].
Proof.
  intros Hr. pose proof (ready_reach _ _ _ Hr) as Hreach. pose proof (ready_quiet _ _ _ Hr) as Hq.
  destruct (quiescent_unlocked c (reachable_ok _ _ Hreach) Hq) as (Hn & _).
  assert (Hfly : forall t, flying (spawn c progs) t = None).
  { intros t. unfold flying. simpl. rewrite (Hq t), list_lookup_fmap. by destruct (progs !! t). }
  assert (Hkeys : keys_in (view c)).
  { split_and!.
    - destruct (reachable_run v c Hreach) as [Hwf Hrun]. by apply (run_version _ _ _ _ Hwf) in Hrun.
    - apply Hr.
    - intros k. unfold view, staged, next_pc. simpl. rewrite Hn. apply Hr. }
  destruct Hkeys as (Hv & Hcur & Hnext). split; try done.
  - simpl. by rewrite (ready_unsent _ _ _ Hr).
  - simpl. by rewrite length_fmap.
  - split; [apply NoDup_nil_2|by intros n ?%elem_of_nil|..]; intros t; rewrite Hfly; done.
  - intros t k l Hk Hl. simpl in Hk. rewrite list_lookup_fmap, Hl in Hk. simplify_eq/=. exists [], [].
    rewrite (Hq t). by split_and!.
  - simpl. rewrite (ready_reserved _ _ _ Hr). unfold total. simpl. clear. induction progs as [|l ls IH]; [done|].
    rewrite fmap_cons. simpl. rewrite IH. unfold need. simpl. by rewrite Nat.sub_0_r.
  - intros t k n Hk. simpl in Hk. rewrite list_lookup_fmap in Hk. by destruct (progs !! t); simplify_eq/=.
  - intros t. simpl. by rewrite (Hq t).
Qed.

(** *** Every run ends *)

Definition weight (k : task) : nat := 6 * length (todo k) - match pending k with Some _ => 1 | None => 0 end.
Definition thread_work x t : nat :=
  steps_left (pcs (base x) t) + match tasks x !! t with Some k => weight k | None => 0 end.
Definition work x : nat := sum_list_with (thread_work x) (seq 0 (length (tasks x))).

Lemma sum_decreases (f g : nat -> nat) l t :
  t ∈ l -> g t < f t -> (forall u, u <> t -> g u = f u) -> sum_list_with g l < sum_list_with f l.
Proof.
  intros Hin Ht Hu. assert (Hle : forall l, sum_list_with g l <= sum_list_with f l).
  { clear l Hin. intros l. induction l as [|u l IH]; simpl; [done|].
    destruct (decide (u = t)) as [->|Hne]; [|rewrite (Hu u Hne)]; lia. }
  induction l as [|u l IH]; [by apply elem_of_nil in Hin|]. simpl. specialize (Hle l).
  apply elem_of_cons in Hin as [<-|Hin]; [lia|]. specialize (IH Hin).
  destruct (decide (u = t)) as [->|Hne]; [|rewrite (Hu u Hne)]; lia.
Qed.

Lemma step_work x x' ps t : traffic_inv sid v ks progs x ps -> step sid t x = Some x' -> work x' < work x.
Proof.
  intros Hinv Hstep. pose proof (step_moved x x' ps t Hinv Hstep) as Hm.
  destruct (step_act x x' ps t Hinv Hstep) as (a & Hwf & Hact & Ha).
  destruct (tasks x !! t) as [k|] eqn:Hk; [|unfold step in Hstep; by rewrite Hk in Hstep].
  pose proof (lookup_lt_Some _ _ _ Hk) as Hlt.
  enough (Henough : length (tasks x') = length (tasks x) /\ thread_work x' t < thread_work x t /\
    forall u, u <> t -> thread_work x' u = thread_work x u).
  { destruct Henough as (Hlen & Ht & Hu). unfold work. rewrite Hlen.
    apply (sum_decreases _ _ _ t); [apply elem_of_seq; lia|done..]. }
  assert (Hcont : pcs (base x) t <> Idle -> steps_left (pcs (base x') t) < steps_left (pcs (base x) t)).
  { intros Hne. destruct Ha as [->|?]; [|done]. by apply continue_steps. }
  assert (Hpcs : forall u, u <> t -> pcs (base x') u = pcs (base x) u).
  { intros u Hu. destruct Hm; match goal with Hp : pcs (base x') = _ |- _ => rewrite Hp end;
    by rewrite ?fn_lookup_insert_ne. }
  assert (Hother : (exists k', tasks x' = <[t := k']> (tasks x) /\
      steps_left (pcs (base x') t) + weight k' < steps_left (pcs (base x) t) + weight k)).
  2: { destruct Hother as (k' & Htasks & Hw). unfold thread_work. rewrite Htasks, length_insert. split_and!; [done| |].
    - by rewrite list_lookup_insert_eq, Hk.
    - intros u Hu. by rewrite Hpcs, list_lookup_insert_ne. }
  destruct Hm as [k' j rest n Hk' Htodo Hpend Hpc _ Hp Ht|k' j rest n Hk' Htodo Hpend _ Hp Ht
    |n j p Hpc _ _ _ _ _ Hp Ht|k' q l Hk' _ _ _ _ _ Hp [[Ht Hne]|(rest & Htodo & Ht & Hpc & ->)]].
  - eexists. split; [done|]. rewrite Hk in Hk'. simplify_eq. rewrite Hp. unfold weight. simpl. rewrite Htodo, Hpend. simpl. lia.
  - eexists. split; [done|]. rewrite Hk in Hk'. simplify_eq. destruct (ti_pending _ _ _ _ _ _ Hinv t k' _ Hk Hpend) as [Hpc _].
    rewrite Hp, fn_lookup_insert, Hpc. unfold weight. rewrite Htodo, Hpend. simpl. lia.
  - exists k. rewrite list_insert_id by done. split; [done|]. rewrite Hp, fn_lookup_insert, Hpc. simpl. lia.
  - exists k. rewrite list_insert_id by done. split; [done|]. specialize (Hcont Hne). lia.
  - eexists. split; [done|]. rewrite Hk in Hk'. simplify_eq. rewrite Hp, fn_lookup_insert, Hpc. unfold weight.
    rewrite Htodo. simpl. destruct (pending k'); lia.
Qed.

(** A thread inside a call, or one with commands left when no call is open, can
    take a step. *)
Lemma progress x ps : traffic_inv sid v ks progs x ps -> finished x = false -> exists t x', step sid t x = Some x'.
Proof.
  intros Hinv Hfin. pose proof (reachable_ok _ _ (ti_reach _ _ _ _ _ _ Hinv)) as Hok.
  destruct (forallb (fun t => is_idle (pcs (base x) t)) (seq 0 (length (tasks x)))) eqn:Hidle.
  - assert (Hq : quiescent (base x)).
    { intros t. destruct (decide (t < length (tasks x))) as [Hlt|Hge].
      - rewrite forallb_forall in Hidle. specialize (Hidle t ltac:(apply in_seq; lia)). by destruct (pcs (base x) t).
      - apply Hinv. rewrite <- (ti_len _ _ _ _ _ _ Hinv). lia. }
    apply forallb_false in Hfin as (t & _ & Ht). unfold task_done in Ht. rewrite (Hq t) in Ht. simpl in Ht.
    destruct (tasks x !! t) as [[[|m rest] pend]|] eqn:Hk; try done. exists t. unfold step. rewrite Hk, (Hq t). simpl.
    destruct m as [j|].
    + destruct pend as [n|]; [destruct (quiescent_enabled (base x) t (send_op sid n j) Hok Hq) as [c ->]
        |destruct (quiescent_enabled (base x) t OReserve Hok Hq) as [c ->]]; by eexists.
    + destruct (quiescent_enabled (base x) t OPromote Hok Hq) as [c ->]. destruct pend; by eexists.
  - apply forallb_false in Hidle as (t & _ & Ht).
    destruct (some_thread_continues (base x) t Hok) as (u & c & Hu & Hact); [intros He; by rewrite He in Ht|].
    destruct (decide (u < length progs)) as [Hlt|Hge]; [|destruct Hu; apply Hinv; lia].
    rewrite <- (ti_len _ _ _ _ _ _ Hinv) in Hlt. apply lookup_lt_is_Some in Hlt as [k Hk].
    exists u. unfold step. rewrite Hk, Hact. destruct (pcs (base x) u); try done; by eexists.
Qed.

(** So every run can be driven to its end, in at most [work x] steps. *)
Lemma run_to_end x ps :
  traffic_inv sid v ks progs x ps ->
  exists sched x', length sched <= work x /\ follow sid sched x = Some x' /\ finished x' = true.
Proof.
  remember (work x) as n eqn:Hn. revert x ps Hn. induction n as [n IH] using lt_wf_ind. intros x ps -> Hinv.
  destruct (finished x) eqn:Hfin; [exists [], x; simpl; split_and!; [lia|done..]|].
  destruct (progress x ps Hinv Hfin) as (t & x1 & Hstep). pose proof (step_work x x1 ps t Hinv Hstep) as Hw.
  destruct (step_inv x x1 ps t Hinv Hstep) as [psl Hinv1].
  destruct (IH (work x1) Hw x1 _ eq_refl Hinv1) as (sched & x' & Hlen & Hf & Hfin').
  exists (t :: sched), x'. simpl. rewrite Hstep. simpl. split_and!; [lia|done..].
Qed.

(** *** The finished run *)

Lemma finished_jobs x ps t prog :
  traffic_inv sid v ks progs x ps -> finished x = true -> progs !! t = Some prog ->
  Forall2 carries (by_thread t ps) (sends prog).
Proof.
  intros Hinv Hfin Hprog. pose proof (lookup_lt_Some _ _ _ Hprog) as Hlt. rewrite <- (ti_len _ _ _ _ _ _ Hinv) in Hlt.
  unfold finished in Hfin. rewrite forallb_forall in Hfin. specialize (Hfin t ltac:(apply in_seq; lia)).
  apply andb_true_iff in Hfin as [Hidle Hdone]. apply lookup_lt_is_Some in Hlt as [k Hk]. rewrite Hk in Hdone.
  destruct (ti_jobs _ _ _ _ _ _ Hinv t k prog Hk Hprog) as (done & fl & Hs & Hfl & Hall).
  assert (fl = []) as -> by (by destruct (pcs (base x) t)). destruct k as [[|] pend]; [|done]. simpl in Hs.
  rewrite app_nil_r in Hs. by rewrite Hs.
Qed.

Lemma produced_wires x ps t : traffic_inv sid v ks progs x ps -> produced x t = p_wire <$> by_thread t ps.
Proof. intros Hinv. unfold produced. by rewrite (ti_log _ _ _ _ _ _ Hinv), by_thread_map. Qed.

(** The packets in the order the joins collect them. *)
Definition joined ps : list packet := concat ((fun t => by_thread t ps) <$> seq 0 (length progs)).

Lemma packets_joined x ps : traffic_inv sid v ks progs x ps -> packets x = p_wire <$> joined ps.
Proof.
  intros Hinv. unfold packets, joined. rewrite (ti_len _ _ _ _ _ _ Hinv), fmap_concat, <- list_fmap_compose. f_equal.
  apply list_fmap_ext. intros i t _. by apply produced_wires.
Qed.

Lemma joined_permutation x ps : traffic_inv sid v ks progs x ps -> joined ps ≡ₚ ps.*2.
Proof.
  intros Hinv. apply by_thread_permutation. eapply Forall_impl; [apply Hinv|]. by intros e [? _].
Qed.

Lemma joined_jobs x ps :
  traffic_inv sid v ks progs x ps -> finished x = true -> Forall2 carries (joined ps) (concat (sends <$> progs)).
Proof.
  intros Hinv Hfin. unfold joined. apply Forall2_concat. apply Forall2_same_length_lookup_2.
  { by rewrite !length_fmap, length_seq. }
  intros i a b Ha Hb. rewrite list_lookup_fmap in Ha. apply list_lookup_fmap_Some in Hb as (prog & -> & Hprog).
  destruct (seq 0 (length progs) !! i) as [t|] eqn:Ht; simplify_eq/=. apply lookup_seq in Ht as [-> Hi]. by eapply finished_jobs.
Qed.

Lemma total_concat : length (concat (sends <$> progs)) = total progs.
Proof. unfold total. clear. induction progs as [|l ls IH]; [done|]. rewrite fmap_cons. cbn [concat sum_list_with]. by rewrite length_app, IH. Qed.

(** The counters used are among the first [total progs]. *)
Lemma counters_range x ps n : traffic_inv sid v ks progs x ps -> n ∈ counters ps -> (1 <= n <= Z.of_nat (total progs))%Z.
Proof.
  intros Hinv Hn%(fl_used _ _ _ (ti_flights _ _ _ _ _ _ Hinv)). pose proof (ti_count _ _ _ _ _ _ Hinv) as Hcount.
  rewrite (inv_reserved_seq _ _ (reachable_inv _ _ (ti_reach _ _ _ _ _ _ Hinv))) in Hn.
  apply list_elem_of_fmap in Hn as (i & -> & Hi%elem_of_seq). rewrite wrap64_small by (unfold is_u64; lia). lia.
Qed.

End Step.
End SenderFacts.
End SenderFacts.
Import SenderFacts.

(** ** Properties *)

Module TrafficProperties.

Section TrafficProperties.
Context {W : Type} `{AntiReplay W} `{Aead} `{!AeadLaws}.
Abbreviation session := (ExpresslaneSession W aead_key).
Abbreviation config := (config W aead_key).
Abbreviation traffic := (traffic W aead_key).
Abbreviation packet := (packet aead_key).
Implicit Types (c : config) (x : traffic) (t : nat) (s r : session).

(** everything that arrives within the window is delivered.  Packets sealed
    under keys the receiver holds, with pairwise distinct counters it has not
    seen, each less than 8192 behind any packet before it, are all decrypted, in
    the order they arrive, and counted; a packet no other installed key happens
    to authenticate gives exactly its payload. *)
Theorem in_window_traffic_delivered sid (ps : list packet) h s :
  length sid = 8 -> Forall (packet_ok (version s) sid) ps -> Forall (fun p => p_key p ∈ peer_keys s) ps ->
  ar_models (replay_window (rx s)) h -> arrivals_ok h (p_counter <$> ps) ->
  exists outs s', receive_all sid (p_wire <$> ps) s = Ret (outs, s') /\
    Forall2 (fun p out => length out = length (p_plain p) /\
      (only_sealer (version s) sid (peer_keys s) p -> out = p_plain p)) ps outs /\
    packets_received s' = wrap64 (Z.of_nat (length ps + length h)).
Proof.
  intros Hsid Hok Hks Hm Harr.
  destruct (receive_all_delivers sid ps h s Hsid Hok Hks Hm Harr) as (outs & s' & Hrun & Hall & Hm').
  exists outs, s'. split_and!; [done..|]. unfold packets_received. rewrite (ar_count _ _ Hm').
  by rewrite length_app, length_reverse, length_fmap.
Qed.

(** The packets of a run, in any order. *)
Lemma joined_packets v sid ks progs x ps (qs : list packet) :
  traffic_inv sid v ks progs x ps -> joined progs ps ≡ₚ qs ->
  Forall (fun p => packet_ok v sid p /\ p_key p ∈ ks) qs /\ NoDup (p_counter <$> qs).
Proof.
  intros Hinv Hqs. rewrite (joined_permutation sid v ks progs x ps Hinv) in Hqs. split.
  - rewrite <- Hqs. apply Forall_fmap. eapply Forall_impl; [apply Hinv|]. simpl. tauto.
  - rewrite <- Hqs. apply (ti_flights _ _ _ _ _ _ Hinv).
Qed.

(** Few enough of them fit a new window in whatever order they arrive. *)
Lemma joined_arrivals v sid ks progs x ps (qs : list packet) :
  length sid = 8 -> (Z.of_nat (total progs) <= Spec.window)%Z -> traffic_inv sid v ks progs x ps -> joined progs ps ≡ₚ qs ->
  arrivals_ok [] (p_counter <$> qs).
Proof.
  unfold Spec.window. intros Hsid Htot Hinv Hqs. destruct (joined_packets v sid ks progs x ps qs Hinv Hqs) as [_ Hnd].
  rewrite (joined_permutation sid v ks progs x ps Hinv) in Hqs.
  assert (Hlt : (Z.of_nat (total progs) < 2 ^ 64)%Z) by lia.
  assert (Hcs : forall n, n ∈ p_counter <$> qs -> n ∈ counters ps) by (intros n; by rewrite <- Hqs).
  apply arrivals_ok_range; rewrite app_nil_r; [done|]. unfold Spec.window.
  assert (Hr : forall n, n ∈ p_counter <$> qs -> (1 <= n <= Z.of_nat (total progs))%Z)
    by (intros n Hn%Hcs; by eapply counters_range).
  intros c d Hc%Hr Hd%Hr. lia.
Qed.

Abbreviation wire_counters := (fmap (fun w : list byte => be_value (take 8 w))).

Lemma wires_counters v sid (ks : list (Cipher aead_key)) (qs : list packet) :
  Forall (fun p => packet_ok v sid p /\ p_key p ∈ ks) qs -> wire_counters (p_wire <$> qs) = p_counter <$> qs.
Proof.
  intros Hall. rewrite Forall_forall in Hall. rewrite <- list_fmap_compose. apply list_fmap_ext. intros i p Hp. simpl.
  eapply p_wire_counter, Hall. by eapply list_elem_of_lookup_2.
Qed.

(** The order of arrival is one the window takes. *)
Definition window_takes (progs : list (list cmd)) (wires : list (list byte)) : Prop :=
  (Z.of_nat (total progs) <= Spec.window)%Z \/ arrivals_ok [] (wire_counters wires).

(** The packets of a finished run at a receiver with a new window. *)
Lemma finished_delivered v sid ks progs x ps r wires :
  length sid = 8 -> (Z.of_nat (total progs) < 2 ^ 64)%Z ->
  traffic_inv sid v ks progs x ps -> finished x = true ->
  version r = v -> (forall k, k ∈ ks -> k ∈ peer_keys r) -> ar_models (replay_window (rx r)) [] ->
  wires ≡ₚ packets x -> window_takes progs wires ->
  exists outs r' js,
    receive_all sid wires r = Ret (outs, r') /\ js ≡ₚ concat (sends <$> progs) /\ length wires = total progs /\
    packets_received r' = Z.of_nat (total progs) /\ NoDup (wire_counters wires) /\
    Forall2 (fun out j => length out = length (j_plain j)) outs js /\
    ((forall p, packet_ok v sid p -> p_key p ∈ ks -> only_sealer v sid (peer_keys r) p) -> outs = j_plain <$> js).
Proof.
  intros Hsid Htot Hinv Hfin Hv Hks Hw Hperm Htakes. rewrite (packets_joined sid v ks progs x ps Hinv) in Hperm.
  pose proof (joined_jobs sid Hsid v ks progs x ps Hinv Hfin) as Hjobs.
  destruct (Permutation_map_inv _ _ Hperm) as (qs & -> & Hqs). change (map p_wire qs) with (p_wire <$> qs).
  destruct (Permutation_Forall2 Hqs Hjobs) as (js & Hjs & Hcar).
  destruct (joined_packets v sid ks progs x ps qs Hinv Hqs) as [Hall Hnd].
  assert (Harr : arrivals_ok [] (p_counter <$> qs)).
  { destruct Htakes as [Hfew|Harr]; [by eapply joined_arrivals|]. by rewrite <- (wires_counters v sid ks qs Hall). }
  destruct (receive_all_delivers sid qs [] r) as (outs & r' & Hrun & Houts & Hm); [done|..|done|done|].
  { eapply Forall_impl; [exact Hall|]. intros p [? _]. by rewrite Hv. }
  { eapply Forall_impl; [exact Hall|]. intros p [_ ?]. by apply Hks. }
  rewrite Hv in Houts. exists outs, r', js.
  assert (Hlen : length qs = total progs) by (by rewrite <- Hqs, (Forall2_length _ _ _ Hjobs), total_concat).
  split_and!; [done|by symmetry|by rewrite length_fmap|..].
  - unfold packets_received. rewrite (ar_count _ _ Hm), app_nil_r, length_reverse, length_fmap, Hlen.
    apply wrap64_small. unfold is_u64. lia.
  - by rewrite (wires_counters v sid ks qs Hall).
  - eapply Forall2_impl; [exact (Forall2_through _ _ _ _ _ Houts Hcar)|].
    simpl. intros out j (p & _ & [Hl _] & [Hp _]). by rewrite Hl, Hp.
  - intros Honly. apply list_eq_Forall2, Forall2_fmap_r.
    eapply Forall2_impl; [exact (Forall2_through _ _ _ _ _ Houts Hcar)|].
    simpl. intros out j (p & Hin & [_ Hp] & [<- _]). rewrite Forall_forall in Hall. destruct (Hall p Hin). auto.
Qed.

(** From the start of the threads to the receiver. *)
Lemma run_delivered v sid ks progs c sched x r :
  length sid = 8 -> progs_ok progs -> (Z.of_nat (total progs) < 2 ^ 64)%Z -> ready v ks c ->
  follow sid sched (spawn c progs) = Some x ->
  version r = v -> (forall k, k ∈ ks -> k ∈ peer_keys r) -> ar_models (replay_window (rx r)) [] ->
  (exists rest x', follow sid rest x = Some x' /\ finished x' = true) /\
  (finished x = true -> forall wires, wires ≡ₚ packets x -> window_takes progs wires -> exists outs r' js,
     receive_all sid wires r = Ret (outs, r') /\ js ≡ₚ concat (sends <$> progs) /\ length wires = total progs /\
     packets_received r' = Z.of_nat (total progs) /\ NoDup (wire_counters wires) /\
     Forall2 (fun out j => length out = length (j_plain j)) outs js /\
     ((forall p, packet_ok v sid p -> p_key p ∈ ks -> only_sealer v sid (peer_keys r) p) -> outs = j_plain <$> js)) /\
  exists ps, traffic_inv sid v ks progs x ps.
Proof.
  intros Hsid Hprogs Hlt Hready Hf Hv Hks Hw.
  destruct (follow_inv sid Hsid v ks progs Hprogs Hlt sched _ x [] (spawn_inv sid v ks progs c Hready) Hf) as [ps Hinv].
  split_and!; [|intros Hfin wires Hperm Htakes; by eapply finished_delivered|by exists ps].
  destruct (run_to_end sid Hsid v ks progs Hprogs Hlt x ps Hinv) as (rest & x' & _ & ? & ?). eauto.
Qed.


End TrafficProperties.

(** ** Witnesses

    Thread 3 stages two keys and promotes the first; then thread 0 sends twice,
    thread 1 once and thread 2 promotes, interleaved. *)
Import SessionProperties.SessionProperties.

Definition w_setup : list (nat * action) :=
  [(3, Call (OStage (w_key x01))); (3, Continue); (3, Call OPromote); (3, Continue); (3, Continue); (3, Continue);
   (3, Continue); (3, Call (OStage (w_key x02))); (3, Continue)].

Definition w_start : config Ring.ReplayWindow (@aead_key ToyAead.toy_aead) :=
  default (init Version2) (run_schedule w_setup (init Version2)).

Definition w_job (b : byte) : job := mkJob [b; b; b] (fun n => be_bytes 8 n ++ zeros 4) false.
Definition w_progs : list (list cmd) := [[CSend (w_job x41); CSend (w_job x42)]; [CSend (w_job x43)]; [CPromote]].
Definition w_turns : list nat := [0; 1; 2; 0; 2; 1; 0; 0; 1; 1; 2; 2; 2; 0; 0; 0; 0].
Definition w_traffic : traffic Ring.ReplayWindow (@aead_key ToyAead.toy_aead) :=
  default (spawn w_start w_progs) (follow w_sid w_turns (spawn w_start w_progs)).
Definition w_receiver : w_session := (update_peer_key (w_key x02) (update_peer_key (w_key x01) (new Version2)).2).2.

Lemma w_start_ready : ready Version2 [w_cipher x02; w_cipher x01] w_start.
Proof.
  split.
  - apply schedule_reachable; [constructor|]. unfold w_setup. repeat (apply Forall_cons_2; [vm_compute; done|]).
    apply Forall_nil_2.
  - intros t. do 4 (destruct t as [|t]; [reflexivity|]). reflexivity.
  - vm_compute. reflexivity.
  - vm_compute. reflexivity.
  - exists (w_cipher x01). split; [vm_compute; reflexivity|]. apply list_elem_of_further, list_elem_of_here.
  - intros k Hk. vm_compute in Hk. injection Hk as <-. apply list_elem_of_here.
Defined.

Lemma w_progs_ok : progs_ok w_progs.
Proof.
  unfold progs_ok, w_progs.
  repeat apply Forall_cons_2; try apply Forall_nil_2; repeat (apply Forall_cons_2; [|]); try apply Forall_nil_2;
    (split; [vm_compute; discriminate|intros n; simpl; reflexivity]).
Defined.


End TrafficProperties.
