(* ===== verification/ThreadedTests.v ===== *)
(** * The tests of [session.rs] that start threads

    [concurrent_encrypt_from_multiple_threads_produces_unique_counters_and_decrypts]
    and [promote_self_key_concurrent_with_encrypt_does_not_corrupt_packets]: the
    setup the main thread makes before it spawns, the program of each thread, and
    the assertions made after the joins.  The theorem is about every schedule. *)

From stdpp Require Import base numbers strings pretty list list_numbers option gmap sets functions sorting.
From Stdlib Require Import Strings.Byte.
From S2P Require Import Prelude Threads ReplayWindow ReplayReference AntiReplay Cipher Session SessionFacts SessionProperties SessionThreads AesGcm SessionTests SessionTraffic.
Import SessionSpec SessionTrace SessionThreads ThreadFacts Delivery Senders SenderFacts.

Module ThreadedTests.

Abbreviation b_ := SessionTests.b_.
Abbreviation key := SessionTests.key.
Abbreviation iv_for := SessionTests.test_iv_for.

(** [counters.dedup()]: consecutive repeats are removed. *)
Fixpoint dedup (l : list Z) : list Z :=
  match l with
  | [] => []
  | a :: l =>
      match l with
      | b :: _ => if decide (a = b) then dedup l else a :: dedup l
      | [] => [a]
      end
  end.

(** [packets.iter().map(|p| u64::from_be_bytes(p[0..8]..)).collect()]. *)
Fixpoint wire_counters (packets : list (list byte)) : outcome (list Z) :=
  match packets with
  | [] => Ret []
  | p :: packets =>
      bytes ← slice p 0 8;
      counters ← wire_counters packets;
      Ret (be_value bytes :: counters)
  end.

(** [format!("thread {t} packet {i}")]. *)
Definition packet_text (t i : nat) : string := "thread " +:+ pretty t +:+ " packet " +:+ pretty i.

Definition THREADS : nat := 8.
Definition PER_THREAD : nat := 50.
Definition session_id : list byte := [x01; x02; x03; x04; x05; x06; x07; x08].

Definition concurrent_programs : list (list cmd) :=
  (fun t => (fun i => CSend (mkJob (b_ (packet_text t i)) iv_for false)) <$> seq 0 PER_THREAD) <$> seq 0 THREADS.

Definition rotation_session_id : list byte := replicate 8 x09.

(** The encrypting thread and, as the second, the main thread after its sleep. *)
Definition rotation_programs : list (list cmd) :=
  [replicate 200 (CSend (mkJob (b_ "rotate me") iv_for false)); [CPromote]].

Section ThreadedTests.
Context {W : Type} `{AntiReplay W} `{Aead}.
Abbreviation session := (ExpresslaneSession W aead_key).
Abbreviation config := (config W aead_key).
Implicit Types (c : config) (t : nat).

(** A call that thread [t] makes from start to end while it is the only one. *)
Fixpoint finish (fuel t : nat) c : option config :=
  if is_idle (pcs c t) then Some c
  else match fuel with
  | 0 => None
  | S fuel => c ← act t Continue c; finish fuel t c
  end.
Definition solo (t : nat) (o : op) c : option config := c ← act t (Call o) c; finish 4 t c.

Definition concurrent_setup : option config :=
  c ← solo THREADS (OStage (key x07)) (init Version2);
  solo THREADS OPromote c.

Definition concurrent_asserts (packets : list (list byte)) : outcome unit :=
  _ ← assert_eq (length packets) (THREADS * PER_THREAD);
  counters ← wire_counters packets;
  let counters := dedup (merge_sort Z.le counters) in
  _ ← assert_eq (length counters) (THREADS * PER_THREAD);
  let '(r, rx) := update_peer_key (key x07) (new Version2 : session) in
  _ ← expect r;
  '(_, rx) ← receive_all session_id packets rx;
  assert_eq (packets_received rx) (Z.of_nat (THREADS * PER_THREAD)).

Definition rotation_setup : option config :=
  c ← solo 1 (OStage (key x01)) (init Version2);
  c ← solo 1 OPromote c;
  solo 1 (OStage (key x02)) c.

(** [for packet in &packets { rx.decrypt(..).unwrap_or_else(|e| panic!(..)) }]. *)
Fixpoint decrypt_each (sid : list byte) (packets : list (list byte)) (s : session) : outcome session :=
  match packets with
  | [] => Ret s
  | packet :: packets =>
      if decide (length packet < WIRE_OVERHEAD) then Panic
      else
        '(r, out, s) ← decrypt sid packet (zeros (length packet - WIRE_OVERHEAD)) s;
        _ ← expect r;
        decrypt_each sid packets s
  end.

Definition rotation_asserts (packets : list (list byte)) : outcome unit :=
  _ ← assert (negb (bool_decide (packets = [])));
  let '(r, rx) := update_peer_key (key x01) (new Version2 : session) in
  _ ← expect r;
  let '(r, rx) := update_peer_key (key x02) rx in
  _ ← expect r;
  _ ← decrypt_each rotation_session_id packets rx;
  Ret tt.

(** ** The setup *)

Context `{!AeadLaws}.

(** [quiet]: what a setup keeps. *)
Record quiet c : Prop := {
  quiet_reach : reachable Version2 c;
  quiet_idle : quiescent c;
  quiet_reserved : reserved (events_of c) = [];
  quiet_unsent : omap packet_entry (log c) = [];
}.

Lemma quiet_init : quiet (init Version2).
Proof. by split; [constructor|..]. Qed.

Lemma quiet_free c : quiet c -> quiescent c /\ next_lock c = None /\ readers c = ∅ /\ writer c = None.
Proof.
  intros Hq. pose proof (quiet_idle _ Hq) as Hidle. pose proof (reachable_ok _ _ (quiet_reach _ Hq)) as Hok.
  destruct (quiescent_unlocked c Hok Hidle) as (? & _ & ? & _). split_and!; try done.
  apply set_eq. intros t. split; [|set_solver]. intros Hin%(ok_readers _ Hok). by rewrite (Hidle t) in Hin.
Qed.

(** The schedule of one thread keeps the others where they are. *)
Lemma quiet_after c c' sched t l :
  quiet c -> Forall (fun e => action_wf e.2) sched -> run_schedule sched c = Some c' ->
  log c' = log c ++ l -> omap packet_entry l = [] -> reserved l.*2.*2 = [] ->
  (forall u, u <> t -> pcs c' u = pcs c u) -> pcs c' t = Idle -> quiet c'.
Proof.
  intros Hq Hwf Hrun Hlog Hl Hr Hu Ht. split.
  - pose proof (schedule_reachable Version2 sched c (quiet_reach _ Hq) Hwf) as Hreach. by rewrite Hrun in Hreach.
  - intros u. destruct (decide (u = t)) as [->|Hne]; [done|]. rewrite (Hu u Hne). by apply Hq.
  - unfold events_of in *. rewrite Hlog, !fmap_app, reserved_app, Hr, app_nil_r. apply Hq.
  - by rewrite Hlog, omap_app, Hl, (quiet_unsent _ Hq).
Qed.

(** Evaluate the next step of thread [t]. *)
Ltac solo_step := unfold act; simpl; rewrite ?fn_lookup_insert; simpl.

Lemma solo_stage c t k b :
  quiet c -> is_invalid (key b) = false -> cipher_new (key b) = Ok k ->
  exists c', solo t (OStage (key b)) c = Some c' /\ quiet c' /\
    current_self (shared c') = current_self (shared c) /\ next_self (shared c') = Some k.
Proof.
  intros Hq Hi Hk. destruct (quiet_free c Hq) as (Hidle & Hn & _).
  set (c1 := go t (Staging (key b) k) (set_next_lock (Some t) c)).
  assert (Ha1 : act t (Call (OStage (key b))) c = Some c1).
  { unfold act. rewrite (Hidle t). simpl. by rewrite Hi, Hk, decide_True. }
  eassert (Ha2 : act t Continue c1 = Some _) by (unfold c1; solo_step; reflexivity).
  eexists. split; [|split; [eapply (quiet_after c _ [(t, Call (OStage (key b))); (t, Continue)] t)|]].
  - unfold solo. rewrite Ha1. simpl. rewrite fn_lookup_insert. simpl. rewrite Ha2. simpl. by rewrite fn_lookup_insert.
  - done.
  - repeat constructor.
  - simpl. rewrite Ha1. simpl. rewrite Ha2. reflexivity.
  - reflexivity.
  - done.
  - done.
  - intros u Hu. simpl. by rewrite !fn_lookup_insert_ne.
  - simpl. by rewrite fn_lookup_insert.
  - done.
Qed.

Lemma solo_promote c t k :
  quiet c -> next_self (shared c) = Some k ->
  exists c', solo t OPromote c = Some c' /\ quiet c' /\
    current_self (shared c') = Some k /\ next_self (shared c') = None.
Proof.
  intros Hq Hk. destruct (quiet_free c Hq) as (Hidle & Hn & Hr & Hw).
  set (c1 := go t Promoting (set_next_lock (Some t) c)).
  assert (Ha1 : act t (Call OPromote) c = Some c1) by (unfold act; rewrite (Hidle t); simpl; by rewrite decide_True).
  set (c2 := go t (Installing k) (set_shared (store_next_self None (shared c1)) c1)).
  assert (Ha2 : act t Continue c1 = Some c2) by (unfold c1; solo_step; by rewrite Hk).
  set (c3 := go t (Writing k) (set_writer (Some t) c2)).
  assert (Ha3 : act t Continue c2 = Some c3) by (unfold c2, c1; solo_step; by rewrite decide_True).
  eassert (Ha4 : act t Continue c3 = Some _) by (unfold c3; solo_step; reflexivity).
  match type of Ha4 with _ = Some ?c => set (c4 := c) in Ha4 end.
  eassert (Ha5 : act t Continue c4 = Some _) by (unfold c4; solo_step; reflexivity).
  eexists. split; [|split; [eapply (quiet_after c _ ((t, Call OPromote) :: replicate 4 (t, Continue)) t)|]].
  - unfold solo. rewrite Ha1. simpl. rewrite fn_lookup_insert. simpl. rewrite Ha2. simpl. rewrite fn_lookup_insert. simpl.
    rewrite Ha3. simpl. rewrite fn_lookup_insert. simpl. rewrite Ha4. simpl. rewrite fn_lookup_insert. simpl.
    rewrite Ha5. simpl. by rewrite fn_lookup_insert.
  - done.
  - repeat constructor.
  - simpl. rewrite Ha1. simpl. rewrite Ha2. simpl. rewrite Ha3. simpl. rewrite Ha4. simpl. rewrite Ha5. reflexivity.
  - reflexivity.
  - done.
  - done.
  - intros u Hu. simpl. by rewrite !fn_lookup_insert_ne.
  - simpl. by rewrite fn_lookup_insert.
  - done.
Qed.

(** ** The assertions *)

Lemma dedup_NoDup l : NoDup l -> dedup l = l.
Proof.
  induction l as [|a l IH]; intros Hnd; [done|]. apply NoDup_cons in Hnd as [Ha Hl]. simpl.
  destruct l as [|b l]; [done|]. rewrite decide_False, IH by (done || intros ->; apply Ha, list_elem_of_here). done.
Qed.

Lemma wire_counters_ret packets :
  Forall (fun p => 8 <= length p) packets -> wire_counters packets = Ret ((fun w => be_value (take 8 w)) <$> packets).
Proof.
  induction 1 as [|p packets Hp _ IH]; [done|]. simpl. by rewrite slice_ret, bind_ret, IH, bind_ret by lia.
Qed.

(** A receiving loop that succeeds has seen only whole packets, and does without
    its length check. *)
Lemma receive_all_lengths sid packets : forall (s : session) r,
  receive_all sid packets s = Ret r -> Forall (fun p => 8 <= length p) packets.
Proof.
  induction packets as [|p packets IH]; intros s r Hrun; [constructor|]. cbn [receive_all] in Hrun.
  case_decide as Hlen; [done|]. unfold WIRE_OVERHEAD in Hlen.
  destruct (decrypt _ _ _ _) as [[[e out] s1]|]; [rewrite bind_ret in Hrun|done].
  destruct e as [[n enc]|e]; [|done]. cbn [expect] in Hrun. rewrite bind_ret in Hrun.
  destruct (assert_eq _ _) as [[]|]; [rewrite bind_ret in Hrun|done].
  destruct (receive_all sid packets s1) as [r'|] eqn:Hr; [|done]. constructor; [lia|]. by eapply IH.
Qed.

Lemma decrypt_each_ret sid packets : forall (s : session) outs s',
  receive_all sid packets s = Ret (outs, s') -> decrypt_each sid packets s = Ret s'.
Proof.
  induction packets as [|p packets IH]; intros s outs s' Hrun; [by simplify_eq/=|].
  cbn [receive_all decrypt_each] in *. destruct (decide (length p < WIRE_OVERHEAD)) as [|Hlen]; [done|].
  destruct (decrypt _ _ _ _) as [[[e out] s1]|]; [|done]. rewrite bind_ret in Hrun. rewrite bind_ret.
  destruct e as [[n enc]|e]; [|done]. cbn [expect] in *. rewrite bind_ret in Hrun. rewrite bind_ret.
  destruct (assert_eq _ _) as [[]|]; [rewrite bind_ret in Hrun|done].
  destruct (receive_all sid packets s1) as [[outs' s2]|] eqn:Hr; [|done]. rewrite bind_ret in Hrun. simplify_eq.
  by eapply IH.
Qed.

(** ** The programs *)

Lemma length_iv_for n : length (iv_for n) = 12.
Proof. unfold SessionTests.test_iv_for. lens. Qed.

Lemma texts_short :
  forallb (fun t => forallb (fun i => Z.of_nat (String.length (packet_text t i)) <=? 65535)%Z (seq 0 PER_THREAD)) (seq 0 THREADS) = true.
Proof. vm_compute. reflexivity. Qed.

Lemma length_b_ st : length (b_ st) = String.length st.
Proof.
  unfold SessionTests.b_, String.list_byte_of_string. rewrite length_map. induction st as [|a st IH]; [done|].
  simpl. by rewrite IH.
Qed.

Lemma concurrent_programs_ok : progs_ok concurrent_programs.
Proof.
  apply Forall_forall. intros l (t & -> & Ht)%list_elem_of_fmap. apply Forall_forall. intros j Hj.
  apply list_elem_of_omap in Hj as (m & (i & -> & Hi)%list_elem_of_fmap & [= <-]). split; [|apply length_iv_for].
  pose proof texts_short as Hs. rewrite forallb_forall in Hs.
  specialize (Hs t (proj2 (in_seq _ _ _) (proj1 (elem_of_seq _ _ _) Ht))). rewrite forallb_forall in Hs.
  specialize (Hs i (proj2 (in_seq _ _ _) (proj1 (elem_of_seq _ _ _) Hi))). apply Z.leb_le in Hs.
  simpl j_plain. by rewrite length_b_.
Qed.

Lemma rotation_programs_ok : progs_ok rotation_programs.
Proof.
  apply Forall_cons. split; [|by repeat constructor]. apply Forall_forall. intros j Hj.
  apply list_elem_of_omap in Hj as (m & (-> & _)%elem_of_replicate & [= <-]). split; [|apply length_iv_for].
  vm_compute. discriminate.
Qed.

Lemma test_keys_valid : is_invalid (key x01) = false /\ is_invalid (key x02) = false /\ is_invalid (key x07) = false.
Proof. done. Qed.

Lemma test_key_cipher b : exists k, cipher_new (key b) = Ok k.
Proof. by apply cipher_new_wf. Qed.

Lemma concurrent_ready :
  exists k c, cipher_new (key x07) = Ok k /\ concurrent_setup = Some c /\ ready Version2 [k] c.
Proof.
  destruct test_keys_valid as (_ & _ & Hi). destruct (test_key_cipher x07) as [k Hk].
  destruct (solo_stage _ THREADS k x07 quiet_init Hi Hk) as (c1 & Hc1 & Hq1 & _ & Hn1).
  destruct (solo_promote c1 THREADS k Hq1 Hn1) as (c2 & Hc2 & Hq2 & Hk2 & Hn2).
  exists k, c2. unfold concurrent_setup. rewrite Hc1. simpl. split_and!; [done..|].
  split; try apply Hq2; [exists k; split; [done|apply list_elem_of_here]|by rewrite Hn2].
Qed.

Lemma rotation_ready :
  exists k1 k2 c, cipher_new (key x01) = Ok k1 /\ cipher_new (key x02) = Ok k2 /\ rotation_setup = Some c /\
    ready Version2 [k2; k1] c.
Proof.
  destruct test_keys_valid as (Hi1 & Hi2 & _).
  destruct (test_key_cipher x01) as [k1 Hk1], (test_key_cipher x02) as [k2 Hk2].
  destruct (solo_stage _ 1 k1 x01 quiet_init Hi1 Hk1) as (c1 & Hc1 & Hq1 & _ & Hn1).
  destruct (solo_promote c1 1 k1 Hq1 Hn1) as (c2 & Hc2 & Hq2 & Hs2 & _).
  destruct (solo_stage c2 1 k2 x02 Hq2 Hi2 Hk2) as (c3 & Hc3 & Hq3 & Hs3 & Hn3).
  exists k1, k2, c3. unfold rotation_setup. rewrite Hc1. simpl. rewrite Hc2. simpl. split_and!; [done..|].
  split; try apply Hq3.
  - exists k1. rewrite Hs3. split; [done|]. apply list_elem_of_further, list_elem_of_here.
  - intros k. rewrite Hn3. intros [= <-]. apply list_elem_of_here.
Qed.

(** ** The tests *)

Lemma peer_key_installed b k (s : session) :
  is_invalid (key b) = false -> cipher_new (key b) = Ok k ->
  update_peer_key (key b) s =
    (Ok tt, mkSession (version s) (current_self s) (next_self s) (next_counter s) (packets_sent s)
              (mkRx (Some k) (current_peer (rx s)) (replay_window (rx s))) (self_key_installed s) true).
Proof. intros Hi Hk. unfold update_peer_key. by rewrite Hi, Hk. Qed.

Lemma concurrent_asserts_pass packets outs (r' : session) k :
  cipher_new (key x07) = Ok k -> length packets = THREADS * PER_THREAD ->
  receive_all session_id packets (update_peer_key (key x07) (new Version2)).2 = Ret (outs, r') ->
  packets_received r' = Z.of_nat (THREADS * PER_THREAD) -> NoDup ((fun w => be_value (take 8 w)) <$> packets) ->
  concurrent_asserts packets = Ret tt.
Proof.
  intros Hk Hlen Hrun Hrecv Hnd. destruct test_keys_valid as (_ & _ & Hi). unfold concurrent_asserts.
  rewrite assert_eq_ret, bind_ret by done. rewrite wire_counters_ret, bind_ret by (by eapply receive_all_lengths).
  rewrite dedup_NoDup by (by rewrite merge_sort_Permutation).
  rewrite assert_eq_ret, bind_ret by (by rewrite merge_sort_Permutation, length_fmap).
  rewrite (peer_key_installed x07 k) in Hrun by done. rewrite (peer_key_installed x07 k) by done.
  cbn [expect snd] in *. rewrite bind_ret, Hrun, bind_ret. by apply assert_eq_ret.
Qed.

Lemma rotation_asserts_pass packets outs (r' : session) k1 k2 :
  cipher_new (key x01) = Ok k1 -> cipher_new (key x02) = Ok k2 -> packets <> [] ->
  receive_all rotation_session_id packets
    (update_peer_key (key x02) (update_peer_key (key x01) (new Version2)).2).2 = Ret (outs, r') ->
  rotation_asserts packets = Ret tt.
Proof.
  intros Hk1 Hk2 Hne Hrun. destruct test_keys_valid as (Hi1 & Hi2 & _). unfold rotation_asserts.
  rewrite bool_decide_false by done. cbn [negb assert]. rewrite bind_ret.
  rewrite (peer_key_installed x01 k1), (peer_key_installed x02 k2) in Hrun by done.
  rewrite (peer_key_installed x01 k1) by done. cbn [expect snd] in *. rewrite bind_ret.
  rewrite (peer_key_installed x02 k2) by done. cbn [expect] in *. rewrite bind_ret.
  by rewrite (decrypt_each_ret _ _ _ _ _ Hrun), bind_ret.
Qed.

(** the threaded tests pass, whatever the schedule.  After the main thread's
    setup, any schedule of the threads' steps can be completed, and every
    completed one satisfies the assertions of the test: 400 packets with 400
    counters, all decrypted and counted by the receiver; 200 packets around a
    concurrent promotion, every one decrypted by a receiver with both keys. *)
Theorem threaded_tests_pass :
  (exists c, concurrent_setup = Some c /\ forall sched x,
     follow session_id sched (spawn c concurrent_programs) = Some x ->
     (exists rest x', follow session_id rest x = Some x' /\ finished x' = true) /\
     (finished x = true -> concurrent_asserts (packets x) = Ret tt)) /\
  (exists c, rotation_setup = Some c /\ forall sched x,
     follow rotation_session_id sched (spawn c rotation_programs) = Some x ->
     (exists rest x', follow rotation_session_id rest x = Some x' /\ finished x' = true) /\
     (finished x = true -> rotation_asserts (packets x) = Ret tt)).
Proof.
  split.
  - destruct concurrent_ready as (k & c & Hk & Hc & Hready). exists c. split; [done|]. intros sched x Hf.
    destruct test_keys_valid as (_ & _ & Hi). pose proof (peer_key_installed x07 k (new Version2) Hi Hk) as Hpeer.
    destruct (TrafficProperties.run_delivered Version2 session_id [k] concurrent_programs c sched x
      (update_peer_key (key x07) (new Version2)).2) as (Hend & Hdel & _); rewrite ?Hpeer;
      [done|apply concurrent_programs_ok|done..|apply ar_models_default|].
    split; [done|]. intros Hfin.
    assert (Htakes : TrafficProperties.window_takes concurrent_programs (packets x)) by (by left).
    destruct (Hdel Hfin _ (Permutation_refl _) Htakes) as (outs & r' & js & Hrun & _ & Hlen & Hrecv & Hnd & _).
    by eapply (concurrent_asserts_pass _ outs r' k).
  - destruct rotation_ready as (k1 & k2 & c & Hk1 & Hk2 & Hc & Hready). exists c. split; [done|]. intros sched x Hf.
    destruct test_keys_valid as (Hi1 & Hi2 & _).
    pose proof (peer_key_installed x01 k1 (new Version2) Hi1 Hk1) as Hpeer1.
    set (r1 := (update_peer_key (key x01) (new Version2 : session)).2).
    pose proof (peer_key_installed x02 k2 r1 Hi2 Hk2) as Hpeer2.
    destruct (TrafficProperties.run_delivered Version2 rotation_session_id [k2; k1] rotation_programs c sched x
      (update_peer_key (key x02) r1).2) as (Hend & Hdel & _); rewrite ?Hpeer2; unfold r1 in *; rewrite ?Hpeer1;
      [done|apply rotation_programs_ok|done..|apply ar_models_default|].
    split; [done|]. intros Hfin.
    assert (Htakes : TrafficProperties.window_takes rotation_programs (packets x)) by (by left).
    destruct (Hdel Hfin _ (Permutation_refl _) Htakes) as (outs & r' & js & Hrun & _ & Hlen & _).
    eapply (rotation_asserts_pass _ outs r' k1 k2); try done. intros Hnil. by rewrite Hnil in Hlen.
Qed.

End ThreadedTests.

(** With the ring window and AES-256-GCM. *)
Lemma threaded_tests_pass_witness :
  exists c : config Ring.ReplayWindow (@aead_key Gcm.aes_256_gcm), concurrent_setup = Some c /\ forall sched x,
    follow session_id sched (spawn c concurrent_programs) = Some x ->
    finished x = true -> concurrent_asserts (W := Ring.ReplayWindow) (H0 := Gcm.aes_256_gcm) (packets x) = Ret tt.
Proof.
  destruct (proj1 (threaded_tests_pass (W := Ring.ReplayWindow) (H1 := Gcm.aes_256_gcm_laws))) as (c & Hc & Hall).
  exists c. split; [exact Hc|]. intros sched x Hf. exact (proj2 (Hall sched x Hf)).
Defined.

End ThreadedTests.
