(* ===== verification/ExpresslaneFfi.v ===== *)
(** * The C interface of the ExpressLane session

    Models [lightway-expresslane-cffi/src/lib.rs] and [types.rs]: every
    [he_expresslane_*] entry point over an explicit C memory.  Pointers are
    addresses with 0 as NULL; bytes, the [usize] and [bool] out-parameters and
    the boxed sessions each have their own map.  A call yields [None] where it
    would dereference memory the caller did not provide or where the output slice
    overlaps an input slice that is still borrowed (undefined behaviour in Rust;
    session id and iv are copied out first), and a caught panic yields the
    guard's default. *)

From stdpp Require Import base numbers list list_numbers option gmap sets.
From Stdlib Require Import Strings.Byte.
From S2P Require Import Prelude ReplayWindow ReplayReference AntiReplay Cipher Session SessionFacts.
Import SessionSpec.

Ltac Zify.zify_post_hook ::= Z.div_mod_to_equations.

(** ** [types.rs] *)

Inductive he_expresslane_return_code_t : Set :=
| HE_EXPRESSLANE_SUCCESS
| HE_EXPRESSLANE_ERR_NULL_POINTER
| HE_EXPRESSLANE_ERR_BUFFER_TOO_SMALL
| HE_EXPRESSLANE_ERR_INSUFFICIENT_DATA
| HE_EXPRESSLANE_ERR_INVALID_DATA
| HE_EXPRESSLANE_ERR_REPLAYED
| HE_EXPRESSLANE_ERR_KEY_NOT_SET
| HE_EXPRESSLANE_ERR_INVALID_KEY
| HE_EXPRESSLANE_ERR_PANIC.

#[global] Instance expresslane_code_eq_dec : EqDecision he_expresslane_return_code_t.
Proof. solve_decision. Defined.

(** The [repr(C)] discriminants. *)
Definition code_value (c : he_expresslane_return_code_t) : Z :=
  match c with
  | HE_EXPRESSLANE_SUCCESS => 0
  | HE_EXPRESSLANE_ERR_NULL_POINTER => -1
  | HE_EXPRESSLANE_ERR_BUFFER_TOO_SMALL => -2
  | HE_EXPRESSLANE_ERR_INSUFFICIENT_DATA => -3
  | HE_EXPRESSLANE_ERR_INVALID_DATA => -4
  | HE_EXPRESSLANE_ERR_REPLAYED => -5
  | HE_EXPRESSLANE_ERR_KEY_NOT_SET => -6
  | HE_EXPRESSLANE_ERR_INVALID_KEY => -7
  | HE_EXPRESSLANE_ERR_PANIC => -8
  end.

(** [From<ExpresslaneError>]. *)
Definition code_of_error (e : ExpresslaneError) : he_expresslane_return_code_t :=
  match e with
  | InsufficientData => HE_EXPRESSLANE_ERR_INSUFFICIENT_DATA
  | BufferTooSmall => HE_EXPRESSLANE_ERR_BUFFER_TOO_SMALL
  | InvalidData => HE_EXPRESSLANE_ERR_INVALID_DATA
  | Replayed => HE_EXPRESSLANE_ERR_REPLAYED
  | KeyNotSet => HE_EXPRESSLANE_ERR_KEY_NOT_SET
  | InvalidKey => HE_EXPRESSLANE_ERR_INVALID_KEY
  end.

Inductive he_expresslane_version_t : Set :=
| HE_EXPRESSLANE_VERSION_UNKNOWN
| HE_EXPRESSLANE_VERSION_1
| HE_EXPRESSLANE_VERSION_2.

Definition version_value (v : he_expresslane_version_t) : Z :=
  match v with
  | HE_EXPRESSLANE_VERSION_UNKNOWN => 0
  | HE_EXPRESSLANE_VERSION_1 => 1
  | HE_EXPRESSLANE_VERSION_2 => 2
  end.

Module ExpresslaneFfi.

(** [catch_unwind(f).unwrap_or(default)]. *)
Definition ffi_guard {R : Type} (default : R) (f : outcome R) : R :=
  match f with Ret r => r | Panic => default end.

Abbreviation ptr := Z (only parsing).
Definition is_null (p : ptr) : bool := (p =? 0)%Z.

(** ** C memory *)

Record mem (S : Type) : Type := mkMem {
  m_sessions : gmap Z S;
  m_bytes : gmap Z byte;
  m_usize : gmap Z nat;
  m_bool : gmap Z bool;
}.
Arguments mkMem {S}.
Arguments m_sessions {S}.
Arguments m_bytes {S}.
Arguments m_usize {S}.
Arguments m_bool {S}.

Section Memory.
Context {S : Type}.
Implicit Types (m : mem S).

Definition set_session (p : ptr) (s : S) (m : mem S) : mem S :=
  mkMem (<[p := s]> (m_sessions m)) (m_bytes m) (m_usize m) (m_bool m).

Fixpoint read_at (bytes : gmap Z byte) (p : ptr) (n : nat) : option (list byte) :=
  match n with
  | O => Some []
  | Datatypes.S n => b ← bytes !! p; bs ← read_at bytes (p + 1)%Z n; Some (b :: bs)
  end.

(** [slice::from_raw_parts(p, n)]. *)
Definition read_bytes (p : ptr) (n : nat) (m : mem S) : option (list byte) := read_at (m_bytes m) p n.

Fixpoint write_at (bytes : gmap Z byte) (p : ptr) (bs : list byte) : gmap Z byte :=
  match bs with
  | [] => bytes
  | b :: bs => <[p := b]> (write_at bytes (p + 1)%Z bs)
  end.

(** The new contents of a [from_raw_parts_mut] slice. *)
Definition write_bytes (p : ptr) (bs : list byte) (m : mem S) : mem S :=
  mkMem (m_sessions m) (write_at (m_bytes m) p bs) (m_usize m) (m_bool m).

Definition write_usize (p : ptr) (v : nat) (m : mem S) : option (mem S) :=
  match m_usize m !! p with
  | Some _ => Some (mkMem (m_sessions m) (m_bytes m) (<[p := v]> (m_usize m)) (m_bool m))
  | None => None
  end.

Definition write_bool (p : ptr) (v : bool) (m : mem S) : option (mem S) :=
  match m_bool m !! p with
  | Some _ => Some (mkMem (m_sessions m) (m_bytes m) (m_usize m) (<[p := v]> (m_bool m)))
  | None => None
  end.

(** The buffers [p .. p+n) and [q .. q+k) share no address. *)
Definition disjoint_bufs (p : ptr) (n : nat) (q : ptr) (k : nat) : Prop :=
  n = 0 \/ k = 0 \/ (p + Z.of_nat n <= q)%Z \/ (q + Z.of_nat k <= p)%Z.

#[global] Instance disjoint_bufs_dec p n q k : Decision (disjoint_bufs p n q k).
Proof. unfold disjoint_bufs. solve_decision. Defined.

(** [Box::into_raw(Box::new(s))]: a fresh, non-null address. *)
Definition box_into_raw (s : S) (m : mem S) : ptr * mem S :=
  let p := fresh ({[0%Z]} ∪ dom (m_sessions m)) in (p, set_session p s m).

(** [drop(Box::from_raw(p))]. *)
Definition box_drop (p : ptr) (m : mem S) : option (mem S) :=
  match m_sessions m !! p with
  | Some _ => Some (mkMem (delete p (m_sessions m)) (m_bytes m) (m_usize m) (m_bool m))
  | None => None
  end.

End Memory.

(** ** The entry points *)

Section Ffi.
Context {W : Type} `{AntiReplay W} `{Aead}.
Abbreviation session := (ExpresslaneSession W aead_key).
Abbreviation memory := (mem (ExpresslaneSession W aead_key)).

Definition he_expresslane_session_create (version : Z) (m : memory) : ptr * memory :=
  let version := version_from_u8 version in
  if decide (version = Unknown) then (0%Z, m)
  else ffi_guard (0%Z, m) (Ret (box_into_raw (new version) m)).

Definition he_expresslane_session_destroy (session : ptr) (m : memory) : option memory :=
  if is_null session then Some m
  else m' ← box_drop session m; Some (ffi_guard m (Ret m')).

Definition he_expresslane_reserve_counter (session : ptr) (m : memory) : option (Z * memory) :=
  if is_null session then Some (0%Z, m)
  else
    s ← m_sessions m !! session;
    Some (ffi_guard (0%Z, m) (let '(c, s) := reserve_counter s in Ret (c, set_session session s m))).

(** The shared body of the two key setters. *)
Definition set_key_from_ptr (session key : ptr)
    (install : ExpresslaneKey -> ExpresslaneSession W aead_key -> ExpresslaneResult unit * ExpresslaneSession W aead_key)
    (m : memory) : option (he_expresslane_return_code_t * memory) :=
  if is_null session || is_null key then Some (HE_EXPRESSLANE_ERR_NULL_POINTER, m)
  else
    key_bytes ← read_bytes key EXPRESSLANE_KEY_SIZE m;
    s ← m_sessions m !! session;
    Some (ffi_guard (HE_EXPRESSLANE_ERR_PANIC, m)
      (let '(r, s) := install (mkKey key_bytes) s in
       let m := set_session session s m in
       match r with
       | Ok _ => Ret (HE_EXPRESSLANE_SUCCESS, m)
       | Err e => Ret (code_of_error e, m)
       end)).

Definition he_expresslane_set_next_self_key (session key : ptr) (m : memory)
    : option (he_expresslane_return_code_t * memory) :=
  set_key_from_ptr session key update_next_self_key m.

Definition he_expresslane_promote_self_key (session : ptr) (m : memory) : option memory :=
  if is_null session then Some m
  else
    s ← m_sessions m !! session;
    Some (ffi_guard m (Ret (set_session session (promote_self_key s) m))).

Definition he_expresslane_packets_sent (session : ptr) (m : memory) : option Z :=
  if is_null session then Some 0%Z
  else s ← m_sessions m !! session; Some (ffi_guard 0%Z (Ret (packets_sent s))).

Definition he_expresslane_encrypt (session : ptr) (counter : Z) (session_id plain_text : ptr)
    (plain_text_len : nat) (iv : ptr) (is_encoded : bool) (out : ptr) (out_capacity : nat) (out_len : ptr)
    (m : memory) : option (he_expresslane_return_code_t * memory) :=
  if is_null session || is_null session_id || (is_null plain_text && (0 <? plain_text_len)%nat)
     || is_null iv || is_null out || is_null out_len
  then Some (HE_EXPRESSLANE_ERR_NULL_POINTER, m)
  else
    m ← write_usize out_len 0 m;
    session_id_bytes ← read_bytes session_id 8 m;
    plain_text_slice ← (if (plain_text_len =? 0)%nat then Some [] else read_bytes plain_text plain_text_len m);
    iv_bytes ← read_bytes iv 12 m;
    out_slice ← read_bytes out out_capacity m;
    s ← m_sessions m !! session;
    if decide (disjoint_bufs out out_capacity plain_text plain_text_len) then
      match encrypt counter session_id_bytes plain_text_slice iv_bytes is_encoded out_slice s with
      | Panic => Some (ffi_guard (HE_EXPRESSLANE_ERR_PANIC, m) Panic)
      | Ret (result, out_slice, s) =>
          let m := write_bytes out out_slice (set_session session s m) in
          match result with
          | Ok written => m ← write_usize out_len written m; Some (HE_EXPRESSLANE_SUCCESS, m)
          | Err e => Some (code_of_error e, m)
          end
      end
    else None.

Definition he_expresslane_set_peer_key (session key : ptr) (m : memory)
    : option (he_expresslane_return_code_t * memory) :=
  set_key_from_ptr session key update_peer_key m.

Definition he_expresslane_has_valid_keys (session : ptr) (m : memory) : option bool :=
  if is_null session then Some false
  else s ← m_sessions m !! session; Some (ffi_guard false (Ret (has_valid_keys s))).

Definition he_expresslane_packets_received (session : ptr) (m : memory) : option Z :=
  if is_null session then Some 0%Z
  else s ← m_sessions m !! session; Some (ffi_guard 0%Z (Ret (packets_received s))).

Definition he_expresslane_decrypt (session session_id wire_packet : ptr) (wire_packet_len : nat)
    (out : ptr) (out_capacity : nat) (out_len is_encoded : ptr)
    (m : memory) : option (he_expresslane_return_code_t * memory) :=
  if is_null session || is_null session_id || is_null wire_packet
     || (is_null out && (0 <? out_capacity)%nat) || is_null out_len || is_null is_encoded
  then Some (HE_EXPRESSLANE_ERR_NULL_POINTER, m)
  else
    m ← write_usize out_len 0 m;
    m ← write_bool is_encoded false m;
    session_id_bytes ← read_bytes session_id 8 m;
    wire_slice ← read_bytes wire_packet wire_packet_len m;
    out_slice ← (if (out_capacity =? 0)%nat then Some [] else read_bytes out out_capacity m);
    s ← m_sessions m !! session;
    if decide (disjoint_bufs out out_capacity wire_packet wire_packet_len) then
      match decrypt session_id_bytes wire_slice out_slice s with
      | Panic => Some (ffi_guard (HE_EXPRESSLANE_ERR_PANIC, m) Panic)
      | Ret (result, out_slice, s) =>
          let m := write_bytes out out_slice (set_session session s m) in
          match result with
          | Ok (len, encoded) =>
              m ← write_usize out_len len m;
              m ← write_bool is_encoded encoded m;
              Some (HE_EXPRESSLANE_SUCCESS, m)
          | Err e => Some (code_of_error e, m)
          end
      end
    else None.

Definition he_expresslane_wire_overhead : nat := WIRE_OVERHEAD.

End Ffi.
End ExpresslaneFfi.
