(* ===== verification/FfiProperties.v ===== *)
(** * Correctness of the ExpressLane C interface

    Memory lemmas, then the properties of the entry points of [ExpresslaneFfi]:
    the round trip through C memory, what error returns leave in the
    out-parameters, framing between handles, and the life cycle of a handle. *)

From stdpp Require Import base numbers list list_numbers option gmap sets.
From Stdlib Require Import Strings.Byte.
From S2P Require Import Prelude ReplayWindow ReplayReference AntiReplay Cipher Session SessionFacts.
From S2P Require Import SessionProperties ExpresslaneFfi.
Import SessionSpec SessionFacts SessionProperties ExpresslaneFfi.

Ltac Zify.zify_post_hook ::= Z.div_mod_to_equations.

Module MemoryFacts.

Lemma read_at_length bytes n : forall p bs, read_at bytes p n = Some bs -> length bs = n.
Proof.
  induction n as [|n IH]; intros p bs; simpl; [by intros [= <-]|].
  intros (b & _ & (bs' & Hbs & [= <-])%bind_Some)%bind_Some. simpl. f_equal. by eapply IH.
Qed.

Lemma write_at_out bs : forall bytes p q,
  (q < p \/ p + Z.of_nat (length bs) <= q)%Z -> write_at bytes p bs !! q = bytes !! q.
Proof.
  induction bs as [|b bs IH]; intros bytes p q Hq; simpl in *; [done|].
  rewrite lookup_insert_ne by lia. apply IH. lia.
Qed.

Lemma read_at_ext n : forall b1 b2 p,
  (forall q, (p <= q < p + Z.of_nat n)%Z -> b1 !! q = b2 !! q) -> read_at b1 p n = read_at b2 p n.
Proof.
  induction n as [|n IH]; intros b1 b2 p Hq; cbn [read_at]; [done|]. rewrite (Hq p) by lia.
  destruct (b2 !! p); cbn [mbind option_bind]; [|done]. rewrite (IH b1 b2 (p + 1)%Z); [done|]. intros q ?. apply Hq. lia.
Qed.

Lemma read_write_at_same bs : forall bytes p, read_at (write_at bytes p bs) p (length bs) = Some bs.
Proof.
  induction bs as [|b bs IH]; intros bytes p; cbn [write_at length read_at]; [done|]. rewrite lookup_insert_eq. cbn [mbind option_bind].
  rewrite (read_at_ext _ _ (write_at bytes (p + 1)%Z bs)), IH; [done|].
  intros q ?. apply lookup_insert_ne. lia.
Qed.

Lemma read_write_at_disjoint bytes p bs q n :
  disjoint_bufs p (length bs) q n -> read_at (write_at bytes p bs) q n = read_at bytes q n.
Proof.
  intros [H|[->|H]]; [|done|].
  - by destruct bs.
  - apply read_at_ext. intros. apply write_at_out. lia.
Qed.

Lemma read_at_app bytes k : forall p n bs,
  read_at bytes p (k + n) = Some bs -> read_at bytes p k = Some (take k bs).
Proof.
  induction k as [|k IH]; intros p n bs; simpl; [done|].
  intros (b & -> & (bs' & Hbs & [= <-])%bind_Some)%bind_Some. simpl. by rewrite (IH _ _ _ Hbs).
Qed.

Lemma read_at_take bytes p n k bs :
  read_at bytes p n = Some bs -> k <= n -> read_at bytes p k = Some (take k bs).
Proof. intros Hr Hk. apply (read_at_app bytes k p (n - k)). by replace (k + (n - k)) with n by lia. Qed.

Section Mem.
Context {S : Type}.
Implicit Types (m : mem S).

Lemma write_usize_some p v m : is_Some (m_usize m !! p) ->
  write_usize p v m = Some (mkMem (m_sessions m) (m_bytes m) (<[p := v]> (m_usize m)) (m_bool m)).
Proof. intros [? Hp]. unfold write_usize. by rewrite Hp. Qed.

Lemma write_bool_some p v m : is_Some (m_bool m !! p) ->
  write_bool p v m = Some (mkMem (m_sessions m) (m_bytes m) (m_usize m) (<[p := v]> (m_bool m))).
Proof. intros [? Hp]. unfold write_bool. by rewrite Hp. Qed.

End Mem.

End MemoryFacts.
Import MemoryFacts.

(** ** The two packet calls as functions of what they read *)

Section Calls.
Context {W : Type} `{AntiReplay W} `{Aead} `{!AeadLaws}.
Implicit Types (m : mem (ExpresslaneSession W aead_key)).

(** A C caller's obligations for [he_expresslane_encrypt]: valid handle, readable
    inputs with the contents [sid], [plain], [iv], a writable output. *)
Record encrypt_args (p_s p_sid p_pt p_iv p_out p_len : ptr) (cap : nat)
    (s : ExpresslaneSession W aead_key) (sid plain iv out : list byte) m : Prop := {
  ea_nonnull : p_s <> 0%Z /\ p_sid <> 0%Z /\ p_iv <> 0%Z /\ p_out <> 0%Z /\ p_len <> 0%Z;
  ea_session : m_sessions m !! p_s = Some s;
  ea_sid : read_bytes p_sid 8 m = Some sid;
  ea_plain_null : p_pt = 0%Z -> plain = [];
  ea_plain : read_bytes p_pt (length plain) m = Some plain;
  ea_iv : read_bytes p_iv 12 m = Some iv;
  ea_out : read_bytes p_out cap m = Some out;
  ea_len : is_Some (m_usize m !! p_len);
  ea_disjoint : disjoint_bufs p_out cap p_pt (length plain);
}.

Record decrypt_args (p_s p_sid p_wire p_out p_len p_enc : ptr) (n cap : nat)
    (s : ExpresslaneSession W aead_key) (sid wire out : list byte) m : Prop := {
  da_nonnull : p_s <> 0%Z /\ p_sid <> 0%Z /\ p_wire <> 0%Z /\ p_len <> 0%Z /\ p_enc <> 0%Z;
  da_session : m_sessions m !! p_s = Some s;
  da_sid : read_bytes p_sid 8 m = Some sid;
  da_wire : read_bytes p_wire n m = Some wire;
  da_out_null : p_out = 0%Z -> cap = 0;
  da_out : read_bytes p_out cap m = Some out;
  da_len : is_Some (m_usize m !! p_len);
  da_enc : is_Some (m_bool m !! p_enc);
  da_disjoint : disjoint_bufs p_out cap p_wire n;
}.

(** Memory after a packet call: the session, the output buffer and the
    out-parameters, and nothing else. *)
Definition after_encrypt (p_s p_out p_len : ptr)
    (r : ExpresslaneResult nat * list byte * ExpresslaneSession W aead_key) m : mem (ExpresslaneSession W aead_key) :=
  mkMem (<[p_s := r.2]> (m_sessions m)) (write_at (m_bytes m) p_out r.1.2)
    (<[p_len := match r.1.1 with Ok n => n | Err _ => 0 end]> (m_usize m)) (m_bool m).

Definition after_decrypt (p_s p_out p_len p_enc : ptr)
    (r : ExpresslaneResult (nat * bool) * list byte * ExpresslaneSession W aead_key) m
    : mem (ExpresslaneSession W aead_key) :=
  mkMem (<[p_s := r.2]> (m_sessions m)) (write_at (m_bytes m) p_out r.1.2)
    (<[p_len := match r.1.1 with Ok (n, _) => n | Err _ => 0 end]> (m_usize m))
    (<[p_enc := match r.1.1 with Ok (_, e) => e | Err _ => false end]> (m_bool m)).

Definition code_of {A} (r : ExpresslaneResult A) : he_expresslane_return_code_t :=
  match r with Ok _ => HE_EXPRESSLANE_SUCCESS | Err e => code_of_error e end.

Lemma code_of_not_panic {A} (r : ExpresslaneResult A) : code_of r <> HE_EXPRESSLANE_ERR_PANIC.
Proof. by destruct r as [|[]]. Qed.

Lemma is_null_false p : p <> 0%Z -> is_null p = false.
Proof. unfold is_null. intros. by apply Z.eqb_neq. Qed.

Lemma ea_lengths p_s p_sid p_pt p_iv p_out p_len cap s sid plain iv out m :
  encrypt_args p_s p_sid p_pt p_iv p_out p_len cap s sid plain iv out m ->
  length sid = 8 /\ length iv = 12 /\ length out = cap.
Proof. intros [_ _ Hsid _ _ Hiv Hout _ _]. split_and!; by eapply read_at_length. Qed.

Lemma da_lengths p_s p_sid p_wire p_out p_len p_enc n cap s sid wire out m :
  decrypt_args p_s p_sid p_wire p_out p_len p_enc n cap s sid wire out m ->
  length out = cap.
Proof. intros [_ _ _ _ _ Hout _ _ _]. by eapply read_at_length. Qed.

Lemma encrypt_call p_s c p_sid p_pt p_iv e p_out cap p_len s sid plain iv out m :
  encrypt_args p_s p_sid p_pt p_iv p_out p_len cap s sid plain iv out m ->
  he_expresslane_encrypt p_s c p_sid p_pt (length plain) p_iv e p_out cap p_len m =
    Some (code_of (encrypt_spec c sid plain iv e out s).1.1,
          after_encrypt p_s p_out p_len (encrypt_spec c sid plain iv e out s) m).
Proof.
  intros [(? & ? & ? & ? & ?) Hs Hsid Hnull Hpt Hiv Hout Hlen Hd]. unfold he_expresslane_encrypt.
  rewrite !(is_null_false p_s), !(is_null_false p_sid), !(is_null_false p_iv), !(is_null_false p_out),
    !(is_null_false p_len) by done. rewrite !orb_false_r, !orb_false_l.
  replace (is_null p_pt && (0 <? length plain)%nat) with false.
  2: { unfold is_null. destruct (Z.eqb_spec p_pt 0) as [->|]; [|done]. by rewrite Hnull. }
  rewrite write_usize_some by done. cbn [mbind option_bind].
  unfold read_bytes in *. cbn [m_bytes m_sessions]. rewrite Hsid. cbn [mbind option_bind].
  replace (if (length plain =? 0)%nat then Some [] else read_at (m_bytes m) p_pt (length plain)) with (Some plain).
  2: { by destruct plain. }
  cbn [mbind option_bind]. rewrite Hiv. cbn [mbind option_bind]. rewrite Hout. cbn [mbind option_bind].
  rewrite Hs. cbn [mbind option_bind]. rewrite decide_True by done.
  rewrite encrypt_meets_spec by (by eapply read_at_length).
  unfold after_encrypt, code_of. destruct (encrypt_spec c sid plain iv e out s) as [[[n|err] out'] s']; [|done].
  cbn [fst snd]. rewrite write_usize_some by (simpl; rewrite lookup_insert_eq; eauto).
  cbn [mbind option_bind]. simpl. by rewrite insert_insert_eq.
Qed.

Lemma decrypt_call p_s p_sid p_wire n p_out cap p_len p_enc s sid wire out m :
  decrypt_args p_s p_sid p_wire p_out p_len p_enc n cap s sid wire out m ->
  he_expresslane_decrypt p_s p_sid p_wire n p_out cap p_len p_enc m =
    Some (code_of (decrypt_spec sid wire out s).1.1,
          after_decrypt p_s p_out p_len p_enc (decrypt_spec sid wire out s) m).
Proof.
  intros [(? & ? & ? & ? & ?) Hs Hsid Hwire Hnull Hout Hlen Henc Hd]. unfold he_expresslane_decrypt.
  rewrite !(is_null_false p_s), !(is_null_false p_sid), !(is_null_false p_wire), !(is_null_false p_enc),
    !(is_null_false p_len) by done. rewrite !orb_false_r, !orb_false_l.
  replace (is_null p_out && (0 <? cap)%nat) with false.
  2: { unfold is_null. destruct (Z.eqb_spec p_out 0) as [->|]; [|done]. by rewrite Hnull. }
  rewrite write_usize_some by done. cbn [mbind option_bind].
  rewrite write_bool_some by done. cbn [mbind option_bind].
  unfold read_bytes in *. cbn [m_bytes m_sessions]. rewrite Hsid. cbn [mbind option_bind].
  rewrite Hwire. cbn [mbind option_bind].
  replace (if (cap =? 0)%nat then Some [] else read_at (m_bytes m) p_out cap) with (Some out).
  2: { pose proof (read_at_length _ _ _ _ Hout). destruct cap; [by destruct out|done]. }
  cbn [mbind option_bind]. rewrite Hs. cbn [mbind option_bind]. rewrite decide_True by done.
  rewrite decrypt_meets_spec by (by eapply read_at_length).
  unfold after_decrypt, code_of. destruct (decrypt_spec sid wire out s) as [[[[k e]|err] out'] s']; [|done].
  cbn [fst snd]. rewrite write_usize_some by (simpl; rewrite lookup_insert_eq; eauto).
  cbn [mbind option_bind]. rewrite write_bool_some by (simpl; rewrite lookup_insert_eq; eauto).
  cbn [mbind option_bind]. simpl. by rewrite !insert_insert_eq.
Qed.

End Calls.

(** ** Properties *)

Module FfiProperties.

Section FfiProperties.
Context {W : Type} `{AntiReplay W} `{Aead} `{!AeadLaws}.
Implicit Types (m : mem (ExpresslaneSession W aead_key)).

Lemma encrypt_spec_length c sid plain iv e out (s : ExpresslaneSession W aead_key) :
  length iv = 12 -> length (encrypt_spec c sid plain iv e out s).1.2 = length out.
Proof.
  intros Hiv. unfold encrypt_spec. repeat (case_decide; [done|]). destruct (current_self s) as [k|]; [|done].
  pose proof (cipher_encrypt_length k iv (aad_of (version s) sid c (if e then FLAG_ENCODED else 0%Z)) plain) as [Hct Htag].
  destruct (cipher_encrypt _ _ _ _) as [[tag|] ct]; simpl in Hct, Htag; cbn [fst snd].
  - specialize (Htag tag eq_refl). unfold encode_header. cbn [h_counter h_iv h_tag h_len h_flags]. lens.
  - lens.
Qed.

Lemma decrypt_spec_length sid wire out (s : ExpresslaneSession W aead_key) :
  length (decrypt_spec sid wire out s).1.2 = length out.
Proof.
  unfold decrypt_spec. case_decide; [done|]. destruct (ar_would_reject _ _); [done|].
  repeat (case_decide; [done|]).
  destruct (first_open _ _ _ _) as [plain|] eqn:Ho; cbn [fst snd]; [|lens].
  apply first_open_length in Ho. lens.
Qed.

(** C25: what the packet calls may touch.  With valid arguments neither packet
    call reports [ERR_PANIC]; a call that does not succeed leaves 0 (and [false])
    in its out-parameters; and whatever the result, other sessions, bytes
    outside the output buffer and other out-parameters are as before. *)
Theorem packet_calls_safe p_s c p_sid p_pt p_iv e p_out p_len cap s sid plain iv out
    q_s q_sid q_wire q_out q_len q_enc n qcap t qsid wire qout m code m1 code' m2 :
  encrypt_args p_s p_sid p_pt p_iv p_out p_len cap s sid plain iv out m ->
  he_expresslane_encrypt p_s c p_sid p_pt (length plain) p_iv e p_out cap p_len m = Some (code, m1) ->
  decrypt_args q_s q_sid q_wire q_out q_len q_enc n qcap t qsid wire qout m1 ->
  he_expresslane_decrypt q_s q_sid q_wire n q_out qcap q_len q_enc m1 = Some (code', m2) ->
  (code <> HE_EXPRESSLANE_ERR_PANIC /\ code' <> HE_EXPRESSLANE_ERR_PANIC) /\
  (code <> HE_EXPRESSLANE_SUCCESS -> m_usize m1 !! p_len = Some 0) /\
  (code' <> HE_EXPRESSLANE_SUCCESS ->
     m_usize m2 !! q_len = Some 0 /\ m_bool m2 !! q_enc = Some false /\ m_sessions m2 !! q_s = Some t) /\
  (forall h, h <> p_s -> m_sessions m1 !! h = m_sessions m !! h) /\
  (forall h, h <> q_s -> m_sessions m2 !! h = m_sessions m1 !! h) /\
  (forall a, (a < p_out \/ p_out + Z.of_nat cap <= a)%Z -> m_bytes m1 !! a = m_bytes m !! a) /\
  (forall a, (a < q_out \/ q_out + Z.of_nat qcap <= a)%Z -> m_bytes m2 !! a = m_bytes m1 !! a) /\
  (forall a, a <> p_len -> m_usize m1 !! a = m_usize m !! a) /\
  (forall a, a <> q_len -> m_usize m2 !! a = m_usize m1 !! a) /\
  (forall a, a <> q_enc -> m_bool m2 !! a = m_bool m1 !! a).
Proof.
  intros Hea Henc Hda Hdec. rewrite (encrypt_call _ c _ _ _ e _ _ _ _ _ _ _ _ _ Hea) in Henc.
  injection Henc as <- <-. rewrite (decrypt_call _ _ _ _ _ _ _ _ _ _ _ _ _ Hda) in Hdec.
  injection Hdec as <- <-.
  assert (Hcap : length (encrypt_spec c sid plain iv e out s).1.2 = cap).
  { destruct (ea_lengths _ _ _ _ _ _ _ _ _ _ _ _ _ Hea) as (_ & ? & ?). by rewrite encrypt_spec_length. }
  assert (Hqcap : length (decrypt_spec qsid wire qout t).1.2 = qcap).
  { rewrite decrypt_spec_length. apply (da_lengths _ _ _ _ _ _ _ _ _ _ _ _ _ Hda). }
  split; [|split; [|split]].
  - split; apply code_of_not_panic.
  - intros Hc. cbn [after_encrypt m_usize]. rewrite lookup_insert_eq.
    by destruct (encrypt_spec c sid plain iv e out s) as [[[]?]?].
  - intros Hc. cbn [after_decrypt m_usize m_bool m_sessions]. rewrite !lookup_insert_eq.
    destruct (decrypt_spec qsid wire qout t) as [[[[]|] ?] ?] eqn:Hspec; [by destruct Hc|]. cbn [fst snd].
    by apply decrypt_spec_cases in Hspec as [(? & _ & ->)|(? & ? & ? & _)].
  - cbn [after_encrypt after_decrypt m_usize m_bool m_sessions m_bytes].
    split_and!; intros; rewrite ?lookup_insert_ne by done; try done; apply write_at_out; lia.
Qed.

(** C24: round trip through C memory.  After [he_expresslane_encrypt] succeeds on
    one handle, [he_expresslane_decrypt] on the peer's handle, given the first
    [*out_len] bytes of the output buffer, returns SUCCESS with the plaintext in
    its output buffer and its length and flag in the out-parameters. *)
Theorem c_api_round_trip k c e p_s p_sid p_pt p_iv p_wire p_len cap q_s q_out q_len q_enc qcap
    s t sid plain iv out qout m :
  encrypt_args p_s p_sid p_pt p_iv p_wire p_len cap s sid plain iv out m ->
  q_s <> 0%Z -> q_s <> p_s -> q_out <> 0%Z -> q_len <> 0%Z -> q_enc <> 0%Z ->
  m_sessions m !! q_s = Some t -> read_bytes q_out qcap m = Some qout ->
  is_Some (m_usize m !! q_len) -> is_Some (m_bool m !! q_enc) ->
  disjoint_bufs p_wire cap p_sid 8 -> disjoint_bufs p_wire cap q_out qcap ->
  is_u64 c -> (Z.of_nat (length plain) <= 65535)%Z ->
  40 + length plain <= cap -> length plain <= qcap ->
  version s = version t -> current_self s = Some k -> current_peer (rx t) = Some k ->
  ar_would_reject (replay_window (rx t)) c = false ->
  exists m1 m2,
    he_expresslane_encrypt p_s c p_sid p_pt (length plain) p_iv e p_wire cap p_len m =
      Some (HE_EXPRESSLANE_SUCCESS, m1) /\
    m_usize m1 !! p_len = Some (he_expresslane_wire_overhead + length plain) /\
    he_expresslane_decrypt q_s p_sid p_wire (40 + length plain) q_out qcap q_len q_enc m1 =
      Some (HE_EXPRESSLANE_SUCCESS, m2) /\
    m_usize m2 !! q_len = Some (length plain) /\ m_bool m2 !! q_enc = Some e /\
    read_bytes q_out (length plain) m2 = Some plain.
Proof.
  intros Hea Hqs Hne Hqo Hql Hqe Ht Hqout Hlen Henc Hdsid Hdout Hc Hmax Hcap Hqcap Hv Hself Hpeer Hrej.
  destruct (ea_lengths _ _ _ _ _ _ _ _ _ _ _ _ _ Hea) as (Hsidl & Hivl & Houtl).
  pose proof (read_at_length _ _ _ _ Hqout) as Hqoutl.
  destruct (encrypt_success k c sid plain iv e out s) as (tag & ct & Hs & Htag & Hct & Hencr); [done|done|done|lia|done|].
  rewrite encrypt_meets_spec in Hencr by done. apply (inj Ret) in Hencr.
  assert (Hwl : length (sealed_wire c iv e plain tag ct) = 40 + length plain).
  { unfold sealed_wire, encode_header. cbn [h_counter h_iv h_tag h_len h_flags]. lens. }
  eexists _, _. split; [rewrite (encrypt_call _ c _ _ _ e _ _ _ _ _ _ _ _ _ Hea), Hencr; reflexivity|].
  split; [cbn [after_encrypt m_usize fst snd]; by rewrite lookup_insert_eq|].
  set (m1 := after_encrypt _ _ _ _ _).
  assert (Hda : decrypt_args q_s p_sid p_wire q_out q_len q_enc (40 + length plain) qcap t sid
    (sealed_wire c iv e plain tag ct) qout m1).
  { destruct Hea as [(? & ? & ? & ? & ?) ? Hsid ? ? ? ? Hpl ?].
    assert (Hlen' : length (sealed_wire c iv e plain tag ct ++ drop (40 + length plain) out) = cap) by lens.
    unfold m1, read_bytes, after_encrypt in *.
    split; unfold read_bytes; cbn [m_usize m_bool m_sessions m_bytes fst snd]; try done.
    - by rewrite lookup_insert_ne.
    - rewrite read_write_at_disjoint; [done|]. by rewrite Hlen'.
    - erewrite read_at_take; [|apply read_write_at_same|lia]. by rewrite take_app_length'.
    - rewrite read_write_at_disjoint; [done|]. by rewrite Hlen'.
    - destruct (decide (q_len = p_len)) as [->|]; [rewrite lookup_insert_eq; eauto|by rewrite lookup_insert_ne].
    - unfold disjoint_bufs in *. lia. }
  assert (Hdecr : decrypt_spec sid (sealed_wire c iv e plain tag ct) qout t =
    (Ok (length plain, e), plain ++ drop (length plain) qout, accept_counter c t)).
  { apply (inj Ret). rewrite <- decrypt_meets_spec by done. rewrite Hv in Hs.
    apply decrypt_sealed; try done; [lia|]. unfold peer_keys. rewrite Hpeer. simpl. by erewrite open_sealed_with. }
  rewrite (decrypt_call _ _ _ _ _ _ _ _ _ _ _ _ _ Hda), Hdecr. split; [reflexivity|].
  unfold after_decrypt, read_bytes. cbn [m_usize m_bool m_bytes fst snd]. rewrite !lookup_insert_eq. split_and!; [done..|].
  erewrite read_at_take; [|apply read_write_at_same|lens]. by rewrite take_app_length'.
Qed.

(** The NULL tests at the head of the packet calls, and that no later return
    uses their code. *)
Lemma is_null_iff p : is_null p = true <-> p = 0%Z.
Proof. apply Z.eqb_eq. Qed.

Lemma encrypt_null_test p_s p_sid p_pt n p_iv p_out p_len :
  is_null p_s || is_null p_sid || (is_null p_pt && (0 <? n)%nat) || is_null p_iv || is_null p_out
    || is_null p_len = true <->
  p_s = 0%Z \/ p_sid = 0%Z \/ (p_pt = 0%Z /\ 0 < n) \/ p_iv = 0%Z \/ p_out = 0%Z \/ p_len = 0%Z.
Proof. rewrite !orb_true_iff, andb_true_iff, !is_null_iff, Nat.ltb_lt. tauto. Qed.

Lemma decrypt_null_test p_s p_sid p_wire p_out cap p_len p_enc :
  is_null p_s || is_null p_sid || is_null p_wire || (is_null p_out && (0 <? cap)%nat) || is_null p_len
    || is_null p_enc = true <->
  p_s = 0%Z \/ p_sid = 0%Z \/ p_wire = 0%Z \/ (p_out = 0%Z /\ 0 < cap) \/ p_len = 0%Z \/ p_enc = 0%Z.
Proof. rewrite !orb_true_iff, andb_true_iff, !is_null_iff, Nat.ltb_lt. tauto. Qed.

Lemma code_of_error_not_null e : code_of_error e <> HE_EXPRESSLANE_ERR_NULL_POINTER.
Proof. by destruct e. Qed.

(** Peel the binds of a call that returned. *)
Ltac peel Hcall :=
  repeat match type of Hcall with
  | (_ ≫= _) = Some _ => let x := fresh "x" in apply bind_Some in Hcall as (x & _ & Hcall)
  end.

Lemma encrypt_null_code p_s c p_sid p_pt n p_iv e p_out cap p_len m m' :
  he_expresslane_encrypt p_s c p_sid p_pt n p_iv e p_out cap p_len m = Some (HE_EXPRESSLANE_ERR_NULL_POINTER, m') ->
  is_null p_s || is_null p_sid || (is_null p_pt && (0 <? n)%nat) || is_null p_iv || is_null p_out
    || is_null p_len = true.
Proof.
  unfold he_expresslane_encrypt. destruct (is_null p_s || _ || _ || _ || _ || _); [done|].
  intros Hcall. exfalso. peel Hcall. case_decide; [|done].
  destruct (encrypt _ _ _ _ _ _ _) as [[[[w|err] o] s]|]; [by peel Hcall| |done].
  injection Hcall as Hc _. by apply code_of_error_not_null in Hc.
Qed.

Lemma decrypt_null_code p_s p_sid p_wire n p_out cap p_len p_enc m m' :
  he_expresslane_decrypt p_s p_sid p_wire n p_out cap p_len p_enc m = Some (HE_EXPRESSLANE_ERR_NULL_POINTER, m') ->
  is_null p_s || is_null p_sid || is_null p_wire || (is_null p_out && (0 <? cap)%nat) || is_null p_len
    || is_null p_enc = true.
Proof.
  unfold he_expresslane_decrypt. destruct (is_null p_s || _ || _ || _ || _ || _); [done|].
  intros Hcall. exfalso. peel Hcall. case_decide; [|done].
  destruct (decrypt _ _ _ _) as [[[[[w e]|err] o] s]|]; [by peel Hcall| |done].
  injection Hcall as Hc _. by apply code_of_error_not_null in Hc.
Qed.

(** NULL handling.  The packet calls answer [ERR_NULL_POINTER] exactly when
    a required pointer is NULL (the payload pointer only if the payload is not
    empty, the output of a decryption only if its capacity is not 0), and then
    change nothing; every other call on a NULL handle does nothing. *)
Theorem null_pointers_rejected m :
  (forall p_s c p_sid p_pt n p_iv e p_out cap p_len,
     p_s = 0%Z \/ p_sid = 0%Z \/ (p_pt = 0%Z /\ 0 < n) \/ p_iv = 0%Z \/ p_out = 0%Z \/ p_len = 0%Z <->
     he_expresslane_encrypt p_s c p_sid p_pt n p_iv e p_out cap p_len m = Some (HE_EXPRESSLANE_ERR_NULL_POINTER, m)) /\
  (forall p_s p_sid p_wire n p_out cap p_len p_enc,
     p_s = 0%Z \/ p_sid = 0%Z \/ p_wire = 0%Z \/ (p_out = 0%Z /\ 0 < cap) \/ p_len = 0%Z \/ p_enc = 0%Z <->
     he_expresslane_decrypt p_s p_sid p_wire n p_out cap p_len p_enc m = Some (HE_EXPRESSLANE_ERR_NULL_POINTER, m)) /\
  (forall p_s p_key, p_s = 0%Z \/ p_key = 0%Z ->
     he_expresslane_set_next_self_key p_s p_key m = Some (HE_EXPRESSLANE_ERR_NULL_POINTER, m) /\
     he_expresslane_set_peer_key p_s p_key m = Some (HE_EXPRESSLANE_ERR_NULL_POINTER, m)) /\
  he_expresslane_reserve_counter 0 m = Some (0%Z, m) /\ he_expresslane_promote_self_key 0 m = Some m /\
  he_expresslane_session_destroy 0 m = Some m /\ he_expresslane_packets_sent 0 m = Some 0%Z /\
  he_expresslane_packets_received 0 m = Some 0%Z /\ he_expresslane_has_valid_keys 0 m = Some false.
Proof.
  split; [|split; [|split]].
  - intros. rewrite <- encrypt_null_test. split; [|apply encrypt_null_code].
    intros Hn. unfold he_expresslane_encrypt. by rewrite Hn.
  - intros. rewrite <- decrypt_null_test. split; [|apply decrypt_null_code].
    intros Hn. unfold he_expresslane_decrypt. by rewrite Hn.
  - intros p_s p_key Hn. unfold he_expresslane_set_next_self_key, he_expresslane_set_peer_key, set_key_from_ptr.
    replace (is_null p_s || is_null p_key) with true; [done|]. symmetry. apply orb_true_iff.
    destruct Hn as [->| ->]; [by left|by right].
  - done.
Qed.

Lemma version_from_u8_known v :
  version_from_u8 v <> Unknown <-> (v = 1%Z \/ v = 2%Z) /\ version_discriminant (version_from_u8 v) = v.
Proof.
  unfold version_from_u8.
  destruct (Z.eqb_spec v 1) as [->|]; [by split; auto|]. destruct (Z.eqb_spec v 2) as [->|]; [by split; auto|].
  split; [done|]. by intros [[?|?] _].
Qed.

(** Boxing a session. *)
Lemma box_fresh (s : ExpresslaneSession W aead_key) m :
  (box_into_raw s m).1 <> 0%Z /\ m_sessions m !! (box_into_raw s m).1 = None.
Proof.
  unfold box_into_raw. cbn [fst]. pose proof (is_fresh ({[0%Z]} ∪ dom (m_sessions m))) as Hf.
  rewrite not_elem_of_union, not_elem_of_singleton, not_elem_of_dom in Hf. done.
Qed.

Lemma box_drop_new (s : ExpresslaneSession W aead_key) m :
  he_expresslane_session_destroy (box_into_raw s m).1 (box_into_raw s m).2 = Some m.
Proof.
  destruct (box_fresh s m) as [Hnn Hf]. revert Hnn Hf. unfold box_into_raw. cbn [fst snd].
  set (h := fresh _). intros Hnn Hf. unfold he_expresslane_session_destroy, box_drop.
  rewrite is_null_false by done. cbn [set_session m_sessions m_bytes m_usize m_bool].
  rewrite lookup_insert_eq. cbn [mbind option_bind ffi_guard]. rewrite delete_insert_id by done. by destruct m.
Qed.

(** the life cycle of a handle.  Creation succeeds exactly for version bytes
    1 and 2, with a fresh non-NULL handle to an empty session of that version and
    no effect on live handles; destroying it afterwards restores the memory. *)
Theorem handle_life_cycle version m :
  let '(h, m') := he_expresslane_session_create version m in
  (h = 0%Z <-> version <> 1%Z /\ version <> 2%Z) /\
  (h = 0%Z -> m' = m) /\
  (h <> 0%Z ->
     m_sessions m !! h = None /\
     m_sessions m' !! h = Some (new (version_from_u8 version)) /\
     version_discriminant (version_from_u8 version) = version /\
     (forall h', h' <> h -> m_sessions m' !! h' = m_sessions m !! h') /\
     he_expresslane_session_destroy h m' = Some m).
Proof.
  unfold he_expresslane_session_create. pose proof (version_from_u8_known version) as Hv.
  case_decide as Hu.
  { split_and!; [|done|by intros []]. split; [|done]. intros _. split; by intros ->. }
  cbn [ffi_guard]. destruct (box_fresh (new (version_from_u8 version)) m) as [Hnn Hf].
  pose proof (box_drop_new (new (version_from_u8 version)) m) as Hdrop.
  revert Hnn Hf Hdrop. unfold box_into_raw. cbn [fst snd]. set (h := fresh _). intros Hnn Hf Hdrop.
  apply Hv in Hu as [Hu Hd]. split_and!; [|done|].
  - split; [done|]. intros []. lia.
  - intros _. cbn [set_session m_sessions]. rewrite lookup_insert_eq. split_and!; [done..| |done].
    intros h' Hh'. by rewrite lookup_insert_ne.
Qed.

End FfiProperties.

(** the return codes separate the errors: the conversion from the library's
    errors and the numeric values are injective, success is 0 and every error
    negative, and no library error is reported as success, a NULL pointer or a
    panic. *)
Theorem return_codes_faithful :
  (forall e e', code_of_error e = code_of_error e' -> e = e') /\
  (forall c c', code_value c = code_value c' -> c = c') /\
  (forall c, code_value c = 0%Z <-> c = HE_EXPRESSLANE_SUCCESS) /\
  (forall c, c <> HE_EXPRESSLANE_SUCCESS -> (code_value c < 0)%Z) /\
  (forall e, (-7 <= code_value (code_of_error e) <= -2)%Z).
Proof.
  split_and!.
  - by intros [] [].
  - by intros [] [].
  - by intros [].
  - by intros [].
  - by intros [].
Qed.

(** ** Witnesses: a small C memory with two sessions *)

Definition w_mem : mem w_session :=
  mkMem {[ 1%Z := w_tx; 2%Z := w_rx ]}
    (write_at (write_at (write_at (write_at (write_at ∅ 100 w_sid) 200 w_plain) 300 w_iv) 1000 (zeros 64)) 2000 (zeros 8))
    {[ 10%Z := 7; 11%Z := 7 ]} {[ 20%Z := true ]}.

Lemma w_encrypt_args : encrypt_args 1 100 200 300 1000 10 64 w_tx w_sid w_plain w_iv (zeros 64) w_mem.
Proof.
  split; [by vm_compute| | |done| | | | |]; try (vm_compute; reflexivity); [by eexists|].
  unfold disjoint_bufs. simpl. lia.
Defined.

Lemma c_api_round_trip_witness :
  exists m1 m2,
    he_expresslane_encrypt 1 1 100 200 3 300 true 1000 64 10 w_mem = Some (HE_EXPRESSLANE_SUCCESS, m1) /\
    m_usize m1 !! 10%Z = Some 43 /\
    he_expresslane_decrypt 2 100 1000 43 2000 8 11 20 m1 = Some (HE_EXPRESSLANE_SUCCESS, m2) /\
    m_usize m2 !! 11%Z = Some 3 /\ m_bool m2 !! 20%Z = Some true /\ read_bytes 2000 3 m2 = Some w_plain.
Proof.
  apply (c_api_round_trip (w_cipher x01) 1 true 1 100 200 300 1000 10 64 2 2000 11 20 8 w_tx w_rx w_sid w_plain
           w_iv (zeros 64) (zeros 8) w_mem w_encrypt_args);
    try done; try (vm_compute; reflexivity); try (by eexists); try (unfold disjoint_bufs; simpl; lia); simpl; lia.
Defined.

(** Memory after a successful encryption at [w_mem]. *)
Definition w_mem1 : mem w_session :=
  match he_expresslane_encrypt 1 1 100 200 3 300 true 1000 64 10 w_mem with Some (_, m) => m | None => w_mem end.

Definition w_mem2 : mem w_session :=
  match he_expresslane_decrypt 2 100 1000 42 2000 8 11 20 w_mem1 with Some (_, m) => m | None => w_mem1 end.

Lemma w_decrypt_args : decrypt_args 2 100 1000 2000 11 20 42 8 w_rx w_sid (take 42 w_wire) (zeros 8) w_mem1.
Proof.
  split; [by vm_compute| | | |done| | | |]; try (vm_compute; reflexivity); [by eexists|by eexists|].
  unfold disjoint_bufs. lia.
Defined.

(** A packet cut one byte short: the decryption fails and leaves zeros behind. *)
Lemma packet_calls_safe_witness : m_usize w_mem2 !! 11%Z = Some 0 /\ m_bool w_mem2 !! 20%Z = Some false.
Proof.
  destruct (packet_calls_safe 1 1 100 200 300 true 1000 10 64 w_tx w_sid w_plain w_iv (zeros 64)
    2 100 1000 2000 11 20 42 8 w_rx w_sid (take 42 w_wire) (zeros 8) w_mem HE_EXPRESSLANE_SUCCESS w_mem1
    HE_EXPRESSLANE_ERR_INSUFFICIENT_DATA w_mem2 w_encrypt_args) as (_ & _ & Herr & _);
    [vm_compute; reflexivity|exact w_decrypt_args|vm_compute; reflexivity|].
  destruct (Herr ltac:(discriminate)) as (Hl & He & _). split; [exact Hl|exact He].
Defined.

End FfiProperties.
