(* ===== verification/FfiTests.v ===== *)
(** * The unit tests of the ExpressLane C interface, evaluated

    The tests of [lightway-expresslane-cffi/src/lib.rs], statement by statement,
    over the C memory of [ExpresslaneFfi] with AES-256-GCM as the cipher.  A test
    is a computation on the memory and the test's stack: local arrays and
    out-parameters live at addresses of their own, and a failed assertion or an
    access outside what the test owns is a [Panic]. *)

From stdpp Require Import base numbers strings list list_numbers option gmap.
From Stdlib Require Import Strings.Byte.
From S2P Require Import Prelude ReplayWindow AntiReplay Cipher Session AesGcm ExpresslaneFfi.
Import ExpresslaneFfi.

Module FfiTests.

#[local] Existing Instance Gcm.aes_256_gcm.
Abbreviation session := (ExpresslaneSession Ring.ReplayWindow aead_key).

(** [stack] is the next free address of the test's locals. *)
Record env : Type := mkEnv {
  stack : Z;
  memory : mem session;
}.

Definition test (A : Type) : Type := env -> outcome (A * env).

#[local] Instance test_bind : MBind test := fun A B f a e => '(x, e) ← a e; f x e.

Definition done {A} (a : A) : test A := fun e => Ret (a, e).
Definition check (b : bool) : test unit := fun e => _ ← assert b; Ret (tt, e).
Definition check_eq {A} `{EqDecision A} (a b : A) : test unit := check (bool_decide (a = b)).

(** A call that may change the memory, one that only reads it, one that returns
    nothing. *)
Definition call {A} (f : mem session -> option (A * mem session)) : test A := fun e =>
  '(a, m) ← expect_some (f (memory e)); Ret (a, mkEnv (stack e) m).
Definition ask {A} (f : mem session -> option A) : test A := fun e => a ← expect_some (f (memory e)); Ret (a, e).
Definition run (f : mem session -> option (mem session)) : test unit := call (fun m => m ← f m; Some (tt, m)).

(** [let x = bytes] and [let mut n: usize], [let mut b: bool]: their addresses. *)
Definition let_bytes (bs : list byte) : test Z := fun e =>
  Ret (stack e, mkEnv (stack e + Z.of_nat (length bs) + 1) (write_bytes (stack e) bs (memory e))).
Definition let_usize (n : nat) : test Z := fun e =>
  let m := memory e in
  Ret (stack e, mkEnv (stack e + 1) (mkMem (m_sessions m) (m_bytes m) (<[stack e := n]> (m_usize m)) (m_bool m))).
Definition let_bool (b : bool) : test Z := fun e =>
  let m := memory e in
  Ret (stack e, mkEnv (stack e + 1) (mkMem (m_sessions m) (m_bytes m) (m_usize m) (<[stack e := b]> (m_bool m)))).

Definition get_bytes (p : Z) (n : nat) : test (list byte) := ask (read_bytes p n).
Definition get_usize (p : Z) : test nat := ask (fun m => m_usize m !! p).
Definition get_bool (p : Z) : test bool := ask (fun m => m_bool m !! p).

Definition create (version : Z) : test Z := fun e =>
  let '(p, m) := he_expresslane_session_create version (memory e) in Ret (p, mkEnv (stack e) m).
Definition destroy (p : Z) : test unit := run (he_expresslane_session_destroy p).

Abbreviation null := 0%Z (only parsing).
Abbreviation b_ := String.list_byte_of_string.

(** ** The tests *)

Definition create_and_destroy : test unit :=
  session ← create 2;
  _ ← check (negb (is_null session));
  destroy session.

Definition destroy_null_is_a_no_op : test unit := destroy null.

Definition create_with_unknown_version_byte_returns_null : test unit :=
  s ← create 255; _ ← check (is_null s);
  s ← create 0; check (is_null s).

Definition reserve_counter_increments : test unit :=
  session ← create 2;
  c ← call (he_expresslane_reserve_counter session); _ ← check_eq c 1%Z;
  c ← call (he_expresslane_reserve_counter session); _ ← check_eq c 2%Z;
  destroy session.

Definition reserve_counter_null_session_returns_zero : test unit :=
  c ← call (he_expresslane_reserve_counter null); check_eq c 0%Z.

Definition set_next_self_key_null_pointers_return_null_pointer_error : test unit :=
  session ← create 2;
  key ← let_bytes (replicate 32 x01);
  rc ← call (he_expresslane_set_next_self_key null key); _ ← check_eq rc HE_EXPRESSLANE_ERR_NULL_POINTER;
  rc ← call (he_expresslane_set_next_self_key session null); _ ← check_eq rc HE_EXPRESSLANE_ERR_NULL_POINTER;
  destroy session.

Definition set_and_promote_key_then_encrypt_succeeds : test unit :=
  session ← create 2;
  key ← let_bytes (replicate 32 x01);
  rc ← call (he_expresslane_set_next_self_key session key); _ ← check_eq rc HE_EXPRESSLANE_SUCCESS;
  _ ← run (he_expresslane_promote_self_key session);
  session_id ← let_bytes (replicate 8 x01);
  plain_text ← let_bytes (b_ "test data");
  iv ← let_bytes (zeros 12);
  out ← let_bytes (zeros (WIRE_OVERHEAD + 9));
  out_len ← let_usize 0;
  counter ← call (he_expresslane_reserve_counter session);
  rc ← call (he_expresslane_encrypt session counter session_id plain_text 9 iv false out (WIRE_OVERHEAD + 9) out_len);
  _ ← check_eq rc HE_EXPRESSLANE_SUCCESS;
  n ← get_usize out_len; _ ← check_eq n (WIRE_OVERHEAD + 9);
  sent ← ask (he_expresslane_packets_sent session); _ ← check_eq sent 1%Z;
  destroy session.

Definition encrypt_without_key_returns_key_not_set : test unit :=
  session ← create 2;
  session_id ← let_bytes (replicate 8 x01);
  plain_text ← let_bytes (b_ "test");
  iv ← let_bytes (zeros 12);
  out ← let_bytes (zeros (WIRE_OVERHEAD + 4));
  out_len ← let_usize 0;
  rc ← call (he_expresslane_encrypt session 1 session_id plain_text 4 iv false out (WIRE_OVERHEAD + 4) out_len);
  _ ← check_eq rc HE_EXPRESSLANE_ERR_KEY_NOT_SET;
  destroy session.

Definition encrypt_buffer_too_small_returns_error : test unit :=
  session ← create 2;
  key ← let_bytes (replicate 32 x01);
  _ ← call (he_expresslane_set_next_self_key session key);
  _ ← run (he_expresslane_promote_self_key session);
  session_id ← let_bytes (replicate 8 x01);
  plain_text ← let_bytes (b_ "test");
  iv ← let_bytes (zeros 12);
  out ← let_bytes (zeros 4);
  out_len ← let_usize 0;
  rc ← call (he_expresslane_encrypt session 1 session_id plain_text 4 iv false out 4 out_len);
  _ ← check_eq rc HE_EXPRESSLANE_ERR_BUFFER_TOO_SMALL;
  destroy session.

Definition wire_overhead_is_40 : test unit := check_eq he_expresslane_wire_overhead 40.

Definition has_valid_keys_false_until_both_keys_set : test unit :=
  session ← create 2;
  b ← ask (he_expresslane_has_valid_keys session); _ ← check (negb b);
  key ← let_bytes (replicate 32 x01);
  _ ← call (he_expresslane_set_next_self_key session key);
  _ ← run (he_expresslane_promote_self_key session);
  b ← ask (he_expresslane_has_valid_keys session); _ ← check (negb b);
  rc ← call (he_expresslane_set_peer_key session key); _ ← check_eq rc HE_EXPRESSLANE_SUCCESS;
  b ← ask (he_expresslane_has_valid_keys session); _ ← check b;
  destroy session.

(** A sender and a receiver that share [key]. *)
Definition sender_and_receiver (key_byte : byte) : test (Z * Z) :=
  sender ← create 2;
  receiver ← create 2;
  key ← let_bytes (replicate 32 key_byte);
  _ ← call (he_expresslane_set_next_self_key sender key);
  _ ← run (he_expresslane_promote_self_key sender);
  _ ← call (he_expresslane_set_peer_key receiver key);
  done (sender, receiver).

Definition encrypt_then_decrypt_round_trips_through_the_c_api : test unit :=
  '(sender, receiver) ← sender_and_receiver x2a;
  session_id ← let_bytes (replicate 8 x01);
  let text := b_ "Hello, ExpressLane!" in
  plain_text ← let_bytes text;
  iv ← let_bytes (replicate 12 x09);
  let overhead := he_expresslane_wire_overhead in
  wire ← let_bytes (zeros (overhead + length text));
  wire_len ← let_usize 0;
  counter ← call (he_expresslane_reserve_counter sender);
  rc ← call (he_expresslane_encrypt sender counter session_id plain_text (length text) iv false
               wire (overhead + length text) wire_len);
  _ ← check_eq rc HE_EXPRESSLANE_SUCCESS;
  out ← let_bytes (zeros (length text));
  out_len ← let_usize 0;
  is_encoded ← let_bool true;
  n ← get_usize wire_len;
  rc ← call (he_expresslane_decrypt receiver session_id wire n out (length text) out_len is_encoded);
  _ ← check_eq rc HE_EXPRESSLANE_SUCCESS;
  n ← get_usize out_len; _ ← check_eq n (length text);
  b ← get_bool is_encoded; _ ← check (negb b);
  bs ← get_bytes out n; _ ← check_eq bs text;
  received ← ask (he_expresslane_packets_received receiver); _ ← check_eq received 1%Z;
  _ ← destroy sender;
  destroy receiver.

Definition decrypt_without_key_returns_key_not_set : test unit :=
  receiver ← create 2;
  session_id ← let_bytes (replicate 8 x01);
  wire ← let_bytes (zeros he_expresslane_wire_overhead);
  out ← let_bytes (zeros 4);
  out_len ← let_usize 0;
  is_encoded ← let_bool false;
  rc ← call (he_expresslane_decrypt receiver session_id wire he_expresslane_wire_overhead out 4 out_len is_encoded);
  _ ← check_eq rc HE_EXPRESSLANE_ERR_KEY_NOT_SET;
  destroy receiver.

Definition empty_payload_round_trips_with_null_buffers : test unit :=
  '(sender, receiver) ← sender_and_receiver x2a;
  session_id ← let_bytes (replicate 8 x01);
  iv ← let_bytes (replicate 12 x07);
  wire ← let_bytes (zeros he_expresslane_wire_overhead);
  wire_len ← let_usize 0;
  rc ← call (he_expresslane_encrypt sender 1 session_id null 0 iv false wire he_expresslane_wire_overhead wire_len);
  _ ← check_eq rc HE_EXPRESSLANE_SUCCESS;
  n ← get_usize wire_len; _ ← check_eq n he_expresslane_wire_overhead;
  out_len ← let_usize 99;
  is_encoded ← let_bool true;
  rc ← call (he_expresslane_decrypt receiver session_id wire n null 0 out_len is_encoded);
  _ ← check_eq rc HE_EXPRESSLANE_SUCCESS;
  n ← get_usize out_len; _ ← check_eq n 0;
  b ← get_bool is_encoded; _ ← check (negb b);
  rc ← call (he_expresslane_encrypt sender 2 session_id null 1 iv false wire he_expresslane_wire_overhead wire_len);
  _ ← check_eq rc HE_EXPRESSLANE_ERR_NULL_POINTER;
  _ ← destroy sender;
  destroy receiver.

Definition decrypt_null_pointers_return_null_pointer_error : test unit :=
  receiver ← create 2;
  session_id ← let_bytes (replicate 8 x01);
  wire ← let_bytes (zeros he_expresslane_wire_overhead);
  out ← let_bytes (zeros 4);
  out_len ← let_usize 0;
  is_encoded ← let_bool false;
  rc ← call (he_expresslane_decrypt null session_id wire he_expresslane_wire_overhead out 4 out_len is_encoded);
  _ ← check_eq rc HE_EXPRESSLANE_ERR_NULL_POINTER;
  destroy receiver.

Definition ffi_tests : list (test unit) :=
  [ create_and_destroy; destroy_null_is_a_no_op; create_with_unknown_version_byte_returns_null;
    reserve_counter_increments; reserve_counter_null_session_returns_zero;
    set_next_self_key_null_pointers_return_null_pointer_error; set_and_promote_key_then_encrypt_succeeds;
    encrypt_without_key_returns_key_not_set; encrypt_buffer_too_small_returns_error; wire_overhead_is_40;
    has_valid_keys_false_until_both_keys_set; encrypt_then_decrypt_round_trips_through_the_c_api;
    decrypt_without_key_returns_key_not_set; empty_payload_round_trips_with_null_buffers;
    decrypt_null_pointers_return_null_pointer_error ].

(** The test ends without a failed assertion or a stray access, and every session
    it created is destroyed. *)
Definition passes (t : test unit) : bool :=
  match t (mkEnv 4096 (mkMem ∅ ∅ ∅ ∅)) with
  | Ret (_, e) => (size (m_sessions (memory e)) =? 0)%nat
  | Panic => false
  end.

(** the model passes the C interface's own tests, without touching memory
    the test does not own and without leaking a session. *)
Theorem ffi_tests_pass : Forall (fun t => passes t = true) ffi_tests.
Proof. repeat (constructor; [vm_compute; reflexivity|]). constructor. Qed.

End FfiTests.
