(* ===== verification/ClientTypes.v ===== *)
(** * Data types of the client interface

    Models [src/types.rs] (the C enumerations and structures), the enumerations
    of [lightway-core] that [src/cffi_event.rs] and [src/lib.rs] name, the state
    mappings between them, and the version and name helpers of [src/version.rs]
    and [src/lib.rs]. *)

From stdpp Require Import base numbers list list_numbers option strings.
From Stdlib Require Import Strings.Byte.
From S2P Require Import Prelude.

(** ** [types.rs] *)

Inductive he_return_code_t : Set :=
| HE_SUCCESS
| HE_ERR_FAILED
| HE_ERR_NULL_POINTER
| HE_ERR_NO_MEMORY
| HE_ERR_BUFFER_TOO_SMALL
| HE_ERR_BAD_PARAM
| HE_ERR_ACCESS_DENIED
| HE_ERR_PAYLOAD_TOO_LARGE
| HE_ERR_STRING_TOO_LONG
| HE_CONNECTION_TIMED_OUT
| HE_ERR_INCORRECT_PROTOCOL_VERSION
| HE_ERR_SSL_ERROR
| HE_ERR_CONF_NOT_SET
| HE_ERR_INVALID_CONN_STATE.

#[global] Instance he_return_code_eq_dec : EqDecision he_return_code_t.
Proof. solve_decision. Defined.

(** The [repr(C)] discriminants. *)
Definition return_code_value (c : he_return_code_t) : Z :=
  match c with
  | HE_SUCCESS => 0
  | HE_ERR_FAILED => -1
  | HE_ERR_NULL_POINTER => -2
  | HE_ERR_NO_MEMORY => -3
  | HE_ERR_BUFFER_TOO_SMALL => -4
  | HE_ERR_BAD_PARAM => -5
  | HE_ERR_ACCESS_DENIED => -6
  | HE_ERR_PAYLOAD_TOO_LARGE => -7
  | HE_ERR_STRING_TOO_LONG => -8
  | HE_CONNECTION_TIMED_OUT => -9
  | HE_ERR_INCORRECT_PROTOCOL_VERSION => -10
  | HE_ERR_SSL_ERROR => -11
  | HE_ERR_CONF_NOT_SET => -12
  | HE_ERR_INVALID_CONN_STATE => -13
  end.

Definition from_repr (v : Z) : option he_return_code_t :=
  match v with
  | 0 => Some HE_SUCCESS
  | -1 => Some HE_ERR_FAILED
  | -2 => Some HE_ERR_NULL_POINTER
  | -3 => Some HE_ERR_NO_MEMORY
  | -4 => Some HE_ERR_BUFFER_TOO_SMALL
  | -5 => Some HE_ERR_BAD_PARAM
  | -6 => Some HE_ERR_ACCESS_DENIED
  | -7 => Some HE_ERR_PAYLOAD_TOO_LARGE
  | -8 => Some HE_ERR_STRING_TOO_LONG
  | -9 => Some HE_CONNECTION_TIMED_OUT
  | -10 => Some HE_ERR_INCORRECT_PROTOCOL_VERSION
  | -11 => Some HE_ERR_SSL_ERROR
  | -12 => Some HE_ERR_CONF_NOT_SET
  | -13 => Some HE_ERR_INVALID_CONN_STATE
  | _ => None
  end%Z.

(** The characters before the terminating NUL. *)
Definition as_cstr (c : he_return_code_t) : string :=
  match c with
  | HE_SUCCESS => "HE_SUCCESS"
  | HE_ERR_FAILED => "HE_ERR_FAILED"
  | HE_ERR_NULL_POINTER => "HE_ERR_NULL_POINTER"
  | HE_ERR_NO_MEMORY => "HE_ERR_NO_MEMORY"
  | HE_ERR_BUFFER_TOO_SMALL => "HE_ERR_BUFFER_TOO_SMALL"
  | HE_ERR_BAD_PARAM => "HE_ERR_BAD_PARAM"
  | HE_ERR_ACCESS_DENIED => "HE_ERR_ACCESS_DENIED"
  | HE_ERR_PAYLOAD_TOO_LARGE => "HE_ERR_PAYLOAD_TOO_LARGE"
  | HE_ERR_STRING_TOO_LONG => "HE_ERR_STRING_TOO_LONG"
  | HE_CONNECTION_TIMED_OUT => "HE_CONNECTION_TIMED_OUT"
  | HE_ERR_INCORRECT_PROTOCOL_VERSION => "HE_ERR_INCORRECT_PROTOCOL_VERSION"
  | HE_ERR_SSL_ERROR => "HE_ERR_SSL_ERROR"
  | HE_ERR_CONF_NOT_SET => "HE_ERR_CONF_NOT_SET"
  | HE_ERR_INVALID_CONN_STATE => "HE_ERR_INVALID_CONN_STATE"
  end.

Inductive he_conn_state_t : Set :=
| HE_STATE_NONE
| HE_STATE_DISCONNECTED
| HE_STATE_CONNECTING
| HE_STATE_DISCONNECTING
| HE_STATE_AUTHENTICATING
| HE_STATE_LINK_UP
| HE_STATE_CONFIGURING
| HE_STATE_ONLINE.

#[global] Instance he_conn_state_eq_dec : EqDecision he_conn_state_t.
Proof. solve_decision. Defined.

Inductive he_conn_event_t : Set :=
| HE_EVENT_FIRST_MESSAGE_RECEIVED
| HE_EVENT_PONG
| HE_EVENT_REJECTED_FRAGMENTED_PACKETS_SENT_BY_HOST
| HE_EVENT_SECURE_RENEGOTIATION_STARTED
| HE_EVENT_SECURE_RENEGOTIATION_COMPLETED
| HE_EVENT_PENDING_SESSION_ACKNOWLEDGED.

Inductive he_connection_type_t : Set :=
| HE_CONNECTION_TYPE_DATAGRAM
| HE_CONNECTION_TYPE_STREAM.

Inductive he_packet_kind_t : Set :=
| HE_PACKET_KIND_UNDECIDABLE
| HE_PACKET_KIND_CONTROL
| HE_PACKET_KIND_EXPRESSLANE.

Inductive he_connection_protocol_t : Set :=
| HE_CONNECTION_PROTOCOL_NONE
| HE_CONNECTION_PROTOCOL_DTLS_1_2
| HE_CONNECTION_PROTOCOL_DTLS_1_3
| HE_CONNECTION_PROTOCOL_TLS_1_2
| HE_CONNECTION_PROTOCOL_TLS_1_3.

#[global] Instance he_connection_protocol_eq_dec : EqDecision he_connection_protocol_t.
Proof. solve_decision. Defined.

Definition protocol_value (p : he_connection_protocol_t) : Z :=
  match p with
  | HE_CONNECTION_PROTOCOL_NONE => 0
  | HE_CONNECTION_PROTOCOL_DTLS_1_2 => 1
  | HE_CONNECTION_PROTOCOL_DTLS_1_3 => 2
  | HE_CONNECTION_PROTOCOL_TLS_1_2 => 3
  | HE_CONNECTION_PROTOCOL_TLS_1_3 => 4
  end.

Inductive he_expresslane_state_t : Set :=
| HE_EXPRESSLANE_STATE_DISABLED
| HE_EXPRESSLANE_STATE_INACTIVE
| HE_EXPRESSLANE_STATE_WAITING_FOR_CLIENT
| HE_EXPRESSLANE_STATE_ACTIVE
| HE_EXPRESSLANE_STATE_DEGRADED.

Inductive he_padding_type_t : Set := HE_PADDING_NONE | HE_PADDING_FULL | HE_PADDING_450.

Inductive he_pmtud_state_t : Set :=
| HE_PMTUD_STATE_BASE
| HE_PMTUD_STATE_DISABLED
| HE_PMTUD_STATE_SEARCHING
| HE_PMTUD_STATE_SEARCH_COMPLETE
| HE_PMTUD_STATE_ERROR.

Record he_expresslane_keys_t : Type := mkKeys {
  keys_session_id : list byte;
  keys_self_key : list byte;
  keys_peer_key : list byte;
  keys_version : Z;
}.

(** [char] arrays of 64 bytes. *)
Record he_network_config_ipv4_t : Type := mkNetworkConfig {
  local_ip : list byte;
  dns_ip : list byte;
  peer_ip : list byte;
  mtu : Z;
}.

(** ** Enumerations of [lightway-core] named by the sources *)

Inductive State : Set := Connecting | LinkUp | Authenticating | Online | Disconnecting | Disconnected.

#[global] Instance state_eq_dec : EqDecision State.
Proof. solve_decision. Defined.

Inductive ExpresslaneState : Set := Disabled | Inactive | WaitingForClient | Active | Degraded.

Inductive Event : Set :=
| StateChanged (state : State)
| KeepaliveReply
| FirstPacketReceived
| SessionIdRotationAcknowledged
| TlsKeysUpdateStart
| TlsKeysUpdateCompleted
| ExpresslaneStateChanged (state : ExpresslaneState)
| EncodingStateChanged
| SessionIdRotationStarted.

Inductive ConnectionType : Set := Datagram | Stream.

(** [OtherVersion] stands for the variants the code's wildcard arm covers. *)
Inductive ProtocolVersion : Set := DtlsV1_2 | DtlsV1_3 | TlsV1_2 | TlsV1_3 | OtherVersion.

Inductive AuthMethod : Type :=
| UserPass (user password : list byte)
| Token (token : list byte).

(** ** Mappings *)

Definition rust_state_to_c (state : State) : he_conn_state_t :=
  match state with
  | Connecting => HE_STATE_CONNECTING
  | LinkUp => HE_STATE_LINK_UP
  | Authenticating => HE_STATE_AUTHENTICATING
  | Online => HE_STATE_ONLINE
  | Disconnecting => HE_STATE_DISCONNECTING
  | Disconnected => HE_STATE_DISCONNECTED
  end.

Definition rust_expresslane_state_to_c (state : ExpresslaneState) : he_expresslane_state_t :=
  match state with
  | Disabled => HE_EXPRESSLANE_STATE_DISABLED
  | Inactive => HE_EXPRESSLANE_STATE_INACTIVE
  | WaitingForClient => HE_EXPRESSLANE_STATE_WAITING_FOR_CLIENT
  | Active => HE_EXPRESSLANE_STATE_ACTIVE
  | Degraded => HE_EXPRESSLANE_STATE_DEGRADED
  end.

(** The protocol mapping inside [sync_conn_info]. *)
Definition protocol_to_c (v : ProtocolVersion) : he_connection_protocol_t :=
  match v with
  | DtlsV1_2 => HE_CONNECTION_PROTOCOL_DTLS_1_2
  | DtlsV1_3 => HE_CONNECTION_PROTOCOL_DTLS_1_3
  | TlsV1_2 => HE_CONNECTION_PROTOCOL_TLS_1_2
  | TlsV1_3 => HE_CONNECTION_PROTOCOL_TLS_1_3
  | OtherVersion => HE_CONNECTION_PROTOCOL_NONE
  end.

(** ** Names and versions *)

Definition he_return_code_name (code : Z) : string :=
  match from_repr code with
  | Some c => as_cstr c
  | None => "HE_ERR_UNKNOWN"
  end.

Definition he_connection_protocol_name (protocol : Z) : string :=
  match protocol with
  | 0 => "none"
  | 1 => "DTLS 1.2"
  | 2 => "DTLS 1.3"
  | 3 => "TLS 1.2"
  | 4 => "TLS 1.3"
  | _ => "unknown"
  end%Z.

(** The string's bytes with a trailing NUL. *)
Definition compose_nul (s : list byte) : list byte := s ++ [x00].

(** [OnceLock::get_or_init] over the composed string: the first call stores what
    every later call returns. *)
Definition lazy_get (inner : option (list byte)) (init : list byte) : list byte * option (list byte) :=
  match inner with
  | Some s => (s, Some s)
  | None => (compose_nul init, Some (compose_nul init))
  end.

(** [BUILD_ID]: [LIGHTWAY_BUILD_ID] of the build, or [dev].  The two entry points
    over their statics; [get_version_string] of wolfSSL is a parameter. *)
Definition BUILD_ID (build_id : option (list byte)) : list byte :=
  match build_id with Some b => b | None => [x64; x65; x76] end.
Definition he_lightway_version (build_id inner : option (list byte)) : list byte * option (list byte) :=
  lazy_get inner (BUILD_ID build_id).
Definition he_wolfssl_version (version_string : list byte) (inner : option (list byte))
    : list byte * option (list byte) :=
  lazy_get inner version_string.

(** What C reads from the pointer: the bytes before the first NUL. *)
Fixpoint c_string (l : list byte) : list byte :=
  match l with
  | [] => []
  | b :: l => if decide (b = x00) then [] else b :: c_string l
  end.

Lemma c_string_app s rest : x00 ∉ s -> c_string (s ++ x00 :: rest) = s.
Proof.
  induction s as [|b s IH]; intros Hn; simpl; [done|].
  rewrite not_elem_of_cons in Hn. destruct Hn as [Hb Hs].
  rewrite decide_False by congruence. by rewrite IH.
Qed.

Module ClientTypesProperties.

(** return codes and names.  [from_repr] is the exact inverse of the
    discriminants, so every code C can hold is named by [he_return_code_name]
    as itself, distinct codes have distinct names, and any other integer is
    reported as unknown; protocol names separate the protocols in the same way. *)
Theorem code_names_faithful :
  (forall c, from_repr (return_code_value c) = Some c) /\
  (forall v c, from_repr v = Some c -> return_code_value c = v) /\
  (forall c c', he_return_code_name (return_code_value c) = he_return_code_name (return_code_value c') -> c = c') /\
  (forall v, from_repr v = None <-> he_return_code_name v = "HE_ERR_UNKNOWN"%string) /\
  (forall p p', he_connection_protocol_name (protocol_value p) = he_connection_protocol_name (protocol_value p') ->
     p = p').
Proof.
  split_and!.
  - by intros [].
  - intros v c. unfold from_repr. repeat case_match; intros ?; by simplify_eq.
  - intros [] []; vm_compute; congruence.
  - intros v. unfold he_return_code_name. destruct (from_repr v) as [[]|]; split; done.
  - intros [] []; vm_compute; congruence.
Qed.

(** version strings.  Every call after the first returns the same buffer,
    whatever the later initialiser would give, and C reads the build's identifier
    (or the library's version) from it. *)
Theorem version_strings build_id id v v' inner :
  x00 ∉ BUILD_ID build_id -> x00 ∉ v ->
  let '(s, inner1) := he_lightway_version build_id None in
  let '(t, inner2) := he_wolfssl_version v None in
  c_string s = BUILD_ID build_id /\ c_string t = v /\
  he_lightway_version id inner1 = (s, inner1) /\ he_wolfssl_version v' inner2 = (t, inner2) /\
  (forall s, inner = Some s -> (he_lightway_version id inner).1 = s).
Proof.
  intros Hid Hv. simpl. split_and!; try done; [by apply c_string_app..|]. by intros s ->.
Qed.

Lemma version_strings_witness : c_string (he_lightway_version None None).1 = [x64; x65; x76].
Proof.
  apply (version_strings None None [] [] None); [|apply not_elem_of_nil].
  apply (bool_decide_unpack _). vm_compute. exact I.
Defined.

End ClientTypesProperties.
