(* ===== verification/Timer.v ===== *)
(** * The tick timer of a connection

    Models [src/cffi_state.rs] and [nudge_ms_until] of [src/lib.rs].  Instants
    and durations are nanoseconds in [Z]; [Duration]'s saturation is written out.
    [Instant + Duration] is taken without its platform-dependent overflow panic.
    The payload of a tick is a type of [lightway-core] and stays abstract. *)

From stdpp Require Import base numbers list list_numbers option sets.
From S2P Require Import Prelude.

Ltac Zify.zify_post_hook ::= Z.div_mod_to_equations.

Local Open Scope Z_scope.

Module Timer.

(** [Duration::MAX]: [u64::MAX] seconds and 999,999,999 nanoseconds. *)
Definition DURATION_MAX : Z := u64_MAX * 1000000000 + 999999999.
Definition i32_MAX : Z := 2 ^ 31 - 1.

Definition duration_saturating_add (a b : Z) : Z := Z.min (a + b) DURATION_MAX.
Definition as_millis (d : Z) : Z := d / 1000000.
Definition saturating_duration_since (t now : Z) : Z := Z.max 0 (t - now).

Definition duration_to_timeout_ms (duration : Z) : Z :=
  Z.min (as_millis (duration_saturating_add duration 999999)) i32_MAX.

Definition deadline_to_timeout_ms (deadline now : Z) : Z :=
  Z.max (duration_to_timeout_ms (saturating_duration_since deadline now)) 1.

Definition nudge_ms_until (deadline : option Z) (now : Z) : Z :=
  match deadline with Some t => deadline_to_timeout_ms t now | None => 0 end.

(** [TickType]: the plain tick, and the ones that carry a payload. *)
Inductive TickType (P : Type) : Type :=
| ConnectionTick
| PayloadTick (p : P).
Arguments ConnectionTick {P}.
Arguments PayloadTick {P} p.

(** The state of the connection's application: timers, the last inside IP
    configuration ([C]), and the C nudge callback with its context. *)
Record CffiAppState (P C : Type) : Type := mkAppState {
  next_tick : option Z;
  pending_ticks : list (Z * P);
  ip_config : option C;
  nudge_time_cb : option Z;
  app_ctx : Z;
}.
Arguments mkAppState {P C}.
Arguments next_tick {P C}.
Arguments pending_ticks {P C}.
Arguments ip_config {P C}.
Arguments nudge_time_cb {P C}.
Arguments app_ctx {P C}.

Section Timer.
Context {P C : Type}.
Implicit Types (st : CffiAppState P C).

Definition app_default : CffiAppState P C := mkAppState None [] None None 0.

Definition set_next_tick (t : option Z) st : CffiAppState P C :=
  mkAppState t (pending_ticks st) (ip_config st) (nudge_time_cb st) (app_ctx st).

Definition set_pending_ticks (l : list (Z * P)) st : CffiAppState P C :=
  mkAppState (next_tick st) l (ip_config st) (nudge_time_cb st) (app_ctx st).

Definition set_ip_config (c : C) st : CffiAppState P C :=
  mkAppState (next_tick st) (pending_ticks st) (Some c) (nudge_time_cb st) (app_ctx st).

(** [Iterator::min] over the deadlines. *)
Fixpoint min_deadline (l : list (Z * P)) : option Z :=
  match l with
  | [] => None
  | (t, _) :: l => Some (match min_deadline l with Some u => Z.min t u | None => t end)
  end.

Definition earliest_tick_deadline st : option Z :=
  match next_tick st, min_deadline (pending_ticks st) with
  | Some a, Some b => Some (Z.min a b)
  | Some a, None => Some a
  | None, b => b
  end.

(** The state update of [cffi_schedule_tick_cb] at time [now]. *)
Definition record_tick (now d : Z) (tick : TickType P) st : CffiAppState P C :=
  let deadline := now + d in
  match tick with
  | ConnectionTick =>
      set_next_tick (Some match next_tick st with
                          | Some existing => if existing <=? deadline then existing else deadline
                          | None => deadline
                          end) st
  | PayloadTick p => set_pending_ticks (pending_ticks st ++ [(deadline, p)]) st
  end.

(** The timeout its notification carries, if a callback is registered. *)
Definition notify_timeout (now d : Z) st : option (Z * Z * Z) :=
  match nudge_time_cb st with
  | Some cb =>
      let earliest := match earliest_tick_deadline st with Some t => t | None => now + d end in
      Some (cb, deadline_to_timeout_ms earliest now, app_ctx st)
  | None => None
  end.

(** Splitting off the due payload ticks, as [he_conn_nudge] does. *)
Definition partition_due (now : Z) (l : list (Z * P)) : list (Z * P) * list (Z * P) :=
  (filter (fun x => x.1 <= now) l, filter (fun x => ~ x.1 <= now) l).

(** Every deadline the state holds. *)
Definition deadlines st : list Z := option_list (next_tick st) ++ (pending_ticks st).*1.

End Timer.
End Timer.
Import Timer.

Module TimerFacts.

Section TimerFacts.
Context {P C : Type}.
Implicit Types (st : CffiAppState P C) (l : list (Z * P)).

Lemma min_deadline_none l : min_deadline l = None <-> l = [].
Proof. by destruct l as [|[]]. Qed.

Lemma min_deadline_some l t :
  min_deadline l = Some t -> t ∈ l.*1 /\ forall u, u ∈ l.*1 -> t <= u.
Proof.
  revert t. induction l as [|[u p] l IH]; [done|]. simpl. intros t [= <-].
  setoid_rewrite elem_of_cons. destruct (min_deadline l) as [v|] eqn:Hv.
  - destruct (IH v eq_refl) as [Hin Hle]. split.
    + destruct (Z.min_spec u v) as [[_ ->]|[_ ->]]; auto.
    + intros w [->|Hw]; [lia|]. specialize (Hle w Hw). lia.
  - apply min_deadline_none in Hv as ->. split; [auto|]. intros w [->|Hw]; [lia|]. by apply elem_of_nil in Hw.
Qed.

(** [earliest_tick_deadline] is the least stored deadline. *)
Lemma earliest_spec st :
  match earliest_tick_deadline st with
  | Some t => t ∈ deadlines st /\ forall u, u ∈ deadlines st -> t <= u
  | None => deadlines st = []
  end.
Proof.
  unfold earliest_tick_deadline, deadlines. pose proof (min_deadline_some (pending_ticks st)) as Hmin.
  pose proof (min_deadline_none (pending_ticks st)) as Hnone.
  destruct (next_tick st) as [a|], (min_deadline (pending_ticks st)) as [b|]; simpl.
  - destruct (Hmin b eq_refl) as [Hin Hle]. setoid_rewrite elem_of_cons. split.
    + destruct (Z.min_spec a b) as [[_ ->]|[_ ->]]; auto.
    + intros u [->|Hu]; [lia|]. specialize (Hle u Hu). lia.
  - rewrite (proj1 Hnone) by done. simpl. setoid_rewrite elem_of_cons. split; [auto|].
    intros u [->|Hu]; [lia|]. by apply elem_of_nil in Hu.
  - by apply Hmin.
  - by rewrite (proj1 Hnone).
Qed.

(** The deadlines after recording a tick. *)
Lemma record_deadlines now d (tick : TickType P) st :
  (forall t, t ∈ (now + d) :: deadlines st ->
     exists u, u ∈ deadlines (record_tick now d tick st) /\ u <= t) /\
  (forall t, t ∈ deadlines (record_tick now d tick st) -> t ∈ (now + d) :: deadlines st).
Proof.
  unfold deadlines. destruct tick as [|p]; simpl.
  - destruct (next_tick st) as [a|]; simpl.
    + destruct (Z.leb_spec a (now + d)); split.
      * intros t [->|Ht]%elem_of_cons; [exists a; split; [apply list_elem_of_here|lia]|by exists t].
      * intros t Ht. by apply list_elem_of_further.
      * intros t [->|[->|Ht]%elem_of_cons]%elem_of_cons.
        -- exists (now + d). split; [apply list_elem_of_here|lia].
        -- exists (now + d). split; [apply list_elem_of_here|lia].
        -- exists t. split; [by apply list_elem_of_further|lia].
      * intros t [->|Ht]%elem_of_cons; [apply list_elem_of_here|by do 2 apply list_elem_of_further].
    + split; [|done]. intros t Ht. exists t. split; [done|lia].
  - rewrite fmap_app. simpl. split.
    + intros t Ht. exists t. split; [|lia]. rewrite !elem_of_app. rewrite elem_of_cons, elem_of_app in Ht.
      rewrite list_elem_of_singleton. tauto.
    + intros t. rewrite !elem_of_app, list_elem_of_singleton, elem_of_cons, elem_of_app. tauto.
Qed.

Lemma deadline_timeout_range t now : 1 <= deadline_to_timeout_ms t now <= i32_MAX.
Proof. unfold deadline_to_timeout_ms, duration_to_timeout_ms, i32_MAX. lia. Qed.

(** Waiting for a timeout is never more than a millisecond too long. *)
Lemma timeout_not_late t now : now + deadline_to_timeout_ms t now * 1000000 <= Z.max t now + 1000000.
Proof.
  unfold deadline_to_timeout_ms, duration_to_timeout_ms, as_millis, duration_saturating_add,
    saturating_duration_since, DURATION_MAX, i32_MAX, u64_MAX in *. lia.
Qed.

End TimerFacts.
End TimerFacts.
Import TimerFacts.

Module TimerProperties.

(** C30: timeouts for C.  A timeout for a pending deadline is a positive [i32];
    waiting that long never wakes before the deadline, and never a whole
    millisecond late, unless the deadline is out of the [i32] range; with no
    pending deadline, and only then, the timeout is the "no timer" value 0. *)
Theorem timeout_sound deadline now :
  0 <= now -> 0 <= deadline ->
  let ms := deadline_to_timeout_ms deadline now in
  1 <= ms <= i32_MAX /\
  (ms < i32_MAX -> deadline <= now + ms * 1000000) /\
  (now < deadline -> now + (ms - 1) * 1000000 < deadline) /\
  (forall d, nudge_ms_until d now = 0 <-> d = None).
Proof.
  intros Hnow Hd ms. split_and!.
  - apply deadline_timeout_range.
  - apply deadline_timeout_range.
  - unfold ms, deadline_to_timeout_ms, duration_to_timeout_ms, as_millis, duration_saturating_add,
      saturating_duration_since, DURATION_MAX, i32_MAX, u64_MAX. lia.
  - unfold ms, deadline_to_timeout_ms, duration_to_timeout_ms, as_millis, duration_saturating_add,
      saturating_duration_since, DURATION_MAX, i32_MAX, u64_MAX. lia.
  - intros [t|]; [|done]. split; [|done]. simpl. pose proof (deadline_timeout_range t now). lia.
Qed.

Lemma timeout_sound_witness :
  let ms := deadline_to_timeout_ms 1000001 0 in
  ms = 2 /\ 1 <= ms <= i32_MAX /\ (ms < i32_MAX -> 1000001 <= 0 + ms * 1000000).
Proof.
  destruct (timeout_sound 1000001 0) as (Hr & Hl & _); [lia|lia|].
  split; [reflexivity|]. split; [exact Hr|exact Hl].
Defined.

(** C29: the single host timer.  Whatever tick is scheduled, every deadline stored
    before is kept or, for the plain tick, merged into an earlier one; the new
    deadline is covered; and a registered nudge callback is told the time to the
    earliest deadline of all that are now stored. *)
Theorem schedule_tracks_earliest {P C} now d (tick : TickType P) (st : CffiAppState P C) :
  let st' := record_tick now d tick st in
  (forall t, t ∈ (now + d) :: deadlines st -> exists u, u ∈ deadlines st' /\ u <= t) /\
  (forall t, t ∈ deadlines st' -> t ∈ (now + d) :: deadlines st) /\
  (forall p t, (t, p) ∈ pending_ticks st -> (t, p) ∈ pending_ticks st') /\
  (forall cb, nudge_time_cb st = Some cb ->
     exists e, e ∈ deadlines st' /\ (forall u, u ∈ deadlines st' -> e <= u) /\
       notify_timeout now d st' = Some (cb, deadline_to_timeout_ms e now, app_ctx st)).
Proof.
  intros st'. assert (Hkeep : nudge_time_cb st' = nudge_time_cb st /\ app_ctx st' = app_ctx st) by (by destruct tick).
  destruct (record_deadlines now d tick st) as [Hcover Hfrom]. split_and!; [done|done| |].
  - intros p t Hin. destruct tick; simpl; [done|]. apply elem_of_app. by left.
  - intros cb Hcb. destruct Hkeep as [Hk1 Hk2]. pose proof (earliest_spec st') as He.
    unfold notify_timeout. rewrite Hk1, Hk2, Hcb. destruct (earliest_tick_deadline st') as [e|].
    + destruct He. by exists e.
    + destruct (Hcover (now + d)) as (u & Hu & _); [apply list_elem_of_here|].
      fold st' in Hu. rewrite He in Hu. by apply elem_of_nil in Hu.
Qed.

End TimerProperties.
