(* ===== verification/Conn.v ===== *)
(** * The client object

    Models [src/conn.rs]: the SSL context with its callbacks and settings, the
    connection object with credentials and cached state, the client that embeds
    both, their defaults, and the scrubbing of secrets on drop.  A C function
    pointer is its address; strings are the bytes before the NUL.  Thread-safety
    of [arc_lock] is modelled in [Client] by [lock_owner] at the acquisition. *)

From stdpp Require Import base numbers list list_numbers option strings.
From Stdlib Require Import Strings.Byte.
From S2P Require Import Prelude ClientTypes Timer.
Import Timer.Timer.

Module Conn.

(** A pointer to a client, or to a part of it: NULL or the one client at hand. *)
Inductive handle : Set := Null | Valid.

(** ** The SSL context *)

Record he_ssl_ctx_t : Type := mkSslCtx {
  state_change_cb : option Z;
  inside_write_cb : option Z;
  outside_write_cb : option Z;
  network_config_ipv4_cb : option Z;
  server_config_cb : option Z;
  ssl_nudge_time_cb : option Z;
  event_cb : option Z;
  auth_cb : option Z;
  auth_token_cb : option Z;
  auth_buf_cb : option Z;
  populate_network_config_ipv4_cb : option Z;
  pmtud_state_change_cb : option Z;
  pmtud_time_cb : option Z;
  expresslane_cb : option Z;
  expresslane_state_change_cb : option Z;
  expresslane_metrics_cb : option Z;
  enable_expresslane : bool;
  connection_type : he_connection_type_t;
  ca_cert : option (list byte);
  server_dn : option (list byte);
  use_pqc : bool;
  use_chacha20 : bool;
}.

Definition set_state_change_cb (v : option Z) (s : he_ssl_ctx_t) : he_ssl_ctx_t :=
    mkSslCtx v (inside_write_cb s) (outside_write_cb s) (network_config_ipv4_cb s) (server_config_cb s)
    (ssl_nudge_time_cb s) (event_cb s) (auth_cb s) (auth_token_cb s) (auth_buf_cb s)
    (populate_network_config_ipv4_cb s) (pmtud_state_change_cb s) (pmtud_time_cb s) (expresslane_cb s)
    (expresslane_state_change_cb s) (expresslane_metrics_cb s) (enable_expresslane s) (connection_type s)
    (ca_cert s) (server_dn s) (use_pqc s) (use_chacha20 s).

Definition set_inside_write_cb (v : option Z) (s : he_ssl_ctx_t) : he_ssl_ctx_t :=
    mkSslCtx (state_change_cb s) v (outside_write_cb s) (network_config_ipv4_cb s) (server_config_cb s)
    (ssl_nudge_time_cb s) (event_cb s) (auth_cb s) (auth_token_cb s) (auth_buf_cb s)
    (populate_network_config_ipv4_cb s) (pmtud_state_change_cb s) (pmtud_time_cb s) (expresslane_cb s)
    (expresslane_state_change_cb s) (expresslane_metrics_cb s) (enable_expresslane s) (connection_type s)
    (ca_cert s) (server_dn s) (use_pqc s) (use_chacha20 s).

Definition set_outside_write_cb (v : option Z) (s : he_ssl_ctx_t) : he_ssl_ctx_t :=
    mkSslCtx (state_change_cb s) (inside_write_cb s) v (network_config_ipv4_cb s) (server_config_cb s)
    (ssl_nudge_time_cb s) (event_cb s) (auth_cb s) (auth_token_cb s) (auth_buf_cb s)
    (populate_network_config_ipv4_cb s) (pmtud_state_change_cb s) (pmtud_time_cb s) (expresslane_cb s)
    (expresslane_state_change_cb s) (expresslane_metrics_cb s) (enable_expresslane s) (connection_type s)
    (ca_cert s) (server_dn s) (use_pqc s) (use_chacha20 s).

Definition set_network_config_ipv4_cb (v : option Z) (s : he_ssl_ctx_t) : he_ssl_ctx_t :=
    mkSslCtx (state_change_cb s) (inside_write_cb s) (outside_write_cb s) v (server_config_cb s)
    (ssl_nudge_time_cb s) (event_cb s) (auth_cb s) (auth_token_cb s) (auth_buf_cb s)
    (populate_network_config_ipv4_cb s) (pmtud_state_change_cb s) (pmtud_time_cb s) (expresslane_cb s)
    (expresslane_state_change_cb s) (expresslane_metrics_cb s) (enable_expresslane s) (connection_type s)
    (ca_cert s) (server_dn s) (use_pqc s) (use_chacha20 s).

Definition set_server_config_cb (v : option Z) (s : he_ssl_ctx_t) : he_ssl_ctx_t :=
    mkSslCtx (state_change_cb s) (inside_write_cb s) (outside_write_cb s) (network_config_ipv4_cb s) v
    (ssl_nudge_time_cb s) (event_cb s) (auth_cb s) (auth_token_cb s) (auth_buf_cb s)
    (populate_network_config_ipv4_cb s) (pmtud_state_change_cb s) (pmtud_time_cb s) (expresslane_cb s)
    (expresslane_state_change_cb s) (expresslane_metrics_cb s) (enable_expresslane s) (connection_type s)
    (ca_cert s) (server_dn s) (use_pqc s) (use_chacha20 s).

Definition set_ssl_nudge_time_cb (v : option Z) (s : he_ssl_ctx_t) : he_ssl_ctx_t :=
    mkSslCtx (state_change_cb s) (inside_write_cb s) (outside_write_cb s) (network_config_ipv4_cb s)
    (server_config_cb s) v (event_cb s) (auth_cb s) (auth_token_cb s) (auth_buf_cb s)
    (populate_network_config_ipv4_cb s) (pmtud_state_change_cb s) (pmtud_time_cb s) (expresslane_cb s)
    (expresslane_state_change_cb s) (expresslane_metrics_cb s) (enable_expresslane s) (connection_type s)
    (ca_cert s) (server_dn s) (use_pqc s) (use_chacha20 s).

Definition set_event_cb (v : option Z) (s : he_ssl_ctx_t) : he_ssl_ctx_t :=
    mkSslCtx (state_change_cb s) (inside_write_cb s) (outside_write_cb s) (network_config_ipv4_cb s)
    (server_config_cb s) (ssl_nudge_time_cb s) v (auth_cb s) (auth_token_cb s) (auth_buf_cb s)
    (populate_network_config_ipv4_cb s) (pmtud_state_change_cb s) (pmtud_time_cb s) (expresslane_cb s)
    (expresslane_state_change_cb s) (expresslane_metrics_cb s) (enable_expresslane s) (connection_type s)
    (ca_cert s) (server_dn s) (use_pqc s) (use_chacha20 s).

Definition set_auth_cb (v : option Z) (s : he_ssl_ctx_t) : he_ssl_ctx_t :=
    mkSslCtx (state_change_cb s) (inside_write_cb s) (outside_write_cb s) (network_config_ipv4_cb s)
    (server_config_cb s) (ssl_nudge_time_cb s) (event_cb s) v (auth_token_cb s) (auth_buf_cb s)
    (populate_network_config_ipv4_cb s) (pmtud_state_change_cb s) (pmtud_time_cb s) (expresslane_cb s)
    (expresslane_state_change_cb s) (expresslane_metrics_cb s) (enable_expresslane s) (connection_type s)
    (ca_cert s) (server_dn s) (use_pqc s) (use_chacha20 s).

Definition set_auth_token_cb (v : option Z) (s : he_ssl_ctx_t) : he_ssl_ctx_t :=
    mkSslCtx (state_change_cb s) (inside_write_cb s) (outside_write_cb s) (network_config_ipv4_cb s)
    (server_config_cb s) (ssl_nudge_time_cb s) (event_cb s) (auth_cb s) v (auth_buf_cb s)
    (populate_network_config_ipv4_cb s) (pmtud_state_change_cb s) (pmtud_time_cb s) (expresslane_cb s)
    (expresslane_state_change_cb s) (expresslane_metrics_cb s) (enable_expresslane s) (connection_type s)
    (ca_cert s) (server_dn s) (use_pqc s) (use_chacha20 s).

Definition set_auth_buf_cb (v : option Z) (s : he_ssl_ctx_t) : he_ssl_ctx_t :=
    mkSslCtx (state_change_cb s) (inside_write_cb s) (outside_write_cb s) (network_config_ipv4_cb s)
    (server_config_cb s) (ssl_nudge_time_cb s) (event_cb s) (auth_cb s) (auth_token_cb s) v
    (populate_network_config_ipv4_cb s) (pmtud_state_change_cb s) (pmtud_time_cb s) (expresslane_cb s)
    (expresslane_state_change_cb s) (expresslane_metrics_cb s) (enable_expresslane s) (connection_type s)
    (ca_cert s) (server_dn s) (use_pqc s) (use_chacha20 s).

Definition set_populate_network_config_ipv4_cb (v : option Z) (s : he_ssl_ctx_t) : he_ssl_ctx_t :=
    mkSslCtx (state_change_cb s) (inside_write_cb s) (outside_write_cb s) (network_config_ipv4_cb s)
    (server_config_cb s) (ssl_nudge_time_cb s) (event_cb s) (auth_cb s) (auth_token_cb s) (auth_buf_cb s) v
    (pmtud_state_change_cb s) (pmtud_time_cb s) (expresslane_cb s) (expresslane_state_change_cb s)
    (expresslane_metrics_cb s) (enable_expresslane s) (connection_type s) (ca_cert s) (server_dn s)
    (use_pqc s) (use_chacha20 s).

Definition set_pmtud_state_change_cb (v : option Z) (s : he_ssl_ctx_t) : he_ssl_ctx_t :=
    mkSslCtx (state_change_cb s) (inside_write_cb s) (outside_write_cb s) (network_config_ipv4_cb s)
    (server_config_cb s) (ssl_nudge_time_cb s) (event_cb s) (auth_cb s) (auth_token_cb s) (auth_buf_cb s)
    (populate_network_config_ipv4_cb s) v (pmtud_time_cb s) (expresslane_cb s)
    (expresslane_state_change_cb s) (expresslane_metrics_cb s) (enable_expresslane s) (connection_type s)
    (ca_cert s) (server_dn s) (use_pqc s) (use_chacha20 s).

Definition set_pmtud_time_cb (v : option Z) (s : he_ssl_ctx_t) : he_ssl_ctx_t :=
    mkSslCtx (state_change_cb s) (inside_write_cb s) (outside_write_cb s) (network_config_ipv4_cb s)
    (server_config_cb s) (ssl_nudge_time_cb s) (event_cb s) (auth_cb s) (auth_token_cb s) (auth_buf_cb s)
    (populate_network_config_ipv4_cb s) (pmtud_state_change_cb s) v (expresslane_cb s)
    (expresslane_state_change_cb s) (expresslane_metrics_cb s) (enable_expresslane s) (connection_type s)
    (ca_cert s) (server_dn s) (use_pqc s) (use_chacha20 s).

Definition set_expresslane_cb (v : option Z) (s : he_ssl_ctx_t) : he_ssl_ctx_t :=
    mkSslCtx (state_change_cb s) (inside_write_cb s) (outside_write_cb s) (network_config_ipv4_cb s)
    (server_config_cb s) (ssl_nudge_time_cb s) (event_cb s) (auth_cb s) (auth_token_cb s) (auth_buf_cb s)
    (populate_network_config_ipv4_cb s) (pmtud_state_change_cb s) (pmtud_time_cb s) v
    (expresslane_state_change_cb s) (expresslane_metrics_cb s) (enable_expresslane s) (connection_type s)
    (ca_cert s) (server_dn s) (use_pqc s) (use_chacha20 s).

Definition set_expresslane_state_change_cb (v : option Z) (s : he_ssl_ctx_t) : he_ssl_ctx_t :=
    mkSslCtx (state_change_cb s) (inside_write_cb s) (outside_write_cb s) (network_config_ipv4_cb s)
    (server_config_cb s) (ssl_nudge_time_cb s) (event_cb s) (auth_cb s) (auth_token_cb s) (auth_buf_cb s)
    (populate_network_config_ipv4_cb s) (pmtud_state_change_cb s) (pmtud_time_cb s) (expresslane_cb s) v
    (expresslane_metrics_cb s) (enable_expresslane s) (connection_type s) (ca_cert s) (server_dn s)
    (use_pqc s) (use_chacha20 s).

Definition set_expresslane_metrics_cb (v : option Z) (s : he_ssl_ctx_t) : he_ssl_ctx_t :=
    mkSslCtx (state_change_cb s) (inside_write_cb s) (outside_write_cb s) (network_config_ipv4_cb s)
    (server_config_cb s) (ssl_nudge_time_cb s) (event_cb s) (auth_cb s) (auth_token_cb s) (auth_buf_cb s)
    (populate_network_config_ipv4_cb s) (pmtud_state_change_cb s) (pmtud_time_cb s) (expresslane_cb s)
    (expresslane_state_change_cb s) v (enable_expresslane s) (connection_type s) (ca_cert s) (server_dn s)
    (use_pqc s) (use_chacha20 s).

Definition set_enable_expresslane (v : bool) (s : he_ssl_ctx_t) : he_ssl_ctx_t :=
    mkSslCtx (state_change_cb s) (inside_write_cb s) (outside_write_cb s) (network_config_ipv4_cb s)
    (server_config_cb s) (ssl_nudge_time_cb s) (event_cb s) (auth_cb s) (auth_token_cb s) (auth_buf_cb s)
    (populate_network_config_ipv4_cb s) (pmtud_state_change_cb s) (pmtud_time_cb s) (expresslane_cb s)
    (expresslane_state_change_cb s) (expresslane_metrics_cb s) v (connection_type s) (ca_cert s)
    (server_dn s) (use_pqc s) (use_chacha20 s).

Definition set_connection_type (v : he_connection_type_t) (s : he_ssl_ctx_t) : he_ssl_ctx_t :=
    mkSslCtx (state_change_cb s) (inside_write_cb s) (outside_write_cb s) (network_config_ipv4_cb s)
    (server_config_cb s) (ssl_nudge_time_cb s) (event_cb s) (auth_cb s) (auth_token_cb s) (auth_buf_cb s)
    (populate_network_config_ipv4_cb s) (pmtud_state_change_cb s) (pmtud_time_cb s) (expresslane_cb s)
    (expresslane_state_change_cb s) (expresslane_metrics_cb s) (enable_expresslane s) v (ca_cert s)
    (server_dn s) (use_pqc s) (use_chacha20 s).

Definition set_ca_cert (v : option (list byte)) (s : he_ssl_ctx_t) : he_ssl_ctx_t :=
    mkSslCtx (state_change_cb s) (inside_write_cb s) (outside_write_cb s) (network_config_ipv4_cb s)
    (server_config_cb s) (ssl_nudge_time_cb s) (event_cb s) (auth_cb s) (auth_token_cb s) (auth_buf_cb s)
    (populate_network_config_ipv4_cb s) (pmtud_state_change_cb s) (pmtud_time_cb s) (expresslane_cb s)
    (expresslane_state_change_cb s) (expresslane_metrics_cb s) (enable_expresslane s) (connection_type s) v
    (server_dn s) (use_pqc s) (use_chacha20 s).

Definition set_server_dn (v : option (list byte)) (s : he_ssl_ctx_t) : he_ssl_ctx_t :=
    mkSslCtx (state_change_cb s) (inside_write_cb s) (outside_write_cb s) (network_config_ipv4_cb s)
    (server_config_cb s) (ssl_nudge_time_cb s) (event_cb s) (auth_cb s) (auth_token_cb s) (auth_buf_cb s)
    (populate_network_config_ipv4_cb s) (pmtud_state_change_cb s) (pmtud_time_cb s) (expresslane_cb s)
    (expresslane_state_change_cb s) (expresslane_metrics_cb s) (enable_expresslane s) (connection_type s)
    (ca_cert s) v (use_pqc s) (use_chacha20 s).

Definition set_use_pqc (v : bool) (s : he_ssl_ctx_t) : he_ssl_ctx_t :=
    mkSslCtx (state_change_cb s) (inside_write_cb s) (outside_write_cb s) (network_config_ipv4_cb s)
    (server_config_cb s) (ssl_nudge_time_cb s) (event_cb s) (auth_cb s) (auth_token_cb s) (auth_buf_cb s)
    (populate_network_config_ipv4_cb s) (pmtud_state_change_cb s) (pmtud_time_cb s) (expresslane_cb s)
    (expresslane_state_change_cb s) (expresslane_metrics_cb s) (enable_expresslane s) (connection_type s)
    (ca_cert s) (server_dn s) v (use_chacha20 s).

Definition set_use_chacha20 (v : bool) (s : he_ssl_ctx_t) : he_ssl_ctx_t :=
    mkSslCtx (state_change_cb s) (inside_write_cb s) (outside_write_cb s) (network_config_ipv4_cb s)
    (server_config_cb s) (ssl_nudge_time_cb s) (event_cb s) (auth_cb s) (auth_token_cb s) (auth_buf_cb s)
    (populate_network_config_ipv4_cb s) (pmtud_state_change_cb s) (pmtud_time_cb s) (expresslane_cb s)
    (expresslane_state_change_cb s) (expresslane_metrics_cb s) (enable_expresslane s) (connection_type s)
    (ca_cert s) (server_dn s) (use_pqc s) v.

Definition ssl_ctx_default : he_ssl_ctx_t :=
  mkSslCtx None None None None None None None None None None None None None None None None
    false HE_CONNECTION_TYPE_DATAGRAM None None false false.

(** ** The connection object *)

Record he_conn_t : Type := mkConn {
  client_ptr : handle;
  lock_owner : Z;
  username : option (list byte);
  password : option (list byte);
  auth_token : option (list byte);
  sni_hostname : option (list byte);
  outside_mtu : Z;
  context : Z;
  state : he_conn_state_t;
  nudge_time_ms : Z;
  outside_mtu_negotiated : Z;
  effective_pmtu : Z;
  current_protocol : he_connection_protocol_t;
  curve_name : option (list byte);
  cipher_name : option (list byte);
}.

Definition set_lock_owner (v : Z) (c : he_conn_t) : he_conn_t :=
    mkConn (client_ptr c) v (username c) (password c) (auth_token c) (sni_hostname c) (outside_mtu c)
    (context c) (state c) (nudge_time_ms c) (outside_mtu_negotiated c) (effective_pmtu c)
    (current_protocol c) (curve_name c) (cipher_name c).

Definition set_username (v : option (list byte)) (c : he_conn_t) : he_conn_t :=
    mkConn (client_ptr c) (lock_owner c) v (password c) (auth_token c) (sni_hostname c) (outside_mtu c)
    (context c) (state c) (nudge_time_ms c) (outside_mtu_negotiated c) (effective_pmtu c)
    (current_protocol c) (curve_name c) (cipher_name c).

Definition set_password (v : option (list byte)) (c : he_conn_t) : he_conn_t :=
    mkConn (client_ptr c) (lock_owner c) (username c) v (auth_token c) (sni_hostname c) (outside_mtu c)
    (context c) (state c) (nudge_time_ms c) (outside_mtu_negotiated c) (effective_pmtu c)
    (current_protocol c) (curve_name c) (cipher_name c).

Definition set_auth_token (v : option (list byte)) (c : he_conn_t) : he_conn_t :=
    mkConn (client_ptr c) (lock_owner c) (username c) (password c) v (sni_hostname c) (outside_mtu c)
    (context c) (state c) (nudge_time_ms c) (outside_mtu_negotiated c) (effective_pmtu c)
    (current_protocol c) (curve_name c) (cipher_name c).

Definition set_sni_hostname (v : option (list byte)) (c : he_conn_t) : he_conn_t :=
    mkConn (client_ptr c) (lock_owner c) (username c) (password c) (auth_token c) v (outside_mtu c)
    (context c) (state c) (nudge_time_ms c) (outside_mtu_negotiated c) (effective_pmtu c)
    (current_protocol c) (curve_name c) (cipher_name c).

Definition set_outside_mtu (v : Z) (c : he_conn_t) : he_conn_t :=
    mkConn (client_ptr c) (lock_owner c) (username c) (password c) (auth_token c) (sni_hostname c) v
    (context c) (state c) (nudge_time_ms c) (outside_mtu_negotiated c) (effective_pmtu c)
    (current_protocol c) (curve_name c) (cipher_name c).

Definition set_context (v : Z) (c : he_conn_t) : he_conn_t :=
    mkConn (client_ptr c) (lock_owner c) (username c) (password c) (auth_token c) (sni_hostname c)
    (outside_mtu c) v (state c) (nudge_time_ms c) (outside_mtu_negotiated c) (effective_pmtu c)
    (current_protocol c) (curve_name c) (cipher_name c).

Definition set_state (v : he_conn_state_t) (c : he_conn_t) : he_conn_t :=
    mkConn (client_ptr c) (lock_owner c) (username c) (password c) (auth_token c) (sni_hostname c)
    (outside_mtu c) (context c) v (nudge_time_ms c) (outside_mtu_negotiated c) (effective_pmtu c)
    (current_protocol c) (curve_name c) (cipher_name c).

Definition set_nudge_time_ms (v : Z) (c : he_conn_t) : he_conn_t :=
    mkConn (client_ptr c) (lock_owner c) (username c) (password c) (auth_token c) (sni_hostname c)
    (outside_mtu c) (context c) (state c) v (outside_mtu_negotiated c) (effective_pmtu c)
    (current_protocol c) (curve_name c) (cipher_name c).

Definition set_outside_mtu_negotiated (v : Z) (c : he_conn_t) : he_conn_t :=
    mkConn (client_ptr c) (lock_owner c) (username c) (password c) (auth_token c) (sni_hostname c)
    (outside_mtu c) (context c) (state c) (nudge_time_ms c) v (effective_pmtu c) (current_protocol c)
    (curve_name c) (cipher_name c).

Definition set_current_protocol (v : he_connection_protocol_t) (c : he_conn_t) : he_conn_t :=
    mkConn (client_ptr c) (lock_owner c) (username c) (password c) (auth_token c) (sni_hostname c)
    (outside_mtu c) (context c) (state c) (nudge_time_ms c) (outside_mtu_negotiated c) (effective_pmtu c) v
    (curve_name c) (cipher_name c).

Definition set_curve_name (v : option (list byte)) (c : he_conn_t) : he_conn_t :=
    mkConn (client_ptr c) (lock_owner c) (username c) (password c) (auth_token c) (sni_hostname c)
    (outside_mtu c) (context c) (state c) (nudge_time_ms c) (outside_mtu_negotiated c) (effective_pmtu c)
    (current_protocol c) v (cipher_name c).

Definition set_cipher_name (v : option (list byte)) (c : he_conn_t) : he_conn_t :=
    mkConn (client_ptr c) (lock_owner c) (username c) (password c) (auth_token c) (sni_hostname c)
    (outside_mtu c) (context c) (state c) (nudge_time_ms c) (outside_mtu_negotiated c) (effective_pmtu c)
    (current_protocol c) (curve_name c) v.

Definition conn_default : he_conn_t :=
  mkConn Null 0 None None None None 1500 0 HE_STATE_NONE 0 1500 0 HE_CONNECTION_PROTOCOL_NONE None None.

(** Overwriting every byte with zero. *)
Definition scrub_bytes (buf : list byte) : list byte := (fun _ => x00) <$> buf.

(** [Drop for he_conn_t]: what the secret buffers hold when they are freed. *)
Definition conn_drop (c : he_conn_t) : list (list byte) :=
  option_list (scrub_bytes <$> auth_token c) ++ option_list (scrub_bytes <$> password c) ++
  option_list (scrub_bytes <$> username c).

(** ** The inside IP configuration and its C form ([cffi_ip_config.rs]) *)

(** [Ipv4Addr] as its four octets. *)
Record Ipv4Addr : Set := mkIp { oct0 : Z; oct1 : Z; oct2 : Z; oct3 : Z }.

Record InsideIpConfig : Set := mkIpConfig { client_ip : Ipv4Addr; server_ip : Ipv4Addr; ip_dns : Ipv4Addr }.

Definition digit (n : Z) : byte := byte_of_Z (48 + n).

(** An octet in decimal, without leading zeros. *)
Definition decimal (n : Z) : list byte :=
  if (n <? 10)%Z then [digit n]
  else if (n <? 100)%Z then [digit (n / 10); digit (n `mod` 10)]
  else [digit (n / 100); digit ((n / 10) `mod` 10); digit (n `mod` 10)].

(** [Ipv4Addr::to_string]. *)
Definition ip_to_string (a : Ipv4Addr) : list byte :=
  decimal (oct0 a) ++ x2e :: decimal (oct1 a) ++ x2e :: decimal (oct2 a) ++ x2e :: decimal (oct3 a).

(** Copies at most 63 bytes, then a NUL. *)
Definition copy_ip_str (addr : Ipv4Addr) (dst : list byte) : outcome (list byte) :=
  let bytes := ip_to_string addr in
  let len := min (length bytes) 63 in
  src ← slice bytes 0 len;
  dst ← copy_from_slice dst 0 len src;
  copy_from_slice dst len (len + 1) [x00].

(** [lightway_core::MAX_INSIDE_MTU] is a parameter of what follows. *)
Definition network_config (max_inside_mtu : Z) (cfg : InsideIpConfig) : outcome he_network_config_ipv4_t :=
  local ← copy_ip_str (client_ip cfg) (zeros 64);
  dns ← copy_ip_str (ip_dns cfg) (zeros 64);
  peer ← copy_ip_str (server_ip cfg) (zeros 64);
  Ret (mkNetworkConfig local dns peer (max_inside_mtu `mod` 2 ^ 16)%Z).

(** ** A live connection and the client *)

(** What [he_client_connect] captures in the objects it hands to the core:
    [CffiOutsideIO], [CffiInsideIO], [CffiIpConfig], [CffiExpresslaneCb],
    [CffiExpresslaneMetrics] and [CffiEventCallback]. *)
Record Captured : Type := mkCaptured {
  cap_outside : Z;
  cap_inside : option Z;
  cap_ip_config : option Z;
  cap_keys : option Z;
  cap_metrics : option Z;
  cap_state_change : option Z;
  cap_event : option Z;
  cap_el_state : option Z;
  cap_ctx : Z;
}.

(** [Connection<CffiAppState>]: the core's own part ([K]), the application state
    with payload ticks of type [P], and the captured callbacks. *)
Record Connection (K P : Type) : Type := mkConnection {
  cn_core : K;
  cn_app : CffiAppState P InsideIpConfig;
  cn_cbs : Captured;
}.
Arguments mkConnection {K P}.
Arguments cn_core {K P}.
Arguments cn_app {K P}.
Arguments cn_cbs {K P}.

Record he_client_t (K P : Type) : Type := mkClient {
  conn : he_conn_t;
  ssl_ctx : he_ssl_ctx_t;
  connection : option (Connection K P);
}.
Arguments mkClient {K P}.
Arguments conn {K P}.
Arguments ssl_ctx {K P}.
Arguments connection {K P}.

(** [he_client_t::new]: the defaults, with the back-pointer set. *)
Definition client_new {K P} : he_client_t K P :=
  mkClient (mkConn Valid 0 None None None None 1500 0 HE_STATE_NONE 0 1500 0 HE_CONNECTION_PROTOCOL_NONE None None)
    ssl_ctx_default None.

End Conn.

(** ** Facts about the IP strings *)

Module ConnFacts.
Import Conn.

Definition octet (n : Z) : Prop := (0 <= n < 256)%Z.
Definition ip_wf (a : Ipv4Addr) : Prop := octet (oct0 a) /\ octet (oct1 a) /\ octet (oct2 a) /\ octet (oct3 a).

(** The number a decimal string denotes. *)
Definition decimal_value (l : list byte) : Z := foldl (fun acc b => 10 * acc + (Z_of_byte b - 48))%Z 0%Z l.

Definition octet_ok (n : Z) : bool :=
  (decimal_value (decimal n) =? n)%Z && forallb (fun b => bool_decide (b <> x2e /\ b <> x00)) (decimal n)
  && (length (decimal n) <=? 3)%nat.

Lemma octets_ok : forallb octet_ok (seqZ 0 256) = true.
Proof. vm_compute. reflexivity. Qed.

Lemma decimal_spec n :
  octet n -> decimal_value (decimal n) = n /\ (x2e ∉ decimal n) /\ (x00 ∉ decimal n) /\ length (decimal n) <= 3.
Proof.
  intros Hn. pose proof octets_ok as Hall. rewrite forallb_forall in Hall.
  specialize (Hall n). rewrite <- list_elem_of_In, elem_of_seqZ in Hall.
  specialize (Hall ltac:(unfold octet in Hn; lia)). unfold octet_ok in Hall.
  apply andb_true_iff in Hall as [[Hv Hb]%andb_true_iff Hl]. rewrite forallb_forall in Hb.
  split; [by apply Z.eqb_eq|]. split_and!; [| |by apply Nat.leb_le].
  - intros Hin. apply list_elem_of_In, Hb, bool_decide_eq_true in Hin. tauto.
  - intros Hin. apply list_elem_of_In, Hb, bool_decide_eq_true in Hin. tauto.
Qed.

Lemma split_at_dot (a b r s : list byte) :
  x2e ∉ a -> x2e ∉ b -> a ++ x2e :: r = b ++ x2e :: s -> a = b /\ r = s.
Proof.
  revert b. induction a as [|x a IH]; intros [|y b] Ha Hb; simpl; intros Heq; simplify_eq.
  - done.
  - by apply not_elem_of_cons in Hb as [? _].
  - by apply not_elem_of_cons in Ha as [? _].
  - apply not_elem_of_cons in Ha as [_ Ha]. apply not_elem_of_cons in Hb as [_ Hb].
    destruct (IH b Ha Hb) as [-> ->]; done.
Qed.

Lemma ip_to_string_length a : ip_wf a -> length (ip_to_string a) <= 15.
Proof.
  intros (H0 & H1 & H2 & H3). unfold ip_to_string.
  apply decimal_spec in H0 as (_ & _ & _ & ?). apply decimal_spec in H1 as (_ & _ & _ & ?).
  apply decimal_spec in H2 as (_ & _ & _ & ?). apply decimal_spec in H3 as (_ & _ & _ & ?).
  rewrite !length_app. simpl. rewrite !length_app. simpl. rewrite !length_app. simpl. lia.
Qed.

Lemma ip_to_string_no_nul a : ip_wf a -> x00 ∉ ip_to_string a.
Proof.
  intros (H0 & H1 & H2 & H3). unfold ip_to_string.
  apply decimal_spec in H0 as (_ & _ & ? & _). apply decimal_spec in H1 as (_ & _ & ? & _).
  apply decimal_spec in H2 as (_ & _ & ? & _). apply decimal_spec in H3 as (_ & _ & ? & _).
  rewrite !not_elem_of_app, !not_elem_of_cons, !not_elem_of_app, !not_elem_of_cons, !not_elem_of_app, !not_elem_of_cons.
  done.
Qed.

(** Distinct addresses have distinct strings. *)
Lemma ip_to_string_inj a b : ip_wf a -> ip_wf b -> ip_to_string a = ip_to_string b -> a = b.
Proof.
  destruct a as [a0 a1 a2 a3], b as [b0 b1 b2 b3]. intros (A0 & A1 & A2 & A3) (B0 & B1 & B2 & B3).
  unfold ip_to_string. simpl in *. intros Heq.
  destruct (decimal_spec a0 A0) as (V0 & ? & _), (decimal_spec a1 A1) as (V1 & ? & _),
    (decimal_spec a2 A2) as (V2 & ? & _), (decimal_spec a3 A3) as (V3 & _).
  destruct (decimal_spec b0 B0) as (U0 & ? & _), (decimal_spec b1 B1) as (U1 & ? & _),
    (decimal_spec b2 B2) as (U2 & ? & _), (decimal_spec b3 B3) as (U3 & _).
  apply split_at_dot in Heq as [E0 Heq]; [|done..]. apply split_at_dot in Heq as [E1 Heq]; [|done..].
  apply split_at_dot in Heq as [E2 E3]; [|done..]. congruence.
Qed.

(** The C string of an address: 64 bytes, NUL-terminated, read back as the text. *)
Lemma copy_ip_str_run a :
  ip_wf a -> exists l, copy_ip_str a (zeros 64) = Ret l /\ length l = 64 /\ c_string l = ip_to_string a.
Proof.
  intros Ha. pose proof (ip_to_string_length a Ha) as Hlen. unfold copy_ip_str.
  set (str := ip_to_string a) in *. set (n := length str) in *. replace (min n 63) with n by lia.
  rewrite slice_ret, bind_ret by lia. rewrite Nat.sub_0_r, drop_0, take_ge by lia.
  replace (zeros 64) with (zeros n ++ zeros 1 ++ zeros (63 - n)).
  2: { unfold zeros. rewrite <- !replicate_add. f_equal. lia. }
  rewrite copy_from_slice_ret, bind_ret by lens. rewrite splice_here by lens.
  rewrite copy_from_slice_ret by lens. rewrite splice_skip by lens. rewrite splice_here by lens.
  eexists. split; [done|]. split; [lens|]. apply c_string_app. by apply ip_to_string_no_nul.
Qed.

(** network configuration strings.  Building the C structure for valid
    addresses never panics; every field is a 64-byte buffer whose C string is the
    dotted-decimal text of the address, and that text determines the address. *)
Theorem network_config_strings max_mtu cfg :
  ip_wf (client_ip cfg) -> ip_wf (ip_dns cfg) -> ip_wf (server_ip cfg) ->
  exists c, network_config max_mtu cfg = Ret c /\
    length (local_ip c) = 64 /\ length (dns_ip c) = 64 /\ length (peer_ip c) = 64 /\
    (forall a, ip_wf a -> c_string (local_ip c) = ip_to_string a <-> a = client_ip cfg) /\
    (forall a, ip_wf a -> c_string (dns_ip c) = ip_to_string a <-> a = ip_dns cfg) /\
    (forall a, ip_wf a -> c_string (peer_ip c) = ip_to_string a <-> a = server_ip cfg).
Proof.
  intros H1 H2 H3. unfold network_config.
  destruct (copy_ip_str_run _ H1) as (l1 & -> & ? & E1). destruct (copy_ip_str_run _ H2) as (l2 & -> & ? & E2).
  destruct (copy_ip_str_run _ H3) as (l3 & -> & ? & E3). rewrite !bind_ret.
  eexists. split; [done|]. simpl. rewrite E1, E2, E3. split_and!; try done;
    intros a Ha; (split; [intros Heq; symmetry; by apply ip_to_string_inj|by intros ->]).
Qed.

Lemma network_config_strings_witness :
  let a := mkIp 10 125 0 5 in
  exists c, network_config 1350 (mkIpConfig a a a) = Ret c /\ c_string (local_ip c) = ip_to_string a.
Proof.
  intros a. assert (Ha : ip_wf a) by (vm_compute; intuition discriminate).
  destruct (network_config_strings 1350 (mkIpConfig a a a) Ha Ha Ha) as (c & Hc & _ & _ & _ & Hl & _).
  exists c. split; [exact Hc|]. apply (proj2 (Hl a Ha)). reflexivity.
Defined.

End ConnFacts.
