(* ===== verification/Client.v ===== *)
(** * The client operations

    Models [src/lib.rs] and the callback bridges [src/cffi_event.rs],
    [src/cffi_io.rs], [src/cffi_ip_config.rs] and [src/cffi_expresslane.rs].

    [lightway-core] is not part of the sources: class [Core] holds what the code
    uses of it.  Its operations call back into this library while they run, so
    each is a program ([prog]) of callback requests, which [interp] answers with
    the bridges' code.  C callbacks and the clock are the environment ([CEnv]);
    every invocation of a C callback is recorded in the world's trace.  A call is
    a function of the world that either returns or panics, and keeps the changes
    made before a panic. *)

From stdpp Require Import base numbers list list_numbers option strings.
From Stdlib Require Import Strings.Byte.
From S2P Require Import Prelude ClientTypes Timer Conn.
Import Timer.Timer Conn.Conn.

(** ** The environment *)

(** One invocation of a C callback: function, argument, context. *)
Inductive c_call : Type :=
| CallStateChange (cb : Z) (new_state : he_conn_state_t) (ctx : Z)
| CallEvent (cb : Z) (event : he_conn_event_t) (ctx : Z)
| CallExpresslaneState (cb : Z) (st : he_expresslane_state_t) (ctx : Z)
| CallOutsideWrite (cb : Z) (packet : list byte) (ctx : Z)
| CallInsideWrite (cb : Z) (packet : list byte) (ctx : Z)
| CallNetworkConfig (cb : Z) (config : he_network_config_ipv4_t) (ctx : Z)
| CallKeys (cb : Z) (keys : he_expresslane_keys_t) (ctx : Z)
| CallMetrics (cb : Z) (session_id : list byte) (ctx : Z)
| CallNudgeTime (cb : Z) (timeout : Z) (ctx : Z).

(** What C answers: the code of the [n]-th invocation, the counters it writes,
    and the [n]-th reading of the clock. *)
Class CEnv : Type := {
  env_rc : nat -> he_return_code_t;
  env_sent : nat -> Z;
  env_received : nat -> Z;
  env_time : nat -> Z;
}.

(** ** [lightway-core], a parameter *)

(** A program of the core: callback requests, then a result, or a panic that
    leaves a residue [R] behind. *)
Inductive prog (P R A : Type) : Type :=
| PRet (a : A)
| PPanic (r : R)
| PEvent (e : Event) (k : prog P R A)
| PSendOutside (buf : list byte) (k : option nat -> prog P R A)
| PSendInside (buf : list byte) (k : option nat -> prog P R A)
| PIpConfig (cfg : InsideIpConfig) (k : prog P R A)
| PScheduleTick (d : Z) (tick : TickType P) (k : prog P R A)
| PUpdateKeys (session_id self_key peer_key : list byte) (version : Z) (k : prog P R A)
| PGetStats (session_id : list byte) (k : Z -> Z -> prog P R A).
Arguments PRet {P R A}.
Arguments PPanic {P R A}.
Arguments PEvent {P R A}.
Arguments PSendOutside {P R A}.
Arguments PSendInside {P R A}.
Arguments PIpConfig {P R A}.
Arguments PScheduleTick {P R A}.
Arguments PUpdateKeys {P R A}.
Arguments PGetStats {P R A}.

Class Core : Type := {
  core_conn : Type;
  core_error : Type;
  tick_payload : Type;
  ctx_builder : Type;
  client_context : Type;
  conn_builder : Type;
  protocol_number : Type;
  (** [ConnectionError] *)
  is_fatal : core_error -> ConnectionType -> bool;
  is_timed_out : core_error -> bool;
  is_invalid_state : core_error -> bool;
  (** [Connection]: accessors *)
  core_state : core_conn -> State;
  core_connection_type : core_conn -> ConnectionType;
  core_tick_interval : core_conn -> option Z;
  core_session_id : core_conn -> list byte;
  core_tls_version : core_conn -> ProtocolVersion;
  core_curve : core_conn -> option (list byte);
  core_cipher : core_conn -> option (list byte);
  core_tunnel_version : core_conn -> protocol_number;
  (** [Connection]: operations *)
  core_tick : TickType tick_payload -> core_conn -> prog tick_payload core_conn (core_conn * result unit core_error);
  core_outside_data : list byte -> ConnectionType -> core_conn ->
    prog tick_payload core_conn (core_conn * result unit core_error);
  core_inside_data : list byte -> core_conn -> prog tick_payload core_conn (core_conn * result unit core_error);
  core_disconnect : core_conn -> prog tick_payload core_conn (core_conn * result unit core_error);
  core_rotate_key : core_conn -> prog tick_payload core_conn (core_conn * result unit core_error);
  (** [ClientContextBuilder] and [ClientConnectionBuilder] *)
  context_builder_new : ConnectionType -> list byte -> bool -> option ctx_builder;
  with_chacha20 : ctx_builder -> option ctx_builder;
  with_expresslane : ctx_builder -> ctx_builder;
  with_expresslane_cb : ctx_builder -> ctx_builder;
  with_expresslane_metrics : ctx_builder -> ctx_builder;
  context_build : ctx_builder -> client_context;
  start_connect : client_context -> Z -> option conn_builder;
  with_auth : AuthMethod -> conn_builder -> conn_builder;
  with_event_cb : conn_builder -> conn_builder;
  with_server_dn : list byte -> conn_builder -> conn_builder;
  with_sni : list byte -> conn_builder -> conn_builder;
  with_pq_crypto : conn_builder -> conn_builder;
  core_connect : conn_builder -> prog tick_payload unit (option core_conn);
  (** [Header] and [SessionId] *)
  header_try_from_wire : list byte -> outcome (option (bool * list byte));
  header_append_to_wire : protocol_number -> bool -> bool -> list byte -> list byte;
  session_is_reserved : list byte -> bool;
  max_inside_mtu : Z;
}.

(** [Header::WIRE_SIZE], the 16-byte header. *)
Definition WIRE_SIZE : nat := 16.

(** Documented behaviour of the core's header codec: a header is 16 bytes and
    parses back to its flag and session. *)
Class HeaderLaws `{Core} : Prop := {
  header_length v agg e s : length s = 8 -> length (header_append_to_wire v agg e s) = WIRE_SIZE;
  header_parses v agg e s : length s = 8 -> header_try_from_wire (header_append_to_wire v agg e s) = Ret (Some (e, s));
}.

(** ** The world and its monad *)

Record world (K P : Type) : Type := mkWorld {
  w_client : he_client_t K P;
  w_trace : list c_call;
  w_reads : nat;
}.
Arguments mkWorld {K P}.
Arguments w_client {K P}.
Arguments w_trace {K P}.
Arguments w_reads {K P}.

Definition M (K P A : Type) : Type := world K P -> outcome A * world K P.

#[global] Instance m_ret K P : MRet (M K P) := fun A a w => (Ret a, w).
#[global] Instance m_bind K P : MBind (M K P) := fun A B f m w =>
  match m w with
  | (Ret a, w') => f a w'
  | (Panic, w') => (Panic, w')
  end.

(** ** Standard-library helpers *)

(** [CString::new(s).ok()]: no interior NUL. *)
Definition cstring_new (s : list byte) : option (list byte) :=
  if decide (x00 ∈ s) then None else Some s.

Definition in_range (lo hi : Z) (b : byte) : bool := (lo <=? Z_of_byte b)%Z && (Z_of_byte b <=? hi)%Z.
Definition is_cont (b : byte) : bool := in_range 0x80 0xBF b.

(** [str::from_utf8(..).is_ok()]: well-formed UTF-8. *)
Fixpoint utf8_ok (l : list byte) : bool :=
  match l with
  | [] => true
  | a :: l1 =>
      if in_range 0x00 0x7F a then utf8_ok l1
      else match l1 with
      | [] => false
      | b :: l2 =>
          if in_range 0xC2 0xDF a then is_cont b && utf8_ok l2
          else match l2 with
          | [] => false
          | c :: l3 =>
              if in_range 0xE0 0xE0 a then in_range 0xA0 0xBF b && is_cont c && utf8_ok l3
              else if in_range 0xED 0xED a then in_range 0x80 0x9F b && is_cont c && utf8_ok l3
              else if in_range 0xE1 0xEF a then is_cont b && is_cont c && utf8_ok l3
              else match l3 with
              | [] => false
              | d :: l4 =>
                  if in_range 0xF0 0xF0 a then in_range 0x90 0xBF b && is_cont c && is_cont d && utf8_ok l4
                  else if in_range 0xF1 0xF3 a then is_cont b && is_cont c && is_cont d && utf8_ok l4
                  else if in_range 0xF4 0xF4 a then in_range 0x80 0x8F b && is_cont c && is_cont d && utf8_ok l4
                  else false
              end
          end
      end
  end.

Module Client.

Section Client.
Context `{CEnv} `{Core}.
Abbreviation Connection := (Connection core_conn tick_payload).
Abbreviation client_t := (he_client_t core_conn tick_payload).
Abbreviation app_t := (CffiAppState tick_payload InsideIpConfig).
Abbreviation M := (M core_conn tick_payload).
Abbreviation world := (world core_conn tick_payload).

(** ** Primitive actions *)

Definition panic {A} : M A := fun w => (Panic, w).
Definition get_client : M client_t := fun w => (Ret (w_client w), w).
Definition put_client (c : client_t) : M unit := fun w => (Ret tt, mkWorld c (w_trace w) (w_reads w)).

Definition modify_conn (f : he_conn_t -> he_conn_t) : M unit :=
  c ← get_client; put_client (mkClient (f (conn c)) (ssl_ctx c) (connection c)).

Definition modify_ssl (f : he_ssl_ctx_t -> he_ssl_ctx_t) : M unit :=
  c ← get_client; put_client (mkClient (conn c) (f (ssl_ctx c)) (connection c)).

Definition put_connection (cn : option Connection) : M unit :=
  c ← get_client; put_client (mkClient (conn c) (ssl_ctx c) cn).

(** [Instant::now()]. *)
Definition instant_now : M Z :=
  fun w => (Ret (env_time (w_reads w)), mkWorld (w_client w) (w_trace w) (S (w_reads w))).

(** An invocation of a C callback. *)
Definition call_c (call : c_call) : M he_return_code_t :=
  fun w => (Ret (env_rc (length (w_trace w))), mkWorld (w_client w) (w_trace w ++ [call]) (w_reads w)).

(** A [void]-like use of an optional callback. *)
Definition call_opt (cb : option Z) (mk : Z -> c_call) : M unit :=
  match cb with
  | Some f => _ ← call_c (mk f); mret tt
  | None => mret tt
  end.

Definition lift_outcome {A} (o : outcome A) : M A :=
  match o with Ret a => mret a | Panic => panic end.

(** ** FFI boundary helpers *)

(** [catch_unwind(f).unwrap_or(default)]. *)
Definition ffi_guard {R} (default : R) (f : M R) : M R := fun w =>
  match f w with
  | (Ret r, w') => (Ret r, w')
  | (Panic, w') => (Ret default, w')
  end.

(** [OwnerReset]: the owner is cleared on every exit, a panic included. *)
Definition run_and_reset {R} (f : M R) : M (result R he_return_code_t) := fun w =>
  match f w with
  | (Ret r, w') => (_ ← modify_conn (set_lock_owner 0); mret (Ok r)) w'
  | (Panic, w') => (_ ← modify_conn (set_lock_owner 0); panic) w'
  end.

(** Runs [f] with the lock's owner set to [me].  The acquisition has waited for
    the mutex. *)
Definition lock_client {R} (me : Z) (client : handle) (f : M R) : M (result R he_return_code_t) :=
  match client with
  | Null => mret (Err HE_ERR_NULL_POINTER)
  | Valid =>
      c ← get_client;
      if decide (lock_owner (conn c) = me) then mret (Err HE_ERR_INVALID_CONN_STATE)
      else
        _ ← modify_conn (set_lock_owner me);
        run_and_reset f
  end.

Definition with_client {R} (me : Z) (conn_p : handle) (f : M R) : M (result R he_return_code_t) :=
  match conn_p with
  | Null => mret (Err HE_ERR_FAILED)
  | Valid =>
      c ← get_client;
      match client_ptr (conn c) with
      | Null => mret (Err HE_ERR_FAILED)
      | Valid => lock_client me (client_ptr (conn c)) f
      end
  end.

(** [Ok(code) | Err(code) => code]. *)
Definition either_code (r : result he_return_code_t he_return_code_t) : he_return_code_t :=
  match r with Ok code => code | Err code => code end.

(** ** [cffi_state.rs]: scheduling a tick *)

Definition cffi_schedule_tick_cb (d : Z) (tick : TickType tick_payload) (st : app_t) : M app_t :=
  now ← instant_now;
  let st := record_tick now d tick st in
  match notify_timeout now d st with
  | Some (cb, timeout_ms, ctx) => _ ← call_c (CallNudgeTime cb timeout_ms ctx); mret st
  | None => mret st
  end.

(** ** [cffi_event.rs] *)

Definition fire_event (cbs : Captured) (e : he_conn_event_t) : M unit :=
  call_opt (cap_event cbs) (fun cb => CallEvent cb e (cap_ctx cbs)).

Definition event (cbs : Captured) (e : Event) : M unit :=
  match e with
  | StateChanged st =>
      let c_state := rust_state_to_c st in
      _ ← modify_conn (set_state c_state);
      call_opt (cap_state_change cbs) (fun cb => CallStateChange cb c_state (cap_ctx cbs))
  | KeepaliveReply => fire_event cbs HE_EVENT_PONG
  | FirstPacketReceived => fire_event cbs HE_EVENT_FIRST_MESSAGE_RECEIVED
  | SessionIdRotationAcknowledged => fire_event cbs HE_EVENT_PENDING_SESSION_ACKNOWLEDGED
  | TlsKeysUpdateStart => fire_event cbs HE_EVENT_SECURE_RENEGOTIATION_STARTED
  | TlsKeysUpdateCompleted => fire_event cbs HE_EVENT_SECURE_RENEGOTIATION_COMPLETED
  | ExpresslaneStateChanged st =>
      call_opt (cap_el_state cbs) (fun cb => CallExpresslaneState cb (rust_expresslane_state_to_c st) (cap_ctx cbs))
  | EncodingStateChanged => mret tt
  | SessionIdRotationStarted => mret tt
  end.

(** ** [cffi_io.rs] *)

(** [Ok(len)] or an error. *)
Definition outside_send (cbs : Captured) (buf : list byte) : M (option nat) :=
  rc ← call_c (CallOutsideWrite (cap_outside cbs) buf (cap_ctx cbs));
  mret (if decide (rc = HE_SUCCESS) then Some (length buf) else None).

(** Without an inside callback the core has no inside I/O to call. *)
Definition inside_send (cbs : Captured) (buf : list byte) : M (option nat) :=
  match cap_inside cbs with
  | Some cb =>
      rc ← call_c (CallInsideWrite cb buf (cap_ctx cbs));
      mret (if decide (rc = HE_SUCCESS) then Some (length buf) else None)
  | None => mret None
  end.

(** The rest of the two I/O traits: segmentation offload and the device queries
    are refused, the peer address is a placeholder ([0.0.0.0:0]). *)
Definition outside_send_gso (bufs : list (list byte)) (gso_size : Z) : option nat := None.
Definition outside_peer_addr : Ipv4Addr * Z := (mkIp 0 0 0 0, 0%Z).
Definition inside_mtu : Z := max_inside_mtu.
Definition inside_if_index : option Z := None.
Definition inside_name : option (list byte) := None.

(** ** [cffi_ip_config.rs] *)

Definition on_ip_config (cbs : Captured) (cfg : InsideIpConfig) (st : app_t) : M app_t :=
  let st := set_ip_config cfg st in
  match cap_ip_config cbs with
  | None => mret st
  | Some cb =>
      c_cfg ← lift_outcome (network_config max_inside_mtu cfg);
      _ ← call_c (CallNetworkConfig cb c_cfg (cap_ctx cbs));
      mret st
  end.

(** ** [cffi_expresslane.rs] *)

(** [CffiExpresslaneCb::update]: C reads the keys, then the local copy is
    scrubbed.  The result is what the local holds when the call returns. *)
Definition cb_update (cb : Z) (session_id self_key peer_key : list byte) (version ctx : Z) : M he_expresslane_keys_t :=
  let keys := mkKeys session_id self_key peer_key version in
  _ ← call_c (CallKeys cb keys ctx);
  let keys := mkKeys (keys_session_id keys) (scrub_bytes (keys_self_key keys)) (keys_peer_key keys) (keys_version keys) in
  let keys := mkKeys (keys_session_id keys) (keys_self_key keys) (scrub_bytes (keys_peer_key keys)) (keys_version keys) in
  mret keys.

Definition update_keys (cbs : Captured) (session_id self_key peer_key : list byte) (version : Z) : M unit :=
  match cap_keys cbs with
  | Some cb => _ ← cb_update cb session_id self_key peer_key version (cap_ctx cbs); mret tt
  | None => mret tt
  end.

(** The counters C reports, or zeros when it reports a failure. *)
Definition get_stats (cbs : Captured) (session_id : list byte) : M (Z * Z) :=
  match cap_metrics cbs with
  | Some cb => fun w =>
      let n := length (w_trace w) in
      (rc ← call_c (CallMetrics cb session_id (cap_ctx cbs));
       mret (if decide (rc = HE_SUCCESS) then (env_sent n, env_received n) else (0%Z, 0%Z))) w
  | None => mret (0%Z, 0%Z)
  end.

(** ** Running the core *)

Fixpoint interp {R A} (cbs : Captured) (p : prog tick_payload R A) (st : app_t) : M ((A + R) * app_t) :=
  match p with
  | PRet a => mret (inl a, st)
  | PPanic r => mret (inr r, st)
  | PEvent e k => _ ← event cbs e; interp cbs k st
  | PSendOutside buf k => r ← outside_send cbs buf; interp cbs (k r) st
  | PSendInside buf k => r ← inside_send cbs buf; interp cbs (k r) st
  | PIpConfig cfg k => st ← on_ip_config cbs cfg st; interp cbs k st
  | PScheduleTick d tick k => st ← cffi_schedule_tick_cb d tick st; interp cbs k st
  | PUpdateKeys sid self_key peer_key v k => _ ← update_keys cbs sid self_key peer_key v; interp cbs k st
  | PGetStats sid k => '(sent, received) ← get_stats cbs sid; interp cbs (k sent received) st
  end.

(** A method call on the live connection [cn]: the core runs with its callbacks,
    and the connection holds its new state, also when the core panics. *)
Definition core_call {A} (cn : Connection) (p : prog tick_payload core_conn (core_conn * A)) : M A :=
  '(r, st) ← interp (cn_cbs cn) p (cn_app cn);
  match r with
  | inl (core, a) => _ ← put_connection (Some (mkConnection core st (cn_cbs cn))); mret a
  | inr core => _ ← put_connection (Some (mkConnection core st (cn_cbs cn))); panic
  end.

(** ** Snapshot and teardown *)

Definition sync_conn_info : M unit :=
  c ← get_client;
  match connection c with
  | None => mret tt
  | Some cn =>
      _ ← modify_conn (fun k =>
            if decide (current_protocol k = HE_CONNECTION_PROTOCOL_NONE)
            then set_current_protocol (protocol_to_c (core_tls_version (cn_core cn))) k else k);
      _ ← modify_conn (fun k =>
            match curve_name k with
            | None => set_curve_name (core_curve (cn_core cn) ≫= cstring_new) k
            | Some _ => k
            end);
      modify_conn (fun k =>
        match cipher_name k with
        | None => set_cipher_name (core_cipher (cn_core cn) ≫= cstring_new) k
        | Some _ => k
        end)
  end.

(** Sets the cached state and tells C about it. *)
Definition deliver_state (st : he_conn_state_t) (ctx : Z) : M unit :=
  _ ← modify_conn (set_state st);
  c ← get_client;
  call_opt (state_change_cb (ssl_ctx c)) (fun cb => CallStateChange cb st ctx).

Definition fatal_disconnect : M unit :=
  c ← get_client;
  if decide (state (conn c) = HE_STATE_DISCONNECTED) then put_connection None
  else
    _ ← deliver_state HE_STATE_DISCONNECTED (context (conn c));
    put_connection None.

(** ** Lifecycle *)

Definition he_init : he_return_code_t := HE_SUCCESS.
Definition he_cleanup : unit := tt.

Definition he_client_create : client_t := client_new.

(** Freeing a client leaves the scrubbed secrets of its connection behind. *)
Definition he_client_destroy (client : handle) (c : client_t) : list (list byte) :=
  match client with Null => [] | Valid => conn_drop (conn c) end.

Definition he_client_get_conn (client : handle) : handle := client.
Definition he_client_get_ssl_ctx (client : handle) : handle := client.

Definition he_client_is_config_valid (client : handle) (c : client_t) : he_return_code_t :=
  match client with
  | Null => HE_ERR_NULL_POINTER
  | Valid =>
      let has_user_pass := bool_decide (is_Some (username (conn c))) && bool_decide (is_Some (password (conn c))) in
      let has_token := bool_decide (is_Some (auth_token (conn c))) in
      if negb has_user_pass && negb has_token then HE_ERR_CONF_NOT_SET
      else if decide (outside_write_cb (ssl_ctx c) = None) then HE_ERR_CONF_NOT_SET
      else if decide (ca_cert (ssl_ctx c) = None) then HE_ERR_CONF_NOT_SET
      else HE_SUCCESS
  end.

(** Step 2 of [client_connect_locked]. *)
Definition build_auth (k : he_conn_t) : result AuthMethod he_return_code_t :=
  match username k, password k with
  | Some user, Some pass =>
      if utf8_ok user && utf8_ok pass then Ok (UserPass user pass) else Err HE_ERR_BAD_PARAM
  | _, _ =>
      match auth_token k with
      | Some token => if utf8_ok token then Ok (Token token) else Err HE_ERR_BAD_PARAM
      | None => Err HE_ERR_CONF_NOT_SET
      end
  end.

(** Step 3: the objects that carry the callbacks. *)
Definition capture (outside : Z) (c : client_t) : Captured :=
  let s := ssl_ctx c in
  mkCaptured outside (inside_write_cb s) (network_config_ipv4_cb s)
    (if enable_expresslane s then expresslane_cb s else None)
    (if enable_expresslane s then expresslane_metrics_cb s else None)
    (state_change_cb s) (event_cb s) (expresslane_state_change_cb s) (context (conn c)).

(** Steps 4 to 6: the context. *)
Definition build_context (c : client_t) (ca : list byte) : option client_context :=
  let s := ssl_ctx c in
  let ct := match connection_type s with
            | HE_CONNECTION_TYPE_DATAGRAM => Datagram
            | HE_CONNECTION_TYPE_STREAM => Stream
            end in
  b ← context_builder_new ct ca (bool_decide (is_Some (inside_write_cb s)));
  b ← (if use_chacha20 s then with_chacha20 b else Some b);
  let b :=
    if enable_expresslane s then
      let b := with_expresslane b in
      let b := match expresslane_cb s with Some _ => with_expresslane_cb b | None => b end in
      match expresslane_metrics_cb s with Some _ => with_expresslane_metrics b | None => b end
    else b in
  Some (context_build b).

(** The optional parts of the connection builder. *)
Definition with_opt_name (name : option (list byte)) (f : list byte -> conn_builder -> conn_builder)
    (b : conn_builder) : option conn_builder :=
  match name with
  | Some n => if utf8_ok n then Some (f n b) else None
  | None => Some b
  end.

(** A fresh connection has no cached crypto info yet. *)
Definition reset_info (k : he_conn_t) : he_conn_t :=
  set_outside_mtu_negotiated (outside_mtu k)
    (set_cipher_name None (set_curve_name None (set_current_protocol HE_CONNECTION_PROTOCOL_NONE k))).

Definition client_connect_locked : M he_return_code_t :=
  c ← get_client;
  match connection c with
  | Some _ => mret HE_ERR_INVALID_CONN_STATE
  | None =>
  match outside_write_cb (ssl_ctx c) with
  | None => mret HE_ERR_CONF_NOT_SET
  | Some outside =>
  match ca_cert (ssl_ctx c) with
  | None => mret HE_ERR_CONF_NOT_SET
  | Some ca =>
  match build_auth (conn c) with
  | Err code => mret code
  | Ok auth =>
  let cbs := capture outside c in
  match build_context c ca with
  | None => mret HE_ERR_SSL_ERROR
  | Some ctx =>
  match start_connect ctx (outside_mtu (conn c)) with
  | None => mret HE_ERR_SSL_ERROR
  | Some b =>
  match with_opt_name (server_dn (ssl_ctx c)) with_server_dn (with_event_cb (with_auth auth b)) with
  | None => mret HE_ERR_BAD_PARAM
  | Some b =>
  match with_opt_name (sni_hostname (conn c)) with_sni b with
  | None => mret HE_ERR_BAD_PARAM
  | Some b =>
      let b := if use_pqc (ssl_ctx c) then with_pq_crypto b else b in
      let st := mkAppState None [] None (ssl_nudge_time_cb (ssl_ctx c)) (context (conn c)) in
      '(r, st) ← interp cbs (core_connect b) st;
      match r with
      | inr _ => panic
      | inl None => mret HE_ERR_SSL_ERROR
      | inl (Some core) =>
          _ ← put_connection (Some (mkConnection core st cbs));
          _ ← modify_conn reset_info;
          c ← get_client;
          _ ← (if decide (state (conn c) = HE_STATE_CONNECTING) then mret tt
               else deliver_state HE_STATE_CONNECTING (cap_ctx cbs));
          mret HE_SUCCESS
      end
  end end end end end end end end.

Definition he_client_connect (me : Z) (client : handle) : M he_return_code_t :=
  ffi_guard HE_ERR_FAILED (r ← lock_client me client client_connect_locked; mret (either_code r)).

Definition client_disconnect_locked : M he_return_code_t :=
  c ← get_client;
  _ ← match connection c with
      | Some cn => _ ← core_call cn (core_disconnect (cn_core cn)); mret tt
      | None => mret tt
      end;
  c ← get_client;
  _ ← (if decide (state (conn c) = HE_STATE_DISCONNECTING \/ state (conn c) = HE_STATE_DISCONNECTED) then mret tt
       else
         _ ← deliver_state HE_STATE_DISCONNECTING (context (conn c));
         deliver_state HE_STATE_DISCONNECTED (context (conn c)));
  _ ← put_connection None;
  mret HE_SUCCESS.

Definition he_client_disconnect (me : Z) (client : handle) : M he_return_code_t :=
  ffi_guard HE_ERR_FAILED (r ← lock_client me client client_disconnect_locked; mret (either_code r)).

(** ** SSL-context setters *)

(** The common shape: NULL is rejected, otherwise the context is updated. *)
Definition ssl_setter (p : handle) (f : he_ssl_ctx_t -> he_ssl_ctx_t) : M he_return_code_t :=
  match p with
  | Null => mret HE_ERR_NULL_POINTER
  | Valid => _ ← modify_ssl f; mret HE_SUCCESS
  end.

Definition he_ssl_ctx_set_state_change_cb (p : handle) (cb : Z) : M he_return_code_t :=
  ssl_setter p (set_state_change_cb (Some cb)).

Definition he_ssl_ctx_set_inside_write_cb (p : handle) (cb : Z) : M he_return_code_t :=
  ssl_setter p (set_inside_write_cb (Some cb)).

Definition he_ssl_ctx_set_outside_write_cb (p : handle) (cb : Z) : M he_return_code_t :=
  ssl_setter p (set_outside_write_cb (Some cb)).

Definition he_ssl_ctx_set_network_config_ipv4_cb (p : handle) (cb : Z) : M he_return_code_t :=
  ssl_setter p (set_network_config_ipv4_cb (Some cb)).

Definition he_ssl_ctx_set_server_config_cb (p : handle) (cb : Z) : M he_return_code_t :=
  ssl_setter p (set_server_config_cb (Some cb)).

Definition he_ssl_ctx_set_nudge_time_cb (p : handle) (cb : Z) : M he_return_code_t :=
  ssl_setter p (set_ssl_nudge_time_cb (Some cb)).

Definition he_ssl_ctx_set_event_cb (p : handle) (cb : Z) : M he_return_code_t :=
  ssl_setter p (set_event_cb (Some cb)).

Definition he_ssl_ctx_set_auth_cb (p : handle) (cb : Z) : M he_return_code_t :=
  ssl_setter p (set_auth_cb (Some cb)).

Definition he_ssl_ctx_set_auth_token_cb (p : handle) (cb : Z) : M he_return_code_t :=
  ssl_setter p (set_auth_token_cb (Some cb)).

Definition he_ssl_ctx_set_auth_buf_cb (p : handle) (cb : Z) : M he_return_code_t :=
  ssl_setter p (set_auth_buf_cb (Some cb)).

Definition he_ssl_ctx_set_populate_network_config_ipv4_cb (p : handle) (cb : Z) : M he_return_code_t :=
  ssl_setter p (set_populate_network_config_ipv4_cb (Some cb)).

Definition he_ssl_ctx_set_pmtud_state_change_cb (p : handle) (cb : Z) : M he_return_code_t :=
  ssl_setter p (set_pmtud_state_change_cb (Some cb)).

Definition he_ssl_ctx_set_pmtud_time_cb (p : handle) (cb : Z) : M he_return_code_t :=
  ssl_setter p (set_pmtud_time_cb (Some cb)).

(** [ca_cert] is NULL or the readable bytes, of which [length] are copied. *)
Definition he_ssl_ctx_set_ca (p : handle) (ca : option (list byte)) (length : nat) : M he_return_code_t :=
  match p, ca with
  | Valid, Some bytes => ssl_setter p (set_ca_cert (Some (take length bytes)))
  | _, _ => mret HE_ERR_NULL_POINTER
  end.

(** A C string argument is NULL or memory holding a NUL. *)
Definition he_ssl_ctx_set_server_dn (p : handle) (dn : option (list byte)) : M he_return_code_t :=
  match p, dn with
  | Valid, Some buf =>
      if utf8_ok (c_string buf) then ssl_setter p (set_server_dn (Some (c_string buf)))
      else mret HE_ERR_BAD_PARAM
  | _, _ => mret HE_ERR_NULL_POINTER
  end.

Definition he_ssl_ctx_set_use_pqc (p : handle) (b : bool) : M he_return_code_t := ssl_setter p (set_use_pqc b).

Definition he_ssl_ctx_set_use_chacha20 (p : handle) (b : bool) : M he_return_code_t :=
  ssl_setter p (set_use_chacha20 b).

Definition he_ssl_ctx_set_connection_type (p : handle) (connection_type : Z) : M he_return_code_t :=
  match p with
  | Null => mret HE_ERR_NULL_POINTER
  | Valid =>
      if (connection_type =? 0)%Z then ssl_setter p (set_connection_type HE_CONNECTION_TYPE_DATAGRAM)
      else if (connection_type =? 1)%Z then ssl_setter p (set_connection_type HE_CONNECTION_TYPE_STREAM)
      else mret HE_ERR_BAD_PARAM
  end.

Definition he_ssl_ctx_set_enable_expresslane (p : handle) (b : bool) : M he_return_code_t :=
  ssl_setter p (set_enable_expresslane b).

Definition he_ssl_ctx_set_expresslane_cb (p : handle) (cb : Z) : M he_return_code_t :=
  ssl_setter p (set_expresslane_cb (Some cb)).

Definition he_ssl_ctx_set_expresslane_state_change_cb (p : handle) (cb : Z) : M he_return_code_t :=
  ssl_setter p (set_expresslane_state_change_cb (Some cb)).

Definition he_ssl_ctx_set_expresslane_metrics_cb (p : handle) (cb : Z) : M he_return_code_t :=
  ssl_setter p (set_expresslane_metrics_cb (Some cb)).

(** ** Connection setters and getters *)

Definition conn_setter (p : handle) (f : he_conn_t -> he_conn_t) : M he_return_code_t :=
  match p with
  | Null => mret HE_ERR_NULL_POINTER
  | Valid => _ ← modify_conn f; mret HE_SUCCESS
  end.

(** [CString::new(s.to_bytes())] stored by [set]. *)
Definition conn_set_string (p : handle) (str : option (list byte))
    (set : option (list byte) -> he_conn_t -> he_conn_t) : M he_return_code_t :=
  match p, str with
  | Valid, Some buf =>
      match cstring_new (c_string buf) with
      | Some cs => conn_setter p (set (Some cs))
      | None => mret HE_ERR_BAD_PARAM
      end
  | _, _ => mret HE_ERR_NULL_POINTER
  end.

Definition he_conn_set_username (p : handle) (s : option (list byte)) : M he_return_code_t :=
  conn_set_string p s set_username.

Definition he_conn_set_password (p : handle) (s : option (list byte)) : M he_return_code_t :=
  conn_set_string p s set_password.

Definition he_conn_set_auth_token (p : handle) (token : option (list byte)) (length : nat) : M he_return_code_t :=
  match p, token with
  | Valid, Some bytes => conn_setter p (set_auth_token (Some (take length bytes)))
  | _, _ => mret HE_ERR_NULL_POINTER
  end.

Definition he_conn_set_sni_hostname (p : handle) (s : option (list byte)) : M he_return_code_t :=
  conn_set_string p s set_sni_hostname.

Definition he_conn_set_outside_mtu (p : handle) (mtu : Z) : M he_return_code_t := conn_setter p (set_outside_mtu mtu).

Definition he_conn_set_context (p : handle) (ctx : Z) : M he_return_code_t := conn_setter p (set_context ctx).

(** The getters read one field, with a default for NULL. *)
Definition conn_getter {A} (p : handle) (default : A) (f : he_conn_t -> A) : M A :=
  match p with
  | Null => mret default
  | Valid => c ← get_client; mret (f (conn c))
  end.

Definition he_conn_get_nudge_time (p : handle) : M Z := conn_getter p 0%Z nudge_time_ms.

Definition he_conn_get_outside_mtu (p : handle) : M Z := conn_getter p 0%Z outside_mtu_negotiated.

Definition he_conn_get_effective_pmtu (p : handle) : M Z := conn_getter p 0%Z effective_pmtu.

Definition he_conn_get_current_protocol (p : handle) : M he_connection_protocol_t :=
  conn_getter p HE_CONNECTION_PROTOCOL_NONE current_protocol.

(** [None] is the null pointer. *)
Definition he_conn_get_cipher_name (p : handle) : M (option (list byte)) := conn_getter p None cipher_name.

Definition he_conn_get_curve_name (p : handle) : M (option (list byte)) := conn_getter p None curve_name.

Definition he_conn_get_session_id (me : Z) (client : handle) : M Z :=
  ffi_guard 0%Z
    (r ← lock_client me client
           (c ← get_client;
            mret match connection c with
                 | Some cn => le_value (core_session_id (cn_core cn))
                 | None => 0%Z
                 end);
     mret match r with Ok v => v | Err _ => 0%Z end).

(** ** The ExpressLane demultiplexer and framer *)

(** Out-parameters are NULL ([None]) or the current contents; the call returns
    their new contents. *)
Record identify_out : Type := mkIdentify {
  id_code : he_return_code_t;
  id_kind : option he_packet_kind_t;
  id_session : option (list byte);
  id_header_len : option nat;
}.

Definition he_conn_identify_packet (packet : option (list byte)) (len : nat) (kind : option he_packet_kind_t)
    (session_id : option (list byte)) (header_len : option nat) : identify_out :=
  match kind with
  | None => mkIdentify HE_ERR_NULL_POINTER kind session_id header_len
  | Some _ =>
      if decide (packet = None /\ 0 < len) then mkIdentify HE_ERR_NULL_POINTER kind session_id header_len
      else
        let kind := Some HE_PACKET_KIND_UNDECIDABLE in
        let session_id := (fun _ => zeros 8) <$> session_id in
        let header_len := (fun _ => 0) <$> header_len in
        if decide (len < WIRE_SIZE) then mkIdentify HE_SUCCESS kind session_id header_len
        else
          match header_try_from_wire (take WIRE_SIZE (default [] packet)) with
          | Panic => mkIdentify HE_ERR_FAILED kind session_id header_len
          | Ret None => mkIdentify HE_SUCCESS kind session_id header_len
          | Ret (Some (expresslane_data, session)) =>
              mkIdentify HE_SUCCESS
                (Some (if (expresslane_data : bool) then HE_PACKET_KIND_EXPRESSLANE else HE_PACKET_KIND_CONTROL))
                ((fun _ => session) <$> session_id) ((fun _ => WIRE_SIZE) <$> header_len)
          end
  end.

(** The code and the new contents of [out]. *)
Definition he_conn_build_expresslane_header (me : Z) (client : handle) (session_id out : option (list byte))
    : M (he_return_code_t * option (list byte)) :=
  match out, session_id, client with
  | Some o, Some sid, Valid =>
      if session_is_reserved (take 8 sid) then mret (HE_ERR_BAD_PARAM, out)
      else
        ffi_guard (HE_ERR_FAILED, out)
          (r ← lock_client me client
                 (c ← get_client;
                  mret match connection c with
                       | None => Err HE_ERR_INVALID_CONN_STATE
                       | Some cn =>
                           Ok (header_append_to_wire (core_tunnel_version (cn_core cn)) false true (take 8 sid))
                       end);
           mret match r with
                | Ok (Ok bm) =>
                    if decide (WIRE_SIZE <= length bm)
                    then (HE_SUCCESS, Some (take WIRE_SIZE bm ++ drop WIRE_SIZE o))
                    else (HE_ERR_FAILED, out)
                | Ok (Err code) => (code, out)
                | Err code => (code, out)
                end)
  | _, _, _ => mret (HE_ERR_NULL_POINTER, out)
  end.

(** ** Timers, rotation and the data path *)

(** [nudge_ms_until] of the connection's deadlines, 0 without a connection. *)
Definition remaining_ms (c : client_t) (now : Z) : Z :=
  match connection c with
  | Some cn => nudge_ms_until (earliest_tick_deadline (cn_app cn)) now
  | None => 0
  end.

(** Stores the time to the next deadline for [he_conn_get_nudge_time]. *)
Definition refresh_nudge_time : M unit :=
  now ← instant_now;
  c ← get_client;
  modify_conn (set_nudge_time_ms (remaining_ms c now)).

(** The closures run with the lock held. *)
Definition rotate_locked : M he_return_code_t :=
  c ← get_client;
  match connection c with
  | None => mret HE_ERR_INVALID_CONN_STATE
  | Some cn =>
      if decide (core_state (cn_core cn) = Online) then
        _ ← core_call cn (core_rotate_key (cn_core cn));
        _ ← refresh_nudge_time;
        mret HE_SUCCESS
      else mret HE_SUCCESS
  end.

Definition he_conn_expresslane_rotate_if_due (me : Z) (p : handle) : M he_return_code_t :=
  ffi_guard HE_ERR_FAILED
    match p with
    | Null => mret HE_ERR_NULL_POINTER
    | Valid => r ← with_client me p rotate_locked; mret (either_code r)
    end.

Definition outside_data_locked (bytes : list byte) : M he_return_code_t :=
  c ← get_client;
  match connection c with
  | None => mret HE_ERR_INVALID_CONN_STATE
  | Some cn =>
      let ct := core_connection_type (cn_core cn) in
      res ← core_call cn (core_outside_data bytes ct (cn_core cn));
      match res with
      | Ok _ => _ ← sync_conn_info; mret HE_SUCCESS
      | Err e =>
          if is_fatal e ct then _ ← fatal_disconnect; mret HE_ERR_FAILED
          else _ ← sync_conn_info; mret HE_SUCCESS
      end
  end.

Definition he_conn_outside_data_received (me : Z) (p : handle) (buffer : option (list byte)) (length : nat)
    : M he_return_code_t :=
  ffi_guard HE_ERR_FAILED
    match p, buffer with
    | Valid, Some bytes => r ← with_client me p (outside_data_locked (take length bytes)); mret (either_code r)
    | _, _ => mret HE_ERR_NULL_POINTER
    end.

Definition inside_packet_locked (bytes : list byte) : M he_return_code_t :=
  c ← get_client;
  match connection c with
  | None => mret HE_ERR_INVALID_CONN_STATE
  | Some cn =>
      res ← core_call cn (core_inside_data bytes (cn_core cn));
      _ ← sync_conn_info;
      mret match res with
           | Ok _ => HE_SUCCESS
           | Err e => if is_invalid_state e then HE_ERR_INVALID_CONN_STATE else HE_ERR_FAILED
           end
  end.

Definition he_conn_inside_packet_received (me : Z) (p : handle) (packet : option (list byte)) (length : nat)
    : M he_return_code_t :=
  ffi_guard HE_ERR_FAILED
    match p, packet with
    | Valid, Some bytes => r ← with_client me p (inside_packet_locked (take length bytes)); mret (either_code r)
    | _, _ => mret HE_ERR_NULL_POINTER
    end.

Definition handle_connection_tick_error (e : core_error) (ct : ConnectionType) : M he_return_code_t :=
  if is_timed_out e then
    _ ← modify_conn (set_nudge_time_ms 0);
    _ ← fatal_disconnect;
    mret HE_CONNECTION_TIMED_OUT
  else if is_fatal e ct then
    _ ← modify_conn (set_nudge_time_ms 0);
    _ ← fatal_disconnect;
    mret HE_ERR_FAILED
  else mret HE_ERR_FAILED.

Definition pre_online (st : State) : bool :=
  match st with Connecting | LinkUp | Authenticating => true | _ => false end.

Definition retry_connection_tick_after_error (e : core_error) (ct : ConnectionType) (st : State)
    (retry_delay : Z) (app : app_t) : M (bool * app_t) :=
  let should_retry := negb (is_fatal e ct) && pre_online st in
  if should_retry then app ← cffi_schedule_tick_cb retry_delay ConnectionTick app; mret (true, app)
  else mret (false, app).

(** [next_tick.is_some_and(|t| now >= t)]. *)
Definition should_tick (app : app_t) (now : Z) : bool :=
  match next_tick app with Some t => (t <=? now)%Z | None => false end.

(** The [ConnectionTick] part of [he_conn_nudge]: the error it failed with. *)
Definition nudge_connection_tick (cn : Connection) (now : Z) : M (option (core_error * ConnectionType)) :=
  if should_tick (cn_app cn) now then
    let retry_delay := default 1000000%Z (core_tick_interval (cn_core cn)) in
    let ct := core_connection_type (cn_core cn) in
    let cn := mkConnection (cn_core cn) (set_next_tick None (cn_app cn)) (cn_cbs cn) in
    _ ← put_connection (Some cn);
    res ← core_call cn (core_tick ConnectionTick (cn_core cn));
    match res with
    | Ok _ => mret None
    | Err e =>
        c ← get_client;
        match connection c with
        | Some cn =>
            '(_, app) ← retry_connection_tick_after_error e ct (core_state (cn_core cn)) retry_delay (cn_app cn);
            _ ← put_connection (Some (mkConnection (cn_core cn) app (cn_cbs cn)));
            mret (Some (e, ct))
        | None => mret (Some (e, ct))
        end
    end
  else mret None.

(** The loop over the due payload ticks: it stops at the first fatal error. *)
Fixpoint dispatch_due (ct : ConnectionType) (due : list (Z * tick_payload)) : M (option core_error) :=
  match due with
  | [] => mret None
  | (_, tick) :: due =>
      c ← get_client;
      match connection c with
      | None => mret None
      | Some cn =>
          res ← core_call cn (core_tick (PayloadTick tick) (cn_core cn));
          match res with
          | Ok _ => dispatch_due ct due
          | Err e => if is_fatal e ct then mret (Some e) else dispatch_due ct due
          end
      end
  end.

(** The payload part of [he_conn_nudge]. *)
Definition nudge_payload_ticks (cn : Connection) : M (option (core_error * ConnectionType)) :=
  let ct := core_connection_type (cn_core cn) in
  payload_now ← instant_now;
  let '(due, remaining) := partition_due payload_now (pending_ticks (cn_app cn)) in
  _ ← put_connection (Some (mkConnection (cn_core cn) (set_pending_ticks remaining (cn_app cn)) (cn_cbs cn)));
  fatal ← dispatch_due ct due;
  mret ((fun e => (e, ct)) <$> fatal).

Definition nudge_locked : M he_return_code_t :=
  now ← instant_now;
  c ← get_client;
  match connection c with
  | None => mret HE_ERR_INVALID_CONN_STATE
  | Some cn =>
      tick_error ← nudge_connection_tick cn now;
      match tick_error with
      | Some (e, ct) => _ ← refresh_nudge_time; handle_connection_tick_error e ct
      | None =>
          _ ← sync_conn_info;
          c ← get_client;
          match connection c with
          | None => mret HE_ERR_INVALID_CONN_STATE
          | Some cn =>
              payload_error ← nudge_payload_ticks cn;
              match payload_error with
              | Some (e, ct) => handle_connection_tick_error e ct
              | None => _ ← refresh_nudge_time; mret HE_SUCCESS
              end
          end
      end
  end.

Definition he_conn_nudge (me : Z) (p : handle) : M he_return_code_t :=
  ffi_guard HE_ERR_FAILED
    match p with
    | Null => mret HE_ERR_NULL_POINTER
    | Valid => r ← with_client me p nudge_locked; mret (either_code r)
    end.

End Client.
End Client.
