(* ===== verification/ToyCore.v ===== *)
(** * A model of the core parameter

    A small [Core] and [CEnv] on which the client operations can be evaluated:
    the core logs the payload ticks it is given, announces its state changes, and
    fails with a chosen error. *)

From stdpp Require Import base numbers list list_numbers option.
From Stdlib Require Import Strings.Byte.
From S2P Require Import Prelude ClientTypes Timer Conn Client.
Import Timer.Timer Conn.Conn.

Module ToyCore.

Inductive toy_error : Set := ToyTimeout | ToyFatal | ToySoft.

Record toy_conn : Set := mkToy {
  ty_state : State;
  ty_log : list nat;
  ty_error : option toy_error;
}.

Definition toy_result (k : toy_conn) : result unit toy_error :=
  match ty_error k with Some e => Err e | None => Ok tt end.

(** Announce a state, then return. *)
Definition toy_go (st : State) (k : toy_conn) : prog nat toy_conn (toy_conn * result unit toy_error) :=
  PEvent (StateChanged st) (PRet (mkToy st (ty_log k) (ty_error k), toy_result k)).

(** The effect of a payload tick: it is logged. *)
Definition log_tick (p : nat) (k : toy_conn) : toy_conn := mkToy (ty_state k) (ty_log k ++ [p]) (ty_error k).

Definition toy_header (agg e : bool) (s : list byte) : list byte :=
  [x48; x65; x00; if e then x01 else x00; x00; x00; x00; x00] ++ s.

Definition toy_parse (l : list byte) : outcome (option (bool * list byte)) :=
  match l with
  | x48 :: x65 :: _ :: f :: _ :: _ :: _ :: _ :: s => Ret (Some (bool_decide (f = x01), s))
  | _ => Ret None
  end.

#[global] Instance toy_env : CEnv := {|
  env_rc _ := HE_SUCCESS;
  env_sent _ := 0%Z;
  env_received _ := 0%Z;
  env_time n := (1000 * Z.of_nat n)%Z;
|}.

#[global] Instance toy_core : Core := {|
  core_conn := toy_conn;
  core_error := toy_error;
  tick_payload := nat;
  ctx_builder := unit;
  client_context := unit;
  conn_builder := unit;
  protocol_number := Z;
  is_fatal e _ := match e with ToySoft => false | _ => true end;
  is_timed_out e := match e with ToyTimeout => true | _ => false end;
  is_invalid_state _ := false;
  core_state := ty_state;
  core_connection_type _ := Datagram;
  core_tick_interval _ := None;
  core_session_id _ := replicate 8 x01;
  core_tls_version _ := DtlsV1_3;
  core_curve _ := Some [x50];
  core_cipher _ := Some [x41];
  core_tunnel_version _ := 1%Z;
  core_tick t k :=
    match t with
    | ConnectionTick => PRet (k, toy_result k)
    | PayloadTick O => PScheduleTick 50000 (PayloadTick 1) (PRet (log_tick 0 k, Ok tt))
    | PayloadTick p => PRet (log_tick p k, Ok tt)
    end;
  core_outside_data _ _ := toy_go Online;
  core_inside_data _ k := PRet (k, toy_result k);
  core_disconnect := fun k => PEvent (StateChanged Disconnecting) (toy_go Disconnected k);
  core_rotate_key k := PRet (k, Ok tt);
  context_builder_new _ _ _ := Some tt;
  with_chacha20 := Some;
  with_expresslane b := b;
  with_expresslane_cb b := b;
  with_expresslane_metrics b := b;
  context_build b := b;
  start_connect _ _ := Some tt;
  with_auth _ b := b;
  with_event_cb b := b;
  with_server_dn _ b := b;
  with_sni _ b := b;
  with_pq_crypto b := b;
  core_connect _ := PSendOutside [x16] (fun _ => PScheduleTick 5000 ConnectionTick (PRet (Some (mkToy Connecting [] None))));
  header_try_from_wire := toy_parse;
  header_append_to_wire _ := toy_header;
  session_is_reserved s := bool_decide (s = zeros 8);
  max_inside_mtu := 1350%Z;
|}.

#[global] Instance toy_header_laws : HeaderLaws.
Proof.
  split; simpl.
  - intros v agg e s Hs. unfold WIRE_SIZE. by rewrite Hs.
  - intros v agg e s Hs. by destruct e.
Qed.

(** A connection of this core. *)
Definition toy_connection (st : State) (err : option toy_error) (next : option Z) (pending : list (Z * nat))
    : Connection (@core_conn toy_core) (@tick_payload toy_core) :=
  mkConnection (mkToy st [] err : @core_conn toy_core)
    (mkAppState next (pending : list (Z * @tick_payload toy_core)) None None 0%Z)
    (mkCaptured 12 None None None None (Some 11%Z) None None 0).

(** A configured client, and one with a live connection. *)
Abbreviation toy_world := (world (@core_conn toy_core) (@tick_payload toy_core)).

Definition toy_ssl : he_ssl_ctx_t :=
  set_state_change_cb (Some 11%Z) (set_outside_write_cb (Some 12%Z) (set_ca_cert (Some [x01]) ssl_ctx_default)).

Definition toy_conf : toy_world :=
  mkWorld (mkClient (set_auth_token (Some [x61]) (conn (client_new (K := unit) (P := unit)))) toy_ssl None) [] 0.

Definition toy_live_with (st : State) (err : option toy_error) (next : option Z) (pending : list (Z * nat)) : toy_world :=
  mkWorld (mkClient (conn (w_client toy_conf)) toy_ssl (Some (toy_connection st err next pending))) [] 0.

End ToyCore.
