(* ===== verification/ClientFacts.v ===== *)
(** * Reasoning about client operations

    Preorders on worlds that every step of an operation respects, and the
    contracts of the helpers; [ClientProperties] draws on them. *)

From stdpp Require Import base numbers list list_numbers option strings sets.
From Stdlib Require Import Strings.Byte.
From S2P Require Import Prelude ClientTypes Timer Conn Client.
Import Timer.Timer Conn.Conn Client.Client.

(** ** Respecting a preorder *)

Section Respects.
Context `{CEnv} `{Core}.
Abbreviation M := (M core_conn tick_payload).
Abbreviation world := (world core_conn tick_payload).
Implicit Types (w : world) (R : relation world).

(** Whatever the outcome, the world moves along [R]. *)
Definition respects {A} (R : relation world) (m : M A) : Prop := forall w, R w (m w).2.

Section Preorder.
Context (R : relation world) `{!PreOrder R}.

Lemma respects_ret {A} (a : A) : respects R (mret a).
Proof. intros w. simpl. reflexivity. Qed.

Lemma respects_panic {A} : respects R (panic : M A).
Proof. intros w. simpl. reflexivity. Qed.

Lemma respects_bind {A B} (m : M A) (f : A -> M B) :
  respects R m -> (forall a, respects R (f a)) -> respects R (m ≫= f).
Proof.
  intros Hm Hf w. specialize (Hm w). unfold mbind, m_bind.
  destruct (m w) as [[a|] w']; [|done]. etrans; [exact Hm|apply Hf].
Qed.

(** A bind whose continuation may rely on what the first read returns. *)
Lemma respects_get {B} (f : he_client_t core_conn tick_payload -> M B) :
  (forall w, R w (f (w_client w) w).2) -> respects R (get_client ≫= f).
Proof. intros Hf w. apply Hf. Qed.

Lemma respects_guard {A} (d : A) (m : M A) : respects R m -> respects R (ffi_guard d m).
Proof. intros Hm w. specialize (Hm w). unfold ffi_guard. by destruct (m w) as [[]]. Qed.

Lemma respects_lift {A} (o : outcome A) : respects R (lift_outcome o).
Proof. destruct o; [apply respects_ret|apply respects_panic]. Qed.

(** The state a C call reports, if it is a state change. *)
Definition reported (call : c_call) : option he_conn_state_t :=
  match call with CallStateChange _ st _ => Some st | _ => None end.

(** The actions of the callback bridges, for captured callbacks that are [ok]. *)
Record core_actions (ok : Captured -> Prop) : Prop := {
  ra_call call : reported call = None -> respects R (call_c call);
  ra_time : respects R instant_now;
  ra_state cbs st : ok cbs -> respects R (event cbs (StateChanged st));
}.

Section CoreActions.
Context (ok : Captured -> Prop) (Ha : core_actions ok).

Lemma respects_call_opt cb mk : (forall f, reported (mk f) = None) -> respects R (call_opt cb mk).
Proof.
  intros Hmk. destruct cb; simpl; [|apply respects_ret].
  apply respects_bind; [by apply (ra_call _ Ha)|intros; apply respects_ret].
Qed.

Lemma respects_schedule d tick st : respects R (cffi_schedule_tick_cb d tick st).
Proof.
  apply respects_bind; [apply (ra_time _ Ha)|]. intros now. cbv zeta.
  destruct (notify_timeout now d (record_tick now d tick st)) as [[[cb ms] ctx]|]; [|apply respects_ret].
  apply respects_bind; [by apply (ra_call _ Ha)|intros; apply respects_ret].
Qed.

Lemma respects_event cbs e : ok cbs -> respects R (event cbs e).
Proof.
  intros Hok. destruct e; try apply respects_ret; try (by apply respects_call_opt). by apply (ra_state _ Ha).
Qed.

Lemma respects_get_stats cbs sid : respects R (get_stats cbs sid).
Proof.
  unfold get_stats. destruct (cap_metrics cbs) as [cb|]; [|apply respects_ret].
  intros w. apply (respects_bind (call_c (CallMetrics cb sid (cap_ctx cbs))));
    [by apply (ra_call _ Ha)|intros; apply respects_ret].
Qed.

(** Running the core respects [R] as soon as its callbacks do. *)
Lemma respects_interp {X A} cbs (p : prog tick_payload X A) : ok cbs -> forall st, respects R (interp cbs p st).
Proof.
  intros Hok. induction p as [a|r|e k IH|buf k IH|buf k IH|cfg k IH|d tick k IH|sid sk pk v k IH|sid k IH];
    intros st; simpl.
  - apply respects_ret.
  - apply respects_ret.
  - apply respects_bind; [by apply respects_event|auto].
  - apply respects_bind; [|auto]. apply respects_bind; [by apply (ra_call _ Ha)|intros; apply respects_ret].
  - apply respects_bind; [|auto]. unfold inside_send. destruct (cap_inside cbs); [|apply respects_ret].
    apply respects_bind; [by apply (ra_call _ Ha)|intros; apply respects_ret].
  - apply respects_bind; [|auto]. unfold on_ip_config. destruct (cap_ip_config cbs); [|apply respects_ret].
    apply respects_bind; [apply respects_lift|]. intros.
    apply respects_bind; [by apply (ra_call _ Ha)|intros; apply respects_ret].
  - apply respects_bind; [apply respects_schedule|auto].
  - apply respects_bind; [by apply respects_call_opt|auto].
  - apply respects_bind; [apply respects_get_stats|]. intros []. auto.
Qed.

End CoreActions.

(** The actions of the locked bodies.  [R] may rely on the captured callbacks of
    the live connection being [ok]. *)
Record client_actions (ok : Captured -> Prop) : Prop := {
  ca_core : core_actions ok;
  ca_put cn : ok (cn_cbs cn) -> respects R (put_connection (Some cn));
  ca_drop : respects R (put_connection None);
  ca_deliver st ctx : respects R (deliver_state st ctx);
  ca_nudge v : respects R (modify_conn (set_nudge_time_ms v));
  ca_sync : respects R sync_conn_info;
  ca_assume w w' :
    ((forall cn, connection (w_client w) = Some cn -> ok (cn_cbs cn)) -> R w w') -> R w w';
}.

Section ClientActions.
Context (ok : Captured -> Prop) (Ha : client_actions ok).

Lemma respects_core_call {A} cn (p : prog tick_payload core_conn (core_conn * A)) :
  ok (cn_cbs cn) -> respects R (core_call cn p).
Proof.
  intros Hok. apply respects_bind; [by apply (respects_interp _ (ca_core _ Ha))|].
  intros [[[core a]|core] st]; (apply respects_bind; [by apply (ca_put _ Ha)|intros]);
    [apply respects_ret|apply respects_panic].
Qed.

(** The shape of every body: read the client, continue on its live connection. *)
Lemma respects_on_connection {A} (none : M A) (some : Connection core_conn tick_payload -> M A) :
  respects R none -> (forall cn, ok (cn_cbs cn) -> respects R (some cn)) ->
  respects R (c ← get_client; match connection c with Some cn => some cn | None => none end).
Proof.
  intros Hn Hs. apply respects_get. intros w. apply (ca_assume _ Ha). intros Hok.
  destruct (connection (w_client w)) as [cn|]; [by apply Hs, Hok|apply Hn].
Qed.

Lemma respects_fatal_disconnect : respects R fatal_disconnect.
Proof.
  apply respects_get. intros w. case_decide; [apply (ca_drop _ Ha)|].
  apply respects_bind; [apply (ca_deliver _ Ha)|intros; apply (ca_drop _ Ha)].
Qed.

Lemma respects_refresh : respects R refresh_nudge_time.
Proof.
  apply respects_bind; [apply (ra_time _ (ca_core _ Ha))|]. intros now. apply respects_get.
  intros w. apply (ca_nudge _ Ha).
Qed.

Lemma respects_tick_error e ct : respects R (handle_connection_tick_error e ct).
Proof.
  unfold handle_connection_tick_error. destruct (is_timed_out e); [|destruct (is_fatal e ct); [|apply respects_ret]];
    (apply respects_bind; [apply (ca_nudge _ Ha)|intros]);
    (apply respects_bind; [apply respects_fatal_disconnect|intros; apply respects_ret]).
Qed.

Lemma respects_connection_tick cn now : ok (cn_cbs cn) -> respects R (nudge_connection_tick cn now).
Proof.
  intros Hok. unfold nudge_connection_tick. destruct (should_tick _ _); [|apply respects_ret]. cbv zeta.
  apply respects_bind; [by apply (ca_put _ Ha)|]. intros _.
  apply respects_bind; [by apply respects_core_call|]. intros [|e]; [apply respects_ret|].
  apply respects_on_connection; [apply respects_ret|]. intros cn' Hok'.
  apply respects_bind.
  - unfold retry_connection_tick_after_error. destruct (negb _ && _); [|apply respects_ret].
    apply respects_bind; [apply (respects_schedule _ (ca_core _ Ha))|intros; apply respects_ret].
  - intros [_ app]. apply respects_bind; [by apply (ca_put _ Ha)|intros; apply respects_ret].
Qed.

Lemma respects_dispatch ct due : respects R (dispatch_due ct due).
Proof.
  induction due as [|[t tick] due IH]; simpl; [apply respects_ret|].
  apply respects_on_connection; [apply respects_ret|]. intros cn Hok.
  apply respects_bind; [by apply respects_core_call|]. intros [|e]; [done|].
  destruct (is_fatal e ct); [apply respects_ret|done].
Qed.

Lemma respects_payload_ticks cn : ok (cn_cbs cn) -> respects R (nudge_payload_ticks cn).
Proof.
  intros Hok. unfold nudge_payload_ticks. apply respects_bind; [apply (ra_time _ (ca_core _ Ha))|]. intros now.
  unfold partition_due. apply respects_bind; [by apply (ca_put _ Ha)|]. intros _.
  apply respects_bind; [apply respects_dispatch|intros; apply respects_ret].
Qed.

Lemma respects_nudge : respects R nudge_locked.
Proof.
  apply respects_bind; [apply (ra_time _ (ca_core _ Ha))|]. intros now.
  apply respects_on_connection; [apply respects_ret|]. intros cn Hok.
  apply respects_bind; [by apply respects_connection_tick|]. intros [[e ct]|].
  { apply respects_bind; [apply respects_refresh|intros; apply respects_tick_error]. }
  apply respects_bind; [apply (ca_sync _ Ha)|]. intros _.
  apply respects_on_connection; [apply respects_ret|]. intros cn' Hok'.
  apply respects_bind; [by apply respects_payload_ticks|]. intros [[e ct]|]; [apply respects_tick_error|].
  apply respects_bind; [apply respects_refresh|intros; apply respects_ret].
Qed.

Lemma respects_rotate : respects R rotate_locked.
Proof.
  apply respects_on_connection; [apply respects_ret|]. intros cn Hok. case_decide; [|apply respects_ret].
  apply respects_bind; [by apply respects_core_call|]. intros _.
  apply respects_bind; [apply respects_refresh|intros; apply respects_ret].
Qed.

Lemma respects_outside bytes : respects R (outside_data_locked bytes).
Proof.
  apply respects_on_connection; [apply respects_ret|]. intros cn Hok. cbv zeta.
  apply respects_bind; [by apply respects_core_call|]. intros [|e].
  - apply respects_bind; [apply (ca_sync _ Ha)|intros; apply respects_ret].
  - destruct (is_fatal e _);
      (apply respects_bind; [first [apply respects_fatal_disconnect|apply (ca_sync _ Ha)]|intros; apply respects_ret]).
Qed.

Lemma respects_inside bytes : respects R (inside_packet_locked bytes).
Proof.
  apply respects_on_connection; [apply respects_ret|]. intros cn Hok.
  apply respects_bind; [by apply respects_core_call|]. intros res.
  apply respects_bind; [apply (ca_sync _ Ha)|intros; apply respects_ret].
Qed.

Lemma respects_disconnect : respects R client_disconnect_locked.
Proof.
  apply respects_get. intros w. apply (ca_assume _ Ha). intros Hok.
  apply (respects_bind (match connection (w_client w) with Some _ => _ | None => _ end)).
  { destruct (connection (w_client w)) as [cn|]; [|apply respects_ret].
    apply respects_bind; [by apply respects_core_call, Hok|intros; apply respects_ret]. }
  intros _. apply respects_get. intros w'.
  apply (respects_bind (if decide _ then _ else _)).
  - case_decide; [apply respects_ret|]. apply respects_bind; [apply (ca_deliver _ Ha)|intros; apply (ca_deliver _ Ha)].
  - intros _. apply respects_bind; [apply (ca_drop _ Ha)|intros; apply respects_ret].
Qed.

(** [client_connect_locked] also captures fresh callbacks and resets the info. *)
Lemma respects_connect :
  (forall w w', ((forall outside, ok (capture outside (w_client w))) -> R w w') -> R w w') ->
  respects R (modify_conn reset_info) ->
  respects R client_connect_locked.
Proof.
  intros Hassume Hreset. apply respects_get. intros w. apply Hassume. intros Hcap.
  destruct (connection (w_client w)); [apply respects_ret|].
  destruct (outside_write_cb _) as [outside|]; [|apply respects_ret].
  destruct (ca_cert _); [|apply respects_ret]. destruct (build_auth _); [|apply respects_ret].
  destruct (build_context _ _); [|apply respects_ret]. destruct (start_connect _ _); [|apply respects_ret].
  destruct (with_opt_name (server_dn _) _ _); [|apply respects_ret].
  destruct (with_opt_name (sni_hostname _) _ _) as [b|]; [|apply respects_ret]. cbv zeta.
  apply respects_bind; [by apply (respects_interp _ (ca_core _ Ha))|].
  intros [[[core|]|[]] st]; [|apply respects_ret|apply respects_panic].
  apply respects_bind; [apply (ca_put _ Ha), Hcap|]. intros _.
  apply respects_bind; [done|]. intros _. apply respects_get. intros w'.
  apply (respects_bind (if decide _ then _ else _)); [|intros; apply respects_ret].
  case_decide; [apply respects_ret|apply (ca_deliver _ Ha)].
Qed.

End ClientActions.
End Preorder.
End Respects.

(** ** Relations between worlds *)

Section Relations.
Context `{CEnv} `{Core}.
Abbreviation world := (world core_conn tick_payload).
Implicit Types (w : world).

(** What no locked body changes: lock owner, back-pointer, settings and
    credentials. *)
Definition config_of (k : he_conn_t) :=
  (client_ptr k, lock_owner k, username k, password k, auth_token k, sni_hostname k, outside_mtu k,
   (context k, effective_pmtu k)).

Definition frame w w' : Prop :=
  config_of (conn (w_client w')) = config_of (conn (w_client w)) /\
  ssl_ctx (w_client w') = ssl_ctx (w_client w).

#[global] Instance frame_preorder : PreOrder frame.
Proof.
  split; [done|]. intros w1 w2 w3 [H1 H2] [H3 H4]. split; congruence.
Qed.

Lemma frame_modify f :
  (forall k, config_of (f k) = config_of k) -> respects frame (modify_conn f).
Proof. intros Hf w. split; [apply Hf|done]. Qed.

Lemma frame_call_opt cb mk : respects frame (call_opt cb mk).
Proof. intros w. by destruct cb. Qed.

Lemma frame_sync : respects frame sync_conn_info.
Proof.
  apply (respects_get frame). intros w. destruct (connection (w_client w)); [|done].
  apply (respects_bind frame); [apply frame_modify; intros; by case_decide|]. intros _.
  apply (respects_bind frame); apply frame_modify || intros _; [intros k; by destruct (curve_name k)|].
  apply frame_modify. intros k. by destruct (cipher_name k).
Qed.

Lemma frame_actions : client_actions frame (fun _ => True).
Proof.
  split.
  - split; try done. intros cbs st _. apply (respects_bind frame); [by apply frame_modify|].
    intros _. apply frame_call_opt.
  - done.
  - done.
  - intros st ctx. apply (respects_bind frame); [by apply frame_modify|]. intros _.
    apply (respects_get frame). intros w. apply frame_call_opt.
  - intros v. by apply frame_modify.
  - apply frame_sync.
  - intros w w' Hr. by apply Hr.
Qed.

(** The cached state follows the state changes delivered to C. *)
Definition last_reported (st : he_conn_state_t) (calls : list c_call) : he_conn_state_t :=
  default st (last (omap reported calls)).

Definition notifying w : Prop :=
  is_Some (state_change_cb (ssl_ctx (w_client w))) /\
  forall cn, connection (w_client w) = Some cn -> is_Some (cap_state_change (cn_cbs cn)).

Definition delivered w w' : Prop :=
  notifying w -> notifying w' /\
  exists new, w_trace w' = w_trace w ++ new /\
    state (conn (w_client w')) = last_reported (state (conn (w_client w))) new.

Lemma last_reported_app st a b : last_reported st (a ++ b) = last_reported (last_reported st a) b.
Proof.
  unfold last_reported. rewrite omap_app, last_app. by destruct (last (omap reported b)).
Qed.

#[global] Instance delivered_preorder : PreOrder delivered.
Proof.
  split.
  - intros w Hn. split; [done|]. exists []. by rewrite app_nil_r.
  - intros w1 w2 w3 H12 H23 Hn. destruct (H12 Hn) as (Hn2 & a & Ha & Hsa).
    destruct (H23 Hn2) as (Hn3 & b & Hb & Hsb). split; [done|]. exists (a ++ b).
    rewrite Hb, Ha, app_assoc. split; [done|]. by rewrite last_reported_app, <- Hsa.
Qed.

(** A change of the connection object that leaves the state alone. *)
Lemma delivered_modify f : (forall k, state (f k) = state k) -> respects delivered (modify_conn f).
Proof. intros Hf w Hn. split; [done|]. exists []. rewrite app_nil_r. split; [done|apply Hf]. Qed.

(** Setting the state and telling a registered callback. *)
Lemma delivered_set_state st cb ctx :
  respects delivered (_ ← modify_conn (set_state st); call_opt (Some cb) (fun cb => CallStateChange cb st ctx)).
Proof. intros w Hn. split; [done|]. by exists [CallStateChange cb st ctx]. Qed.

Lemma delivered_sync : respects delivered sync_conn_info.
Proof.
  apply (respects_get delivered). intros w. destruct (connection (w_client w)); [|by apply (respects_ret delivered)].
  apply (respects_bind delivered); [apply delivered_modify; intros; by case_decide|]. intros _.
  apply (respects_bind delivered); apply delivered_modify || intros _; [intros k; by destruct (curve_name k)|].
  apply delivered_modify. intros k. by destruct (cipher_name k).
Qed.

Lemma delivered_actions : client_actions delivered (fun cbs => is_Some (cap_state_change cbs)).
Proof.
  split.
  - split.
    + intros call Hrep w Hn. split; [done|]. exists [call]. split; [done|]. unfold last_reported. simpl. by rewrite Hrep.
    + intros w Hn. split; [done|]. exists []. by rewrite app_nil_r.
    + intros cbs st [cb Hcb]. unfold event. rewrite Hcb. apply delivered_set_state.
  - intros cn Hcn w [Hn1 Hn2]. split; [split; [done|]; by intros cn' [= <-]|]. exists []. by rewrite app_nil_r.
  - intros w [Hn1 Hn2]. split; [by split|]. exists []. by rewrite app_nil_r.
  - intros st ctx w Hn. destruct (Hn) as [[cb Hcb] _].
    assert (Heq : deliver_state st ctx w =
      (_ ← modify_conn (set_state st); call_opt (Some cb) (fun cb => CallStateChange cb st ctx)) w).
    { unfold deliver_state, mbind, m_bind. simpl. by rewrite Hcb. }
    rewrite Heq. by apply delivered_set_state.
  - intros v. by apply delivered_modify.
  - apply delivered_sync.
  - intros w w' Hr Hn. apply Hr; [apply Hn|done].
Qed.

(** Negotiated crypto info is written once. *)
Definition write_once w w' : Prop :=
  let k := conn (w_client w) in let k' := conn (w_client w') in
  (current_protocol k <> HE_CONNECTION_PROTOCOL_NONE -> current_protocol k' = current_protocol k) /\
  (is_Some (curve_name k) -> curve_name k' = curve_name k) /\
  (is_Some (cipher_name k) -> cipher_name k' = cipher_name k).

#[global] Instance write_once_preorder : PreOrder write_once.
Proof.
  split; [done|]. intros w1 w2 w3 (A1 & A2 & A3) (B1 & B2 & B3). split_and!.
  - intros Hn. rewrite B1, A1; [done|done|by rewrite A1].
  - intros Hn. rewrite B2, A2; [done|done|by rewrite A2].
  - intros Hn. rewrite B3, A3; [done|done|by rewrite A3].
Qed.

Lemma write_once_modify f :
  (forall k, (current_protocol k <> HE_CONNECTION_PROTOCOL_NONE -> current_protocol (f k) = current_protocol k) /\
     (is_Some (curve_name k) -> curve_name (f k) = curve_name k) /\
     (is_Some (cipher_name k) -> cipher_name (f k) = cipher_name k)) ->
  respects write_once (modify_conn f).
Proof. intros Hf w. apply Hf. Qed.

Lemma write_once_call_opt cb mk : respects write_once (call_opt cb mk).
Proof. intros w. by destruct cb. Qed.

Lemma write_once_sync : respects write_once sync_conn_info.
Proof.
  apply (respects_get write_once). intros w. destruct (connection (w_client w)); [|done].
  apply (respects_bind write_once); [apply write_once_modify; intros; by case_decide|]. intros _.
  apply (respects_bind write_once); apply write_once_modify || intros _.
  - intros k. destruct (curve_name k) eqn:Hk; split_and!; done.
  - apply write_once_modify. intros k.
    destruct (cipher_name k) eqn:Hk; split_and!; done.
Qed.

Lemma write_once_actions : client_actions write_once (fun _ => True).
Proof.
  split.
  - split; try done. intros cbs st _. apply (respects_bind write_once); [by apply write_once_modify|].
    intros _. apply write_once_call_opt.
  - done.
  - done.
  - intros st ctx. apply (respects_bind write_once); [by apply write_once_modify|]. intros _.
    apply (respects_get write_once). intros w. apply write_once_call_opt.
  - intros v. by apply write_once_modify.
  - apply write_once_sync.
  - intros w w' Hr. by apply Hr.
Qed.

End Relations.
