(* ===== verification/ClientProperties.v ===== *)
(** * What the client interface guarantees

    The locking calls of [Client] as one family ([api]); panic containment and
    the lock, re-entrancy, delivery of state changes, configuration and connect,
    teardown, timers, and the ExpressLane header. *)

From stdpp Require Import base numbers list list_numbers option strings sets.
From Stdlib Require Import Strings.Byte.
From S2P Require Import Prelude ClientTypes Timer Conn Client ToyCore ClientFacts.
Import Timer.Timer Timer.TimerFacts Conn.Conn Client.Client.

Ltac Zify.zify_post_hook ::= Z.div_mod_to_equations.

(** ** The locking calls *)

Module ClientApi.

Inductive api_call : Type :=
| AConnect
| ADisconnect
| ANudge
| ARotate
| AOutside (packet : list byte)
| AInside (packet : list byte).

Section ClientApi.
Context `{CEnv} `{Core}.
Abbreviation M := (M core_conn tick_payload).
Abbreviation world := (world core_conn tick_payload).
Implicit Types (w : world) (a : api_call).

Definition api (me : Z) (a : api_call) : M he_return_code_t :=
  match a with
  | AConnect => he_client_connect me Valid
  | ADisconnect => he_client_disconnect me Valid
  | ANudge => he_conn_nudge me Valid
  | ARotate => he_conn_expresslane_rotate_if_due me Valid
  | AOutside packet => he_conn_outside_data_received me Valid (Some packet) (length packet)
  | AInside packet => he_conn_inside_packet_received me Valid (Some packet) (length packet)
  end.

(** What a call does once it holds the lock. *)
Definition body (a : api_call) : M he_return_code_t :=
  match a with
  | AConnect => client_connect_locked
  | ADisconnect => client_disconnect_locked
  | ANudge => nudge_locked
  | ARotate => rotate_locked
  | AOutside packet => outside_data_locked packet
  | AInside packet => inside_packet_locked packet
  end.

Fixpoint run_calls (me : Z) (calls : list api_call) : M (list he_return_code_t) :=
  match calls with
  | [] => mret []
  | a :: calls => code ← api me a; codes ← run_calls me calls; mret (code :: codes)
  end.

Definition owner w : Z := lock_owner (conn (w_client w)).
Definition own (v : Z) w : world := (modify_conn (set_lock_owner v) w).2.
Definition live w : option (Connection core_conn tick_payload) := connection (w_client w).
Definition c_state w : he_conn_state_t := state (conn (w_client w)).

(** The code a finished body reports. *)
Definition code_or_failed (o : outcome he_return_code_t) : he_return_code_t :=
  match o with Ret code => code | Panic => HE_ERR_FAILED end.

End ClientApi.
End ClientApi.
Import ClientApi.

Section ApiFacts.
Context `{CEnv} `{Core}.
Abbreviation M := (M core_conn tick_payload).
Abbreviation world := (world core_conn tick_payload).
Implicit Types (w : world) (a : api_call).

Lemma lock_client_run {R} me (f : M R) w :
  owner w <> me ->
  lock_client me Valid f w =
    match f (own me w) with (Ret r, w') => (Ret (Ok r), own 0 w') | (Panic, w') => (Panic, own 0 w') end.
Proof. intros Hne. unfold lock_client, mbind, m_bind. simpl. by rewrite decide_False. Qed.

Lemma lock_client_reentrant {R} me (f : M R) w :
  owner w = me -> lock_client me Valid f w = (Ret (Err HE_ERR_INVALID_CONN_STATE), w).
Proof. intros Heq. unfold lock_client, mbind, m_bind. simpl. by rewrite decide_True. Qed.

Lemma with_client_lock {R} me (f : M R) w :
  client_ptr (conn (w_client w)) = Valid -> with_client me Valid f w = lock_client me Valid f w.
Proof. intros Hp. unfold with_client, mbind at 1, m_bind at 1. simpl. by rewrite Hp. Qed.

(** Every call is its body between taking and releasing the lock. *)
Lemma api_lock me a w :
  client_ptr (conn (w_client w)) = Valid ->
  api me a w = ffi_guard HE_ERR_FAILED (r ← lock_client me Valid (body a); mret (either_code r)) w.
Proof.
  intros Hp. destruct a; simpl; try done;
    unfold he_conn_nudge, he_conn_expresslane_rotate_if_due, he_conn_outside_data_received,
      he_conn_inside_packet_received, ffi_guard; unfold mbind at 1, m_bind at 1;
    rewrite ?with_client_lock by done; by rewrite ?firstn_all.
Qed.

Lemma api_run me a w :
  client_ptr (conn (w_client w)) = Valid -> owner w <> me ->
  api me a w = (Ret (code_or_failed (body a (own me w)).1), own 0 (body a (own me w)).2).
Proof.
  intros Hp Hne. rewrite api_lock by done. unfold ffi_guard, mbind, m_bind. rewrite lock_client_run by done.
  by destruct (body a (own me w)) as [[]].
Qed.

Lemma api_reentrant me a w :
  client_ptr (conn (w_client w)) = Valid -> owner w = me -> api me a w = (Ret HE_ERR_INVALID_CONN_STATE, w).
Proof.
  intros Hp Heq. rewrite api_lock by done. unfold ffi_guard, mbind, m_bind. by rewrite lock_client_reentrant.
Qed.

(** The bodies respect whatever their actions respect. *)
Lemma body_respects (R : relation world) `{!PreOrder R} (ok : Captured -> Prop) a :
  client_actions R ok ->
  (a = AConnect ->
     (forall w w', ((forall outside, ok (capture outside (w_client w))) -> R w w') -> R w w') /\
     respects R (modify_conn reset_info)) ->
  respects R (body a).
Proof.
  intros Ha Hc. destruct a; simpl.
  - destruct (Hc eq_refl). by eapply respects_connect.
  - by eapply respects_disconnect.
  - by eapply respects_nudge.
  - by eapply respects_rotate.
  - by eapply respects_outside.
  - by eapply respects_inside.
Qed.

Lemma body_frame a : respects frame (body a).
Proof.
  apply (body_respects frame (fun _ => True)); [apply frame_actions|].
  intros _. split; [auto|]. by apply frame_modify.
Qed.

Lemma body_delivered a : respects delivered (body a).
Proof.
  apply (body_respects delivered (fun cbs => is_Some (cap_state_change cbs))); [apply delivered_actions|].
  intros _. split; [|by apply delivered_modify]. intros w w' Hr Hn. apply Hr; [|done]. intros outside. apply Hn.
Qed.

(** The frame of a whole call, from an unlocked client. *)
Lemma api_frame me a w :
  client_ptr (conn (w_client w)) = Valid -> owner w = 0%Z -> me <> 0%Z -> frame w (api me a w).2.
Proof.
  intros Hp Ho Hme. unfold owner in Ho. rewrite api_run by (unfold owner; congruence). cbn [snd].
  destruct (body_frame a (own me w)) as [Hc Hs]. unfold frame, config_of, own in *. simpl in *.
  simplify_eq. split; congruence.
Qed.

Lemma api_delivered me a w :
  client_ptr (conn (w_client w)) = Valid -> owner w <> me -> delivered w (api me a w).2.
Proof.
  intros Hp Hne. rewrite api_run by done. cbn [snd].
  etrans; [by apply (delivered_modify (set_lock_owner me))|].
  etrans; [apply (body_delivered a)|]. by apply (delivered_modify (set_lock_owner 0)).
Qed.

End ApiFacts.

(** ** Contracts of the helpers *)

Section Helpers.
Context `{CEnv} `{Core}.
Abbreviation M := (M core_conn tick_payload).
Abbreviation world := (world core_conn tick_payload).
Implicit Types (w : world) (a : api_call).

(** The core's callbacks never replace the connection. *)
Definition same_live w w' : Prop := live w' = live w.

#[global] Instance same_live_preorder : PreOrder same_live.
Proof. split; [done|]. intros w1 w2 w3 H12 H23. unfold same_live in *. congruence. Qed.

Lemma same_live_actions : core_actions same_live (fun _ => True).
Proof.
  split; try done. intros cbs st _ w. unfold event. simpl. by destruct (cap_state_change cbs).
Qed.

Lemma interp_same_live {X A} cbs (p : prog tick_payload X A) st w : live (interp cbs p st w).2 = live w.
Proof. by apply (respects_interp same_live _ same_live_actions cbs p I st w). Qed.

(** Telling C about a state, through the callback and context of [w]. *)
Definition announce (st : he_conn_state_t) w : list c_call :=
  option_list ((fun cb => CallStateChange cb st (context (conn (w_client w)))) <$> state_change_cb (ssl_ctx (w_client w))).

(** The connection is gone, and C knows. *)
Definition torn_down w w' : Prop :=
  live w' = None /\ c_state w' = HE_STATE_DISCONNECTED /\
  w_trace w' = w_trace w ++
    (if decide (c_state w = HE_STATE_DISCONNECTED) then [] else announce HE_STATE_DISCONNECTED w).

(** Only the cached connection info changes. *)
Definition stays w w' : Prop :=
  live w' = live w /\ c_state w' = c_state w /\ w_trace w' = w_trace w /\
  nudge_time_ms (conn (w_client w')) = nudge_time_ms (conn (w_client w)).

Lemma fatal_disconnect_run w :
  exists w', fatal_disconnect w = (Ret tt, w') /\ torn_down w w' /\
    nudge_time_ms (conn (w_client w')) = nudge_time_ms (conn (w_client w)).
Proof.
  unfold fatal_disconnect, torn_down, announce. unfold mbind at 1, m_bind at 1. simpl. unfold c_state.
  destruct (decide (state (conn (w_client w)) = HE_STATE_DISCONNECTED)) as [Hd|Hd].
  - eexists. split; [done|]. simpl. rewrite app_nil_r. done.
  - unfold deliver_state, mbind, m_bind. simpl. destruct (state_change_cb _) as [cb|]; simpl;
      (eexists; split; [done|]); simpl; rewrite ?app_nil_r; done.
Qed.

(** The code of a failed tick. *)
Definition tick_error_code (e : core_error) : he_return_code_t :=
  if is_timed_out e then HE_CONNECTION_TIMED_OUT else HE_ERR_FAILED.

Lemma tick_error_run e ct w :
  exists w', handle_connection_tick_error e ct w = (Ret (tick_error_code e), w') /\
    (is_timed_out e = true \/ is_fatal e ct = true -> torn_down w w' /\ nudge_time_ms (conn (w_client w')) = 0%Z) /\
    (is_timed_out e = false -> is_fatal e ct = false -> w' = w).
Proof.
  unfold handle_connection_tick_error, tick_error_code.
  destruct (is_timed_out e) eqn:Ht; [|destruct (is_fatal e ct) eqn:Hf].
  - unfold mbind, m_bind. simpl. edestruct fatal_disconnect_run as (w' & -> & Hd & Hn). exists w'. by split_and!.
  - unfold mbind, m_bind. simpl. edestruct fatal_disconnect_run as (w' & -> & Hd & Hn). exists w'. by split_and!.
  - exists w. split_and!; try done. by intros [|].
Qed.

Lemma own_client v w :
  w_client (own v w) = mkClient (set_lock_owner v (conn (w_client w))) (ssl_ctx (w_client w)) (connection (w_client w)).
Proof. done. Qed.

Lemma own_release me w : owner w = 0%Z -> own 0 (own me w) = w.
Proof.
  destruct w as [[k sc l] tr n]. unfold owner, own, mbind, m_bind. simpl. intros Ho. destruct k. simpl in *. by subst.
Qed.

Lemma connect_live cn w : live w = Some cn -> client_connect_locked w = (Ret HE_ERR_INVALID_CONN_STATE, w).
Proof.
  intros Hl. unfold live in Hl. unfold client_connect_locked. unfold mbind at 1, m_bind at 1. simpl. by rewrite Hl.
Qed.

(** Which configurations [client_connect_locked] reports as incomplete. *)
Lemma build_auth_conf k :
  build_auth k = Err HE_ERR_CONF_NOT_SET <->
  bool_decide (is_Some (username k)) && bool_decide (is_Some (password k)) = false /\ auth_token k = None.
Proof.
  unfold build_auth.
  destruct (username k) as [u|], (password k) as [pw|], (auth_token k) as [t|]; simpl;
    repeat case_match; split; try done; try (by intros [? ?]); tauto.
Qed.

Definition incomplete (c : he_client_t core_conn tick_payload) : Prop :=
  outside_write_cb (ssl_ctx c) = None \/ ca_cert (ssl_ctx c) = None \/
  build_auth (conn c) = Err HE_ERR_CONF_NOT_SET.

(** What [client_connect_locked] can report on a client without a connection. *)
Lemma connect_cases w :
  live w = None ->
  let '(r, w') := client_connect_locked w in
  (incomplete (w_client w) /\ r = Ret HE_ERR_CONF_NOT_SET /\ w' = w) \/
  (~ incomplete (w_client w) /\ live w' = None /\
     (r = Panic \/ r = Ret HE_ERR_BAD_PARAM \/ r = Ret HE_ERR_SSL_ERROR)) \/
  (~ incomplete (w_client w) /\ r = Ret HE_SUCCESS /\ c_state w' = HE_STATE_CONNECTING /\
     (exists cn, live w' = Some cn /\ exists outside, outside_write_cb (ssl_ctx (w_client w)) = Some outside /\
        cn_cbs cn = capture outside (w_client w)) /\
     current_protocol (conn (w_client w')) = HE_CONNECTION_PROTOCOL_NONE /\
     curve_name (conn (w_client w')) = None /\ cipher_name (conn (w_client w')) = None /\
     outside_mtu_negotiated (conn (w_client w')) = outside_mtu (conn (w_client w'))).
Proof.
  intros Hl. unfold live in Hl. destruct (client_connect_locked w) as [r w'] eqn:Hrun.
  unfold client_connect_locked in Hrun. unfold mbind at 1, m_bind at 1 in Hrun. simpl in Hrun. rewrite Hl in Hrun.
  unfold incomplete. destruct (outside_write_cb _) as [outside|]; [|left; injection Hrun as <- <-; by auto].
  destruct (ca_cert _) as [ca|]; [|left; injection Hrun as <- <-; by auto].
  destruct (build_auth _) as [auth|code] eqn:Hauth.
  2: { destruct (decide (code = HE_ERR_CONF_NOT_SET)) as [->|Hne]; [left; injection Hrun as <- <-; by auto|right; left].
       assert (code = HE_ERR_BAD_PARAM) as ->.
       { unfold build_auth in Hauth. repeat case_match; by simplify_eq. }
       injection Hrun as <- <-. split; [|by auto]. intros [?|[?|?]]; congruence. }
  right. assert (Hi : ~ (Some outside = None \/ Some ca = None \/ Ok auth = Err HE_ERR_CONF_NOT_SET))
    by (intros [?|[?|?]]; congruence).
  destruct (build_context _ _) as [ctx|]; [|left; injection Hrun as <- <-; auto 10].
  destruct (start_connect _ _) as [b|]; [|left; injection Hrun as <- <-; auto 10].
  destruct (with_opt_name (server_dn _) _ _) as [b'|]; [|left; injection Hrun as <- <-; auto 10].
  destruct (with_opt_name (sni_hostname _) _ _) as [b''|]; [|left; injection Hrun as <- <-; auto 10].
  cbv zeta in Hrun. unfold mbind at 1, m_bind at 1 in Hrun.
  match type of Hrun with context [interp ?cbs ?p ?st w] => pose proof (interp_same_live cbs p st w) as Hsame;
    destruct (interp cbs p st w) as [[[r0 st']|] w1] end; simpl in Hsame.
  2: { left. injection Hrun as <- <-. unfold live in *. split; [done|]. split; [congruence|auto]. }
  destruct r0 as [[core|]|[]].
  - right. unfold mbind, m_bind in Hrun. simpl in Hrun. case_decide as Hst.
    + injection Hrun as <- <-. split_and!; try done. eexists. split; [done|]. by exists outside.
    + unfold deliver_state, mbind, m_bind in Hrun. simpl in Hrun.
      destruct (state_change_cb _); injection Hrun as <- <-; split_and!; try done; eexists; (split; [done|]); by exists outside.
  - left. injection Hrun as <- <-. unfold live in *. split; [done|]. split; [congruence|auto].
  - left. injection Hrun as <- <-. unfold live in *. split; [done|]. split; [congruence|auto].
Qed.

Lemma connect_conf_iff me w :
  client_ptr (conn (w_client w)) = Valid -> owner w <> me -> live w = None ->
  (api me AConnect w).1 = Ret HE_ERR_CONF_NOT_SET <-> incomplete (w_client w).
Proof.
  intros Hp Hne Hl. rewrite api_run by done. cbn [fst body].
  pose proof (connect_cases (own me w) Hl) as Hc. destruct (client_connect_locked (own me w)) as [r w'].
  change (incomplete (w_client (own me w))) with (incomplete (w_client w)) in Hc. simpl.
  destruct Hc as [(? & -> & _)|[(? & _ & [->|[->| ->]])|(? & -> & _)]]; split; intros; done.
Qed.

Lemma run_bind {A B} (m : M A) (f : A -> M B) w (x : A) w' : m w = (Ret x, w') -> (m ≫= f) w = f x w'.
Proof. intros Hm. unfold mbind, m_bind. by rewrite Hm. Qed.

Lemma run_now {B} (f : Z -> M B) w :
  (instant_now ≫= f) w = f (env_time (w_reads w)) (mkWorld (w_client w) (w_trace w) (S (w_reads w))).
Proof. done. Qed.

Lemma run_get {B} (f : he_client_t core_conn tick_payload -> M B) w : (get_client ≫= f) w = f (w_client w) w.
Proof. done. Qed.

Lemma run_ret {A B} (x : A) (f : A -> M B) w : (mret x ≫= f) w = f x w.
Proof. done. Qed.

Lemma run_put {B} cn (f : unit -> M B) w :
  (put_connection cn ≫= f) w =
    f tt (mkWorld (mkClient (conn (w_client w)) (ssl_ctx (w_client w)) cn) (w_trace w) (w_reads w)).
Proof. done. Qed.

(** The world with another connection. *)
Definition with_live (cn : Connection core_conn tick_payload) w : world := (put_connection (Some cn) w).2.

(** Replacing the info fields only. *)
Lemma sync_run w :
  exists k, sync_conn_info w = (Ret tt, mkWorld (mkClient k (ssl_ctx (w_client w)) (live w)) (w_trace w) (w_reads w)).
Proof.
  unfold sync_conn_info, live, mbind, m_bind. simpl. destruct w as [[k sc [cn|]] tr n]; simpl; by eexists.
Qed.

(** [should_tick] is exactly "scheduled and due". *)
Lemma is_due (app : CffiAppState tick_payload InsideIpConfig) now :
  (exists t, next_tick app = Some t /\ (t <= now)%Z) -> should_tick app now = true.
Proof. intros (t & Ht & Hle). unfold should_tick. rewrite Ht. by apply Z.leb_le. Qed.

Lemma not_due (app : CffiAppState tick_payload InsideIpConfig) now :
  (forall t, next_tick app = Some t -> (now < t)%Z) -> should_tick app now = false.
Proof. unfold should_tick. destruct (next_tick app) as [t|]; [|done]. intros Ht. apply Z.leb_gt. by apply Ht. Qed.

Lemma sync_stays w : exists w', sync_conn_info w = (Ret tt, w') /\ stays w w'.
Proof.
  unfold sync_conn_info, stays, live, c_state, mbind, m_bind. destruct w as [[k sc [cn|]] tr n]; simpl; [|by eexists].
  eexists. split; [done|]. simpl. split_and!; try done; repeat case_match; done.
Qed.

(** The wire path, on the core's verdict. *)
Lemma outside_data_run w cn packet res w1 :
  live w = Some cn -> let ct := core_connection_type (cn_core cn) in
  core_call cn (core_outside_data packet ct (cn_core cn)) w = (Ret res, w1) ->
  exists w', match res with
  | Err e =>
      if is_fatal e ct then outside_data_locked packet w = (Ret HE_ERR_FAILED, w') /\ torn_down w1 w'
      else outside_data_locked packet w = (Ret HE_SUCCESS, w') /\ stays w1 w'
  | Ok _ => outside_data_locked packet w = (Ret HE_SUCCESS, w') /\ stays w1 w'
  end.
Proof.
  intros Hl ct Hcall. unfold outside_data_locked. unfold live in Hl. destruct (sync_stays w1) as (w2 & Hs & Hst).
  destruct (fatal_disconnect_run w1) as (w3 & Hf & Hd & _).
  destruct res as [u|e]; [|fold ct; destruct (is_fatal e ct) eqn:He]; [exists w2|exists w3|exists w2];
    (split; [|done]); rewrite run_get, Hl; cbv zeta; fold ct; rewrite (run_bind _ _ _ _ _ Hcall).
  - by rewrite (run_bind _ _ _ _ _ Hs).
  - by rewrite He, (run_bind _ _ _ _ _ Hf).
  - by rewrite He, (run_bind _ _ _ _ _ Hs).
Qed.

(** A failed connection tick, up to its error: the retry may tell C the time. *)
Lemma connection_tick_fails w cn now e w2 :
  let cn1 := mkConnection (cn_core cn) (set_next_tick None (cn_app cn)) (cn_cbs cn) in
  should_tick (cn_app cn) now = true ->
  core_call cn1 (core_tick ConnectionTick (cn_core cn)) (with_live cn1 w) = (Ret (Err e), w2) ->
  let ct := core_connection_type (cn_core cn) in
  exists w3 l, nudge_connection_tick cn now w = (Ret (Some (e, ct)), w3) /\
    c_state w3 = c_state w2 /\ (forall st, announce st w3 = announce st w2) /\
    w_trace w3 = w_trace w2 ++ l /\ (is_fatal e ct = true -> l = []).
Proof.
  intros cn1 Hst Hcall ct. unfold nudge_connection_tick. rewrite Hst. cbv zeta. fold cn1 ct.
  rewrite run_put. change (mkWorld (mkClient _ _ _) _ _) with (with_live cn1 w).
  rewrite (run_bind _ _ _ _ _ Hcall), run_get. unfold retry_connection_tick_after_error.
  destruct (connection (w_client w2)) as [cn2|].
  - destruct (is_fatal e ct) eqn:Hf; [|destruct (pre_online _)]; cbn [negb andb]; unfold mbind, m_bind; simpl.
    + eexists _, []. rewrite app_nil_r. done.
    + unfold cffi_schedule_tick_cb, mbind, m_bind. simpl.
      destruct (notify_timeout _ _ _) as [[[cb ms] ctx]|]; simpl.
      * eexists _, [_]. done.
      * eexists _, []. rewrite app_nil_r. done.
    + eexists _, []. rewrite app_nil_r. done.
  - eexists _, []. rewrite app_nil_r. done.
Qed.

(** A payload tick that fails fatally, when no connection tick is due. *)
Lemma payload_tick_fails w cn e ct w2 :
  live w = Some cn -> (forall t, next_tick (cn_app cn) = Some t -> (env_time (w_reads w) < t)%Z) ->
  nudge_payload_ticks cn (sync_conn_info (mkWorld (w_client w) (w_trace w) (S (w_reads w)))).2 =
    (Ret (Some (e, ct)), w2) ->
  is_timed_out e = true \/ is_fatal e ct = true ->
  exists w', nudge_locked w = (Ret (tick_error_code e), w') /\ torn_down w2 w' /\ nudge_time_ms (conn (w_client w')) = 0%Z.
Proof.
  intros Hl Hnext Hpay Herr. apply not_due in Hnext. destruct (tick_error_run e ct w2) as (w' & Hte & Hdown & _).
  exists w'. split; [|by apply Hdown]. unfold nudge_locked. rewrite run_now, run_get. cbn [w_client].
  destruct (sync_stays (mkWorld (w_client w) (w_trace w) (S (w_reads w)))) as (w1 & Hs & Hl1 & _).
  rewrite Hs in Hpay. unfold live in Hl, Hl1. cbn [w_client] in Hl1. rewrite Hl in Hl1. rewrite Hl.
  unfold nudge_connection_tick. rewrite Hnext, run_ret, (run_bind _ _ _ _ _ Hs), run_get, Hl1.
  by rewrite (run_bind _ _ _ _ _ Hpay).
Qed.

End Helpers.

Module ClientProperties.

Section ClientProperties.
Context `{CEnv} `{Core}.
Abbreviation world := (world core_conn tick_payload).
Implicit Types (w : world) (a : api_call).

(** C15: panics stop at the boundary.  A call on an unlocked client always returns
    a code, whatever the core does, a panic in the middle of its callbacks
    included; the lock's owner is cleared again, and settings, credentials and
    back-pointer are as before. *)
Theorem calls_return_and_release me a w :
  client_ptr (conn (w_client w)) = Valid -> owner w = 0%Z -> me <> 0%Z ->
  exists code w', api me a w = (Ret code, w') /\ owner w' = 0%Z /\
    config_of (conn (w_client w')) = config_of (conn (w_client w)) /\
    ssl_ctx (w_client w') = ssl_ctx (w_client w).
Proof.
  intros Hp Ho Hme. pose proof (api_frame me a w Hp Ho Hme) as [Hc Hs].
  rewrite api_run in * by (rewrite ?Ho; done). eexists _, _. split; [done|]. split; [done|]. by split.
Qed.

(** re-entrancy.  While a thread holds the lock, every locking call it makes
    (from a C callback) is refused with [HE_ERR_INVALID_CONN_STATE], or 0 for the
    session id, and changes nothing: not the client, not the trace, not even the
    clock is read. *)
Theorem reentrant_calls_refused me a w sid out :
  client_ptr (conn (w_client w)) = Valid -> owner w = me -> session_is_reserved (take 8 sid) = false ->
  api me a w = (Ret HE_ERR_INVALID_CONN_STATE, w) /\
  he_conn_get_session_id me Valid w = (Ret 0%Z, w) /\
  he_conn_build_expresslane_header me Valid (Some sid) (Some out) w =
    (Ret (HE_ERR_INVALID_CONN_STATE, Some out), w).
Proof.
  intros Hp Ho Hsid. split; [by apply api_reentrant|]. split.
  - unfold he_conn_get_session_id, ffi_guard. unfold mbind at 1, m_bind at 1. by rewrite lock_client_reentrant.
  - unfold he_conn_build_expresslane_header. rewrite Hsid. unfold ffi_guard. unfold mbind at 1, m_bind at 1.
    by rewrite lock_client_reentrant.
Qed.

(** C16: state changes reach C.  With a state-change callback registered, after
    any sequence of calls (connects, reconnects, data, nudges, disconnects) the
    state [he_conn_t] caches is exactly the last state delivered to C. *)
Theorem cached_state_follows_callbacks me calls w :
  client_ptr (conn (w_client w)) = Valid -> owner w = 0%Z -> me <> 0%Z -> notifying w ->
  exists codes w' new, run_calls me calls w = (Ret codes, w') /\ w_trace w' = w_trace w ++ new /\
    c_state w' = last_reported (c_state w) new.
Proof.
  revert w. induction calls as [|a calls IH]; intros w Hp Ho Hme Hn.
  { exists [], w, []. by rewrite app_nil_r. }
  assert (Hne : owner w <> me) by congruence.
  destruct (api_delivered me a w Hp Hne Hn) as (Hn' & new & Htr & Hst).
  destruct (api_frame me a w Hp Ho Hme) as [Hc _].
  assert (Hret : exists code, api me a w = (Ret code, (api me a w).2)).
  { rewrite api_run by done. by eexists. }
  destruct Hret as [code Hret]. set (w1 := (api me a w).2) in *.
  assert (Hp1 : client_ptr (conn (w_client w1)) = Valid /\ owner w1 = 0%Z).
  { unfold owner, config_of in *. simplify_eq. split; congruence. }
  destruct Hp1 as [Hp1 Ho1]. destruct (IH w1 Hp1 Ho1 Hme Hn') as (codes & w' & new' & Hrun & Htr' & Hst').
  exists (code :: codes), w', (new ++ new'). cbn [run_calls]. unfold mbind, m_bind.
  rewrite Hret, Hrun. split; [done|]. rewrite Htr', Htr, app_assoc. split; [done|].
  rewrite last_reported_app. unfold c_state in *. congruence.
Qed.

(** validation agrees with connect.  On an unlocked client without a live
    connection, [he_client_is_config_valid] reports [HE_ERR_CONF_NOT_SET] exactly
    when [he_client_connect] would, and reports success otherwise. *)
Theorem config_validation_agrees me w :
  client_ptr (conn (w_client w)) = Valid -> owner w = 0%Z -> me <> 0%Z -> live w = None ->
  ((api me AConnect w).1 = Ret HE_ERR_CONF_NOT_SET <->
   he_client_is_config_valid Valid (w_client w) = HE_ERR_CONF_NOT_SET) /\
  (he_client_is_config_valid Valid (w_client w) <> HE_ERR_CONF_NOT_SET ->
   he_client_is_config_valid Valid (w_client w) = HE_SUCCESS).
Proof.
  intros Hp Ho Hme Hl. split; [|by unfold he_client_is_config_valid; repeat case_match].
  rewrite connect_conf_iff by (rewrite ?Ho; done). unfold he_client_is_config_valid, incomplete.
  rewrite build_auth_conf.
  set (up := bool_decide (is_Some (username _)) && bool_decide (is_Some (password _))).
  destruct up, (auth_token _), (outside_write_cb _), (ca_cert _); simpl; split; intros; try done; try tauto.
  all: repeat match goal with H : _ \/ _ |- _ => destruct H | H : _ /\ _ |- _ => destruct H end; done.
Qed.

(** C23: connect.  A second connect on a live connection is refused and changes
    nothing; otherwise success leaves a live connection wired to the callbacks of
    the current settings, in state CONNECTING and with the crypto info of an
    earlier connection forgotten, and every other result leaves no connection. *)
Theorem connect_contract me w :
  client_ptr (conn (w_client w)) = Valid -> owner w = 0%Z -> me <> 0%Z ->
  let w' := (api me AConnect w).2 in
  (is_Some (live w) -> (api me AConnect w).1 = Ret HE_ERR_INVALID_CONN_STATE /\ live w' = live w /\
     w_trace w' = w_trace w /\ conn (w_client w') = conn (w_client w)) /\
  (live w = None -> (api me AConnect w).1 <> Ret HE_SUCCESS -> live w' = None) /\
  (live w = None -> (api me AConnect w).1 = Ret HE_SUCCESS ->
     c_state w' = HE_STATE_CONNECTING /\
     (exists cn outside, live w' = Some cn /\ outside_write_cb (ssl_ctx (w_client w)) = Some outside /\
        cn_cbs cn = capture outside (w_client w)) /\
     current_protocol (conn (w_client w')) = HE_CONNECTION_PROTOCOL_NONE /\
     curve_name (conn (w_client w')) = None /\ cipher_name (conn (w_client w')) = None /\
     outside_mtu_negotiated (conn (w_client w')) = outside_mtu (conn (w_client w'))).
Proof.
  intros Hp Ho Hme w'. unfold w'. assert (Hne : owner w <> me) by congruence. rewrite api_run by done. cbn [fst snd body].
  split.
  { intros [cn Hl]. rewrite (connect_live cn) by done. cbn [fst snd]. by rewrite own_release. }
  pose proof (connect_cases (own me w)) as Hc. destruct (client_connect_locked (own me w)) as [r w1].
  split; intros Hl; destruct (Hc Hl) as [(_ & -> & ->)|[(_ & Hl' & Hr)|(_ & -> & Hs & (cn & Hcn & outside & Ho' & Hcap) & Hi)]];
    intros Hr'; try done.
  - by destruct Hr as [->|[->| ->]].
  - split; [done|]. split; [by exists cn, outside|done].
Qed.


(** crypto info is stable.  As long as a connection is live, or the call is
    not a connect, a negotiated protocol, curve or cipher name once captured does
    not change. *)
Theorem crypto_info_write_once me a w :
  client_ptr (conn (w_client w)) = Valid -> owner w <> me -> a <> AConnect \/ is_Some (live w) ->
  let k := conn (w_client w) in let k' := conn (w_client (api me a w).2) in
  (current_protocol k <> HE_CONNECTION_PROTOCOL_NONE -> current_protocol k' = current_protocol k) /\
  (is_Some (curve_name k) -> curve_name k' = curve_name k) /\
  (is_Some (cipher_name k) -> cipher_name k' = cipher_name k).
Proof.
  intros Hp Ho Ha. rewrite api_run by done. cbn [snd].
  assert (Hb : write_once (own me w) (body a (own me w)).2).
  { destruct a; [|apply (body_respects write_once (fun _ => True)); [apply write_once_actions|done]..].
    destruct Ha as [?|[cn Hl]]; [done|]. cbn [body]. by rewrite (connect_live cn). }
  exact Hb.
Qed.

(** C27: a failed handshake tick is retried.  If a due connection tick fails with
    an error that is neither fatal nor a timeout while the connection is not yet
    Online, the nudge reports [HE_ERR_FAILED] but keeps the connection, with a
    new tick scheduled, and the published nudge time is positive; once Online no
    tick is synthesised. *)
Theorem failed_tick_rearmed w cn core e st w2 :
  live w = Some cn -> (exists t, next_tick (cn_app cn) = Some t /\ (t <= env_time (w_reads w))%Z) ->
  let ct := core_connection_type (cn_core cn) in
  let cn1 := mkConnection (cn_core cn) (set_next_tick None (cn_app cn)) (cn_cbs cn) in
  let w1 := mkWorld (w_client (with_live cn1 w)) (w_trace w) (S (w_reads w)) in
  interp (cn_cbs cn) (core_tick ConnectionTick (cn_core cn)) (cn_app cn1) w1 = (Ret (inl (core, Err e), st), w2) ->
  is_fatal e ct = false -> is_timed_out e = false ->
  exists w' cn', nudge_locked w = (Ret HE_ERR_FAILED, w') /\ live w' = Some cn' /\ cn_core cn' = core /\
    (if pre_online (core_state core)
     then is_Some (next_tick (cn_app cn')) /\ (1 <= nudge_time_ms (conn (w_client w')))%Z
     else cn_app cn' = st).
Proof.
  intros Hl Hnext ct cn1 w1 Hint Hfatal Hto. apply is_due in Hnext as Hst.
  assert (Hcall : core_call cn1 (core_tick ConnectionTick (cn_core cn)) w1 =
    (Ret (Err e), with_live (mkConnection core st (cn_cbs cn)) w2)).
  { unfold core_call. cbn [cn_cbs cn1]. by rewrite (run_bind _ _ _ _ _ Hint). }
  assert (Htick : exists w3 app, nudge_connection_tick cn (env_time (w_reads w))
      (mkWorld (w_client w) (w_trace w) (S (w_reads w))) = (Ret (Some (e, ct)), w3) /\
      live w3 = Some (mkConnection core app (cn_cbs cn)) /\
      if pre_online (core_state core) then is_Some (next_tick app) else app = st).
  { unfold nudge_connection_tick. rewrite Hst. cbv zeta. rewrite run_put.
    change (mkWorld (mkClient _ _ _) _ _) with w1. rewrite (run_bind _ _ _ _ _ Hcall), run_get.
    unfold with_live at 1. cbn [put_connection]. unfold retry_connection_tick_after_error. fold ct.
    cbn [w_client connection]. simpl (connection _). cbn [cn_core cn_app cn_cbs]. rewrite Hfatal. cbn [negb andb].
    destruct (pre_online (core_state core)).
    - unfold cffi_schedule_tick_cb. unfold mbind, m_bind. simpl.
      destruct (notify_timeout _ _ _) as [[[cb ms] ctx]|]; simpl; (do 2 eexists; split; [reflexivity|]); by split.
    - unfold mbind, m_bind. simpl. do 2 eexists. split; [reflexivity|]. by split. }
  destruct Htick as (w3 & app & Htick & Hl3 & Happ).
  destruct (tick_error_run e ct (refresh_nudge_time w3).2) as (w4 & Hte & _ & Hsame).
  rewrite (Hsame Hto Hfatal) in Hte. unfold tick_error_code in Hte. rewrite Hto in Hte.
  exists (refresh_nudge_time w3).2, (mkConnection core app (cn_cbs cn)). split_and!; try done.
  - unfold nudge_locked. rewrite run_now, run_get. cbn [w_client]. unfold live in Hl. rewrite Hl.
    rewrite (run_bind _ _ _ _ _ Htick). by rewrite (run_bind refresh_nudge_time _ w3 tt (refresh_nudge_time w3).2).
  - cbn [cn_app]. destruct (pre_online _); [|done]. split; [done|].
    unfold refresh_nudge_time, mbind, m_bind. simpl. unfold remaining_ms. simpl. unfold live in Hl3. rewrite Hl3. simpl.
    unfold earliest_tick_deadline. destruct Happ as [t ->]. destruct (min_deadline _); apply deadline_timeout_range.
Qed.

(** C28: disconnect.  Let [w1] be the client after the core's own goodbye (the
    client itself when no connection is live).  Disconnect then succeeds and leaves
    no connection.  If the core has announced DISCONNECTING or DISCONNECTED, the
    cached state stays what the core made it and C is told nothing more;
    otherwise C is told DISCONNECTING and then DISCONNECTED, each once, and the
    cached state is DISCONNECTED. *)
Theorem disconnect_contract w w1 :
  match live w with
  | Some cn => exists res, core_call cn (core_disconnect (cn_core cn)) w = (Ret res, w1)
  | None => w1 = w
  end ->
  exists w', client_disconnect_locked w = (Ret HE_SUCCESS, w') /\ live w' = None /\
    if decide (c_state w1 = HE_STATE_DISCONNECTING \/ c_state w1 = HE_STATE_DISCONNECTED)
    then c_state w' = c_state w1 /\ w_trace w' = w_trace w1
    else c_state w' = HE_STATE_DISCONNECTED /\
      w_trace w' = w_trace w1 ++ announce HE_STATE_DISCONNECTING w1 ++ announce HE_STATE_DISCONNECTED w1.
Proof.
  intros Hbye. unfold client_disconnect_locked. rewrite run_get.
  set (goodbye := match connection (w_client w) with Some _ => _ | None => _ end).
  assert (Hg : goodbye w = (Ret tt, w1)).
  { unfold goodbye, live in *. destruct (connection (w_client w)) as [cn|]; [|by subst].
    destruct Hbye as [res Hbye]. by rewrite (run_bind _ _ _ _ _ Hbye). }
  rewrite (run_bind _ _ _ _ _ Hg), run_get. unfold c_state, announce in *. case_decide as Hst.
  - unfold mbind, m_bind. simpl. by eexists.
  - unfold deliver_state, mbind, m_bind. simpl.
    destruct (state_change_cb (ssl_ctx (w_client w1))) as [cb|] eqn:Hcb; simpl; rewrite ?Hcb; simpl;
      (eexists; split; [reflexivity|]); simpl; by rewrite <- ?app_assoc, ?app_nil_r.
Qed.

(** C31: framing and demultiplexing agree.  The header built for an ExpressLane
    packet, in front of any payload, is classified as ExpressLane with the same
    session id and a 16-byte header; building it changes only the 16 bytes and
    leaves the client alone. *)
Theorem header_round_trip `{!HeaderLaws} me w sid out payload kind0 sid0 len0 :
  owner w = 0%Z -> me <> 0%Z -> is_Some (live w) ->
  length sid = 8 -> session_is_reserved sid = false -> 16 <= length out ->
  exists out', he_conn_build_expresslane_header me Valid (Some sid) (Some out) w = (Ret (HE_SUCCESS, Some out'), w) /\
    length out' = length out /\ drop 16 out' = drop 16 out /\
    he_conn_identify_packet (Some (take 16 out' ++ payload)) (16 + length payload) (Some kind0) (Some sid0) (Some len0) =
      mkIdentify HE_SUCCESS (Some HE_PACKET_KIND_EXPRESSLANE) (Some sid) (Some 16).
Proof.
  intros Ho Hme [cn Hl] Hsid Hres Hout. set (hdr := header_append_to_wire (core_tunnel_version (cn_core cn)) false true sid).
  assert (Hlen : length hdr = 16) by (by apply header_length).
  exists (hdr ++ drop 16 out). split_and!.
  - unfold he_conn_build_expresslane_header. rewrite (take_ge sid) by lia. rewrite Hres.
    unfold ffi_guard. unfold mbind at 1, m_bind at 1. rewrite lock_client_run by (rewrite Ho; done).
    rewrite run_get, own_client. cbn [connection]. unfold live in Hl. rewrite Hl.
    unfold mret at 1 2, m_ret at 1 2. fold hdr. rewrite own_release by done. change WIRE_SIZE with 16.
    rewrite decide_True by lia. by rewrite take_ge by lia.
  - rewrite length_app, length_drop. lia.
  - by rewrite drop_app_length'.
  - rewrite take_app_length' by lia. unfold he_conn_identify_packet. rewrite decide_False by (by intros [? _]).
    change WIRE_SIZE with 16. rewrite decide_False by lia.
    change (default [] (Some (hdr ++ payload))) with (hdr ++ payload). rewrite take_app_length' by lia.
    unfold hdr. by rewrite header_parses.
Qed.

(** classification is total and leaves no stale output.  Whatever the packet,
    a non-NULL [kind] is written, and unless the packet is classified as control
    or ExpressLane the session id and header length read as zero; a packet
    shorter than a header is never parsed. *)
Theorem identify_packet_outputs packet len kind session_id header_len :
  (packet = None -> len = 0) ->
  let r := he_conn_identify_packet packet len (Some kind) session_id header_len in
  (id_code r = HE_SUCCESS \/ id_code r = HE_ERR_FAILED) /\
  (len < 16 -> id_code r = HE_SUCCESS /\ id_kind r = Some HE_PACKET_KIND_UNDECIDABLE) /\
  (id_kind r = Some HE_PACKET_KIND_UNDECIDABLE ->
     id_session r = (fun _ => zeros 8) <$> session_id /\ id_header_len r = (fun _ => 0) <$> header_len) /\
  (id_kind r <> Some HE_PACKET_KIND_UNDECIDABLE ->
     id_code r = HE_SUCCESS /\ id_header_len r = (fun _ => 16) <$> header_len /\
     exists e s, header_try_from_wire (take 16 (default [] packet)) = Ret (Some (e, s)) /\
       id_session r = (fun _ => s) <$> session_id /\
       id_kind r = Some (if e then HE_PACKET_KIND_EXPRESSLANE else HE_PACKET_KIND_CONTROL)).
Proof.
  intros Hnull r. unfold r, he_conn_identify_packet.
  destruct (decide (packet = None /\ 0 < len)) as [[Hp Hlen]|_]; [rewrite (Hnull Hp) in Hlen; lia|].
  change WIRE_SIZE with 16. destruct (decide (len < 16)) as [Hlt|Hge]; [by split_and!; auto|].
  destruct (header_try_from_wire _) as [[[e s]|]|] eqn:Hh; simpl.
  - split; [by left|]. split; [lia|]. split; [by destruct e|]. intros _.
    split; [done|]. split; [by destruct header_len|]. exists e, s.
    split; [done|]. split; [by destruct session_id|done].
  - split; [by left|]. split; [lia|]. by split.
  - split; [by right|]. split; [lia|]. by split.
Qed.

End ClientProperties.

(** ** Witnesses *)

Import ToyCore.

Lemma calls_return_and_release_witness :
  exists code w', api 1 AConnect toy_conf = (Ret code, w') /\ owner w' = 0%Z.
Proof.
  destruct (calls_return_and_release 1 AConnect toy_conf) as (code & w' & Hr & Ho & _); [reflexivity|reflexivity|done|].
  exists code, w'. split; [exact Hr|exact Ho].
Defined.

Lemma reentrant_calls_refused_witness :
  api 7 ANudge (own 7 toy_conf) = (Ret HE_ERR_INVALID_CONN_STATE, own 7 toy_conf).
Proof.
  exact (proj1 (reentrant_calls_refused 7 ANudge (own 7 toy_conf) (replicate 8 x01) (zeros 16) eq_refl eq_refl eq_refl)).
Defined.

(** Connect, go online, disconnect. *)
Lemma cached_state_follows_callbacks_witness :
  exists codes w' new, run_calls 1 [AConnect; AOutside [x01]; ADisconnect] toy_conf = (Ret codes, w') /\
    w_trace w' = new /\ c_state w' = last_reported HE_STATE_NONE new /\ c_state w' = HE_STATE_DISCONNECTED.
Proof.
  destruct (cached_state_follows_callbacks 1 [AConnect; AOutside [x01]; ADisconnect] toy_conf)
    as (codes & w' & new & Hr & Ht & Hs); [reflexivity|reflexivity|done|by split; [eexists|]|].
  exists codes, w', new. split; [exact Hr|]. split; [exact Ht|]. split; [exact Hs|].
  vm_compute in Hr. injection Hr as _ <-. reflexivity.
Defined.

Lemma config_validation_agrees_witness :
  (api 1 AConnect toy_conf).1 <> Ret HE_ERR_CONF_NOT_SET /\
  he_client_is_config_valid Valid (w_client toy_conf) = HE_SUCCESS.
Proof.
  destruct (config_validation_agrees 1 toy_conf) as [Hiff Hok]; [reflexivity|reflexivity|done|reflexivity|].
  split; [rewrite Hiff; vm_compute; discriminate|]. apply Hok. vm_compute. discriminate.
Defined.

Lemma connect_contract_witness :
  (api 1 AConnect toy_conf).1 = Ret HE_SUCCESS /\ c_state (api 1 AConnect toy_conf).2 = HE_STATE_CONNECTING.
Proof.
  destruct (connect_contract 1 toy_conf) as (_ & _ & Hs); [reflexivity|reflexivity|done|].
  assert (Hc : (api 1 AConnect toy_conf).1 = Ret HE_SUCCESS) by (vm_compute; reflexivity).
  split; [exact Hc|]. exact (proj1 (Hs eq_refl Hc)).
Defined.


Lemma crypto_info_write_once_witness :
  let w := (api 1 (AOutside [x01]) (toy_live_with Connecting None None [])).2 in
  curve_name (conn (w_client w)) = Some [x50] /\
  curve_name (conn (w_client (api 1 ANudge w).2)) = Some [x50].
Proof.
  intros w. assert (Hc : curve_name (conn (w_client w)) = Some [x50]) by (vm_compute; reflexivity).
  split; [exact Hc|].
  destruct (crypto_info_write_once 1 ANudge w) as (_ & Hk & _);
    [vm_compute; reflexivity|vm_compute; discriminate|left; discriminate|].
  rewrite Hk; [exact Hc|]. rewrite Hc. eexists. reflexivity.
Defined.

Lemma failed_tick_rearmed_witness :
  let w := toy_live_with Authenticating (Some ToySoft) (Some 0%Z) [] in
  exists w' cn', nudge_locked w = (Ret HE_ERR_FAILED, w') /\ live w' = Some cn' /\ is_Some (next_tick (cn_app cn')).
Proof.
  intros w.
  destruct (failed_tick_rearmed w (toy_connection Authenticating (Some ToySoft) (Some 0%Z) [])
    (mkToy Authenticating [] (Some ToySoft) : @core_conn toy_core) (ToySoft : @core_error toy_core)
    (mkAppState None [] None None 0%Z)
    (mkWorld (w_client (with_live (toy_connection Authenticating (Some ToySoft) None []) w)) [] 1))
    as (w' & cn' & Hr & Hl & _ & Hp); try reflexivity.
  { exists 0%Z. split; [reflexivity|]. by vm_compute. }
  exists w', cn'. split; [exact Hr|]. split; [exact Hl|]. exact (proj1 Hp).
Defined.

(** The core announces its goodbye itself, and C hears it once. *)
Lemma disconnect_contract_witness :
  let w := toy_live_with Online None None [] in
  (exists w', client_disconnect_locked w = (Ret HE_SUCCESS, w') /\ live w' = None /\
     w_trace w' = [CallStateChange 11 HE_STATE_DISCONNECTING 0; CallStateChange 11 HE_STATE_DISCONNECTED 0]).
Proof.
  intros w. set (cn := toy_connection Online None None []).
  destruct (disconnect_contract w (core_call cn (core_disconnect (cn_core cn)) w).2) as (w' & Hr & Hl & Hrest).
  { exists (Ok tt). vm_compute. reflexivity. }
  exists w'. split; [exact Hr|]. split; [exact Hl|].
  rewrite decide_True in Hrest by (right; vm_compute; reflexivity). destruct Hrest as [_ ->]. vm_compute. reflexivity.
Defined.

Lemma header_round_trip_witness :
  exists out', he_conn_build_expresslane_header 1 Valid (Some (replicate 8 x05)) (Some (zeros 20))
      (toy_live_with Online None None []) = (Ret (HE_SUCCESS, Some out'), toy_live_with Online None None []) /\
    he_conn_identify_packet (Some (take 16 out' ++ [x01; x02])) 18 (Some HE_PACKET_KIND_CONTROL) (Some (zeros 8)) (Some 3) =
      mkIdentify HE_SUCCESS (Some HE_PACKET_KIND_EXPRESSLANE) (Some (replicate 8 x05)) (Some 16).
Proof.
  destruct (header_round_trip 1 (toy_live_with Online None None []) (replicate 8 x05) (zeros 20) [x01; x02]
    HE_PACKET_KIND_CONTROL (zeros 8) 3) as (out' & Hb & _ & _ & Hi);
    [reflexivity|done|eexists; reflexivity|reflexivity|vm_compute; reflexivity|vm_compute; lia|].
  exists out'. split; [exact Hb|exact Hi].
Defined.

Lemma identify_packet_outputs_witness :
  id_kind (he_conn_identify_packet (Some [x48; x65]) 2 (Some HE_PACKET_KIND_CONTROL) None None) =
    Some HE_PACKET_KIND_UNDECIDABLE.
Proof.
  destruct (identify_packet_outputs (Some [x48; x65]) 2 HE_PACKET_KIND_CONTROL None None) as (_ & Hs & _); [discriminate|].
  apply Hs. lia.
Defined.

End ClientProperties.
