(* ===== verification/ClientTests.v ===== *)
(** * The unit tests of the client interface

    The tests of [src/lib.rs], statement by statement, over the world of
    [Client]: a failed assertion is a panic.  They rely on facts of
    [lightway-core], which [CoreFacts] names, and two of them on a clock that
    does not jump while they run ([SteadyClock]); the theorem holds for every
    core and environment with these. *)

From stdpp Require Import base numbers list list_numbers option strings.
From Stdlib Require Import Strings.Byte.
From S2P Require Import Prelude ClientTypes Timer Conn Client ToyCore ClientProperties.
Import Timer.Timer Conn.Conn Client.Client.

(** What the tests use of [lightway-core]: three errors with their
    classification, a tick with a payload, a header without the magic bytes, and
    the reserved session id. *)
Class CoreFacts `{Core} : Type := {
  TimedOut : core_error;
  InvalidState : core_error;
  DisconnectedError : core_error;
  PktCodecTick : nat -> tick_payload;
  (** [if let TickType::PktCodecTick(n) = tick] *)
  match_pkt_codec_tick : tick_payload -> option nat;
  MAXIMUM : protocol_number;
  timed_out_classified : is_timed_out TimedOut = true /\ is_fatal TimedOut Datagram = true;
  invalid_state_classified : is_timed_out InvalidState = false /\ is_fatal InvalidState Datagram = false;
  disconnected_classified : is_timed_out DisconnectedError = false /\ is_fatal DisconnectedError Datagram = true;
  match_pkt_codec_tick_spec n : match_pkt_codec_tick (PktCodecTick n) = Some n;
  bad_magic : header_try_from_wire (zeros WIRE_SIZE) = Ret None;
  zero_session_reserved : session_is_reserved (zeros 8) = true;
  ones_session_allowed : session_is_reserved (replicate 8 x01) = false;
}.

Definition from_millis (n : Z) : Z := (n * 1000000)%Z.
Definition from_micros (n : Z) : Z := (n * 1000)%Z.
Definition from_secs (n : Z) : Z := (n * 1000000000)%Z.

(** Two consecutive readings are in order and less than 250 ms apart. *)
Class SteadyClock `{CEnv} : Prop := {
  clock_steady n : (env_time n <= env_time (S n) < env_time n + from_millis 250)%Z;
}.

#[global] Instance handle_eq_dec : EqDecision handle.
Proof. solve_decision. Defined.

#[global] Instance he_packet_kind_eq_dec : EqDecision he_packet_kind_t.
Proof. solve_decision. Defined.

Module ClientTests.

Section ClientTests.
Context `{CEnv} `{Core} `{!CoreFacts}.
Abbreviation M := (M core_conn tick_payload).
Abbreviation app_t := (CffiAppState tick_payload InsideIpConfig).
Abbreviation b_ := String.list_byte_of_string.

(** The token of the test's thread. *)
Variable me : Z.

Definition check (b : bool) : M unit := if b then mret tt else panic.
Definition check_eq {A} `{EqDecision A} (a b : A) : M unit := check (bool_decide (a = b)).
Definition returns {A} `{EqDecision A} (m : M A) (a : A) : M unit := r ← m; check_eq r a.

Definition create : M handle := _ ← put_client he_client_create; mret Valid.
Definition destroy (c : handle) : M unit := k ← get_client; let _ := he_client_destroy c k in mret tt.
Definition is_config_valid (c : handle) : M he_return_code_t := k ← get_client; mret (he_client_is_config_valid c k).
Definition of_conn {A} (f : he_conn_t -> A) : M A := k ← get_client; mret (f (conn k)).
Definition of_ssl {A} (f : he_ssl_ctx_t -> A) : M A := k ← get_client; mret (f (ssl_ctx k)).
Definition connection_is_none : M bool := k ← get_client; mret (match connection k with None => true | Some _ => false end).

(** A function pointer. *)
Definition dummy_outside_write : Z := 1.

Definition create_get_destroy_roundtrip : M unit :=
  c ← create;
  _ ← check_eq c Valid;
  let conn := he_client_get_conn c in
  _ ← check_eq conn Valid;
  _ ← returns (of_conn client_ptr) c;
  _ ← check_eq (he_client_get_conn c) conn;
  _ ← check_eq (he_client_get_ssl_ctx c) Valid;
  destroy c.

Definition accessors_handle_null : M unit :=
  _ ← check_eq (he_client_get_conn Null) Null;
  _ ← check_eq (he_client_get_ssl_ctx Null) Null;
  _ ← returns (he_conn_get_nudge_time Null) 0%Z;
  _ ← returns (he_conn_get_outside_mtu Null) 0%Z;
  _ ← returns (he_conn_get_effective_pmtu Null) 0%Z;
  _ ← returns (he_conn_get_cipher_name Null) None;
  _ ← returns (he_conn_get_curve_name Null) None;
  _ ← returns (he_conn_get_session_id me Null) 0%Z;
  returns (he_conn_get_current_protocol Null) HE_CONNECTION_PROTOCOL_NONE.

Definition is_config_valid_requires_auth_writecb_and_ca : M unit :=
  _ ← returns (is_config_valid Null) HE_ERR_NULL_POINTER;
  c ← create;
  _ ← returns (is_config_valid c) HE_ERR_CONF_NOT_SET;
  let ssl := he_client_get_ssl_ctx c in
  let conn := he_client_get_conn c in
  let token := b_ "token-bytes" in
  _ ← he_conn_set_auth_token conn (Some token) (length token);
  _ ← returns (is_config_valid c) HE_ERR_CONF_NOT_SET;
  _ ← he_ssl_ctx_set_outside_write_cb ssl dummy_outside_write;
  _ ← returns (is_config_valid c) HE_ERR_CONF_NOT_SET;
  let ca := b_ "-----DUMMY CA-----" in
  _ ← he_ssl_ctx_set_ca ssl (Some ca) (length ca);
  _ ← returns (is_config_valid c) HE_SUCCESS;
  destroy c.

Definition return_code_name_handles_out_of_range : M unit :=
  _ ← check_eq (he_return_code_name 0) "HE_SUCCESS"%string;
  _ ← check_eq (he_return_code_name (-13)) "HE_ERR_INVALID_CONN_STATE"%string;
  check_eq (he_return_code_name 9999) "HE_ERR_UNKNOWN"%string.

Definition protocol_name_handles_out_of_range : M unit :=
  _ ← check_eq (he_connection_protocol_name 0) "none"%string;
  _ ← check_eq (he_connection_protocol_name 2) "DTLS 1.3"%string;
  check_eq (he_connection_protocol_name 123) "unknown"%string.

Definition use_pqc_roundtrip : M unit :=
  c ← create;
  _ ← check_eq c Valid;
  let ssl := he_client_get_ssl_ctx c in
  _ ← check_eq ssl Valid;
  _ ← returns (he_ssl_ctx_set_use_pqc ssl true) HE_SUCCESS;
  _ ← returns (of_ssl use_pqc) true;
  _ ← returns (he_ssl_ctx_set_use_pqc ssl false) HE_SUCCESS;
  _ ← returns (of_ssl use_pqc) false;
  _ ← returns (he_ssl_ctx_set_use_pqc Null false) HE_ERR_NULL_POINTER;
  destroy c.

Definition connection_type_is_validated : M unit :=
  c ← create;
  let ssl := he_client_get_ssl_ctx c in
  _ ← returns (he_ssl_ctx_set_connection_type ssl 0) HE_SUCCESS;
  _ ← returns (he_ssl_ctx_set_connection_type ssl 1) HE_SUCCESS;
  _ ← returns (he_ssl_ctx_set_connection_type ssl 2) HE_ERR_BAD_PARAM;
  _ ← returns (he_ssl_ctx_set_connection_type ssl (-1)) HE_ERR_BAD_PARAM;
  destroy c.

(** C string literals carry their NUL. *)
Definition credential_setters_roundtrip : M unit :=
  c ← create;
  let conn := he_client_get_conn c in
  _ ← returns (he_conn_set_username conn (Some (b_ "alice" ++ [x00]))) HE_SUCCESS;
  _ ← returns (he_conn_set_password conn (Some (b_ "secret" ++ [x00]))) HE_SUCCESS;
  _ ← returns (of_conn username) (Some (b_ "alice"));
  _ ← returns (of_conn password) (Some (b_ "secret"));
  _ ← returns (he_conn_set_username conn None) HE_ERR_NULL_POINTER;
  destroy c.

Definition outside_mtu_setter_roundtrip : M unit :=
  c ← create;
  let conn := he_client_get_conn c in
  _ ← returns (he_conn_set_outside_mtu conn 1400) HE_SUCCESS;
  _ ← returns (of_conn outside_mtu) 1400%Z;
  destroy c.

Definition data_path_without_connection_is_rejected : M unit :=
  c ← create;
  let conn := he_client_get_conn c in
  let buf := zeros 8 in
  _ ← returns (he_conn_outside_data_received me conn (Some buf) (length buf)) HE_ERR_INVALID_CONN_STATE;
  _ ← returns (he_conn_inside_packet_received me conn (Some buf) (length buf)) HE_ERR_INVALID_CONN_STATE;
  _ ← returns (he_conn_nudge me conn) HE_ERR_INVALID_CONN_STATE;
  _ ← returns (he_conn_outside_data_received me conn None 0) HE_ERR_NULL_POINTER;
  destroy c.

Definition schedule_tick_cb_keeps_payload_ticks_typed : M unit :=
  st ← cffi_schedule_tick_cb (from_millis 500) (PayloadTick (PktCodecTick 7)) app_default;
  _ ← check (bool_decide (next_tick st = None));
  _ ← check_eq (length (pending_ticks st)) 1;
  first ← lift_outcome (vec_index (pending_ticks st) 0);
  _ ← check_eq (match_pkt_codec_tick first.2) (Some 7);
  st ← cffi_schedule_tick_cb (from_secs 10) ConnectionTick st;
  _ ← check (negb (bool_decide (next_tick st = None)));
  _ ← check_eq (length (pending_ticks st)) 1;
  earliest ← lift_outcome (expect_some (earliest_tick_deadline st));
  first ← lift_outcome (vec_index (pending_ticks st) 0);
  _ ← check_eq earliest first.1;
  next ← lift_outcome (expect_some (next_tick st));
  check (earliest <? next)%Z.

Definition timer_duration_rounds_positive_sub_millisecond_values_up : M unit :=
  _ ← check_eq (duration_to_timeout_ms 0) 0%Z;
  _ ← check_eq (duration_to_timeout_ms 1) 1%Z;
  _ ← check_eq (duration_to_timeout_ms (from_micros 999)) 1%Z;
  _ ← check_eq (duration_to_timeout_ms (from_millis 1)) 1%Z;
  _ ← check_eq (duration_to_timeout_ms (from_micros 1001)) 2%Z;
  _ ← check_eq (duration_to_timeout_ms (from_millis (i32_MAX + 1))) i32_MAX;
  now ← instant_now;
  _ ← check_eq (nudge_ms_until (Some (now + 1)%Z) now) 1%Z;
  _ ← check_eq (nudge_ms_until (Some now) now) 1%Z;
  _ ← check_eq (nudge_ms_until (Some (now - from_millis 1)%Z) now) 1%Z;
  check_eq (nudge_ms_until None now) 0%Z.

(** [LAST_TIMEOUT_MS]: the argument of the last call of [capture]. *)
Definition capture : Z := 2.
Definition last_timeout_ms : M Z := fun w =>
  (Ret match last (w_trace w) with Some (CallNudgeTime _ timeout _) => timeout | _ => (-1)%Z end, w).

Definition schedule_tick_cb_notifies_earliest_deadline : M unit :=
  let st : app_t := mkAppState None [] None (Some capture) 0 in
  st ← cffi_schedule_tick_cb (from_millis 500) (PayloadTick (PktCodecTick 1)) st;
  notified ← last_timeout_ms;
  _ ← check ((0 <=? notified)%Z && (notified <=? 500)%Z);
  st ← cffi_schedule_tick_cb (from_secs 10) ConnectionTick st;
  notified ← last_timeout_ms;
  check ((0 <=? notified)%Z && (notified <=? 500)%Z).

Definition expresslane_rotate_if_due_without_connection_is_rejected : M unit :=
  _ ← returns (he_conn_expresslane_rotate_if_due me Null) HE_ERR_NULL_POINTER;
  c ← create;
  _ ← returns (he_conn_expresslane_rotate_if_due me (he_client_get_conn c)) HE_ERR_INVALID_CONN_STATE;
  destroy c.

Definition ffi_guard_contains_panic : M unit := returns (ffi_guard HE_ERR_FAILED panic) HE_ERR_FAILED.

Definition err {A} (r : result A he_return_code_t) : option he_return_code_t :=
  match r with Ok _ => None | Err e => Some e end.
Definition ok {A} (r : result A he_return_code_t) : option A := match r with Ok a => Some a | Err _ => None end.

Definition lock_client_rejects_reentrancy : M unit :=
  c ← create;
  inner ← lock_client me c (r ← lock_client me c (mret tt); mret (err r));
  code ← lift_outcome (expect inner);
  _ ← check_eq code (Some HE_ERR_INVALID_CONN_STATE);
  r ← lock_client me c (mret 7%Z);
  _ ← check_eq (ok r) (Some 7%Z);
  destroy c.

(** [DISCONNECTED_HITS]. *)
Definition count_disconnected : Z := 3.
Definition is_disconnected_call (call : c_call) : bool :=
  match call with CallStateChange cb HE_STATE_DISCONNECTED _ => (cb =? count_disconnected)%Z | _ => false end.
Definition disconnected_hits : M nat := fun w => (Ret (length (filter (fun x => is_disconnected_call x = true) (w_trace w))), w).

Definition fatal_disconnect_fires_disconnected_once_and_clears_connection : M unit :=
  c ← create;
  before ← disconnected_hits;
  _ ← he_ssl_ctx_set_state_change_cb (he_client_get_ssl_ctx c) count_disconnected;
  _ ← fatal_disconnect;
  _ ← returns (of_conn state) HE_STATE_DISCONNECTED;
  _ ← returns connection_is_none true;
  _ ← fatal_disconnect;
  hits ← disconnected_hits;
  _ ← check_eq (hits - before) 1;
  destroy c.

(** A new client that is connecting with an armed timer, and a failed tick. *)
Definition after_tick_error (e : core_error) (rc : he_return_code_t) : M unit :=
  _ ← put_client client_new;
  _ ← modify_conn (set_state HE_STATE_CONNECTING);
  _ ← modify_conn (set_nudge_time_ms 250);
  returns (handle_connection_tick_error e Datagram) rc.

Definition connection_tick_timeout_clears_timer_and_disconnects_client : M unit :=
  _ ← after_tick_error TimedOut HE_CONNECTION_TIMED_OUT;
  _ ← returns (of_conn state) HE_STATE_DISCONNECTED;
  _ ← returns (of_conn nudge_time_ms) 0%Z;
  returns connection_is_none true.

Definition non_timeout_connection_tick_error_preserves_client_timer : M unit :=
  _ ← after_tick_error InvalidState HE_ERR_FAILED;
  _ ← returns (of_conn state) HE_STATE_CONNECTING;
  returns (of_conn nudge_time_ms) 250%Z.

Definition fatal_non_timeout_tick_error_disconnects_client : M unit :=
  _ ← after_tick_error DisconnectedError HE_ERR_FAILED;
  _ ← returns (of_conn state) HE_STATE_DISCONNECTED;
  _ ← returns (of_conn nudge_time_ms) 0%Z;
  returns connection_is_none true.

Definition connection_tick_error_rearms_only_pre_online_retry : M unit :=
  let retry_delay := from_millis 250 in
  '(retried, connecting) ← retry_connection_tick_after_error InvalidState Datagram Authenticating retry_delay app_default;
  _ ← check retried;
  retry_deadline ← lift_outcome (expect_some (next_tick connecting));
  now ← instant_now;
  let remaining := saturating_duration_since retry_deadline now in
  _ ← check (remaining <=? retry_delay)%Z;
  _ ← check (0 <? remaining)%Z;
  '(retried, online) ← retry_connection_tick_after_error InvalidState Datagram Online retry_delay app_default;
  _ ← check (negb retried);
  _ ← check (bool_decide (next_tick online = None));
  '(retried, timed_out) ← retry_connection_tick_after_error TimedOut Datagram Authenticating retry_delay app_default;
  _ ← check (negb retried);
  _ ← check (bool_decide (next_tick timed_out = None));
  '(retried, fatal) ← retry_connection_tick_after_error DisconnectedError Datagram Authenticating retry_delay app_default;
  _ ← check (negb retried);
  check (bool_decide (next_tick fatal = None)).

Definition test_session : list byte := [x01; x02; x03; x04; x05; x06; x07; x08].

Definition identify_one (expresslane : bool) (expected : he_packet_kind_t) : M unit :=
  let wire := header_append_to_wire MAXIMUM false expresslane test_session ++ b_ "payload-after-the-header" in
  let r := he_conn_identify_packet (Some wire) (length wire) (Some HE_PACKET_KIND_UNDECIDABLE) (Some (zeros 8)) (Some 0) in
  _ ← check_eq (id_code r) HE_SUCCESS;
  _ ← check_eq (id_kind r) (Some expected);
  _ ← check_eq (id_session r) (Some test_session);
  check_eq (id_header_len r) (Some 16).

Definition identify_packet_classifies_control_and_expresslane : M unit :=
  _ ← identify_one false HE_PACKET_KIND_CONTROL;
  identify_one true HE_PACKET_KIND_EXPRESSLANE.

Definition identify_packet_rejects_bad_magic_short_and_null : M unit :=
  let bad := zeros 20 in
  let r := he_conn_identify_packet (Some bad) (length bad) (Some HE_PACKET_KIND_CONTROL) (Some (replicate 8 xaa)) (Some 999) in
  _ ← check_eq (id_code r) HE_SUCCESS;
  _ ← check_eq (id_kind r) (Some HE_PACKET_KIND_UNDECIDABLE);
  _ ← check_eq (id_session r) (Some (zeros 8));
  _ ← check_eq (id_header_len r) (Some 0);
  let short := [x48; x65; x01; x03; x00; x01] in
  let r2 := he_conn_identify_packet (Some short) (length short) (Some HE_PACKET_KIND_CONTROL) None None in
  _ ← check_eq (id_code r2) HE_SUCCESS;
  _ ← check_eq (id_kind r2) (Some HE_PACKET_KIND_UNDECIDABLE);
  let r3 := he_conn_identify_packet (Some bad) (length bad) None None None in
  _ ← check_eq (id_code r3) HE_ERR_NULL_POINTER;
  let r4 := he_conn_identify_packet None 20 (id_kind r) None None in
  check_eq (id_code r4) HE_ERR_NULL_POINTER.

Definition build_header (client : handle) (sid out : option (list byte)) : M he_return_code_t :=
  '(code, _) ← he_conn_build_expresslane_header me client sid out; mret code.

Definition build_expresslane_header_rejects_bad_inputs : M unit :=
  c ← create;
  let sid := replicate 8 x01 in
  let out := zeros 16 in
  _ ← returns (build_header c (Some sid) (Some out)) HE_ERR_INVALID_CONN_STATE;
  _ ← returns (build_header c (Some (zeros 8)) (Some out)) HE_ERR_BAD_PARAM;
  _ ← returns (build_header c (Some sid) None) HE_ERR_NULL_POINTER;
  _ ← returns (build_header c None (Some out)) HE_ERR_NULL_POINTER;
  _ ← returns (build_header Null (Some (zeros 8)) (Some out)) HE_ERR_NULL_POINTER;
  destroy c.

Definition client_tests : list (M unit) :=
  [ create_get_destroy_roundtrip; accessors_handle_null; is_config_valid_requires_auth_writecb_and_ca;
    return_code_name_handles_out_of_range; protocol_name_handles_out_of_range; use_pqc_roundtrip;
    connection_type_is_validated; credential_setters_roundtrip; outside_mtu_setter_roundtrip;
    data_path_without_connection_is_rejected; schedule_tick_cb_keeps_payload_ticks_typed;
    timer_duration_rounds_positive_sub_millisecond_values_up; schedule_tick_cb_notifies_earliest_deadline;
    expresslane_rotate_if_due_without_connection_is_rejected; ffi_guard_contains_panic;
    lock_client_rejects_reentrancy; fatal_disconnect_fires_disconnected_once_and_clears_connection;
    connection_tick_timeout_clears_timer_and_disconnects_client;
    non_timeout_connection_tick_error_preserves_client_timer; fatal_non_timeout_tick_error_disconnects_client;
    connection_tick_error_rearms_only_pre_online_retry; identify_packet_classifies_control_and_expresslane;
    identify_packet_rejects_bad_magic_short_and_null; build_expresslane_header_rejects_bad_inputs ].

End ClientTests.

(** ** Running the tests *)

Section Running.
Context `{CEnv} `{Core} `{!CoreFacts} `{!HeaderLaws} `{!SteadyClock}.
Abbreviation M := (M core_conn tick_payload).

(** The test ends without a panic, from any world. *)
Definition passes (t : M unit) : Prop := forall w, (t w).1 = Ret tt.

Lemma run_check (b : bool) w : b = true -> check b w = (Ret tt, w).
Proof. by intros ->. Qed.

(** The next statement of a test: it computes, or it is an assertion. *)
Ltac next := erewrite run_bind by reflexivity; cbv beta iota.
Tactic Notation "checked" tactic(tac) := erewrite run_bind by (apply run_check; tac); cbv beta.

(** *** Locks *)

Lemma data_path_passes me : me <> 0%Z -> passes (data_path_without_connection_is_rejected me).
Proof. intros Hme w. destruct me as [|p|p]; [done|reflexivity..]. Qed.

Lemma rotate_passes me : me <> 0%Z -> passes (expresslane_rotate_if_due_without_connection_is_rejected me).
Proof. intros Hme w. destruct me as [|p|p]; [done|reflexivity..]. Qed.

(** A locked call whose body returns. *)
Lemma locked_returns {R} me (f : M R) w a w' :
  ClientApi.owner w <> me -> f (ClientApi.own me w) = (Ret a, w') ->
  lock_client me Valid f w = (Ret (Ok a), ClientApi.own 0 w').
Proof. intros Ho Hf. by rewrite lock_client_run, Hf. Qed.

Lemma reentrancy_passes me : me <> 0%Z -> passes (lock_client_rejects_reentrancy me).
Proof.
  intros Hme w. unfold lock_client_rejects_reentrancy. next.
  erewrite run_bind by (apply locked_returns; [unfold ClientApi.owner; simpl; congruence|by erewrite run_bind by (by apply lock_client_reentrant)]).
  cbv beta. next. next.
  erewrite run_bind by (apply locked_returns; [unfold ClientApi.owner; simpl; congruence|reflexivity]). reflexivity.
Qed.

Lemma build_header_passes me : me <> 0%Z -> passes (build_expresslane_header_rejects_bad_inputs me).
Proof.
  intros Hme w. unfold build_expresslane_header_rejects_bad_inputs, returns, build_header, he_conn_build_expresslane_header.
  cbn [create]. next. change (take 8 (replicate 8 x01)) with (replicate 8 x01). change (take 8 (zeros 8)) with (zeros 8).
  rewrite ones_session_allowed, zero_session_reserved. destruct me as [|p|p]; [done|reflexivity..].
Qed.

(** *** Timers *)

Lemma typed_ticks_pass : passes schedule_tick_cb_keeps_payload_ticks_typed.
Proof.
  intros w. pose proof (clock_steady (w_reads w)) as Hc. unfold schedule_tick_cb_keeps_payload_ticks_typed.
  next. next. next. next. simpl snd. rewrite match_pkt_codec_tick_spec. next. next. next. next. next. next.
  cbn. rewrite Z.min_r by (unfold from_millis, from_secs in *; lia). checked (by apply bool_decide_true).
  next. rewrite run_check; [done|]. apply Z.ltb_lt. cbn. unfold from_millis, from_secs in *. lia.
Qed.

Lemma duration_rounding_passes : passes timer_duration_rounds_positive_sub_millisecond_values_up.
Proof.
  intros w. unfold timer_duration_rounds_positive_sub_millisecond_values_up. do 7 next.
  assert (Hms : forall now d, (-1000000 <= d <= 1)%Z -> nudge_ms_until (Some (now + d)%Z) now = 1%Z).
  { intros now d Hd. unfold nudge_ms_until, deadline_to_timeout_ms, duration_to_timeout_ms, as_millis,
      duration_saturating_add, saturating_duration_since, DURATION_MAX, i32_MAX, u64_MAX. lia. }
  checked (by apply bool_decide_true, (Hms _ 1%Z)). 
  checked (apply bool_decide_true; rewrite <- (Z.add_0_r (env_time _)) at 1; by apply Hms).
  checked (apply bool_decide_true; rewrite <- Z.add_opp_r; by apply Hms). done.
Qed.

(** The notified timeout lies between the clock and the 500 ms deadline. *)
Lemma timeout_in_range deadline now :
  (now <= deadline <= now + from_millis 500)%Z ->
  ((0 <=? deadline_to_timeout_ms deadline now) && (deadline_to_timeout_ms deadline now <=? 500))%Z = true.
Proof.
  unfold from_millis, deadline_to_timeout_ms, duration_to_timeout_ms, as_millis, duration_saturating_add,
    saturating_duration_since, DURATION_MAX, i32_MAX, u64_MAX. intros Hd. apply andb_true_iff. split; apply Z.leb_le; lia.
Qed.

Lemma last_timeout_snoc c tr n k t x :
  last_timeout_ms (mkWorld c (tr ++ [CallNudgeTime k t x]) n) = (Ret t, mkWorld c (tr ++ [CallNudgeTime k t x]) n).
Proof. unfold last_timeout_ms. simpl. by rewrite last_snoc. Qed.

Lemma schedule_notifies d tick (st : CffiAppState tick_payload InsideIpConfig) cb t w :
  nudge_time_cb st = Some cb ->
  earliest_tick_deadline (record_tick (env_time (w_reads w)) d tick st) = Some t ->
  cffi_schedule_tick_cb d tick st w =
    (Ret (record_tick (env_time (w_reads w)) d tick st),
     mkWorld (w_client w)
       (w_trace w ++ [CallNudgeTime cb (deadline_to_timeout_ms t (env_time (w_reads w))) (app_ctx st)]) (S (w_reads w))).
Proof.
  intros Hcb Ht. unfold cffi_schedule_tick_cb, mbind, m_bind, instant_now. cbv beta iota zeta. unfold notify_timeout.
  assert (nudge_time_cb (record_tick (env_time (w_reads w)) d tick st) = Some cb) as ->
    by (destruct tick; simpl; done). rewrite Ht. by destruct tick.
Qed.

Lemma earliest_notified_passes : passes schedule_tick_cb_notifies_earliest_deadline.
Proof.
  intros w. pose proof (clock_steady (w_reads w)) as Hc. unfold schedule_tick_cb_notifies_earliest_deadline. cbv zeta.
  erewrite run_bind by (by apply schedule_notifies). cbv beta. erewrite run_bind by apply last_timeout_snoc. cbv beta.
  checked (apply timeout_in_range; cbn; unfold from_millis; lia).
  erewrite run_bind by (by apply schedule_notifies). cbv beta. erewrite run_bind by apply last_timeout_snoc.
  rewrite run_check; [done|].
  apply timeout_in_range. cbn. unfold from_millis, from_secs in *. lia.
Qed.

Lemma rearm_passes : passes connection_tick_error_rearms_only_pre_online_retry.
Proof.
  intros w. pose proof (clock_steady (w_reads w)) as Hc. unfold connection_tick_error_rearms_only_pre_online_retry.
  destruct timed_out_classified as [_ Ht], invalid_state_classified as [_ Hi], disconnected_classified as [_ Hd].
  unfold retry_connection_tick_after_error. rewrite Ht, Hi, Hd. cbn [negb andb pre_online]. cbv zeta.
  next. next. next. next. unfold saturating_duration_since. cbn.
  checked (apply Z.leb_le; unfold from_millis in *; lia). checked (apply Z.ltb_lt; unfold from_millis in *; lia). done.
Qed.

(** *** Failed ticks and the teardown *)

Lemma fatal_disconnect_passes : passes fatal_disconnect_fires_disconnected_once_and_clears_connection.
Proof.
  intros w. unfold fatal_disconnect_fires_disconnected_once_and_clears_connection. do 8 next.
  checked (apply bool_decide_true; simpl; rewrite filter_app, length_app; simpl; lia). done.
Qed.

Lemma tick_timeout_passes : passes connection_tick_timeout_clears_timer_and_disconnects_client.
Proof.
  intros w. destruct timed_out_classified as [Ht _].
  unfold connection_tick_timeout_clears_timer_and_disconnects_client, after_tick_error, handle_connection_tick_error.
  by rewrite Ht.
Qed.

Lemma tick_soft_error_passes : passes non_timeout_connection_tick_error_preserves_client_timer.
Proof.
  intros w. destruct invalid_state_classified as [Ht Hf].
  unfold non_timeout_connection_tick_error_preserves_client_timer, after_tick_error, handle_connection_tick_error.
  by rewrite Ht, Hf.
Qed.

Lemma tick_fatal_error_passes : passes fatal_non_timeout_tick_error_disconnects_client.
Proof.
  intros w. destruct disconnected_classified as [Ht Hf].
  unfold fatal_non_timeout_tick_error_disconnects_client, after_tick_error, handle_connection_tick_error.
  by rewrite Ht, Hf.
Qed.

(** *** The demultiplexer *)

Lemma identify_wire (e : bool) rest :
  he_conn_identify_packet (Some (header_append_to_wire MAXIMUM false e test_session ++ rest))
    (length (header_append_to_wire MAXIMUM false e test_session ++ rest)) (Some HE_PACKET_KIND_UNDECIDABLE)
    (Some (zeros 8)) (Some 0) =
  mkIdentify HE_SUCCESS (Some (if e then HE_PACKET_KIND_EXPRESSLANE else HE_PACKET_KIND_CONTROL))
    (Some test_session) (Some 16).
Proof.
  pose proof (header_length MAXIMUM false e test_session eq_refl) as Hlen.
  unfold he_conn_identify_packet. rewrite decide_False by (by intros [? _]). rewrite length_app, Hlen.
  rewrite decide_False by lia. cbn [from_option id]. rewrite take_app_length' by done.
  by rewrite (header_parses MAXIMUM false e test_session eq_refl).
Qed.

Lemma identify_passes : passes identify_packet_classifies_control_and_expresslane.
Proof.
  intros w. unfold identify_packet_classifies_control_and_expresslane, identify_one. by rewrite !identify_wire.
Qed.

Lemma identify_rejects_passes : passes identify_packet_rejects_bad_magic_short_and_null.
Proof.
  intros w. unfold identify_packet_rejects_bad_magic_short_and_null.
  assert (Hbad : he_conn_identify_packet (Some (zeros 20)) (length (zeros 20)) (Some HE_PACKET_KIND_CONTROL)
    (Some (replicate 8 xaa)) (Some 999) = mkIdentify HE_SUCCESS (Some HE_PACKET_KIND_UNDECIDABLE) (Some (zeros 8)) (Some 0)).
  { unfold he_conn_identify_packet. rewrite decide_False by (by intros [? _]). rewrite decide_False by (vm_compute; lia).
    change (take WIRE_SIZE (default [] (Some (zeros 20)))) with (zeros WIRE_SIZE). by rewrite bad_magic. }
  by rewrite Hbad.
Qed.

(** C32: the client interface passes its own tests, from any state of the world
    and for every thread, with any core that classifies its errors and headers as
    [lightway-core] does and any clock that does not jump by 250 ms between two
    readings. *)
Theorem client_tests_pass me : me <> 0%Z -> Forall passes (client_tests me).
Proof.
  intros Hme. unfold client_tests.
  repeat apply Forall_cons_2; try apply Forall_nil_2;
    auto using data_path_passes, rotate_passes, reentrancy_passes, build_header_passes, typed_ticks_pass,
      duration_rounding_passes, earliest_notified_passes, rearm_passes, fatal_disconnect_passes, tick_timeout_passes,
      tick_soft_error_passes, tick_fatal_error_passes, identify_passes, identify_rejects_passes;
    intros w; reflexivity.
Qed.

End Running.

(** ** Witness *)

Definition toy_core_facts : CoreFacts (H := ToyCore.toy_core) := {|
  TimedOut := (ToyCore.ToyTimeout : @core_error ToyCore.toy_core);
  InvalidState := (ToyCore.ToySoft : @core_error ToyCore.toy_core);
  DisconnectedError := (ToyCore.ToyFatal : @core_error ToyCore.toy_core);
  PktCodecTick := (fun n => n : @tick_payload ToyCore.toy_core);
  match_pkt_codec_tick := Some;
  MAXIMUM := (1%Z : @protocol_number ToyCore.toy_core);
  timed_out_classified := conj eq_refl eq_refl;
  invalid_state_classified := conj eq_refl eq_refl;
  disconnected_classified := conj eq_refl eq_refl;
  match_pkt_codec_tick_spec := fun n => eq_refl;
  bad_magic := eq_refl;
  zero_session_reserved := eq_refl;
  ones_session_allowed := eq_refl;
|}.

Lemma toy_clock_steady : SteadyClock (H := ToyCore.toy_env).
Proof. split. intros n. unfold env_time, ToyCore.toy_env, from_millis. lia. Qed.

Lemma client_tests_pass_witness :
  length (client_tests (H1 := toy_core_facts) 1) = 24 /\ Forall passes (client_tests (H1 := toy_core_facts) 1).
Proof.
  split; [reflexivity|].
  apply (client_tests_pass (H1 := toy_core_facts) (H2 := ToyCore.toy_header_laws) (H3 := toy_clock_steady)). discriminate.
Defined.

End ClientTests.
