(* ===== verification/ClientSchedule.v ===== *)
(** * The schedule of a connection under any core

    What a nudge does to the stored ticks when the core is arbitrary: its
    callbacks may schedule further ticks, from the connection tick and from the
    payload ticks being dispatched.  [core_ticks] says which ticks took the core
    from one state to another. *)

From stdpp Require Import base numbers list list_numbers option strings sets.
From Stdlib Require Import Strings.Byte.
From S2P Require Import Prelude ClientTypes Timer Conn Client ToyCore ClientFacts ClientProperties.
Import Timer.Timer Timer.TimerFacts Conn.Conn Client.Client ClientApi.

Ltac Zify.zify_post_hook ::= Z.div_mod_to_equations.

Section Schedule.
Context `{CEnv} `{Core}.
Abbreviation M := (M core_conn tick_payload).
Abbreviation world := (world core_conn tick_payload).
Abbreviation app_t := (CffiAppState tick_payload InsideIpConfig).
Implicit Types (w : world) (st : app_t) (cn : Connection core_conn tick_payload).

(** What the core's callbacks do to the timers: ticks are appended, and the
    plain tick is only moved forward. *)
Definition app_grows st st' : Prop :=
  pending_ticks st `prefix_of` pending_ticks st' /\
  (forall t, next_tick st = Some t -> exists u, next_tick st' = Some u /\ (u <= t)%Z).

#[global] Instance app_grows_preorder : PreOrder app_grows.
Proof.
  split; [intros st; split; [done|eauto with lia]|]. intros st1 st2 st3 [Hp12 Hn12] [Hp23 Hn23].
  split; [by etrans|]. intros t Ht. destruct (Hn12 t Ht) as (u & Hu & ?). destruct (Hn23 u Hu) as (v & Hv & ?).
  exists v. split; [done|lia].
Qed.

Lemma record_grows now d tick st : app_grows st (record_tick now d tick st).
Proof.
  destruct tick as [|p]; split; simpl; [done| |by eexists|eauto with lia].
  intros t ->. destruct (Z.leb_spec t (now + d)); eexists; (split; [done|lia]).
Qed.

(** A bind that returned went through a value of its first part. *)
Lemma bind_inv {A B} (m : M A) (f : A -> M B) w b w' :
  (m ≫= f) w = (Ret b, w') -> exists a w1, m w = (Ret a, w1) /\ f a w1 = (Ret b, w').
Proof. unfold mbind, m_bind. destruct (m w) as [[a|] w1]; [by eexists _, _|done]. Qed.

Ltac bind_inv H := let a := fresh "a" in let w1 := fresh "w" in let H1 := fresh "Hrun" in
  apply bind_inv in H as (a & w1 & H1 & H).

Lemma schedule_grows d tick st w st' w' :
  cffi_schedule_tick_cb d tick st w = (Ret st', w') -> app_grows st st'.
Proof.
  unfold cffi_schedule_tick_cb. intros Hr. bind_inv Hr.
  destruct (notify_timeout _ _ _) as [[[cb ms] ctx]|]; [bind_inv Hr|]; injection Hr as <- _; apply record_grows.
Qed.

Lemma ip_config_grows cbs cfg st w st' w' : on_ip_config cbs cfg st w = (Ret st', w') -> app_grows st st'.
Proof.
  unfold on_ip_config. intros Hr. assert (st' = set_ip_config cfg st) as ->.
  { destruct (cap_ip_config cbs); [do 2 bind_inv Hr|]; by injection Hr. }
  split; simpl; [done|eauto with lia].
Qed.

Lemma interp_grows {X A} cbs (p : prog tick_payload X A) : forall st w r st' w',
  interp cbs p st w = (Ret (r, st'), w') -> app_grows st st'.
Proof.
  induction p as [a|r|e k IH|buf k IH|buf k IH|cfg k IH|d tick k IH|sid sk pk v k IH|sid k IH];
    intros st w res st' w' Hr; simpl in Hr; [by injection Hr as _ <-|by injection Hr as _ <-|bind_inv Hr..].
  - by eapply IH.
  - by eapply IH.
  - by eapply IH.
  - etrans; [by eapply ip_config_grows|by eapply IH].
  - etrans; [by eapply schedule_grows|by eapply IH].
  - by eapply IH.
  - destruct a as [sent received]. by eapply IH.
Qed.

(** ** Which ticks the core ran

    [yields p r]: the program [p] can end with [r], for some answers to its
    requests. *)
Fixpoint yields {X A} (p : prog tick_payload X A) (r : A + X) : Prop :=
  match p with
  | PRet a => r = inl a
  | PPanic x => r = inr x
  | PEvent _ k | PIpConfig _ k | PScheduleTick _ _ k | PUpdateKeys _ _ _ _ k => yields k r
  | PSendOutside _ k | PSendInside _ k => exists sent, yields (k sent) r
  | PGetStats _ k => exists sent received, yields (k sent received) r
  end.

(** The core goes from one state to another by exactly these ticks, in order. *)
Inductive core_ticks : list (TickType tick_payload) -> core_conn -> core_conn -> Prop :=
| core_ticks_nil k : core_ticks [] k k
| core_ticks_cons t ts k k1 k2 res :
    yields (core_tick t k) (inl (k1, res)) -> core_ticks ts k1 k2 -> core_ticks (t :: ts) k k2.

Lemma core_ticks_app ts1 ts2 k1 k2 k3 :
  core_ticks ts1 k1 k2 -> core_ticks ts2 k2 k3 -> core_ticks (ts1 ++ ts2) k1 k3.
Proof. induction 1; simpl; eauto using core_ticks. Qed.

Lemma core_ticks_one t k k' res : yields (core_tick t k) (inl (k', res)) -> core_ticks [t] k k'.
Proof. eauto using core_ticks. Qed.

Lemma interp_yields {X A} cbs (p : prog tick_payload X A) : forall st w r st' w',
  interp cbs p st w = (Ret (r, st'), w') -> yields p r.
Proof.
  induction p as [a|r|e k IH|buf k IH|buf k IH|cfg k IH|d tick k IH|sid sk pk v k IH|sid k IH];
    intros st w res st' w' Hr; simpl in Hr |- *; [by injection Hr|by injection Hr|bind_inv Hr..]; eauto.
  destruct a as [sent received]. eauto.
Qed.

Lemma core_call_yields cn t k w res w' :
  core_call cn (core_tick t k) w = (Ret res, w') ->
  exists cn', live w' = Some cn' /\ yields (core_tick t k) (inl (cn_core cn', res)).
Proof.
  unfold core_call. intros Hr. bind_inv Hr. destruct a as [[[core x]|core] st]; bind_inv Hr; [|done].
  injection Hrun0 as _ <-. injection Hr as <- <-. eexists. split; [done|]. by eapply interp_yields.
Qed.

(** A method of the core that returns leaves a connection with grown timers. *)
Lemma core_call_grows {A} cn (p : prog tick_payload core_conn (core_conn * A)) w a w' :
  core_call cn p w = (Ret a, w') -> exists cn', live w' = Some cn' /\ app_grows (cn_app cn) (cn_app cn').
Proof.
  unfold core_call. intros Hr. bind_inv Hr. destruct a0 as [[[core x]|core] st].
  - injection Hr as _ <-. eexists. split; [done|]. by eapply interp_grows.
  - bind_inv Hr. done.
Qed.

Definition payload_ticks (l : list (Z * tick_payload)) : list (TickType tick_payload) :=
  (fun x => PayloadTick x.2) <$> l.

Lemma dispatch_grows ct due : forall w cn res w',
  live w = Some cn -> dispatch_due ct due w = (Ret res, w') ->
  (forall e, res = Some e -> is_fatal e ct = true) /\
  exists cn', live w' = Some cn' /\ app_grows (cn_app cn) (cn_app cn') /\
    (res = None -> core_ticks (payload_ticks due) (cn_core cn) (cn_core cn')).
Proof.
  induction due as [|[t tick] due IH]; intros w cn res w' Hl Hr; simpl in Hr.
  { injection Hr as <- <-. split; [done|]. exists cn. split_and!; [done..|]. intros _. constructor. }
  bind_inv Hr. injection Hrun as <- <-. unfold live in Hl. rewrite Hl in Hr. bind_inv Hr.
  destruct (core_call_grows _ _ _ _ _ Hrun) as (cn1 & Hl1 & Hg1).
  destruct (core_call_yields _ _ _ _ _ _ Hrun) as (cn1' & Hl1' & Hy). rewrite Hl1 in Hl1'. injection Hl1' as <-.
  assert (Hrest : dispatch_due ct due w0 = (Ret res, w') -> (forall e, res = Some e -> is_fatal e ct = true) /\
    exists cn', live w' = Some cn' /\ app_grows (cn_app cn) (cn_app cn') /\
      (res = None -> core_ticks (payload_ticks ((t, tick) :: due)) (cn_core cn) (cn_core cn'))).
  { intros Hd. destruct (IH _ _ _ _ Hl1 Hd) as (Hf & cn' & Hl' & Hg' & Hc'). split; [done|]. exists cn'.
    split_and!; [done|by etrans|]. intros Hn. eapply core_ticks_cons; [exact Hy|by apply Hc']. }
  destruct a as [[]|e]; [by apply Hrest|]. destruct (is_fatal e ct) eqn:Hf; [|by apply Hrest].
  injection Hr as <- <-. split; [by intros ? [= ->]|]. by exists cn1.
Qed.

(** The clock is only read forward. *)
Definition reads_forward w w' : Prop := w_reads w <= w_reads w'.

#[global] Instance reads_forward_preorder : PreOrder reads_forward.
Proof. split; unfold reads_forward; [intros ?; lia|intros ???; lia]. Qed.

Lemma reads_forward_actions : client_actions reads_forward (fun _ => True).
Proof.
  assert (Hopt : forall cb mk, respects reads_forward (call_opt cb mk)) by (intros [cb|] mk w; unfold reads_forward; simpl; lia).
  assert (Hconn : forall f, respects reads_forward (modify_conn f)) by (intros f w; unfold reads_forward; simpl; lia).
  split.
  - split; [intros call _ w|intros w|intros cbs st _]; [unfold reads_forward; simpl; lia..|].
    by apply (respects_bind reads_forward).
  - intros cn _ w. unfold reads_forward. simpl. lia.
  - intros w. unfold reads_forward. simpl. lia.
  - intros st ctx. apply (respects_bind reads_forward); [done|]. intros _. apply (respects_get reads_forward).
    intros w. apply Hopt.
  - intros v. apply Hconn.
  - apply (respects_get reads_forward). intros w. destruct (connection (w_client w)); [|unfold reads_forward; simpl; lia].
    by do 2 (apply (respects_bind reads_forward); [done|intros _]).
  - auto.
Qed.

(** The connection tick: ticks are only appended to, and the plain tick is taken
    out exactly when it is due. *)
Lemma connection_tick_grows w cn now res w' :
  live w = Some cn -> nudge_connection_tick cn now w = (Ret res, w') ->
  w_reads w <= w_reads w' /\ (should_tick (cn_app cn) now = false -> res = None /\ w' = w) /\
  exists cn', live w' = Some cn' /\
    core_ticks (if should_tick (cn_app cn) now then [ConnectionTick] else []) (cn_core cn) (cn_core cn') /\
    app_grows (if should_tick (cn_app cn) now then set_next_tick None (cn_app cn) else cn_app cn) (cn_app cn').
Proof.
  intros Hl Hr. split.
  { change (reads_forward w w'). pose proof (respects_connection_tick reads_forward _ reads_forward_actions cn now I w) as Hf.
    by rewrite Hr in Hf. }
  unfold nudge_connection_tick in Hr. destruct (should_tick _ _).
  2:{ injection Hr as <- <-. split; [done|]. exists cn. split_and!; [done|constructor|done]. }
  split; [done|].
  bind_inv Hr. bind_inv Hr. destruct (core_call_grows _ _ _ _ _ Hrun0) as (cn1 & Hl1 & Hg1). cbn [cn_app] in Hg1.
  destruct (core_call_yields _ _ _ _ _ _ Hrun0) as (cn1' & Hl1' & Hy%core_ticks_one).
  rewrite Hl1 in Hl1'. injection Hl1' as <-.
  destruct a0 as [[]|e]; [by injection Hr as _ <-; exists cn1|].
  bind_inv Hr. injection Hrun1 as <- <-. unfold live in Hl1. rewrite Hl1 in Hr. bind_inv Hr. destruct a0 as [b app].
  injection Hr as _ <-. eexists. split; [done|]. cbn [cn_app cn_core]. split; [done|]. etrans; [exact Hg1|].
  unfold retry_connection_tick_after_error in Hrun1. destruct (negb _ && _); [|by injection Hrun1 as _ <-].
  bind_inv Hrun1. injection Hrun1 as _ <- _. by eapply schedule_grows.
Qed.

Lemma refresh_run w :
  exists k, refresh_nudge_time w =
    (Ret tt, mkWorld (mkClient (set_nudge_time_ms (remaining_ms (w_client w) (env_time (w_reads w))) k)
       (ssl_ctx (w_client w)) (live w)) (w_trace w) (S (w_reads w))).
Proof. by exists (conn (w_client w)). Qed.

(** The published time of a world that holds a connection. *)
Definition published w cn : Prop :=
  nudge_time_ms (conn (w_client w)) = nudge_ms_until (earliest_tick_deadline (cn_app cn)) (env_time (pred (w_reads w))).

(** A tick that is still stored is published in time. *)
Lemma published_in_time w cn t :
  published w cn -> t ∈ deadlines (cn_app cn) ->
  (1 <= nudge_time_ms (conn (w_client w)) <= deadline_to_timeout_ms t (env_time (pred (w_reads w))))%Z.
Proof.
  intros -> Ht. pose proof (earliest_spec (cn_app cn)) as He.
  destruct (earliest_tick_deadline (cn_app cn)) as [e|]; [|by rewrite He in Ht; apply elem_of_nil in Ht].
  destruct He as [_ He]. specialize (He t Ht). simpl. split; [apply deadline_timeout_range|].
  unfold deadline_to_timeout_ms, duration_to_timeout_ms, as_millis, duration_saturating_add, saturating_duration_since. lia.
Qed.

(** The payload part: the ticks that are not due stay, in order. *)
Lemma payload_ticks_keep w cn res w' :
  nudge_payload_ticks cn w = (Ret res, w') ->
  S (w_reads w) <= w_reads w' /\ (forall e ct, res = Some (e, ct) -> is_fatal e ct = true) /\
  exists cn', live w' = Some cn' /\
    (res = None -> core_ticks (payload_ticks (filter (fun x => (x.1 <= env_time (w_reads w))%Z) (pending_ticks (cn_app cn))))
       (cn_core cn) (cn_core cn')) /\
    app_grows (set_pending_ticks (filter (fun x => ~ (x.1 <= env_time (w_reads w))%Z) (pending_ticks (cn_app cn))) (cn_app cn))
      (cn_app cn').
Proof.
  unfold nudge_payload_ticks. intros Hr. rewrite run_now in Hr. unfold partition_due in Hr. rewrite run_put in Hr.
  bind_inv Hr. edestruct dispatch_grows as (Hf & cn' & Hl' & Hg' & Hc'); [|exact Hrun|]; [done|].
  injection Hr as <- <-. split_and!.
  - pose proof (respects_dispatch reads_forward _ reads_forward_actions (core_connection_type (cn_core cn))
      (filter (fun x => (x.1 <= env_time (w_reads w))%Z) (pending_ticks (cn_app cn)))) as Hd.
    match type of Hrun with _ ?w1 = _ => specialize (Hd w1); rewrite Hrun in Hd end. exact Hd.
  - intros e ct Hres. destruct a as [e'|]; simplify_eq/=. by apply Hf.
  - exists cn'. split_and!; [done| |done]. intros Hres. apply Hc'. by destruct a.
Qed.

(** What a world keeps of the schedule of [cn] since the reading [n0]. *)
Definition kept (n0 : nat) (now : Z) cn w (cn' : Connection core_conn tick_payload) : Prop :=
  (exists n, n0 <= n < w_reads w /\
     filter (fun x => ~ (x.1 <= env_time n)%Z) (pending_ticks (cn_app cn)) `sublist_of` pending_ticks (cn_app cn')) /\
  (forall t, next_tick (cn_app cn) = Some t -> (now < t)%Z -> exists u, next_tick (cn_app cn') = Some u /\ (u <= t)%Z).

(** A torn-down connection publishes nothing; otherwise an error changes nothing. *)
Lemma tick_error_published e ct w code w' :
  handle_connection_tick_error e ct w = (Ret code, w') ->
  (live w' = None /\ nudge_time_ms (conn (w_client w')) = 0%Z \/
   w' = w /\ is_fatal e ct = false /\ code = HE_ERR_FAILED) /\ code <> HE_SUCCESS.
Proof.
  intros Hr. destruct (tick_error_run e ct w) as (w1 & Hrun & Hdown & Hsame).
  rewrite Hr in Hrun. injection Hrun as -> <-. unfold tick_error_code. split.
  - destruct (is_timed_out e), (is_fatal e ct); try (left; destruct Hdown as ((? & _) & ?); [tauto|done]).
    right. by rewrite Hsame.
  - by destruct (is_timed_out e).
Qed.

(** The plain tick of the first part of a nudge, when it was not due. *)
Lemma not_due_kept cn now st t :
  app_grows (if should_tick (cn_app cn) now then set_next_tick None (cn_app cn) else cn_app cn) st ->
  next_tick (cn_app cn) = Some t -> (now < t)%Z -> exists u, next_tick st = Some u /\ (u <= t)%Z.
Proof.
  intros [_ Hn] Ht Hnow. rewrite not_due in Hn by (intros u Hu; simplify_eq; lia). by apply Hn.
Qed.

Lemma grown_pending cn now st :
  app_grows (if should_tick (cn_app cn) now then set_next_tick None (cn_app cn) else cn_app cn) st ->
  pending_ticks (cn_app cn) `prefix_of` pending_ticks st.
Proof. intros [Hp _]. by destruct (should_tick _ _). Qed.

(** ** The three ways a nudge of a live connection returns *)

(** The ticks of the first part: the connection tick, if it is due. *)
Definition connection_ticks cn (now : Z) : list (TickType tick_payload) :=
  match next_tick (cn_app cn) with
  | Some t => if decide (t <= now)%Z then [ConnectionTick] else []
  | None => []
  end.

Lemma connection_ticks_due cn now :
  connection_ticks cn now = (if should_tick (cn_app cn) now then [ConnectionTick] else []).
Proof.
  unfold connection_ticks, should_tick. destruct (next_tick (cn_app cn)) as [t|]; [|done].
  case_decide as Ht; [by apply Z.leb_le in Ht as ->|]. by apply Z.nle_gt, Z.leb_gt in Ht as ->.
Qed.

Abbreviation due_at n := (fun x : Z * tick_payload => (x.1 <= env_time n)%Z).
Abbreviation later_than n := (fun x : Z * tick_payload => ~ (x.1 <= env_time n)%Z).

(** The connection was torn down; the connection tick failed softly; or both
    parts ran, the second at the reading [n] and from the connection [cn1]. *)
Inductive nudged w cn : he_return_code_t -> world -> Prop :=
| nudged_down code w' :
    live w' = None -> nudge_time_ms (conn (w_client w')) = 0%Z -> code <> HE_SUCCESS -> nudged w cn code w'
| nudged_soft w' cn1 :
    connection_ticks cn (env_time (w_reads w)) <> [] ->
    core_ticks [ConnectionTick] (cn_core cn) (cn_core cn1) ->
    app_grows (set_next_tick None (cn_app cn)) (cn_app cn1) ->
    S (w_reads w) < w_reads w' -> live w' = Some cn1 -> published w' cn1 -> nudged w cn HE_ERR_FAILED w'
| nudged_both w' cn1 cn2 n :
    core_ticks (connection_ticks cn (env_time (w_reads w))) (cn_core cn) (cn_core cn1) ->
    app_grows (if should_tick (cn_app cn) (env_time (w_reads w)) then set_next_tick None (cn_app cn) else cn_app cn)
      (cn_app cn1) ->
    (connection_ticks cn (env_time (w_reads w)) = [] -> cn1 = cn /\ n = S (w_reads w)) ->
    core_ticks (payload_ticks (filter (due_at n) (pending_ticks (cn_app cn1)))) (cn_core cn1) (cn_core cn2) ->
    app_grows (set_pending_ticks (filter (later_than n) (pending_ticks (cn_app cn1))) (cn_app cn1)) (cn_app cn2) ->
    (connection_ticks cn (env_time (w_reads w)) = [] -> filter (due_at n) (pending_ticks (cn_app cn1)) = [] ->
       w_trace w' = w_trace w) ->
    w_reads w < n -> n < pred (w_reads w') -> live w' = Some cn2 -> published w' cn2 -> nudged w cn HE_SUCCESS w'.

Lemma payload_ticks_idle cn w res w' :
  nudge_payload_ticks cn w = (Ret res, w') -> filter (due_at (w_reads w)) (pending_ticks (cn_app cn)) = [] ->
  w_trace w' = w_trace w.
Proof.
  unfold nudge_payload_ticks. rewrite run_now. unfold partition_due. rewrite run_put. intros Hr Hnil. rewrite Hnil in Hr.
  by injection Hr as _ <-.
Qed.

(** The second part. *)
Lemma payload_part w0 cn1 payload_error code w' w'' :
  nudge_payload_ticks cn1 w0 = (Ret payload_error, w') ->
  match payload_error with
  | Some (e, ct) => handle_connection_tick_error e ct
  | None => _ ← refresh_nudge_time; mret HE_SUCCESS
  end w' = (Ret code, w'') ->
  (live w'' = None /\ nudge_time_ms (conn (w_client w'')) = 0%Z /\ code <> HE_SUCCESS) \/
  exists cn2, code = HE_SUCCESS /\ live w'' = Some cn2 /\ published w'' cn2 /\ w_reads w0 < pred (w_reads w'') /\
    core_ticks (payload_ticks (filter (due_at (w_reads w0)) (pending_ticks (cn_app cn1)))) (cn_core cn1) (cn_core cn2) /\
    app_grows (set_pending_ticks (filter (later_than (w_reads w0)) (pending_ticks (cn_app cn1))) (cn_app cn1)) (cn_app cn2) /\
    (filter (due_at (w_reads w0)) (pending_ticks (cn_app cn1)) = [] -> w_trace w'' = w_trace w0).
Proof.
  intros Hp Hr. destruct (payload_ticks_keep _ _ _ _ Hp) as (Hreads & Hfatal & cn2 & Hl2 & Hc2 & Hg2).
  destruct payload_error as [[e ct]|].
  - left. destruct (tick_error_published _ _ _ _ _ Hr) as [[[-> Hz]|(_ & Hf & _)] Hcode]; [done|].
    by rewrite (Hfatal e ct eq_refl) in Hf.
  - right. destruct (refresh_run w') as [k Hk]. rewrite (run_bind _ _ _ _ _ Hk) in Hr. injection Hr as <- <-.
    exists cn2. split_and!; [done|done| |simpl; lia|by apply Hc2|done|by apply (payload_ticks_idle _ _ _ _ Hp)].
    unfold published, remaining_ms. simpl. unfold live in Hl2. by rewrite Hl2.
Qed.

Lemma nudge_inv w cn code w' :
  live w = Some cn -> nudge_locked w = (Ret code, w') -> nudged w cn code w'.
Proof.
  intros Hl Hr. unfold nudge_locked in Hr. rewrite run_now, run_get in Hr. cbn [w_client] in Hr.
  unfold live in Hl. rewrite Hl in Hr.
  bind_inv Hr. edestruct connection_tick_grows as (Hreads & Hnone & cn1 & Hl1 & Hc1 & Hg1); [|exact Hrun|]; [exact Hl|].
  cbn [w_reads] in Hreads, Hnone. rewrite <- connection_ticks_due in Hc1. destruct a as [[e ct]|].
  - destruct (refresh_run w0) as [k Hk]. rewrite (run_bind _ _ _ _ _ Hk) in Hr.
    destruct (tick_error_published _ _ _ _ _ Hr) as [[[Hl' Hz]|(-> & _ & ->)] Hcode]; [by apply nudged_down|].
    assert (Hst : should_tick (cn_app cn) (env_time (w_reads w)) = true).
    { destruct (should_tick _ _); [done|]. by destruct (Hnone eq_refl). }
    rewrite Hst in Hg1. rewrite connection_ticks_due, Hst in Hc1.
    apply (nudged_soft _ _ _ cn1); try done; [by rewrite connection_ticks_due, Hst|simpl; lia|].
    unfold published, remaining_ms. simpl. unfold live in Hl1. by rewrite Hl1.
  - destruct (sync_run w0) as [k Hk]. rewrite (run_bind _ _ _ _ _ Hk), run_get in Hr. cbn [w_client connection] in Hr.
    rewrite Hl1 in Hr. bind_inv Hr.
    destruct (payload_part _ _ _ _ _ _ Hrun0 Hr) as [(? & ? & ?)|(cn2 & -> & Hl2 & Hp2 & Hr2 & Hc2 & Hg2 & Ht2)];
      [by apply nudged_down|]. cbn [w_reads w_trace] in Hr2, Hc2, Hg2, Ht2.
    assert (Hidle : connection_ticks cn (env_time (w_reads w)) = [] -> w0 = mkWorld (w_client w) (w_trace w) (S (w_reads w))).
    { rewrite connection_ticks_due. intros Hnil. destruct (should_tick _ _); [done|]. by destruct (Hnone eq_refl). }
    apply (nudged_both _ _ _ cn1 cn2 (w_reads w0)); try done.
    + intros ->%Hidle. unfold live in Hl1. simpl in *. rewrite Hl in Hl1. by injection Hl1.
    + intros Hnil Hdue. rewrite Ht2 by done. by rewrite (Hidle Hnil).
Qed.

Lemma nudge_schedule w cn code w' :
  live w = Some cn -> nudge_locked w = (Ret code, w') ->
  match live w' with
  | Some cn' =>
      published w' cn' /\
      (forall t, t ∈ deadlines (cn_app cn') ->
         (1 <= nudge_time_ms (conn (w_client w')) <= deadline_to_timeout_ms t (env_time (pred (w_reads w'))))%Z) /\
      kept (w_reads w) (env_time (w_reads w)) cn w' cn'
  | None => nudge_time_ms (conn (w_client w')) = 0%Z /\ code <> HE_SUCCESS
  end.
Proof.
  intros Hl Hr.
  cut (match live w' with
       | Some cn' => published w' cn' /\ kept (w_reads w) (env_time (w_reads w)) cn w' cn'
       | None => nudge_time_ms (conn (w_client w')) = 0%Z /\ code <> HE_SUCCESS
       end).
  { destruct (live w') as [cn'|]; [|done]. intros [Hp Hk]. split; [done|]. split; [|done]. intros t. by apply published_in_time. }
  destruct (nudge_inv w cn code w' Hl Hr) as [code w' -> Hz Hcode|w' cn1 Hdue _ Hg Hreads -> Hp|w' cn1 cn2 n _ Hg1 _ _ Hg2 _ Hn Hn' -> Hp];
    [done|split; [done|]..].
  - assert (Hst : should_tick (cn_app cn) (env_time (w_reads w)) = true).
    { rewrite connection_ticks_due in Hdue. by destruct (should_tick _ _). }
    split; [|intros t; apply not_due_kept; by rewrite Hst].
    exists (w_reads w). split; [lia|]. etrans; [apply sublist_filter|]. destruct Hg as [[new ->] _]. by apply sublist_inserts_r.
  - destruct Hg2 as [[new2 Hp2] Hn2]. split.
    + exists n. split; [lia|]. rewrite Hp2. apply sublist_inserts_r.
      simpl. destruct (grown_pending _ _ _ Hg1) as [new ->]. rewrite filter_app. by apply sublist_inserts_r.
    + intros t Ht Hnow. destruct (not_due_kept _ _ _ _ Hg1 Ht Hnow) as (u & Hu & ?).
      destruct (Hn2 u Hu) as (v & Hv & ?). exists v. split; [done|lia].
Qed.

Lemma nudge_runs w cn code w' cn' :
  nudged w cn code w' -> live w' = Some cn' ->
  exists extra n, w_reads w < n < w_reads w' /\
    (connection_ticks cn (env_time (w_reads w)) = [] -> extra = [] /\ n = S (w_reads w) /\ code = HE_SUCCESS /\
       (filter (due_at n) (pending_ticks (cn_app cn) ++ extra) = [] -> w_trace w' = w_trace w)) /\
    if decide (code = HE_SUCCESS) then
      core_ticks (connection_ticks cn (env_time (w_reads w)) ++
                  payload_ticks (filter (due_at n) (pending_ticks (cn_app cn) ++ extra))) (cn_core cn) (cn_core cn') /\
      filter (later_than n) (pending_ticks (cn_app cn) ++ extra) `prefix_of` pending_ticks (cn_app cn')
    else
      code = HE_ERR_FAILED /\ core_ticks (connection_ticks cn (env_time (w_reads w))) (cn_core cn) (cn_core cn') /\
      pending_ticks (cn_app cn') = pending_ticks (cn_app cn) ++ extra.
Proof.
  intros [code0 w0 Hl _ _|w0 cn1 Hdue Hc [[extra Hp] _] Hreads Hl _|w0 cn1 cn2 n Hc1 Hg1 Hfirst Hc2 Hg2 Hidle Hn Hn' Hl _] Hl';
    [congruence|rewrite Hl in Hl'; injection Hl' as <-..].
  - exists extra, (S (w_reads w)).
    split; [lia|]. split; [done|]. rewrite decide_False by done. split_and!; [done| |done].
    rewrite connection_ticks_due in Hdue |- *. by destruct (should_tick _ _).
  - destruct (grown_pending _ _ _ Hg1) as [extra Hp]. destruct Hg2 as [Hpre _]. exists extra, n. rewrite <- Hp.
    split; [lia|]. split; [|rewrite decide_True by done; split; [by eapply core_ticks_app|done]].
    intros Hnil. destruct (Hfirst Hnil) as [-> ->]. split_and!; auto.
    apply (app_inv_head (pending_ticks (cn_app cn))). by rewrite app_nil_r.
Qed.

End Schedule.

Module ClientScheduleProperties.

Section Properties.
Context `{CEnv} `{Core}.
Abbreviation world := (world core_conn tick_payload).
Abbreviation due_at n := (fun x : Z * tick_payload => (x.1 <= env_time n)%Z).
Abbreviation later_than n := (fun x : Z * tick_payload => ~ (x.1 <= env_time n)%Z).
Implicit Types (w : world).

(** C20: what a nudge runs.  When a nudge of a live connection returns and the
    connection stays, the core has run exactly these ticks, in this order: the
    connection tick if one was scheduled and due at the first reading of the clock,
    and then, if the nudge reports success, the payload ticks due at the reading
    [n] of the second part, each once and with its own payload, among those that
    were pending and those the connection tick has scheduled ([extra]); the others
    stay pending in order.  A nudge that does not report success has run the
    connection tick only, which failed softly, and kept every payload tick.  If no
    connection tick was due, [n] is the second reading and nothing was added; if
    no payload tick was due either, the core was not run and C was told nothing.
    The core is arbitrary: its ticks may send, schedule and fail. *)
Theorem nudge_dispatches_due w cn code w' cn' :
  live w = Some cn -> nudge_locked w = (Ret code, w') -> live w' = Some cn' ->
  let first := connection_ticks cn (env_time (w_reads w)) in
  exists extra n, w_reads w < n < w_reads w' /\
    let all := pending_ticks (cn_app cn) ++ extra in
    (first = [] -> extra = [] /\ n = S (w_reads w) /\ code = HE_SUCCESS /\
       (filter (due_at n) all = [] -> w_trace w' = w_trace w)) /\
    if decide (code = HE_SUCCESS) then
      core_ticks (first ++ payload_ticks (filter (due_at n) all)) (cn_core cn) (cn_core cn') /\
      filter (later_than n) all `prefix_of` pending_ticks (cn_app cn')
    else
      code = HE_ERR_FAILED /\ core_ticks first (cn_core cn) (cn_core cn') /\ pending_ticks (cn_app cn') = all.
Proof.
  intros Hl Hr Hl'. cbv zeta. apply (nudge_runs w cn code w' cn'); [by apply nudge_inv|done].
Qed.

(** C21: ticks that are not due are kept, whatever the core schedules.  When a nudge of a live
    connection returns and the connection stays, the published time is exactly
    that to the earliest stored deadline, so every stored tick is published in
    time; every payload tick that was not due at some reading of the clock during
    the call is still stored, in order and with its payload; and a plain tick that
    was not due is stored with a deadline no later.  When the connection is torn
    down no time is published and the nudge reports an error. *)
Theorem nudge_keeps_schedule w cn code w' :
  live w = Some cn -> nudge_locked w = (Ret code, w') ->
  match live w' with
  | Some cn' =>
      published w' cn' /\
      (forall t, t ∈ deadlines (cn_app cn') ->
         (1 <= nudge_time_ms (conn (w_client w')) <= deadline_to_timeout_ms t (env_time (pred (w_reads w'))))%Z) /\
      (exists n, w_reads w <= n < w_reads w' /\
         filter (fun x => ~ (x.1 <= env_time n)%Z) (pending_ticks (cn_app cn)) `sublist_of` pending_ticks (cn_app cn')) /\
      (forall t, next_tick (cn_app cn) = Some t -> (env_time (w_reads w) < t)%Z ->
         exists u, next_tick (cn_app cn') = Some u /\ (u <= t)%Z)
  | None => nudge_time_ms (conn (w_client w')) = 0%Z /\ code <> HE_SUCCESS
  end.
Proof. apply nudge_schedule. Qed.

End Properties.

Import ToyCore.

(** Of three pending ticks two are due. *)
Lemma nudge_dispatches_due_witness :
  let w := toy_live_with Online None None [(500%Z, 7); (900000%Z, 8); (900%Z, 9)] in
  exists w' cn', nudge_locked w = (Ret HE_SUCCESS, w') /\ live w' = Some cn' /\
    core_ticks [PayloadTick 7; PayloadTick 9] (mkToy Online [] None) (cn_core cn').
Proof.
  intros w. set (cn := toy_connection Online None None [(500%Z, 7); (900000%Z, 8); (900%Z, 9)]).
  assert (Hr : nudge_locked w = (Ret HE_SUCCESS, (nudge_locked w).2)) by (vm_compute; reflexivity).
  destruct (live (nudge_locked w).2) as [cn'|] eqn:Hl; [|vm_compute in Hl; discriminate].
  exists (nudge_locked w).2, cn'. split; [exact Hr|]. split; [exact Hl|].
  destruct (nudge_dispatches_due w cn HE_SUCCESS (nudge_locked w).2 cn' eq_refl Hr Hl)
    as (extra & n & _ & Hfirst & Hc & _). destruct (Hfirst eq_refl) as (-> & -> & _). exact Hc.
Defined.

(** The tick due at 500 schedules another one while it is dispatched. *)
Lemma nudge_keeps_schedule_witness :
  let w := toy_live_with Online None None [(500%Z, 0); (900000%Z, 8)] in
  exists w' cn', nudge_locked w = (Ret HE_SUCCESS, w') /\ live w' = Some cn' /\
    pending_ticks (cn_app cn') = [(900000%Z, 8); (52000%Z, 1)] /\ published w' cn'.
Proof.
  intros w. set (cn := toy_connection Online None None [(500%Z, 0); (900000%Z, 8)]).
  assert (Hr : nudge_locked w = (Ret HE_SUCCESS, (nudge_locked w).2)) by (vm_compute; reflexivity).
  pose proof (nudge_keeps_schedule w cn HE_SUCCESS (nudge_locked w).2 eq_refl Hr) as Hk.
  destruct (live (nudge_locked w).2) as [cn'|] eqn:Hl; [|vm_compute in Hl; discriminate].
  exists (nudge_locked w).2, cn'. split; [exact Hr|]. split; [exact Hl|].
  split; [|exact (proj1 Hk)]. vm_compute in Hl. injection Hl as <-. reflexivity.
Defined.

End ClientScheduleProperties.
