(* ===== verification/ClientHost.v ===== *)
(** * The host's timer loop

    The host of a client has one timer: it nudges the connection, waits for the
    time the nudge published, and nudges again.  This is a client of the timer
    contract that [Timer] and [ClientSchedule] establish.  The core is arbitrary:
    its ticks may send, schedule further ticks and fail softly. *)

From stdpp Require Import base numbers list list_numbers option sets.
From S2P Require Import Prelude ClientTypes Timer Conn Client ToyCore ClientFacts ClientProperties ClientSchedule.
Import Timer.Timer TimerFacts Conn.Conn Client.Client ClientApi ClientProperties.

Module HostLoop.

Section HostLoop.
Context `{CEnv} `{Core}.
Abbreviation world := (world core_conn tick_payload).
Abbreviation tick := (Z * tick_payload)%type.
Implicit Types (w : world) (x : tick).

Definition NANOS_PER_MS : Z := 1000000.

(** The client after [i] nudges. *)
Fixpoint after (me : Z) (i : nat) w : world :=
  match i with
  | O => w
  | S i => after me i (api me ANudge w).2
  end.

(** The clock at the last reading, and at the next. *)
Definition last_time w : Z := env_time (pred (w_reads w)).
Definition next_time w : Z := env_time (w_reads w).

(** The host wakes up no earlier than the published time, and at most [late]
    after it. *)
Definition woken (late : Z) w : Prop :=
  let wake := (last_time w + nudge_time_ms (conn (w_client w)) * NANOS_PER_MS)%Z in
  (wake <= next_time w <= wake + late)%Z.

Definition has_pending x w : Prop := exists cn, live w = Some cn /\ x ∈ pending_ticks (cn_app cn).

(** A successful nudge from [w] to [w'] whose payload part read the clock for the
    [r]-th time: what it ran, and what it left pending. *)
Definition round_at (r : nat) w w' : Prop :=
  exists cn cn' extra, live w = Some cn /\ live w' = Some cn' /\ w_reads w < r < w_reads w' /\
    let all := pending_ticks (cn_app cn) ++ extra in
    core_ticks (connection_ticks cn (env_time (w_reads w)) ++ payload_ticks (filter (fun x => (x.1 <= env_time r)%Z) all))
      (cn_core cn) (cn_core cn') /\
    filter (fun x => ~ (x.1 <= env_time r)%Z) all `prefix_of` pending_ticks (cn_app cn').

Definition unlocked w : Prop := client_ptr (conn (w_client w)) = Valid /\ owner w = 0%Z.

Context (clock : forall n, (env_time n <= env_time (S n))%Z).

Lemma clock_mono n m : n <= m -> (env_time n <= env_time m)%Z.
Proof. induction 1 as [|m _ IH]; [done|]. etrans; [exact IH|apply clock]. Qed.

Lemma nudge_unlocked me w : me <> 0%Z -> unlocked w -> unlocked (api me ANudge w).2.
Proof.
  intros Hme [Hp Ho]. destruct (api_frame me ANudge w Hp Ho Hme) as [Hcfg _].
  revert Hcfg. generalize (api me ANudge w).2. intros w' Hcfg. unfold config_of in Hcfg. injection Hcfg as Hp' Ho' _ _ _ _ _ _ _.
  unfold unlocked, owner in *. split; congruence.
Qed.

(** A nudge through the API that succeeds, as its locked part. *)
Lemma api_nudged me w cn :
  me <> 0%Z -> unlocked w -> live w = Some cn -> (api me ANudge w).1 = Ret HE_SUCCESS ->
  nudged w cn HE_SUCCESS (api me ANudge w).2.
Proof.
  intros Hme [Hp Ho] Hl. rewrite api_run by (rewrite ?Ho; done). cbn [body fst snd].
  destruct (nudge_locked (own me w)) as [[code|] w'] eqn:Hr; [|done]. cbn [fst snd code_or_failed]. intros [= ->].
  assert (Hn : nudged (own me w) cn HE_SUCCESS w') by (by apply nudge_inv).
  inversion Hn as [code' w0 _ _ Hne|w0 cn1|w0 cn1 cn2 n]; subst; [done|].
  by apply (nudged_both w cn (own 0 w') cn1 cn2 n).
Qed.

(** One round: the nudge ran the tick, or left it pending and announced it. *)
Lemma one_round me w x :
  me <> 0%Z -> unlocked w -> has_pending x w -> (api me ANudge w).1 = Ret HE_SUCCESS ->
  let w' := (api me ANudge w).2 in
  exists r, round_at r w w' /\
    ((env_time r < x.1)%Z -> has_pending x w' /\
       (1 <= nudge_time_ms (conn (w_client w')) <= deadline_to_timeout_ms x.1 (last_time w'))%Z).
Proof.
  intros Hme Hun (cn & Hl & Hx) Hok w'. pose proof (api_nudged me w cn Hme Hun Hl Hok) as Hn. fold w' in Hn.
  assert (Hs : exists cn', live w' = Some cn' /\ published w' cn') by (inversion Hn; by eauto).
  destruct Hs as (cn' & Hl' & Hpub). destruct (nudge_runs w cn _ w' cn' Hn Hl') as (extra & r & Hr & _ & Hrun).
  rewrite decide_True in Hrun by done. destruct Hrun as [Hc Hpre]. exists r. split; [by exists cn, cn', extra|].
  intros Hlater. assert (Hx' : x ∈ pending_ticks (cn_app cn')).
  { destruct Hpre as [new ->]. apply elem_of_app. left. apply list_elem_of_filter. split; [lia|]. apply elem_of_app. by left. }
  split; [by exists cn'|]. apply (published_in_time w' cn' x.1 Hpub). unfold deadlines. apply elem_of_app. right.
  by apply list_elem_of_fmap_2.
Qed.

(** Round [i] is the first that finds the tick due: it runs it, in time. *)
Definition served (me late : Z) (n : nat) x w : Prop :=
  exists i r, i < n /\ has_pending x (after me i w) /\ round_at r (after me i w) (after me (S i) w) /\ (x.1 <= env_time r)%Z /\
    (0 < i -> (next_time (after me i w) <= Z.max x.1 (last_time (after me i w)) + NANOS_PER_MS + late)%Z) /\
    forall j, j < i -> has_pending x (after me j w) /\
      exists rj, round_at rj (after me j w) (after me (S j) w) /\ (env_time rj < x.1)%Z.

(** A round that leaves the tick pending, before the rounds that serve it. *)
Lemma served_later me late n x w r :
  let w' := (api me ANudge w).2 in
  has_pending x w -> round_at r w w' -> (env_time r < x.1)%Z ->
  (next_time w' <= Z.max x.1 (last_time w') + NANOS_PER_MS + late)%Z ->
  served me late n x w' -> served me late (S n) x w.
Proof.
  intros w' Hx Hr Hlater Htime (i & ri & Hi & Hxi & Hri & Hdue & Hin & Hbefore).
  exists (S i), ri. split; [lia|]. split; [exact Hxi|]. split; [exact Hri|]. split; [done|]. split.
  - intros _. destruct i as [|i]; [exact Htime|]. apply Hin. lia.
  - intros [|j] Hj; [by split; [|exists r]|]. apply (Hbefore j). lia.
Qed.

Lemma host_serves me late x : me <> 0%Z -> forall n w,
  unlocked w -> has_pending x w ->
  (forall i, i <= n -> (api me ANudge (after me i w)).1 = Ret HE_SUCCESS) ->
  (forall i, 0 < i <= n -> woken late (after me i w)) ->
  (x.1 <= next_time w + Z.of_nat n * NANOS_PER_MS)%Z -> served me late (S n) x w.
Proof.
  intros Hme. induction n as [|n IH]; intros w Hun Hx Hok Hwake Hdl;
    (destruct (one_round me w x Hme Hun Hx (Hok 0 (Nat.le_0_l _))) as (r & Hr & Hlater);
     assert (Hread : (next_time w <= env_time r)%Z) by (destruct Hr as (? & ? & ? & _ & _ & Hr & _); apply clock_mono; lia);
     destruct (Z.le_gt_cases x.1 (env_time r)) as [Hdue|Hgt];
       [exists 0, r; split_and!; [lia|done|done|done|intros Hi; lia|intros j Hj; lia]|]); [exfalso; lia|].
  destruct (Hlater Hgt) as [Hx' [Hms1 Hms2]]. destruct (Hwake 1 ltac:(lia)) as [Hw1 Hw2].
  cbn [after] in Hw1, Hw2. set (w' := (api me ANudge w).2) in *.
  pose proof (timeout_not_late x.1 (last_time w')) as Hnl.
  eapply served_later; [done|exact Hr|done| |].
  - fold w'. unfold NANOS_PER_MS in *. clear -Hw2 Hms2 Hnl. lia.
  - apply IH; [by apply nudge_unlocked|done|intros i Hi; apply (Hok (S i)); lia|intros i Hi; apply (Hwake (S i)); lia|].
    assert (Hlast : (next_time w <= last_time w')%Z).
    { destruct Hr as (? & ? & ? & _ & _ & Hr & _). apply clock_mono. fold w' in Hr. lia. }
    fold w'. unfold NANOS_PER_MS in *. clear -Hw1 Hms1 Hdl Hlast. lia.
Qed.

End HostLoop.
End HostLoop.
Import HostLoop.

Module HostProperties.

Section Properties.
Context `{CEnv} `{Core}.
Abbreviation world := (world core_conn tick_payload).
Implicit Types (w : world).

(** C22: the timer contract with the host works, whatever the core does in its
    ticks.  A host nudges the client [S n] times and before each further nudge
    waits the time the last one published, waking at most [late] too late.  If the
    clock does not run backwards, the nudges all succeed, and a payload tick is
    pending whose deadline is at most [n] milliseconds after the first nudge, then
    one of the nudges runs it: the first whose payload part reads a clock past the
    deadline (the earlier ones read a clock before it and leave the tick pending).
    Unless it is the first nudge, that nudge starts at most a millisecond plus
    [late] after the deadline, or after the end of the nudge before it, whichever
    is later. *)
Theorem host_loop_serves_ticks me late n x w :
  (forall i, env_time i <= env_time (S i))%Z -> me <> 0%Z ->
  client_ptr (conn (w_client w)) = Valid -> owner w = 0%Z -> has_pending x w ->
  (forall i, i <= n -> (api me ANudge (after me i w)).1 = Ret HE_SUCCESS) ->
  (forall i, 0 < i <= n -> woken late (after me i w)) ->
  (x.1 <= next_time w + Z.of_nat n * NANOS_PER_MS)%Z ->
  exists i r, i <= n /\ has_pending x (after me i w) /\ round_at r (after me i w) (after me (S i) w) /\
    (x.1 <= env_time r)%Z /\
    (0 < i -> (next_time (after me i w) <= Z.max x.1 (last_time (after me i w)) + NANOS_PER_MS + late)%Z) /\
    forall j, j < i -> has_pending x (after me j w) /\
      exists rj, round_at rj (after me j w) (after me (S j) w) /\ (env_time rj < x.1)%Z.
Proof.
  intros Hclock Hme Hp Ho Hx Hok Hwake Hdl.
  destruct (host_serves Hclock me late x Hme n w (conj Hp Ho) Hx Hok Hwake Hdl) as (i & r & Hi & Hserved).
  exists i, r. split; [lia|exact Hserved].
Qed.

End Properties.

(** ** Witness

    A clock that moves 10 ms between readings; the tick with payload 0 schedules
    another one while it is dispatched. *)
Import ToyCore.

Definition slow_env : CEnv := {|
  env_rc _ := HE_SUCCESS;
  env_sent _ := 0%Z;
  env_received _ := 0%Z;
  env_time n := (10000000 * Z.of_nat n)%Z;
|}.

Definition two_ticks : toy_world := toy_live_with Online None None [(15000000%Z, 0); (12000000%Z, 7)].

Lemma host_loop_serves_ticks_witness :
  exists i r, i <= 15 /\
    round_at (H := slow_env) r (after (H := slow_env) 1 i two_ticks) (after (H := slow_env) 1 (S i) two_ticks) /\
    (15000000 <= env_time (CEnv := slow_env) r)%Z.
Proof.
  destruct (host_loop_serves_ticks (H := slow_env) 1 100000000 15
    ((15000000%Z, 0) : Z * @tick_payload toy_core) two_ticks) as (i & r & Hi & _ & Hr & Hdue & _).
  - intros i. simpl. lia.
  - discriminate.
  - reflexivity.
  - reflexivity.
  - eexists. split; [reflexivity|]. left.
  - intros i Hi. do 16 (destruct i as [|i]; [vm_compute; reflexivity|]). lia.
  - intros i Hi. do 16 (destruct i as [|i]; [vm_compute; split; discriminate|]). lia.
  - simpl. vm_compute. discriminate.
  - exists i, r. split; [exact Hi|]. split; [exact Hr|exact Hdue].
Defined.

End HostProperties.
