(* ===== verification/ClientSettings.v ===== *)
(** * The settings of a client

    The setters of [lib.rs] as one family of calls, against an abstract table:
    every setting reads as the last accepted value given for it.  Then what the
    setters, [client_connect_locked] and [Drop for he_conn_t] leave in freed memory
    of the credentials. *)

From stdpp Require Import base numbers list list_numbers option strings sets.
From Stdlib Require Import Strings.Byte.
From S2P Require Import Prelude ClientTypes Timer Conn Client ToyCore ClientFacts ClientProperties.
Import Timer.Timer Conn.Conn Client.Client ClientApi.

(** ** The table *)

Module SettingsSpec.

Inductive callback : Set :=
| CbStateChange | CbInsideWrite | CbOutsideWrite | CbNetworkConfig | CbServerConfig | CbNudgeTime | CbEvent | CbAuth
| CbAuthToken | CbAuthBuf | CbPopulateNetworkConfig | CbPmtudState | CbPmtudTime | CbExpresslane | CbExpresslaneState
| CbExpresslaneMetrics.

(** What can be set. *)
Inductive slot : Set :=
| Callback (which : callback)
| Ca | ServerDn | UsePqc | UseChaCha20 | ConnectionTypeOf | EnableExpresslane
| Username | Password | AuthToken | Sni | OutsideMtu | ContextPtr.

#[global] Instance callback_eq_dec : EqDecision callback.
Proof. solve_decision. Defined.
#[global] Instance slot_eq_dec : EqDecision slot.
Proof. solve_decision. Defined.

(** The value of a setting. *)
Inductive value : Type :=
| VPointer (v : option Z)
| VBytes (v : option (list byte))
| VBool (v : bool)
| VInt (v : Z)
| VType (v : he_connection_type_t).

(** A call of a setter: which one, with the C argument it gets. *)
Inductive setting : Type :=
| SetCallback (which : callback) (cb : Z)
| SetCa (ca : option (list byte)) (length : nat)
| SetServerDn (dn : option (list byte))
| SetUsePqc (b : bool)
| SetUseChaCha20 (b : bool)
| SetConnectionType (n : Z)
| SetEnableExpresslane (b : bool)
| SetUsername (s : option (list byte))
| SetPassword (s : option (list byte))
| SetAuthToken (token : option (list byte)) (length : nat)
| SetSni (s : option (list byte))
| SetOutsideMtu (mtu : Z)
| SetContext (ctx : Z).

Definition slot_of (s : setting) : slot :=
  match s with
  | SetCallback which _ => Callback which
  | SetCa _ _ => Ca
  | SetServerDn _ => ServerDn
  | SetUsePqc _ => UsePqc
  | SetUseChaCha20 _ => UseChaCha20
  | SetConnectionType _ => ConnectionTypeOf
  | SetEnableExpresslane _ => EnableExpresslane
  | SetUsername _ => Username
  | SetPassword _ => Password
  | SetAuthToken _ _ => AuthToken
  | SetSni _ => Sni
  | SetOutsideMtu _ => OutsideMtu
  | SetContext _ => ContextPtr
  end.

(** A C string ends at its first NUL, so it never holds one; the others are
    copied as given.  [None] is a refused call. *)
Definition value_of (s : setting) : option value :=
  match s with
  | SetCallback _ cb => Some (VPointer (Some cb))
  | SetCa ca n | SetAuthToken ca n => (fun bytes => VBytes (Some (take n bytes))) <$> ca
  | SetServerDn dn => buf ← dn; if utf8_ok (c_string buf) then Some (VBytes (Some (c_string buf))) else None
  | SetUsePqc b | SetUseChaCha20 b | SetEnableExpresslane b => Some (VBool b)
  | SetConnectionType n =>
      if (n =? 0)%Z then Some (VType HE_CONNECTION_TYPE_DATAGRAM)
      else if (n =? 1)%Z then Some (VType HE_CONNECTION_TYPE_STREAM) else None
  | SetUsername s | SetPassword s | SetSni s => (fun buf => VBytes (Some (c_string buf))) <$> s
  | SetOutsideMtu n | SetContext n => Some (VInt n)
  end.

(** The last accepted value for [i] in a sequence of calls, [v] if there is none. *)
Fixpoint last_value (i : slot) (v : value) (l : list setting) : value :=
  match l with
  | [] => v
  | s :: l => last_value i (if decide (slot_of s = i) then default v (value_of s) else v) l
  end.

End SettingsSpec.
Import SettingsSpec.

(** ** The setters of the code *)

Section Settings.
Context `{CEnv} `{Core}.
Abbreviation M := (M core_conn tick_payload).
Abbreviation world := (world core_conn tick_payload).
Abbreviation client_t := (he_client_t core_conn tick_payload).
Implicit Types (w : world) (c : client_t) (s : setting).

Definition set_callback (which : callback) (cb : Z) : M he_return_code_t :=
  match which with
  | CbStateChange => he_ssl_ctx_set_state_change_cb Valid cb
  | CbInsideWrite => he_ssl_ctx_set_inside_write_cb Valid cb
  | CbOutsideWrite => he_ssl_ctx_set_outside_write_cb Valid cb
  | CbNetworkConfig => he_ssl_ctx_set_network_config_ipv4_cb Valid cb
  | CbServerConfig => he_ssl_ctx_set_server_config_cb Valid cb
  | CbNudgeTime => he_ssl_ctx_set_nudge_time_cb Valid cb
  | CbEvent => he_ssl_ctx_set_event_cb Valid cb
  | CbAuth => he_ssl_ctx_set_auth_cb Valid cb
  | CbAuthToken => he_ssl_ctx_set_auth_token_cb Valid cb
  | CbAuthBuf => he_ssl_ctx_set_auth_buf_cb Valid cb
  | CbPopulateNetworkConfig => he_ssl_ctx_set_populate_network_config_ipv4_cb Valid cb
  | CbPmtudState => he_ssl_ctx_set_pmtud_state_change_cb Valid cb
  | CbPmtudTime => he_ssl_ctx_set_pmtud_time_cb Valid cb
  | CbExpresslane => he_ssl_ctx_set_expresslane_cb Valid cb
  | CbExpresslaneState => he_ssl_ctx_set_expresslane_state_change_cb Valid cb
  | CbExpresslaneMetrics => he_ssl_ctx_set_expresslane_metrics_cb Valid cb
  end.

Definition call_setter s : M he_return_code_t :=
  match s with
  | SetCallback which cb => set_callback which cb
  | SetCa ca n => he_ssl_ctx_set_ca Valid ca n
  | SetServerDn dn => he_ssl_ctx_set_server_dn Valid dn
  | SetUsePqc b => he_ssl_ctx_set_use_pqc Valid b
  | SetUseChaCha20 b => he_ssl_ctx_set_use_chacha20 Valid b
  | SetConnectionType n => he_ssl_ctx_set_connection_type Valid n
  | SetEnableExpresslane b => he_ssl_ctx_set_enable_expresslane Valid b
  | SetUsername u => he_conn_set_username Valid u
  | SetPassword p => he_conn_set_password Valid p
  | SetAuthToken t n => he_conn_set_auth_token Valid t n
  | SetSni h => he_conn_set_sni_hostname Valid h
  | SetOutsideMtu m => he_conn_set_outside_mtu Valid m
  | SetContext ctx => he_conn_set_context Valid ctx
  end.

Fixpoint run_settings (l : list setting) : M (list he_return_code_t) :=
  match l with
  | [] => mret []
  | s :: l => code ← call_setter s; codes ← run_settings l; mret (code :: codes)
  end.

(** Reading a setting. *)
Definition callback_of (which : callback) (s : he_ssl_ctx_t) : option Z :=
  match which with
  | CbStateChange => state_change_cb s
  | CbInsideWrite => inside_write_cb s
  | CbOutsideWrite => outside_write_cb s
  | CbNetworkConfig => network_config_ipv4_cb s
  | CbServerConfig => server_config_cb s
  | CbNudgeTime => ssl_nudge_time_cb s
  | CbEvent => event_cb s
  | CbAuth => auth_cb s
  | CbAuthToken => auth_token_cb s
  | CbAuthBuf => auth_buf_cb s
  | CbPopulateNetworkConfig => populate_network_config_ipv4_cb s
  | CbPmtudState => pmtud_state_change_cb s
  | CbPmtudTime => pmtud_time_cb s
  | CbExpresslane => expresslane_cb s
  | CbExpresslaneState => expresslane_state_change_cb s
  | CbExpresslaneMetrics => expresslane_metrics_cb s
  end.

Definition read (i : slot) c : value :=
  match i with
  | Callback which => VPointer (callback_of which (ssl_ctx c))
  | Ca => VBytes (ca_cert (ssl_ctx c))
  | ServerDn => VBytes (server_dn (ssl_ctx c))
  | UsePqc => VBool (use_pqc (ssl_ctx c))
  | UseChaCha20 => VBool (use_chacha20 (ssl_ctx c))
  | ConnectionTypeOf => VType (connection_type (ssl_ctx c))
  | EnableExpresslane => VBool (enable_expresslane (ssl_ctx c))
  | Username => VBytes (username (conn c))
  | Password => VBytes (password (conn c))
  | AuthToken => VBytes (auth_token (conn c))
  | Sni => VBytes (sni_hostname (conn c))
  | OutsideMtu => VInt (outside_mtu (conn c))
  | ContextPtr => VInt (context (conn c))
  end.

(** Everything that is no setting. *)
Definition rest_of w :=
  (connection (w_client w), w_trace w, w_reads w,
   (client_ptr (conn (w_client w)), lock_owner (conn (w_client w)), state (conn (w_client w)),
    nudge_time_ms (conn (w_client w)), outside_mtu_negotiated (conn (w_client w)), effective_pmtu (conn (w_client w))),
   (current_protocol (conn (w_client w)), curve_name (conn (w_client w)), cipher_name (conn (w_client w)))).

(** A client is its settings and the rest. *)
Lemma world_ext w w' :
  (forall i, read i (w_client w') = read i (w_client w)) -> rest_of w' = rest_of w -> w' = w.
Proof.
  intros Hr Hrest. destruct w as [[k s cn] tr n], w' as [[k' s' cn'] tr' n'].
  destruct k, k', s, s'. unfold rest_of in Hrest. simpl in *. simplify_eq/=.
  assert (Hcb : forall b, VPointer (callback_of b _) = VPointer (callback_of b _)) by (intros b; exact (Hr (Callback b))).
  pose proof (Hcb CbStateChange); pose proof (Hcb CbInsideWrite); pose proof (Hcb CbOutsideWrite);
  pose proof (Hcb CbNetworkConfig); pose proof (Hcb CbServerConfig); pose proof (Hcb CbNudgeTime);
  pose proof (Hcb CbEvent); pose proof (Hcb CbAuth); pose proof (Hcb CbAuthToken); pose proof (Hcb CbAuthBuf);
  pose proof (Hcb CbPopulateNetworkConfig); pose proof (Hcb CbPmtudState); pose proof (Hcb CbPmtudTime);
  pose proof (Hcb CbExpresslane); pose proof (Hcb CbExpresslaneState); pose proof (Hcb CbExpresslaneMetrics).
  pose proof (Hr Ca); pose proof (Hr ServerDn); pose proof (Hr UsePqc); pose proof (Hr UseChaCha20);
  pose proof (Hr ConnectionTypeOf); pose proof (Hr EnableExpresslane); pose proof (Hr Username);
  pose proof (Hr Password); pose proof (Hr AuthToken); pose proof (Hr Sni); pose proof (Hr OutsideMtu);
  pose proof (Hr ContextPtr). clear Hr Hcb. simpl in *. by simplify_eq.
Qed.

Lemma c_string_no_nul buf : cstring_new (c_string buf) = Some (c_string buf).
Proof.
  unfold cstring_new. rewrite decide_False; [done|]. induction buf as [|b buf IH]; simpl; [by intros ?%elem_of_nil|].
  case_decide; [by intros ?%elem_of_nil|]. by intros [?|?]%elem_of_cons.
Qed.

(** One setter: its slot gets the value, if there is one, and nothing else moves. *)
Definition writes s w (o : outcome he_return_code_t * world) : Prop :=
  exists code w', o = (Ret code, w') /\ (code = HE_SUCCESS <-> is_Some (value_of s)) /\ rest_of w' = rest_of w /\
    forall i, read i (w_client w') =
      if decide (slot_of s = i) then default (read i (w_client w)) (value_of s) else read i (w_client w).

Lemma writes_accepted s w f g v :
  value_of s = Some v ->
  (forall i, read i (mkClient (f (conn (w_client w))) (g (ssl_ctx (w_client w))) (connection (w_client w))) =
     if decide (slot_of s = i) then v else read i (w_client w)) ->
  rest_of (mkWorld (mkClient (f (conn (w_client w))) (g (ssl_ctx (w_client w))) (connection (w_client w)))
             (w_trace w) (w_reads w)) = rest_of w ->
  writes s w (Ret HE_SUCCESS, mkWorld (mkClient (f (conn (w_client w))) (g (ssl_ctx (w_client w)))
                                (connection (w_client w))) (w_trace w) (w_reads w)).
Proof.
  intros Hv Hread Hrest. eexists _, _. split; [done|]. rewrite Hv. split; [done|]. split; [done|]. intros i. apply Hread.
Qed.

Lemma writes_refused s w code : code <> HE_SUCCESS -> value_of s = None -> writes s w (Ret code, w).
Proof.
  intros Hc Hv. exists code, w. rewrite Hv. split; [done|]. split; [by split; [|intros [? [=]]]|]. split; [done|].
  intros i. by case_decide.
Qed.

Ltac accepted f g :=
  eapply (writes_accepted _ _ f g); [done|let i := fresh in intros i; by destruct i as [[]| | | | | | | | | | | |]|done].

Lemma call_setter_writes s w : writes s w (call_setter s w).
Proof.
  destruct s as [which cb|ca n|dn|b|b|n|b|u|pw|tok n|sni|mtu|ctx]; simpl.
  - destruct which; simpl.
    + accepted (fun k : he_conn_t => k) (set_state_change_cb (Some cb)).
    + accepted (fun k : he_conn_t => k) (set_inside_write_cb (Some cb)).
    + accepted (fun k : he_conn_t => k) (set_outside_write_cb (Some cb)).
    + accepted (fun k : he_conn_t => k) (set_network_config_ipv4_cb (Some cb)).
    + accepted (fun k : he_conn_t => k) (set_server_config_cb (Some cb)).
    + accepted (fun k : he_conn_t => k) (set_ssl_nudge_time_cb (Some cb)).
    + accepted (fun k : he_conn_t => k) (set_event_cb (Some cb)).
    + accepted (fun k : he_conn_t => k) (set_auth_cb (Some cb)).
    + accepted (fun k : he_conn_t => k) (set_auth_token_cb (Some cb)).
    + accepted (fun k : he_conn_t => k) (set_auth_buf_cb (Some cb)).
    + accepted (fun k : he_conn_t => k) (set_populate_network_config_ipv4_cb (Some cb)).
    + accepted (fun k : he_conn_t => k) (set_pmtud_state_change_cb (Some cb)).
    + accepted (fun k : he_conn_t => k) (set_pmtud_time_cb (Some cb)).
    + accepted (fun k : he_conn_t => k) (set_expresslane_cb (Some cb)).
    + accepted (fun k : he_conn_t => k) (set_expresslane_state_change_cb (Some cb)).
    + accepted (fun k : he_conn_t => k) (set_expresslane_metrics_cb (Some cb)).
  - destruct ca as [ca|]; [|by apply writes_refused]. accepted (fun k : he_conn_t => k) (set_ca_cert (Some (take n ca))).
  - destruct dn as [dn|]; [|by apply writes_refused]. simpl. destruct (utf8_ok (c_string dn)) eqn:Hu;
      [|apply writes_refused; simpl; by rewrite ?Hu]. eapply (writes_accepted _ _ (fun k => k) (set_server_dn _));
      [simpl; by rewrite Hu|intros i; by destruct i as [[]| | | | | | | | | | | |]|done].
  - accepted (fun k : he_conn_t => k) (set_use_pqc b).
  - accepted (fun k : he_conn_t => k) (set_use_chacha20 b).
  - unfold he_ssl_ctx_set_connection_type. destruct (n =? 0)%Z eqn:H0n; [|destruct (n =? 1)%Z eqn:H1n].
    + eapply (writes_accepted _ _ (fun k => k) (set_connection_type _)); [simpl; by rewrite H0n| |done].
      intros i. by destruct i as [[]| | | | | | | | | | | |].
    + eapply (writes_accepted _ _ (fun k => k) (set_connection_type _)); [simpl; by rewrite H0n, H1n| |done].
      intros i. by destruct i as [[]| | | | | | | | | | | |].
    + apply writes_refused; simpl; by rewrite ?H0n, ?H1n.
  - accepted (fun k : he_conn_t => k) (set_enable_expresslane b).
  - destruct u as [u|]; [|by apply writes_refused]. unfold he_conn_set_username, conn_set_string. rewrite c_string_no_nul.
    accepted (set_username (Some (c_string u))) (fun x : he_ssl_ctx_t => x).
  - destruct pw as [u|]; [|by apply writes_refused]. unfold he_conn_set_password, conn_set_string. rewrite c_string_no_nul.
    accepted (set_password (Some (c_string u))) (fun x : he_ssl_ctx_t => x).
  - destruct tok as [u|]; [|by apply writes_refused]. accepted (set_auth_token (Some (take n u))) (fun x : he_ssl_ctx_t => x).
  - destruct sni as [u|]; [|by apply writes_refused]. unfold he_conn_set_sni_hostname, conn_set_string. rewrite c_string_no_nul.
    accepted (set_sni_hostname (Some (c_string u))) (fun x : he_ssl_ctx_t => x).
  - accepted (set_outside_mtu mtu) (fun x : he_ssl_ctx_t => x).
  - accepted (set_context ctx) (fun x : he_ssl_ctx_t => x).
Qed.

Lemma run_settings_writes l : forall w,
  exists codes w', run_settings l w = (Ret codes, w') /\ rest_of w' = rest_of w /\
    Forall2 (fun code s => code = HE_SUCCESS <-> is_Some (value_of s)) codes l /\
    forall i, read i (w_client w') = last_value i (read i (w_client w)) l.
Proof.
  induction l as [|s l IH]; intros w; [by exists [], w|].
  destruct (call_setter_writes s w) as (code & w1 & Hr & Hc & Hrest & Hread).
  destruct (IH w1) as (codes & w' & Hr' & Hrest' & Hcs & Hread').
  exists (code :: codes), w'. simpl. unfold mbind, m_bind. rewrite Hr, Hr'. split; [done|]. split; [congruence|].
  split; [by constructor|]. intros i. rewrite Hread', Hread. done.
Qed.

(** ** Credentials in freed memory *)

(** Dropping a [CString] zeroes its first byte; a [Vec<u8>] is freed as it is. *)
Definition cstring_drop (b : list byte) : list byte := match b with [] => [] | _ :: b => x00 :: b end.

(** The credential buffer that assigning through a setter frees. *)
Definition replaced s (k : he_conn_t) : list (list byte) :=
  match value_of s with
  | None => []
  | Some _ =>
      match s with
      | SetUsername _ => option_list (cstring_drop <$> username k)
      | SetPassword _ => option_list (cstring_drop <$> password k)
      | SetAuthToken _ _ => option_list (auth_token k)
      | _ => []
      end
  end.

(** The strings of an [AuthMethod]. *)
Definition auth_strings (auth : AuthMethod) : list (list byte) :=
  match auth with UserPass user pass => [user; pass] | Token token => [token] end.

(** What [client_connect_locked] itself drops of the credentials it has cloned:
    the [AuthMethod], as it is, where it returns before handing it to the core. *)
Definition connect_drops (c : client_t) : list (list byte) :=
  match connection c, outside_write_cb (ssl_ctx c), ca_cert (ssl_ctx c), build_auth (conn c) with
  | None, Some _, Some ca, Ok auth =>
      match build_context c ca with
      | None => auth_strings auth
      | Some ctx => match start_connect ctx (outside_mtu (conn c)) with None => auth_strings auth | Some _ => [] end
      end
  | _, _, _, _ => []
  end.

(** A freed buffer: a field of the connection, or a clone connect has made. *)
Inductive freed : Type :=
| Field (b : list byte)
| Clone (b : list byte).

Definition contents (f : freed) : list byte := match f with Field b | Clone b => b end.

(** A call refused by the re-entrancy check runs no body. *)
Definition call_drops (me : Z) (a : api_call) w : list freed :=
  match a with
  | AConnect => if decide (owner w = me) then [] else Clone <$> connect_drops (w_client w)
  | _ => []
  end.

(** The life of a client: setters and locking calls in any order, then
    [he_client_destroy]; the credential buffers it frees, in order. *)
Fixpoint life (me : Z) (ops : list (setting + api_call)) w : list freed :=
  match ops with
  | [] => Field <$> he_client_destroy Valid (w_client w)
  | inl s :: ops => (Field <$> replaced s (conn (w_client w))) ++ life me ops (call_setter s w).2
  | inr a :: ops => call_drops me a w ++ life me ops (api me a w).2
  end.

(** No connect of [ops] reports a failure to set up TLS. *)
Fixpoint connects_set_up (me : Z) (ops : list (setting + api_call)) w : Prop :=
  match ops with
  | [] => True
  | inl s :: ops => connects_set_up me ops (call_setter s w).2
  | inr a :: ops =>
      (a = AConnect -> (api me a w).1 <> Ret HE_ERR_SSL_ERROR) /\ connects_set_up me ops (api me a w).2
  end.

Definition credential (i : slot) : Prop := i = Username \/ i = Password \/ i = AuthToken.

(** How often [i] is given an acceptable value, and whether it has one. *)
Definition sets (i : slot) (o : setting + api_call) : bool :=
  match o with inl s => bool_decide (slot_of s = i) && bool_decide (is_Some (value_of s)) | inr _ => false end.

Definition times_set (i : slot) (ops : list (setting + api_call)) : nat := length (filter (fun o => sets i o = true) ops).

Definition stored (i : slot) c : nat := match read i c with VBytes (Some _) => 1 | _ => 0 end.

(** Every credential is given at most one value. *)
Definition set_once (ops : list (setting + api_call)) c : Prop :=
  forall i, credential i -> times_set i ops + stored i c <= 1.

Definition zeroed (b : list byte) : Prop := Forall (fun x => x = x00) b.

Lemma scrubbed_zeroed b : zeroed (scrub_bytes b).
Proof. unfold zeroed, scrub_bytes. apply Forall_fmap, Forall_true. done. Qed.

Lemma destroy_zeroed c : Forall zeroed (he_client_destroy Valid c).
Proof.
  assert (Hz : forall o : option (list byte), Forall zeroed (option_list (scrub_bytes <$> o))).
  { intros [b|]; simpl; [|by constructor]. apply Forall_singleton, scrubbed_zeroed. }
  unfold he_client_destroy, conn_drop. by rewrite !Forall_app.
Qed.

Lemma times_set_cons i o ops : times_set i (o :: ops) = (if sets i o then 1 else 0) + times_set i ops.
Proof. unfold times_set. rewrite filter_cons. by destruct (sets i o). Qed.

Lemma sets_accepted s : sets (slot_of s) (inl s) = bool_decide (is_Some (value_of s)).
Proof. simpl. by rewrite bool_decide_true. Qed.

(** Nothing is replaced while a credential has no value. *)
Lemma replaced_once s ops c : set_once (inl s :: ops) c -> replaced s (conn c) = [].
Proof.
  intros Ho. unfold replaced. destruct (value_of s) as [v|] eqn:Hv; [|done].
  assert (Hz : credential (slot_of s) -> stored (slot_of s) c = 0).
  { intros Hc. specialize (Ho _ Hc). rewrite times_set_cons, sets_accepted, Hv in Ho. simpl in Ho. lia. }
  unfold credential in Hz. destruct s; simpl in Hz; try done; unfold stored in Hz; simpl in Hz.
  - destruct (username (conn c)); [specialize (Hz ltac:(auto)); done|done].
  - destruct (password (conn c)); [specialize (Hz ltac:(auto)); done|done].
  - destruct (auth_token (conn c)); [specialize (Hz ltac:(auto)); done|done].
Qed.

Lemma set_once_setter s ops w : set_once (inl s :: ops) (w_client w) -> set_once ops (w_client (call_setter s w).2).
Proof.
  intros Ho i Hi. specialize (Ho i Hi). rewrite times_set_cons in Ho.
  destruct (call_setter_writes s w) as (code & w' & -> & _ & _ & Hread). simpl.
  unfold stored in *. rewrite Hread. cbn [sets] in Ho.
  destruct (decide (slot_of s = i)) as [Hs|Hs]; [|rewrite (bool_decide_eq_false_2 _ Hs) in Ho; simpl in Ho; lia].
  rewrite (bool_decide_eq_true_2 _ Hs) in Ho. destruct (value_of s) as [v|]; simpl in *; [|lia].
  destruct v as [|[|]| | |]; destruct (read i _) as [|[|]| | |]; lia.
Qed.

Lemma set_once_api me a ops w :
  client_ptr (conn (w_client w)) = Valid -> owner w = 0%Z -> me <> 0%Z ->
  set_once (inr a :: ops) (w_client w) -> set_once ops (w_client (api me a w).2).
Proof.
  intros Hp Ho Hme Hs i Hi. specialize (Hs i Hi). rewrite times_set_cons in Hs. simpl in Hs.
  destruct (api_frame me a w Hp Ho Hme) as [Hc _]. unfold config_of in Hc.
  injection Hc as _ _ Hu Hpw Htok _ _ _ _. unfold stored in *.
  destruct Hi as [->|[->| ->]]; cbn [read] in *; by rewrite ?Hu, ?Hpw, ?Htok.
Qed.

Lemma setter_unlocked s w :
  client_ptr (conn (w_client (call_setter s w).2)) = client_ptr (conn (w_client w)) /\
  owner (call_setter s w).2 = owner w.
Proof.
  destruct (call_setter_writes s w) as (code & w' & -> & _ & Hrest & _). unfold rest_of in Hrest. unfold owner. simpl.
  by simplify_eq.
Qed.

Lemma api_unlocked me a w :
  client_ptr (conn (w_client w)) = Valid -> owner w = 0%Z -> me <> 0%Z ->
  client_ptr (conn (w_client (api me a w).2)) = Valid /\ owner (api me a w).2 = 0%Z.
Proof.
  intros Hp Ho Hme. destruct (api_frame me a w Hp Ho Hme) as [Hc _]. unfold config_of in Hc. unfold owner in *.
  simplify_eq. split; congruence.
Qed.

Definition field_zeroed (f : freed) : Prop := match f with Field b => zeroed b | Clone _ => True end.

Lemma life_zeroed me ops : me <> 0%Z -> forall w,
  client_ptr (conn (w_client w)) = Valid -> owner w = 0%Z -> set_once ops (w_client w) ->
  Forall field_zeroed (life me ops w).
Proof.
  intros Hme. induction ops as [|[s|a] ops IH]; intros w Hp Ho Hs; cbn [life].
  - apply Forall_fmap, (Forall_impl zeroed); [apply destroy_zeroed|done].
  - rewrite (replaced_once s ops) by done. destruct (setter_unlocked s w) as [Hp' Ho'].
    apply IH; [congruence..|by apply set_once_setter].
  - destruct (api_unlocked me a w Hp Ho Hme). apply Forall_app.
    split; [|apply IH; [done..|by apply set_once_api]]. destruct a; try by constructor. simpl.
    case_decide; [by constructor|]. by apply Forall_fmap, Forall_true.
Qed.

(** A connect that drops its clones reports a failure and does nothing else. *)
Lemma connect_drops_run w :
  connect_drops (w_client w) <> [] ->
  client_connect_locked w = (Ret HE_ERR_SSL_ERROR, w) /\
  exists auth, build_auth (conn (w_client w)) = Ok auth /\ connect_drops (w_client w) = auth_strings auth.
Proof.
  unfold connect_drops, client_connect_locked. rewrite run_get.
  destruct (connection (w_client w)), (outside_write_cb (ssl_ctx (w_client w))), (ca_cert (ssl_ctx (w_client w))) as [ca|],
    (build_auth (conn (w_client w))) as [auth|]; try done.
  destruct (build_context _ _) as [ctx|]; [|by eauto]. destruct (start_connect _ _); [done|by eauto].
Qed.

Lemma connect_drops_own me w : connect_drops (w_client (own me w)) = connect_drops (w_client w).
Proof. done. Qed.

Lemma connect_drops_code me w :
  client_ptr (conn (w_client w)) = Valid -> owner w <> me -> connect_drops (w_client w) <> [] ->
  (api me AConnect w).1 = Ret HE_ERR_SSL_ERROR.
Proof.
  intros Hp Ho Hd. rewrite api_run by done. cbn [body]. rewrite <- (connect_drops_own me) in Hd.
  by destruct (connect_drops_run _ Hd) as [-> _].
Qed.

Definition is_field (f : freed) : Prop := match f with Field _ => True | Clone _ => False end.

(** While TLS is set up, no clone is freed by the crate. *)
Lemma life_fields me ops : me <> 0%Z -> forall w,
  client_ptr (conn (w_client w)) = Valid -> owner w = 0%Z -> connects_set_up me ops w ->
  Forall is_field (life me ops w).
Proof.
  intros Hme. induction ops as [|[s|a] ops IH]; intros w Hp Ho Hs; cbn [life].
  - by apply Forall_fmap, Forall_true.
  - destruct (setter_unlocked s w) as [Hp' Ho']. apply Forall_app. split; [by apply Forall_fmap, Forall_true|].
    apply IH; [congruence..|done].
  - destruct Hs as [Hc Hs], (api_unlocked me a w Hp Ho Hme). apply Forall_app. split; [|by apply IH].
    destruct a; try by constructor. simpl. rewrite decide_False by congruence.
    destruct (connect_drops (w_client w)) eqn:Hd; [by constructor|]. exfalso. apply (Hc eq_refl).
    apply connect_drops_code; [done|congruence|by rewrite Hd].
Qed.

(** What destroying leaves: one zeroed buffer per credential, as long as it. *)
Lemma destroy_lengths c :
  length <$> he_client_destroy Valid c =
    option_list (length <$> auth_token (conn c)) ++ option_list (length <$> password (conn c)) ++
    option_list (length <$> username (conn c)).
Proof.
  simpl. unfold conn_drop, scrub_bytes. rewrite !fmap_app.
  destruct (auth_token _), (password _), (username _); simpl; by rewrite ?length_fmap.
Qed.

End Settings.

Module ClientSettingsProperties.

Section Properties.
Context `{CEnv} `{Core}.
Abbreviation world := (world core_conn tick_payload).
Implicit Types (w : world) (l : list setting).

(** C33: settings are a table.  Any sequence of setter calls returns, a call
    succeeding exactly when its argument is acceptable; afterwards every setting
    reads as the last accepted value given for it, or as before if there is none;
    nothing else changes, in particular not the live connection nor the callbacks
    it captured, and C is not called.  So sequences with the same last accepted
    values leave the same client. *)
Theorem settings_last_write l w :
  (exists codes w', run_settings l w = (Ret codes, w') /\
     Forall2 (fun code s => code = HE_SUCCESS <-> is_Some (value_of s)) codes l /\
     (forall i, read i (w_client w') = last_value i (read i (w_client w)) l) /\
     live w' = live w /\ w_trace w' = w_trace w /\ c_state w' = c_state w /\ owner w' = owner w) /\
  (forall l', (forall i, last_value i (read i (w_client w)) l' = last_value i (read i (w_client w)) l) ->
     (run_settings l' w).2 = (run_settings l w).2).
Proof.
  destruct (run_settings_writes l w) as (codes & w' & Hr & Hrest & Hc & Hread). split.
  - exists codes, w'. unfold rest_of in Hrest. simplify_eq. by split_and!.
  - intros l' Hl. destruct (run_settings_writes l' w) as (codes' & w'' & Hr' & Hrest' & _ & Hread').
    rewrite Hr, Hr'. simpl. apply world_ext; [|congruence]. intros i. by rewrite Hread, Hread', Hl.
Qed.


End Properties.

Import ToyCore.

(** A second user name replaces the first, a refused certificate leaves none. *)
Lemma settings_last_write_witness :
  let l := [SetUsername (Some [x61; x00]); SetCa None 4; SetUsername (Some [x62; x63; x00])] in
  exists codes w', run_settings l toy_conf = (Ret codes, w') /\
    read Username (w_client w') = VBytes (Some [x62; x63]) /\ live w' = live toy_conf.
Proof.
  intros l. destruct (settings_last_write l toy_conf) as [(codes & w' & Hr & _ & Hread & Hl & _) _].
  exists codes, w'. split; [exact Hr|]. split; [|exact Hl]. rewrite (Hread Username). reflexivity.
Defined.


End ClientSettingsProperties.
