(* ===== verification/ClientThreads.v ===== *)
(** * Threads sharing a client

    [lock_client] of [lib.rs] in the steps between which other threads can run:
    the thread's token (allocated from [NEXT_THREAD_TOKEN] on first use), the load
    of the owner, the mutex, the store of the owner, the body, [OwnerReset] and
    the release.  The body is not one step: the thread reads the client when it
    enters ([CInside] keeps what it read), while it runs the shared client holds
    whatever the body has written so far, which may be anything ([Partial]), and
    when the body ends the client it computed from what it read is stored.  Two
    bodies that overlapped would lose updates or read half-written clients; the
    mutex is what excludes it.  While a thread is inside a body, a C callback may
    call back into a locking call on the same thread ([Reenter]).  Memory is
    sequentially consistent.

    The module [ClientProperties] treats a call as one step; the theorems here
    justify that. *)

From stdpp Require Import base numbers list list_numbers option strings sets functions.
From Stdlib Require Import Strings.Byte.
From S2P Require Import Prelude Threads ClientTypes Timer Conn Client ToyCore ClientFacts ClientProperties.
Import Tracking Timer.Timer Conn.Conn Client.Client ClientApi.

Module ClientThreads.

(** Where a thread is inside [lock_client]; [W] is what a body works on. *)
Inductive cpc (W : Type) : Type :=
| CIdle
| CChecking (a : api_call)
| CWaiting (a : api_call)
| CAcquired (a : api_call)
(** in the body, which found the client in [w0] *)
| CInside (a : api_call) (w0 : W)
| CFinishing
| CReleasing
(** a nested call waits for the mutex its own thread holds *)
| CStuck.
Arguments CIdle {W}.
Arguments CChecking {W} a.
Arguments CWaiting {W} a.
Arguments CAcquired {W} a.
Arguments CInside {W} a w0.
Arguments CFinishing {W}.
Arguments CReleasing {W}.
Arguments CStuck {W}.

Definition holds_mutex {W} (p : cpc W) : bool :=
  match p with CAcquired _ | CInside _ _ | CFinishing | CReleasing | CStuck => true | _ => false end.
Definition in_body {W} (p : cpc W) : bool :=
  match p with CInside _ _ | CFinishing | CStuck => true | _ => false end.
(** The client is being changed. *)
Definition mutating {W} (p : cpc W) : bool :=
  match p with CInside _ _ => true | _ => false end.

Inductive caction (W : Type) : Type :=
| CCall (a : api_call)
| Reenter (a : api_call)
(** the body has left the client at [w'] so far *)
| Partial (w' : W)
| CContinue.
Arguments CCall {W} a.
Arguments Reenter {W} a.
Arguments Partial {W} w'.
Arguments CContinue {W}.

Section ClientThreads.
Context `{CEnv} `{Core}.
Abbreviation world := (world core_conn tick_payload).

(** [allocated], [calls] and [refused] are history: the number of tokens handed
    out, the calls whose body has run, and the threads refused by the check. *)
Record cconfig : Type := mkCConfig {
  cworld : world;
  mutex : option nat;
  tokens : nat -> option Z;
  next_token : Z;
  cpcs : nat -> cpc world;
  allocated : nat;
  calls : list ((Z * api_call) * he_return_code_t);
  refused : list nat;
}.

Definition cinit (w : world) : cconfig := mkCConfig w None (fun _ => None) 1 (fun _ => CIdle) 0 [] [].

Definition cgo (t : nat) (p : cpc world) (c : cconfig) : cconfig :=
  mkCConfig (cworld c) (mutex c) (tokens c) (next_token c) (<[t := p]> (cpcs c)) (allocated c) (calls c) (refused c).
Definition set_world (w : world) (c : cconfig) : cconfig :=
  mkCConfig w (mutex c) (tokens c) (next_token c) (cpcs c) (allocated c) (calls c) (refused c).
Definition set_mutex (m : option nat) (c : cconfig) : cconfig :=
  mkCConfig (cworld c) m (tokens c) (next_token c) (cpcs c) (allocated c) (calls c) (refused c).
Definition log_call (x : (Z * api_call) * he_return_code_t) (c : cconfig) : cconfig :=
  mkCConfig (cworld c) (mutex c) (tokens c) (next_token c) (cpcs c) (allocated c) (calls c ++ [x]) (refused c).
Definition refuse (t : nat) (c : cconfig) : cconfig :=
  mkCConfig (cworld c) (mutex c) (tokens c) (next_token c) (cpcs c) (allocated c) (calls c) (refused c ++ [t]).

(** [THREAD_TOKEN.with]: the token of the thread, allocated on first use. *)
Definition current_thread_token (t : nat) (c : cconfig) : cconfig :=
  match tokens c t with
  | Some _ => c
  | None =>
      mkCConfig (cworld c) (mutex c) (<[t := Some (next_token c)]> (tokens c)) (wrap64 (next_token c + 1)) (cpcs c)
        (S (allocated c)) (calls c) (refused c)
  end.

Definition token (t : nat) (c : cconfig) : Z := default 0%Z (tokens c t).

(** [owner.load(..) == me]. *)
Definition check_owner (t : nat) (c : cconfig) : bool := bool_decide (owner (cworld c) = token t c).

Definition ccontinue (t : nat) (p : cpc world) (c : cconfig) : option cconfig :=
  match p with
  | CIdle | CStuck => None
  | CChecking a => if check_owner t c then Some (cgo t CIdle (refuse t c)) else Some (cgo t (CWaiting a) c)
  | CWaiting a =>
      match mutex c with
      | None => Some (cgo t (CAcquired a) (set_mutex (Some t) c))
      | Some _ => None
      end
  | CAcquired a =>
      let w := own (token t c) (cworld c) in
      Some (cgo t (CInside a w) (set_world w c))
  | CInside a w0 =>
      let '(r, w) := body a w0 in
      Some (cgo t CFinishing (log_call (token t c, a, code_or_failed r) (set_world w c)))
  | CFinishing => Some (cgo t CReleasing (set_world (own 0 (cworld c)) c))
  | CReleasing => Some (cgo t CIdle (set_mutex None c))
  end.

(** A body writes neither the owner word nor the pointers to the client. *)
Definition cact (t : nat) (a : caction world) (c : cconfig) : option cconfig :=
  match a, cpcs c t with
  | CCall a, CIdle => Some (cgo t (CChecking a) (current_thread_token t c))
  | Reenter _, (CInside _ _ | CFinishing) =>
      if check_owner t c then Some (refuse t c) else Some (cgo t CStuck c)
  | Partial w', CInside _ _ =>
      match client_ptr (conn (w_client w')) with
      | Valid => Some (set_world (own (owner (cworld c)) w') c)
      | Null => None
      end
  | CContinue, p => ccontinue t p c
  | _, _ => None
  end.

Inductive creachable (w : world) : cconfig -> Prop :=
| creachable_init : creachable w (cinit w)
| creachable_step t a c c' : creachable w c -> cact t a c = Some c' -> creachable w c'.

Fixpoint crun_schedule (sched : list (nat * caction world)) (c : cconfig) : option cconfig :=
  match sched with
  | [] => Some c
  | (t, a) :: sched => c' ← cact t a c; crun_schedule sched c'
  end.

(** The calls one after the other, each by its thread. *)
Fixpoint run_threads (l : list (Z * api_call)) : M core_conn tick_payload (list he_return_code_t) :=
  match l with
  | [] => mret []
  | (me, a) :: l => code ← api me a; codes ← run_threads l; mret (code :: codes)
  end.

Definition cquiescent (c : cconfig) : Prop := forall t, cpcs c t = CIdle.

End ClientThreads.
End ClientThreads.
Import ClientThreads.

(** ** The lock protocol *)

Module ClientThreadFacts.

Section ClientThreadFacts.
Context `{CEnv} `{Core}.
Abbreviation world := (world core_conn tick_payload).
Implicit Types (w : world) (c : cconfig) (t : nat).

Lemma own_own x y w : own x (own y w) = own x w.
Proof. by destruct w as [[]]. Qed.

Lemma own_same w : own (owner w) w = w.
Proof. by destruct w as [[[]]]. Qed.

Lemma owner_own x w : owner (own x w) = x.
Proof. done. Qed.

Lemma own_ptr x w : client_ptr (conn (w_client (own x w))) = client_ptr (conn (w_client w)).
Proof. done. Qed.

(** Few enough threads for the token counter not to wrap. *)
Definition tokens_left c : Prop := (Z.of_nat (allocated c) < 2 ^ 64 - 1)%Z.

Record clients_ok c : Prop := {
  cok_mutex : tracks (mutex c) holds_mutex (cpcs c);
  cok_ptr : client_ptr (conn (w_client (cworld c))) = Valid;
  cok_next : next_token c = wrap64 (1 + Z.of_nat (allocated c));
  cok_token t : cpcs c t <> CIdle -> is_Some (tokens c t);
  cok_range t x : tokens c t = Some x -> (1 <= x <= Z.of_nat (allocated c))%Z;
  cok_inj t u x : tokens c t = Some x -> tokens c u = Some x -> t = u;
  cok_owner t : in_body (cpcs c t) = true -> tokens c t = Some (owner (cworld c));
  cok_free : (forall t, in_body (cpcs c t) = false) -> owner (cworld c) = 0%Z;
  cok_stuck t : cpcs c t <> CStuck;
  cok_read t a w0 : cpcs c t = CInside a w0 ->
    tokens c t = Some (owner w0) /\ client_ptr (conn (w_client w0)) = Valid;
}.

Lemma clients_ok_init w : client_ptr (conn (w_client w)) = Valid -> owner w = 0%Z -> clients_ok (cinit w).
Proof. intros Hp Ho. split; simpl; try done. Qed.

Lemma body_holds {W} (p : cpc W) : in_body p = true -> holds_mutex p = true.
Proof. by destruct p. Qed.

(** Two threads are never inside bodies at once. *)
Lemma body_unique c t u :
  clients_ok c -> holds_mutex (cpcs c t) = true -> in_body (cpcs c u) = true -> u = t.
Proof. intros Hok Ht Hu%body_holds. by apply (tracks_unique _ _ _ _ _ (cok_mutex _ Hok)). Qed.

Lemma token_some c t : clients_ok c -> cpcs c t <> CIdle -> tokens c t = Some (token t c).
Proof. intros Hok Hp. unfold token. by destruct (cok_token _ Hok t Hp) as [x ->]. Qed.

Lemma token_nonzero c t : clients_ok c -> cpcs c t <> CIdle -> token t c <> 0%Z.
Proof. intros Hok Hp. pose proof (cok_range _ Hok t _ (token_some c t Hok Hp)). lia. Qed.

(** The owner word equals a thread's token exactly while it is in a body. *)
Lemma check_exact c t :
  clients_ok c -> cpcs c t <> CIdle -> check_owner t c = in_body (cpcs c t).
Proof.
  intros Hok Hp. unfold check_owner. pose proof (token_some c t Hok Hp) as Htok.
  destruct (in_body (cpcs c t)) eqn:Hb.
  { apply bool_decide_true. pose proof (cok_owner _ Hok t Hb). congruence. }
  apply bool_decide_false. intros Heq. destruct (mutex c) as [u|] eqn:Hm.
  - destruct (in_body (cpcs c u)) eqn:Hu.
    + pose proof (cok_owner _ Hok u Hu) as Hou. rewrite Heq in Hou.
      assert (t = u) as -> by (by eapply (cok_inj _ Hok)). congruence.
    + apply (token_nonzero c t Hok Hp). rewrite <- Heq. apply (cok_free _ Hok). intros u'.
      destruct (in_body (cpcs c u')) eqn:Hu'; [|done]. apply body_holds in Hu' as Hh. apply (cok_mutex _ Hok) in Hh.
      congruence.
  - apply (token_nonzero c t Hok Hp). rewrite <- Heq. apply (cok_free _ Hok). intros u'.
    destruct (in_body (cpcs c u')) eqn:Hu'; [|done]. apply body_holds, (cok_mutex _ Hok) in Hu'. congruence.
Qed.

Lemma token_ok c t :
  clients_ok c -> tokens_left (current_thread_token t c) ->
  clients_ok (current_thread_token t c) /\ is_Some (tokens (current_thread_token t c) t).
Proof.
  intros Hok Hleft. unfold current_thread_token, tokens_left in *.
  destruct (tokens c t) as [x|] eqn:Ht; [by rewrite Ht; eauto|]. simpl in *.
  assert (Hnext : next_token c = (1 + Z.of_nat (allocated c))%Z).
  { rewrite (cok_next _ Hok). apply wrap64_small. unfold is_u64. lia. }
  split; [|rewrite fn_lookup_insert; eauto].
  assert (Hne : forall u, cpcs c u <> CIdle -> u <> t).
  { intros u Hu ->. destruct (cok_token _ Hok t Hu). congruence. }
  assert (Hcase : forall u x, <[t := Some (next_token c)]> (tokens c) u = Some x ->
    (u = t /\ x = next_token c) \/ (u <> t /\ tokens c u = Some x)).
  { intros u x. destruct (decide (u = t)) as [->|Hu].
    - rewrite fn_lookup_insert. intros [= <-]. auto.
    - rewrite fn_lookup_insert_ne by done. auto. }
  split; simpl; try apply Hok.
  - rewrite Hnext, Nat2Z.inj_succ. f_equal. lia.
  - intros u Hu. rewrite fn_lookup_insert_ne by (apply not_eq_sym, Hne, Hu). by apply (cok_token _ Hok).
  - intros u x [[-> ->]|[_ Hu]]%Hcase; [lia|]. pose proof (cok_range _ Hok u x Hu). lia.
  - intros u u' x [[-> ->]|[Hu1 Hu]]%Hcase [[-> Hx]|[Hu2 Hu']]%Hcase; [done| | |].
    + pose proof (cok_range _ Hok _ _ Hu'). lia.
    + pose proof (cok_range _ Hok _ _ Hu). lia.
    + by eapply (cok_inj _ Hok).
  - intros u Hu. rewrite fn_lookup_insert_ne; [by apply (cok_owner _ Hok)|].
    apply not_eq_sym, Hne. intros He. by rewrite He in Hu.
  - intros u a w0 Hu. rewrite fn_lookup_insert_ne; [by eapply (cok_read _ Hok)|].
    apply not_eq_sym, Hne. by rewrite Hu.
Qed.

(** A step of [t] to [p]: what must be shown about [t], the rest is as before. *)
Lemma go_ok c t p w m n :
  clients_ok c -> tracks m holds_mutex (<[t := p]> (cpcs c)) ->
  client_ptr (conn (w_client w)) = Valid -> p <> CStuck ->
  (p <> CIdle -> is_Some (tokens c t)) ->
  (in_body p = true -> tokens c t = Some (owner w)) ->
  (in_body p = false -> holds_mutex (cpcs c t) = true -> owner w = 0%Z) ->
  (holds_mutex (cpcs c t) = false -> w = cworld c) ->
  (in_body p = true -> holds_mutex (cpcs c t) = true) ->
  (forall a w0, p = CInside a w0 -> tokens c t = Some (owner w0) /\ client_ptr (conn (w_client w0)) = Valid) ->
  clients_ok (mkCConfig w m (tokens c) (next_token c) (<[t := p]> (cpcs c)) (allocated c) n (refused c)).
Proof.
  intros Hok Hm Hptr Hst Htok Hown Hfree Hw Hb Hread. split; simpl; try apply Hok; try done.
  - intros u. destruct (decide (u = t)) as [->|Hu]; [by rewrite fn_lookup_insert|].
    rewrite fn_lookup_insert_ne by done. apply Hok.
  - intros u. destruct (decide (u = t)) as [->|Hu]; [by rewrite fn_lookup_insert|].
    rewrite fn_lookup_insert_ne by done. intros Hin.
    destruct (holds_mutex (cpcs c t)) eqn:Ht; [by rewrite (body_unique c t u) in Hu|].
    rewrite Hw by done. by apply Hok.
  - intros Hall. pose proof (Hall t) as Ht. rewrite fn_lookup_insert in Ht.
    destruct (holds_mutex (cpcs c t)) eqn:Hh; [by apply Hfree|]. rewrite Hw by done. apply (cok_free _ Hok).
    intros u. destruct (decide (u = t)) as [->|Hu].
    + destruct (in_body (cpcs c t)) eqn:Hin; [|done]. apply body_holds in Hin. congruence.
    + specialize (Hall u). by rewrite fn_lookup_insert_ne in Hall.
  - intros u. destruct (decide (u = t)) as [->|Hu]; [by rewrite fn_lookup_insert|].
    rewrite fn_lookup_insert_ne by done. apply Hok.
  - intros u a w0. destruct (decide (u = t)) as [->|Hu]; [rewrite fn_lookup_insert; by apply Hread|].
    rewrite fn_lookup_insert_ne by done. apply Hok.
Qed.

Lemma body_owner a w : owner (body a w).2 = owner w /\
  client_ptr (conn (w_client (body a w).2)) = client_ptr (conn (w_client w)).
Proof. destruct (body_frame a w) as [Hc _]. unfold config_of, owner in *. by simplify_eq. Qed.

Lemma current_token_pcs t c : cpcs (current_thread_token t c) = cpcs c.
Proof. unfold current_thread_token. by destruct (tokens c t). Qed.

Lemma refuse_ok t c : clients_ok c -> clients_ok (refuse t c).
Proof. intros [? ? ? ? ? ? ? ? ? ?]. by split. Qed.

Ltac at_pc Hpc := rewrite ?Hpc; try done; try congruence.

Lemma ccontinue_ok t c c' : clients_ok c -> ccontinue t (cpcs c t) c = Some c' -> clients_ok c'.
Proof.
  intros Hok Hact. pose proof (cok_mutex _ Hok) as Hm. pose proof (cok_ptr _ Hok) as Hptr.
  pose proof (cok_token _ Hok t) as Htok. pose proof (token_some c t Hok) as Hsome.
  pose proof (cok_owner _ Hok t) as Hown. pose proof (check_exact c t Hok) as Hcheck.
  assert (Hheld : holds_mutex (cpcs c t) = true -> mutex c = Some t) by (by intros Hh; apply Hm).
  pose proof (cok_read _ Hok t) as Hread.
  destruct (cpcs c t) as [|a|a|a|a w0| | |] eqn:Hpc; simpl in *; try done.
  - rewrite Hcheck in Hact by done. simplify_eq.
    apply (go_ok c t); at_pc Hpc; auto. apply tracks_keep; at_pc Hpc.
  - destruct (mutex c) eqn:Hfree; [done|]. simplify_eq.
    apply (go_ok c t); at_pc Hpc; auto. by apply tracks_acquire.
  - simplify_eq. apply (go_ok c t); at_pc Hpc; auto; [apply tracks_keep; at_pc Hpc|].
    intros a0 w0 [= <- <-]. split; [by apply Hsome|done].
  - destruct (Hread a w0 eq_refl) as [Htok0 Hptr0].
    destruct (body_owner a w0) as [Ho Hp]. destruct (body a w0) as [r w']. simplify_eq. simpl in *.
    apply (go_ok c t); at_pc Hpc; auto.
    + apply tracks_keep; at_pc Hpc.
    + simpl. congruence.
    + intros _. simpl. rewrite Ho. auto.
  - simplify_eq. apply (go_ok c t); at_pc Hpc; auto. apply tracks_keep; at_pc Hpc.
  - simplify_eq. apply (go_ok c t); at_pc Hpc; auto.
    + eapply tracks_release; [rewrite <- Hheld by done; done|done].
    + intros _ _. apply (cok_free _ Hok). intros u. destruct (in_body (cpcs c u)) eqn:Hu; [|done].
      assert (u = t) as -> by (apply (body_unique c t u Hok); [by rewrite Hpc|done]). by rewrite Hpc in Hu.
Qed.

Lemma partial_ok t w' c c' : clients_ok c -> cact t (Partial w') c = Some c' -> clients_ok c'.
Proof.
  intros Hok Hact. simpl in Hact. destruct (cpcs c t); try done.
  destruct (client_ptr (conn (w_client w'))) eqn:Hp; simplify_eq.
  destruct Hok. by split.
Qed.

Lemma cact_ok t a c c' : clients_ok c -> cact t a c = Some c' -> tokens_left c' -> clients_ok c'.
Proof.
  intros Hok Hact Hleft. destruct a as [a|a|w'|]; [simpl in Hact..|].
  - destruct (cpcs c t) eqn:Hpc; simplify_eq.
    destruct (token_ok c t Hok Hleft) as [Hok' Htok].
    assert (Hpc' : cpcs (current_thread_token t c) t = CIdle) by (by rewrite current_token_pcs).
    apply (go_ok (current_thread_token t c) t); at_pc Hpc'; auto; [|apply Hok']. apply tracks_keep; at_pc Hpc'. apply Hok'.
  - pose proof (check_exact c t Hok) as Hcheck. pose proof (refuse_ok t c Hok) as Href.
    destruct (cpcs c t) eqn:Hpc; try done; rewrite Hcheck in Hact by done; simpl in Hact; by simplify_eq.
  - by eapply partial_ok.
  - by eapply ccontinue_ok.
Qed.

(** Tokens are only ever added. *)
Lemma cact_allocated t a c c' : cact t a c = Some c' -> allocated c <= allocated c'.
Proof.
  assert (Htok : allocated c <= allocated (current_thread_token t c)).
  { unfold current_thread_token. destruct (tokens c t); simpl; lia. }
  intros Hact. destruct a; simpl in Hact; destruct (cpcs c t); simpl in Hact;
    repeat (case_match; simplify_eq); by simplify_eq.
Qed.

Lemma creachable_ok w c :
  client_ptr (conn (w_client w)) = Valid -> owner w = 0%Z -> creachable w c -> tokens_left c -> clients_ok c.
Proof.
  intros Hp Ho. induction 1 as [|t a c c' Hreach IH Hact]; [intros _; by apply clients_ok_init|]. intros Hleft.
  eapply cact_ok; [|done..]. apply IH. apply cact_allocated in Hact. unfold tokens_left in *. lia.
Qed.

(** ** The calls in the order of their bodies

    What the calls so far have made of the client: what the thread in a body
    found when it entered, and the shared client while no body runs. *)

Definition cview c w : Prop :=
  (forall t a w0, cpcs c t = CInside a w0 -> own 0 w0 = w) /\
  ((forall t, mutating (cpcs c t) = false) -> own 0 (cworld c) = w).

Lemma mutating_holds {W} (p : cpc W) : mutating p = true -> holds_mutex p = true.
Proof. by destruct p. Qed.

(** While [t] holds the mutex outside a body, nobody is in a body. *)
Lemma holder_alone c t :
  clients_ok c -> holds_mutex (cpcs c t) = true -> mutating (cpcs c t) = false ->
  forall u, mutating (cpcs c u) = false.
Proof.
  intros Hok Ht Hm u. destruct (mutating (cpcs c u)) eqn:Hu; [|done].
  assert (u = t) as -> by (apply (tracks_unique _ _ _ _ _ (cok_mutex _ Hok)); [by apply mutating_holds|done]).
  congruence.
Qed.

(** A step of [t] that neither enters nor leaves a body. *)
Lemma cview_keep c c' t p w :
  cview c w -> cpcs c' = <[t := p]> (cpcs c) -> mutating (cpcs c t) = false -> mutating p = false ->
  own 0 (cworld c') = own 0 (cworld c) -> cview c' w.
Proof.
  intros [Hin Hout] Hpcs Ht Hp Hw. unfold cview. rewrite Hpcs, Hw. split.
  - intros u a w0. destruct (decide (u = t)) as [->|Hu].
    + rewrite fn_lookup_insert. by intros ->.
    + rewrite fn_lookup_insert_ne by done. by apply Hin.
  - intros Hall. apply Hout. intros u. destruct (decide (u = t)) as [->|Hu]; [done|].
    specialize (Hall u). by rewrite fn_lookup_insert_ne in Hall.
Qed.

(** [t] enters a body. *)
Lemma cview_enter c t a me w :
  clients_ok c -> cview c w -> cpcs c t = CAcquired a ->
  cview (cgo t (CInside a (own me (cworld c))) (set_world (own me (cworld c)) c)) w.
Proof.
  intros Hok [_ Hout] Hpc.
  assert (Hall : forall u, mutating (cpcs c u) = false) by (apply (holder_alone c t Hok); by rewrite Hpc).
  specialize (Hout Hall). split; simpl.
  - intros u b w0. destruct (decide (u = t)) as [->|Hu].
    + rewrite fn_lookup_insert. intros [= _ <-]. by rewrite own_own.
    + rewrite fn_lookup_insert_ne by done. intros Heq. specialize (Hall u). by rewrite Heq in Hall.
  - intros _. by rewrite own_own.
Qed.

(** [t] leaves its body with [w']. *)
Lemma cview_leave c t a w0 x w' :
  clients_ok c -> cpcs c t = CInside a w0 -> cview (cgo t CFinishing (log_call x (set_world w' c))) (own 0 w').
Proof.
  intros Hok Hpc. split; simpl; [|done]. intros u b w1. destruct (decide (u = t)) as [->|Hu].
  - by rewrite fn_lookup_insert.
  - rewrite fn_lookup_insert_ne by done. intros Heq. exfalso. apply Hu.
    apply (tracks_unique _ _ _ _ _ (cok_mutex _ Hok)); by rewrite ?Heq, ?Hpc.
Qed.

Lemma cview_partial c t w' c' w : cview c w -> cact t (Partial w') c = Some c' -> cview c' w.
Proof.
  intros [Hin _] Hact. simpl in Hact. destruct (cpcs c t) eqn:Hpc; try done.
  destruct (client_ptr (conn (w_client w'))); simplify_eq. split; [done|].
  intros Hall. specialize (Hall t). simpl in Hall. by rewrite Hpc in Hall.
Qed.

(** The body run from what the thread found is the call run from the client the
    calls before it have left. *)
Lemma body_is_call c t a w0 r w' :
  clients_ok c -> cpcs c t = CInside a w0 -> body a w0 = (r, w') ->
  api (token t c) a (own 0 w0) = (Ret (code_or_failed r), own 0 w').
Proof.
  intros Hok Hpc Hbody. assert (Hne : cpcs c t <> CIdle) by (by rewrite Hpc).
  destruct (cok_read _ Hok t a w0 Hpc) as [Htok Hptr].
  assert (Hme : owner w0 = token t c) by (rewrite (token_some c t Hok Hne) in Htok; congruence).
  rewrite api_run; [|by rewrite own_ptr|rewrite owner_own; by apply not_eq_sym, (token_nonzero c t Hok)].
  rewrite own_own, <- Hme, own_same, Hbody. done.
Qed.

Lemma ccontinue_simulates t c c' w :
  clients_ok c -> cview c w -> ccontinue t (cpcs c t) c = Some c' ->
  (calls c' = calls c /\ cview c' w) \/
  exists me a code w', calls c' = calls c ++ [(me, a, code)] /\ api me a w = (Ret code, w') /\ cview c' w'.
Proof.
  intros Hok Hv Hact. destruct (cpcs c t) as [|b|b|b|b w0| | |] eqn:Hpc; simpl in *; try done.
  - left. destruct (check_owner t c); simplify_eq;
      (split; [done|]); (eapply (cview_keep c _ t); [done|reflexivity|by rewrite Hpc|done..]).
  - left. destruct (mutex c); simplify_eq. split; [done|].
    eapply (cview_keep c _ t); [done|reflexivity|by rewrite Hpc|done..].
  - left. simplify_eq. split; [done|]. by apply cview_enter.
  - right. destruct (body b w0) as [r w'] eqn:Hbody. simplify_eq.
    exists (token t c), b, (code_or_failed r), (own 0 w'). split_and!; [done| |by eapply cview_leave].
    destruct Hv as [Hin _]. rewrite <- (Hin t b w0 Hpc). by eapply body_is_call.
  - left. simplify_eq. split; [done|].
    eapply (cview_keep c _ t); [done|reflexivity|by rewrite Hpc|done|]. simpl. by rewrite own_own.
  - left. simplify_eq. split; [done|]. eapply (cview_keep c _ t); [done|reflexivity|by rewrite Hpc|done..].
Qed.

Lemma cact_simulates t a c c' w :
  clients_ok c -> cview c w -> cact t a c = Some c' ->
  (calls c' = calls c /\ cview c' w) \/
  exists me a code w', calls c' = calls c ++ [(me, a, code)] /\ api me a w = (Ret code, w') /\ cview c' w'.
Proof.
  intros Hok Hv Hact. destruct a as [a|a|w'|]; [simpl in Hact|simpl in Hact| |by apply (ccontinue_simulates t)].
  - left. destruct (cpcs c t) eqn:Hpc; simplify_eq. split; [by unfold current_thread_token; destruct (tokens c t)|].
    eapply (cview_keep c _ t); [done|by simpl; rewrite current_token_pcs|by rewrite Hpc|done|].
    unfold current_thread_token. by destruct (tokens c t).
  - left. pose proof (check_exact c t Hok) as Hcheck.
    destruct (cpcs c t); try done; rewrite Hcheck in Hact by done; simpl in Hact; by simplify_eq.
  - left. split; [|by eapply cview_partial]. simpl in Hact. destruct (cpcs c t); try done.
    destruct (client_ptr (conn (w_client w'))); by simplify_eq.
Qed.

Lemma run_threads_snoc l me a w codes w1 code w2 :
  run_threads l w = (Ret codes, w1) -> api me a w1 = (Ret code, w2) ->
  run_threads (l ++ [(me, a)]) w = (Ret (codes ++ [code]), w2).
Proof.
  revert w codes. induction l as [|[me' a'] l IH]; intros w codes Hrun Hapi; simpl in *.
  { unfold mret, m_ret in Hrun. simplify_eq. unfold mbind, m_bind. by rewrite Hapi. }
  unfold mbind, m_bind in *. destruct (api me' a' w) as [[code'|] w']; [|done].
  destruct (run_threads l w') as [[codes'|] w''] eqn:Hl; [|done]. unfold mret, m_ret in Hrun. simplify_eq.
  by rewrite (IH w' codes' Hl Hapi).
Qed.

Lemma creachable_run w c :
  client_ptr (conn (w_client w)) = Valid -> owner w = 0%Z -> creachable w c -> tokens_left c ->
  exists w', run_threads (calls c).*1 w = (Ret (calls c).*2, w') /\ cview c w'.
Proof.
  intros Hp Ho. induction 1 as [|t a c c' Hreach IH Hact]; intros Hleft.
  { exists w. split; [done|]. split; [done|]. intros _. simpl. rewrite <- Ho. apply own_same. }
  assert (Hleft' : tokens_left c) by (apply cact_allocated in Hact; unfold tokens_left in *; lia).
  destruct (IH Hleft') as (w1 & Hrun & Hv).
  destruct (cact_simulates t a c c' w1 (creachable_ok _ _ Hp Ho Hreach Hleft') Hv Hact)
    as [[-> Hv']|(me & b & code & w2 & -> & Hapi & Hv')]; [by exists w1|].
  exists w2. split; [|done]. rewrite !fmap_app. by eapply run_threads_snoc.
Qed.

(** The steps a call has left. *)
Definition csteps_left {W} (p : cpc W) : nat :=
  match p with
  | CIdle | CStuck => 0
  | CReleasing => 1
  | CFinishing => 2
  | CInside _ _ => 3
  | CAcquired _ => 4
  | CWaiting _ => 5
  | CChecking _ => 6
  end.

Lemma ccontinue_steps t c c' :
  cact t CContinue c = Some c' -> csteps_left (cpcs c' t) < csteps_left (cpcs c t).
Proof.
  simpl. destruct (cpcs c t) eqn:Hpc; simpl; intros Hact; repeat (case_match; simplify_eq); simplify_eq; simpl;
    rewrite fn_lookup_insert; simpl; lia.
Qed.

Lemma ccontinue_enabled t c :
  clients_ok c -> cpcs c t <> CIdle -> (forall a, cpcs c t = CWaiting a -> mutex c = None) ->
  exists c', cact t CContinue c = Some c'.
Proof.
  intros Hok Hp Hw. pose proof (cok_stuck _ Hok t). simpl. destruct (cpcs c t); simpl in *; try done.
  - destruct (check_owner t c); by eexists.
  - rewrite (Hw _ eq_refl). by eexists.
  - by eexists.
  - destruct (body _ _). by eexists.
  - by eexists.
  - by eexists.
Qed.

Lemma cschedule_reachable w sched : forall c,
  creachable w c -> creachable w (default c (crun_schedule sched c)).
Proof.
  enough (Hs : forall c c', creachable w c -> crun_schedule sched c = Some c' -> creachable w c').
  { intros c Hc. destruct (crun_schedule sched c) eqn:Hrun; [by eapply Hs|done]. }
  induction sched as [|[t a] sched IH]; intros c c' Hc Hrun; simpl in Hrun; [by simplify_eq|].
  destruct (cact t a c) as [c1|] eqn:Hact; [|done]. simpl in Hrun. eapply IH; [|done]. by eapply creachable_step.
Qed.

End ClientThreadFacts.
End ClientThreadFacts.
Import ClientThreadFacts.

(** ** Properties *)

Module ClientThreadProperties.

Section ClientThreadProperties.
Context `{CEnv} `{Core}.
Implicit Types (w : world core_conn tick_payload) (c : cconfig) (t : nat).

(** C17: calls are atomic.  A body reads the client when it starts, leaves
    anything in the shared client while it runs and stores its result when it
    ends; still, however the calls of any threads interleave in the lock protocol,
    running them one after the other, in the order of their bodies and each with
    its thread's token, returns the same codes and leaves a client [w'].  That
    client is what the thread inside a body found when it entered, it is the
    shared client while no body runs, and the shared client, lock owner included,
    once no thread is inside a call. *)
Theorem client_calls_linearize w c :
  client_ptr (conn (w_client w)) = Valid -> owner w = 0%Z -> creachable w c -> tokens_left c ->
  exists w', run_threads (calls c).*1 w = (Ret (calls c).*2, w') /\
    (forall t a w0, cpcs c t = CInside a w0 -> own 0 w0 = w') /\
    ((forall t, mutating (cpcs c t) = false) -> own 0 (cworld c) = w') /\
    (cquiescent c -> cworld c = w').
Proof.
  intros Hp Ho Hreach Hleft. destruct (creachable_run w c Hp Ho Hreach Hleft) as (w' & Hrun & Hin & Hout).
  exists w'. split_and!; [done..|]. intros Hq. rewrite <- Hout by (intros t; by rewrite Hq).
  rewrite <- (cok_free _ (creachable_ok _ _ Hp Ho Hreach Hleft)) by (intros t; by rewrite Hq). by rewrite own_same.
Qed.

(** C18: the re-entrancy check is exact.  At most one thread holds the mutex; the
    owner word equals the token of a thread inside a call exactly while that
    thread runs a body; so a call made from a callback is refused and never waits
    for its own thread's mutex, and no other call is ever refused. *)
Theorem reentrancy_check_exact w c t u :
  client_ptr (conn (w_client w)) = Valid -> owner w = 0%Z -> creachable w c -> tokens_left c ->
  (holds_mutex (cpcs c t) = true -> holds_mutex (cpcs c u) = true -> t = u) /\
  (cpcs c t <> CIdle -> check_owner t c = in_body (cpcs c t)) /\
  cpcs c t <> CStuck.
Proof.
  intros Hp Ho Hreach Hleft. pose proof (creachable_ok _ _ Hp Ho Hreach Hleft) as Hok.
  split_and!; [apply (tracks_unique _ _ _ _ _ (cok_mutex _ Hok))|by apply check_exact|apply Hok].
Qed.

(** C19: the lock protocol makes progress.  While some thread is inside a call,
    a thread inside a call can take its next step, and each step brings its call
    closer to its return, at most six steps away; when no thread is inside a
    call the mutex is free and the owner cleared, also after panics. *)
Theorem client_deadlock_free w c :
  client_ptr (conn (w_client w)) = Valid -> owner w = 0%Z -> creachable w c -> tokens_left c ->
  (forall t, cpcs c t <> CIdle -> exists u c', cpcs c u <> CIdle /\ cact u CContinue c = Some c') /\
  (forall t c', cact t CContinue c = Some c' -> csteps_left (cpcs c' t) < csteps_left (cpcs c t) <= 6) /\
  (cquiescent c -> mutex c = None /\ owner (cworld c) = 0%Z).
Proof.
  intros Hp Ho Hreach Hleft. pose proof (creachable_ok _ _ Hp Ho Hreach Hleft) as Hok. split_and!.
  - intros t Ht. destruct (mutex c) as [u|] eqn:Hm.
    + assert (Hu : holds_mutex (cpcs c u) = true) by (by apply (cok_mutex _ Hok)).
      assert (Hidle : cpcs c u <> CIdle) by (intros He; by rewrite He in Hu).
      destruct (ccontinue_enabled u c Hok Hidle) as [c' Hact]; [intros a Ha; by rewrite Ha in Hu|]. eauto.
    + destruct (ccontinue_enabled t c Hok Ht) as [c' Hact]; [done|]. eauto.
  - intros t c' Hact. split; [by apply ccontinue_steps|]. destruct (cpcs c t); simpl; lia.
  - intros Hq. split.
    + apply (tracks_none _ _ _ (cok_mutex _ Hok)). intros t. by rewrite Hq.
    + apply (cok_free _ Hok). intros t. by rewrite Hq.
Qed.

End ClientThreadProperties.

(** ** Witnesses

    Two threads connect at the same time; a callback of the first nudges, and the
    shared client shows something else in the middle of its body. *)
Import ToyCore.ToyCore.

Definition w_cschedule : list (nat * caction (world core_conn tick_payload)) :=
  [(0, CCall AConnect); (0, CContinue); (1, CCall AConnect); (1, CContinue); (0, CContinue); (0, CContinue);
   (0, Reenter ANudge); (0, Partial (own 7 toy_conf)); (0, CContinue); (0, CContinue); (0, CContinue);
   (1, CContinue); (1, CContinue); (1, CContinue); (1, CContinue); (1, CContinue)].

Definition w_cconfig (n : nat) : cconfig :=
  default (cinit toy_conf) (crun_schedule (take n w_cschedule) (cinit toy_conf)).

Lemma w_creachable n : creachable toy_conf (w_cconfig n).
Proof. apply cschedule_reachable. constructor. Defined.

Lemma client_calls_linearize_witness :
  (calls (w_cconfig 16)).*2 = [HE_SUCCESS; HE_ERR_INVALID_CONN_STATE] /\
  exists w', run_threads [(1%Z, AConnect); (2%Z, AConnect)] toy_conf =
    (Ret [HE_SUCCESS; HE_ERR_INVALID_CONN_STATE], w').
Proof.
  assert (Hc : calls (w_cconfig 16) =
    [(1%Z, AConnect, HE_SUCCESS); (2%Z, AConnect, HE_ERR_INVALID_CONN_STATE)]) by (vm_compute; reflexivity).
  rewrite Hc. split; [reflexivity|].
  destruct (client_calls_linearize toy_conf (w_cconfig 16) eq_refl eq_refl (w_creachable 16)
    (ltac:(vm_compute; reflexivity))) as (w' & Hr & _). rewrite Hc in Hr. exists w'. exact Hr.
Defined.

(** Before the nested nudge: thread 0 is refused, thread 1 is not. *)
Lemma reentrancy_check_exact_witness :
  refused (w_cconfig 7) = [0] /\ check_owner 0 (w_cconfig 6) = true /\ check_owner 1 (w_cconfig 6) = false.
Proof.
  split; [vm_compute; reflexivity|]. split.
  - rewrite (proj1 (proj2 (reentrancy_check_exact toy_conf (w_cconfig 6) 0 1 eq_refl eq_refl (w_creachable 6)
      (ltac:(vm_compute; reflexivity))))); [vm_compute; reflexivity|vm_compute; discriminate].
  - rewrite (proj1 (proj2 (reentrancy_check_exact toy_conf (w_cconfig 6) 1 0 eq_refl eq_refl (w_creachable 6)
      (ltac:(vm_compute; reflexivity))))); [vm_compute; reflexivity|vm_compute; discriminate].
Defined.

(** Thread 1 waits; thread 0 can go on. *)
Lemma client_deadlock_free_witness :
  cact 1 CContinue (w_cconfig 6) = None /\
  exists u c', cpcs (w_cconfig 6) u <> CIdle /\ cact u CContinue (w_cconfig 6) = Some c'.
Proof.
  split; [vm_compute; reflexivity|].
  apply (proj1 (client_deadlock_free toy_conf (w_cconfig 6) eq_refl eq_refl (w_creachable 6)
    (ltac:(vm_compute; reflexivity))) 1). vm_compute. discriminate.
Defined.

End ClientThreadProperties.
