(* ===== verification/Pool.v ===== *)
(** * Packet pools of the AEAD benchmark

    Models [lightway-expresslane-bench/src/pool.rs]: the deterministic ivs and
    associated data, the xorshift generator, the pool of wire packets every arm
    of the benchmark works on ([Src::build]) and the per-iteration schedule
    ([Sched::new]).  Sizes are natural numbers; [u64] values are [Z] with their
    wrap-around.  The AES-256-GCM of the session is the [Aead] of [Cipher.v]
    ([ring]); the two RustCrypto ciphers of the benchmark are further instances
    of the same interface ([Providers]). *)

From stdpp Require Import base numbers list list_numbers option.
From Stdlib Require Import Strings.Byte.
From S2P Require Import Prelude ReplayWindow ReplayReference AntiReplay Cipher Session.

Ltac Zify.zify_post_hook ::= Z.div_mod_to_equations.

(** ** The RustCrypto providers, parameters

    [aes_gcm::Aes256Gcm] and [chacha20poly1305::ChaCha20Poly1305]:
    [new_from_slice], [encrypt_in_place_detached], [decrypt_in_place_detached]. *)

Class Providers : Type := {
  rc_aead : Aead;
  cc_aead : Aead;
}.

Definition rc_key `{Providers} : Type := @aead_key rc_aead.
Definition cc_key `{Providers} : Type := @aead_key cc_aead.
Definition rc_new `{Providers} : list byte -> option rc_key := @unbound_key_new rc_aead.
Definition cc_new `{Providers} : list byte -> option cc_key := @unbound_key_new cc_aead.
Definition rc_seal `{Providers} (k : rc_key) : list byte -> list byte -> list byte -> option (list byte) * list byte :=
  @seal_in_place rc_aead k.
Definition cc_seal `{Providers} (k : cc_key) : list byte -> list byte -> list byte -> option (list byte) * list byte :=
  @seal_in_place cc_aead k.
Definition rc_open `{Providers} (k : rc_key) : list byte -> list byte -> list byte -> list byte -> bool * list byte :=
  @open_in_place rc_aead k.
Definition cc_open `{Providers} (k : cc_key) : list byte -> list byte -> list byte -> list byte -> bool * list byte :=
  @open_in_place cc_aead k.

(** Both are AEADs, and the first is the AES-256-GCM that [ring] implements: on
    packet-sized inputs the two seal alike. *)
Class ProviderLaws `{Aead} `{Providers} : Prop := {
  rc_laws :: @AeadLaws rc_aead;
  cc_laws :: @AeadLaws cc_aead;
  rc_is_aes256gcm bs k k' n a p :
    unbound_key_new bs = Some k -> rc_new bs = Some k' ->
    length n = 12 -> (Z.of_nat (length p) <= MAX_SEAL_LEN)%Z ->
    rc_seal k' n a p = seal_in_place k n a p;
}.

Module Pool.

(** ** Ivs and associated data *)

Definition iv_for (counter : Z) : outcome (list byte) :=
  let iv := zeros 12 in
  copy_from_slice iv 0 8 (be_bytes 8 counter).

Definition aad_v2 (session_id : list byte) (counter flags : Z) : outcome (list byte) :=
  let aad := zeros 18 in
  aad ← copy_from_slice aad 0 8 session_id;
  aad ← copy_from_slice aad 8 16 (be_bytes 8 counter);
  copy_from_slice aad 16 18 (be_bytes 2 flags).

(** ** The generator *)

Record Rng : Set := mkRng { rng_state : Z }.

Definition rng_new (seed : Z) : Rng := mkRng (Z.lor seed 1).

Definition rng_next (r : Rng) : Z * Rng :=
  let x := rng_state r in
  let x := Z.lxor x (Z.shiftr x 12) in
  let x := Z.lxor x (wrap64 (Z.shiftl x 25)) in
  let x := Z.lxor x (Z.shiftr x 27) in
  (wrap64 (x * 0x2545F4914F6CDD1D), mkRng x).

(** [to_le_bytes] of a [u64]. *)
Definition le_bytes8 (z : Z) : list byte := reverse (be_bytes 8 z).

(** ** The pool *)

Record Src : Type := mkSrc {
  wire : list byte;
  wire_cc : list byte;
  plain : list byte;
  slots : nat;
  len : nat;
  stride : nat;
  session_id : list byte;
  pool_hash : Z;
}.

(** [usize::div_ceil] for a non-zero divisor. *)
Definition div_ceil (v a : nat) : nat := if decide (0 < v mod a) then v / a + 1 else v / a.

Definition align_up (v a : nat) : nat := div_ceil v a * a.

(** [usize::is_power_of_two]. *)
Definition is_power_of_two (n : nat) : bool := (Z.of_nat n =? 2 ^ Z.log2 (Z.of_nat n))%Z.

(** [Ord::clamp], which panics when [min > max]. *)
Definition clamp (v lo hi : nat) : outcome nat :=
  if decide (lo <= hi) then Ret (if decide (v < lo) then lo else if decide (hi < v) then hi else v) else Panic.

Definition stride_for (len : nat) : nat :=
  let stride := align_up (WIRE_OVERHEAD + len + 16) 64 + 128 in
  if is_power_of_two stride then stride + 64 else stride.

(** The [while w < len] loop that fills one slot: eight generator bytes at a
    time, the last chunk cut to what is left.  [None] is out of fuel. *)
Fixpoint fill_loop (fuel len w : nat) (p : list byte) (rng : Rng) : option (outcome (list byte * Rng)) :=
  if decide (w < len) then
    match fuel with
    | O => None
    | S fuel =>
        let '(x, rng) := rng_next rng in
        let bytes := le_bytes8 x in
        let take := Nat.min (len - w) 8 in
        match (chunk ← slice bytes 0 take; copy_from_slice p w (w + take) chunk) with
        | Ret p => fill_loop fuel len (w + take) p rng
        | Panic => Some Panic
        end
    end
  else Some (Ret (p, rng)).

(** One round of the outer loop over the slots; each iteration of the inner one
    advances, so [len] is fuel enough ([fill_loop_terminates]). *)
Definition fill_slot (len stride i : nat) (st : list byte * Rng) : outcome (list byte * Rng) :=
  let '(plain, rng) := st in
  let base := i * stride in
  p ← slice plain base (base + len);
  filled ← expect_some (fill_loop len len 0 p rng);
  '(p, rng) ← filled;
  plain ← copy_from_slice plain base (base + len) p;
  Ret (plain, rng).

(** FNV-1a, one byte and one slot. *)
Definition FNV_OFFSET : Z := 0xcbf29ce484222325.

Definition fnv_byte (h : Z) (b : byte) : Z := wrap64 (Z.lxor h (Z_of_byte b) * 0x100000001b3).

Definition hash_slot (wire : list byte) (len stride i : nat) (h : Z) : outcome Z :=
  let base := i * stride in
  packet ← slice wire base (base + WIRE_OVERHEAD + len);
  Ret (foldl fnv_byte h packet).

Section Pool.
Context {W : Type} `{AntiReplay W} `{Aead} `{Providers}.

(** The sealing loop: the slot's plaintext through [ExpresslaneSession::encrypt]
    into [wire], and under ChaCha20-Poly1305 with the same header into
    [wire_cc].  The state is the sending session and the two buffers. *)
Definition seal_slot (len stride : nat) (session_id plain : list byte) (cc : cc_key) (i : nat)
    (st : ExpresslaneSession W aead_key * list byte * list byte)
    : outcome (ExpresslaneSession W aead_key * list byte * list byte) :=
  let '(tx, wire, wire_cc) := st in
  let base := i * stride in
  let counter := wrap64 (Z.of_nat i + 1) in
  iv ← iv_for counter;
  p ← slice plain base (base + len);
  out ← slice wire base (base + WIRE_OVERHEAD + len);
  '(r, out, tx) ← encrypt counter session_id p iv false out tx;
  wire ← copy_from_slice wire base (base + WIRE_OVERHEAD + len) out;
  n ← expect r;
  flag_bytes ← slice wire (base + 38) (base + 40);
  let flags := be_value flag_bytes in
  aad ← aad_v2 session_id counter flags;
  head ← slice wire base (base + WIRE_OVERHEAD);
  wire_cc ← copy_from_slice wire_cc base (base + WIRE_OVERHEAD) head;
  p ← slice plain base (base + len);
  wire_cc ← copy_from_slice wire_cc (base + WIRE_OVERHEAD) (base + WIRE_OVERHEAD + len) p;
  buf ← slice wire_cc (base + WIRE_OVERHEAD) (base + WIRE_OVERHEAD + len);
  let '(sealed, buf) := cc_seal cc iv aad buf in
  wire_cc ← copy_from_slice wire_cc (base + WIRE_OVERHEAD) (base + WIRE_OVERHEAD + len) buf;
  tag ← expect_some sealed;
  wire_cc ← copy_from_slice wire_cc (base + 20) (base + 36) tag;
  Ret (tx, wire, wire_cc).

Definition build (len target_bytes max_slots : nat) (key : ExpresslaneKey) (session_id : list byte) (seed : Z)
    : outcome Src :=
  let stride := stride_for len in
  slots ← clamp (target_bytes / stride) 64 (Nat.max max_slots 64);
  let plain := zeros (slots * stride) in
  let wire := zeros (slots * stride) in
  let wire_cc := zeros (slots * stride) in
  '(plain, _) ← for_range slots (fill_slot len stride) (plain, rng_new seed);
  let tx := new Version2 in
  let '(staged, tx) := update_next_self_key key tx in
  _ ← expect staged;
  let tx := promote_self_key tx in
  cc ← expect_some (cc_new (key_bytes key));
  '(_, wire, wire_cc) ← for_range slots (seal_slot len stride session_id plain cc) (tx, wire, wire_cc);
  h ← for_range slots (hash_slot wire len stride) FNV_OFFSET;
  Ret (mkSrc wire wire_cc plain slots len stride session_id h).

End Pool.

Definition working_set_bytes (src : Src) : nat := 2 * slots src * stride src.

(** ** The schedule *)

Record Sched : Type := mkSched {
  sched_slot : list Z;
  sched_fold : list Z;
  sched_n : nat;
}.

Definition wrap32 (z : Z) : Z := z `mod` 2 ^ 32.

(** [x % y], which panics on a zero divisor. *)
Definition rem (x y : Z) : outcome Z := if decide (y = 0%Z) then Panic else Ret (x `mod` y)%Z.

Definition sched_step (hot : bool) (span : Z) (i : nat) (st : list Z * list Z * Rng)
    : outcome (list Z * list Z * Rng) :=
  let '(slot, fold, rng) := st in
  let slot := slot ++ [if hot then 0%Z else wrap32 (Z.of_nat i)] in
  let '(x, rng) := rng_next rng in
  off ← rem x span;
  Ret (slot, fold ++ [wrap32 off], rng).

Definition sched_new (src : Src) (hot : bool) (seed : Z) : outcome Sched :=
  let n := slots src in
  let span := wrap64 (wrap64 (Z.of_nat (len src) - 8) + 1) in
  '(slot, fold, _) ← for_range n (sched_step hot span) ([], [], rng_new seed);
  Ret (mkSched slot fold n).

End Pool.
