(* ===== verification/PoolFacts.v ===== *)
(** * Correctness of the benchmark's packet pool

    Module [PoolSpec] describes a pool without buffers: slot [i] holds the wire
    packet of counter [i + 1] over the [i]-th payload of the generator's stream.
    Module [PoolFacts] proves that the code of [Pool.v] builds exactly that, that
    its loops terminate, and that its schedules stay in bounds. *)

From stdpp Require Import base numbers list list_numbers option.
From Stdlib Require Import Strings.Byte ZifyNat.
From S2P Require Import Prelude ReplayWindow ReplayReference AntiReplay Cipher Session SessionFacts SessionProperties Pool.
Import SessionSpec SessionFacts SessionProperties Pool.

Ltac Zify.zify_post_hook ::= Z.div_mod_to_equations.

Module PoolSpec.

(** The iv of a counter. *)
Definition pool_iv (counter : Z) : list byte := be_bytes 8 counter ++ zeros 4.

(** The generator's stream: [k] draws as bytes, and the state after them. *)
Fixpoint stream (k : nat) (r : Rng) : list byte :=
  match k with
  | O => []
  | S k => le_bytes8 (rng_next r).1 ++ stream k (rng_next r).2
  end.

Fixpoint rng_skip (k : nat) (r : Rng) : Rng :=
  match k with
  | O => r
  | S k => rng_skip k (rng_next r).2
  end.

(** [n] bytes of the stream take [chunks n] draws. *)
Definition chunks (n : nat) : nat := (n + 7) / 8.
Definition payload (n : nat) (r : Rng) : list byte := take n (stream (chunks n) r).

(** The plaintext of slot [i] of a pool. *)
Definition slot_payload (len : nat) (seed : Z) (i : nat) : list byte :=
  payload len (rng_skip (i * chunks len) (rng_new seed)).

(** [n] bytes at the start of slot [i] of a buffer. *)
Definition slot_at (buf : list byte) (stride n i : nat) : list byte := take n (drop (i * stride) buf).

Definition rng_wf (r : Rng) : Prop := is_u64 (rng_state r) /\ rng_state r <> 0%Z.

Section PoolSpec.
Context `{Aead} `{Providers}.

(** What sealing slot [i]'s plaintext gives under the session's key and under
    ChaCha20-Poly1305: counter [i + 1], its iv, no flags. *)
Definition slot_counter (i : nat) : Z := Z.of_nat i + 1.

Definition slot_aad (sid : list byte) (i : nat) : list byte := aad_of Version2 sid (slot_counter i) 0.

Definition slot_sealed (k : aead_key) (sid : list byte) (i : nat) (p : list byte) : option (list byte) * list byte :=
  seal_in_place k (pool_iv (slot_counter i)) (slot_aad sid i) p.

Definition slot_sealed_cc (k : cc_key) (sid : list byte) (i : nat) (p : list byte) : option (list byte) * list byte :=
  cc_seal k (pool_iv (slot_counter i)) (slot_aad sid i) p.

(** The packet of slot [i], given a tag and a ciphertext. *)
Definition slot_packet (i : nat) (p tag ct : list byte) : list byte :=
  sealed_wire (slot_counter i) (pool_iv (slot_counter i)) false p tag ct.

(** A pool for a key and a seed. *)
Record src_wf (key : ExpresslaneKey) (seed : Z) (src : Src) : Prop := {
  sw_sid : length (session_id src) = 8;
  sw_len : (Z.of_nat (len src) <= 65535)%Z;
  sw_stride : stride src = stride_for (len src);
  sw_slots : 64 <= slots src;
  sw_wire_length : length (wire src) = slots src * stride src;
  sw_wire_cc_length : length (wire_cc src) = slots src * stride src;
  sw_plain_length : length (plain src) = slots src * stride src;
  sw_plain i : i < slots src -> slot_at (plain src) (stride src) (len src) i = slot_payload (len src) seed i;
  sw_wire i k : i < slots src -> unbound_key_new (key_bytes key) = Some k ->
    exists tag ct, slot_sealed k (session_id src) i (slot_payload (len src) seed i) = (Some tag, ct) /\
      length tag = 16 /\ length ct = len src /\
      slot_at (wire src) (stride src) (40 + len src) i = slot_packet i (slot_payload (len src) seed i) tag ct;
  sw_wire_cc i k : i < slots src -> cc_new (key_bytes key) = Some k ->
    exists tag ct, slot_sealed_cc k (session_id src) i (slot_payload (len src) seed i) = (Some tag, ct) /\
      length tag = 16 /\ length ct = len src /\
      slot_at (wire_cc src) (stride src) (40 + len src) i = slot_packet i (slot_payload (len src) seed i) tag ct;
  sw_hash : pool_hash src =
    foldl fnv_byte FNV_OFFSET (concat (map (slot_at (wire src) (stride src) (40 + len src)) (seq 0 (slots src))));
}.

(** A schedule for a pool: every entry names a slot and an offset at which
    eight payload bytes can be read. *)
Record sched_wf (src : Src) (sch : Sched) : Prop := {
  sc_slot_length : length (sched_slot sch) = sched_n sch;
  sc_fold_length : length (sched_fold sch) = sched_n sch;
  sc_slot i z : sched_slot sch !! i = Some z -> (0 <= z < Z.of_nat (slots src))%Z;
  sc_fold i z : sched_fold sch !! i = Some z -> (0 <= z /\ z + 8 <= Z.of_nat (len src))%Z;
}.

End PoolSpec.
End PoolSpec.
Import PoolSpec.

Module PoolFacts.

(** ** Ivs and associated data *)

Lemma iv_for_ret c : iv_for c = Ret (pool_iv c).
Proof.
  unfold iv_for, pool_iv. change (zeros 12) with (zeros 8 ++ zeros 4).
  rewrite copy_from_slice_ret by lens. by fields.
Qed.

Lemma aad_v2_ret sid c f : length sid = 8 -> aad_v2 sid c f = Ret (aad_of Version2 sid c f).
Proof.
  intros Hsid. unfold aad_v2, aad_of. change (version_ge Version2 Version2) with true. cbn iota.
  change (zeros 18) with (zeros 8 ++ zeros 8 ++ zeros 2 ++ []).
  do 3 (rewrite copy_from_slice_ret by lens; fields; rewrite ?bind_ret). by rewrite app_nil_r.
Qed.

Lemma length_pool_iv c : length (pool_iv c) = 12.
Proof. unfold pool_iv. lens. Qed.

Lemma pool_iv_inj c c' : is_u64 c -> is_u64 c' -> pool_iv c = pool_iv c' -> c = c'.
Proof. intros Hc Hc' Heq. apply app_inj_2 in Heq as [Heq _]; [|done]. by apply (be_bytes_inj 8). Qed.

#[export] Hint Rewrite length_pool_iv : slices.

(** ** The generator *)

Lemma is_u64_lxor x y : is_u64 x -> is_u64 y -> is_u64 (Z.lxor x y).
Proof.
  intros Hx Hy. apply is_u64_bits; [apply Z.lxor_nonneg; unfold is_u64 in *; lia|].
  intros i Hi. rewrite Z.lxor_spec, (testbit_high x 64), (testbit_high y 64) by (unfold is_u64 in *; lia). done.
Qed.

Lemma is_u64_shiftr x n : is_u64 x -> (0 <= n)%Z -> is_u64 (Z.shiftr x n).
Proof.
  unfold is_u64. intros Hx Hn. rewrite Z.shiftr_div_pow2 by done. pose proof (pow2_pos n Hn).
  split; [apply Z.div_pos; lia|]. apply Z.div_lt_upper_bound; nia.
Qed.

(** A right and a left xorshift only map zero to zero. *)
Lemma xorshift_right_zero x n : is_u64 x -> (0 < n)%Z -> Z.lxor x (Z.shiftr x n) = 0%Z -> x = 0%Z.
Proof.
  intros Hx Hn Heq. apply Z.lxor_eq in Heq. rewrite Z.shiftr_div_pow2 in Heq by lia.
  destruct (decide (x = 0)%Z) as [|Hne]; [done|]. unfold is_u64 in Hx.
  pose proof (Z.div_lt x (2 ^ n) ltac:(lia) ltac:(apply Z.pow_gt_1; lia)). lia.
Qed.

Lemma xorshift_left_zero x n : is_u64 x -> (0 < n)%Z -> Z.lxor x (wrap64 (Z.shiftl x n)) = 0%Z -> x = 0%Z.
Proof.
  intros Hx Hn Heq. apply Z.lxor_eq in Heq. apply Z.bits_inj'. intros i Hi. rewrite Z.bits_0.
  revert i Hi. apply (Z_lt_induction (fun i => Z.testbit x i = false)). intros i IH.
  destruct (decide (i < 0)%Z); [by apply Z.testbit_neg_r|].
  destruct (decide (64 <= i)%Z); [by apply (testbit_high x 64)|].
  rewrite Heq, testbit_wrap64, Z.shiftl_spec by lia.
  destruct (decide (i - n < 0)%Z); [by apply Z.testbit_neg_r|]. apply IH. lia.
Qed.

Lemma rng_new_wf seed : is_u64 seed -> rng_wf (rng_new seed).
Proof.
  intros Hs. split; simpl; [by apply is_u64_lor|]. intros Heq. by apply Z.lor_eq_0_iff in Heq as [_ ?].
Qed.

Lemma rng_next_wf r : rng_wf r -> rng_wf (rng_next r).2 /\ is_u64 (rng_next r).1.
Proof.
  intros [Hr Hne]. unfold rng_next, rng_wf. cbn [fst snd rng_state].
  set (x1 := Z.lxor (rng_state r) (Z.shiftr (rng_state r) 12)).
  set (x2 := Z.lxor x1 (wrap64 (Z.shiftl x1 25))).
  assert (H1 : is_u64 x1) by (apply is_u64_lxor; [done|by apply is_u64_shiftr]).
  assert (H2 : is_u64 x2) by (apply is_u64_lxor; [done|apply wrap64_range]).
  split; [split|apply wrap64_range].
  - apply is_u64_lxor; [done|by apply is_u64_shiftr].
  - intros H0. apply xorshift_right_zero in H0; [|done|lia].
    apply xorshift_left_zero in H0; [|done|lia]. apply xorshift_right_zero in H0; [done|done|lia].
Qed.

Lemma rng_skip_wf k : forall r, rng_wf r -> rng_wf (rng_skip k r).
Proof. induction k as [|k IH]; intros r Hr; simpl; [done|]. by apply IH, rng_next_wf. Qed.

Lemma rng_skip_add a : forall b r, rng_skip (a + b) r = rng_skip b (rng_skip a r).
Proof. induction a as [|a IH]; intros b r; simpl; [done|]. apply IH. Qed.

(** ** Filling a slot *)

Lemma length_le_bytes8 z : length (le_bytes8 z) = 8.
Proof. unfold le_bytes8. rewrite length_reverse. apply length_be_bytes. Qed.

#[export] Hint Rewrite length_le_bytes8 : slices.

Lemma length_stream k : forall r, length (stream k r) = 8 * k.
Proof. induction k as [|k IH]; intros r; cbn [stream]; [done|]. rewrite length_app, IH, length_le_bytes8. lia. Qed.

Lemma length_payload n r : length (payload n r) = n.
Proof. unfold payload, chunks. rewrite length_take, length_stream. lia. Qed.

#[export] Hint Rewrite length_payload : slices.

Lemma payload_step n r :
  0 < n ->
  payload n r = take (Nat.min n 8) (le_bytes8 (rng_next r).1) ++ payload (n - Nat.min n 8) (rng_next r).2.
Proof.
  intros Hn. unfold payload. replace (chunks n) with (S (chunks (n - Nat.min n 8))) by (unfold chunks; lia).
  cbn [stream]. rewrite take_app, length_le_bytes8. f_equal; [|f_equal; lia].
  destruct (decide (n <= 8)); [by rewrite Nat.min_l by lia|].
  by rewrite Nat.min_r, !take_ge by lens.
Qed.

Lemma take_splice b lo src n :
  lo + length src <= length b -> n = lo + length src -> take n (splice b lo src) = take lo b ++ src.
Proof.
  intros Hlen ->. unfold splice. rewrite app_assoc. apply take_app_length'. lens.
Qed.

(** The inner loop ends within [len - w] iterations, does not panic, and its
    result does not depend on the fuel. *)
Lemma fill_loop_ret fuel : forall len w p rng,
  w <= len -> length p = len -> len - w <= fuel ->
  fill_loop fuel len w p rng =
    Some (Ret (take w p ++ payload (len - w) rng, rng_skip (chunks (len - w)) rng)).
Proof.
  induction fuel as [|fuel IH]; intros len w p rng Hw Hp Hfuel; cbn [fill_loop].
  all: destruct (decide (w < len)) as [Hlt|Hge]; try lia.
  1,3: (replace (len - w) with 0 by lia; rewrite app_nil_r, take_ge by lia; done).
  pose proof (payload_step (len - w) rng ltac:(lia)) as Hstep.
  assert (Hch : chunks (len - w) = S (chunks (len - w - Nat.min (len - w) 8))) by (unfold chunks; lia).
  destruct (rng_next rng) as [x rng'] eqn:Hx. cbn [fst snd] in Hstep.
  rewrite slice_ret, bind_ret by lens. rewrite drop_0, Nat.sub_0_r.
  rewrite copy_from_slice_ret by lens. rewrite IH by lens.
  rewrite Hch, Hstep. cbn [rng_skip]. rewrite Hx. cbn [snd].
  rewrite take_splice by lens. rewrite <- app_assoc. by rewrite Nat.sub_add_distr.
Qed.

(** ** The layout *)

Lemma div_ceil_spec v a : 0 < a -> v <= div_ceil v a * a /\ div_ceil v a * a < v + a.
Proof.
  intros Ha. unfold div_ceil. pose proof (Nat.div_mod_eq v a). pose proof (Nat.mod_upper_bound v a ltac:(lia)).
  case_decide; nia.
Qed.

Lemma is_power_of_two_spec n : is_power_of_two n = true <-> exists k, n = 2 ^ k.
Proof.
  unfold is_power_of_two. rewrite Z.eqb_eq. split.
  - intros Heq. exists (Z.to_nat (Z.log2 (Z.of_nat n))). apply Nat2Z.inj.
    pose proof (Z.log2_nonneg (Z.of_nat n)). rewrite Heq at 1. rewrite Nat2Z.inj_pow, Z2Nat.id by lia. done.
  - intros [k ->]. rewrite Nat2Z.inj_pow. change (Z.of_nat 2) with 2%Z. by rewrite Z.log2_pow2 by lia.
Qed.

(** [64 (m + 1)] is no power of two when [64 m] is one above 64. *)
Lemma next_line_not_power m : 2 <= m -> is_power_of_two (64 * m) = true -> is_power_of_two (64 * m + 64) = false.
Proof.
  intros Hm [k Hk]%is_power_of_two_spec. apply not_true_is_false. intros [j Hj]%is_power_of_two_spec.
  assert (Hlt : 2 ^ k < 2 ^ j) by lia. assert (Hkj : k < j) by (by apply Nat.pow_lt_mono_r_iff in Hlt; lia).
  assert (Hge : 2 ^ (S k) <= 2 ^ j) by (apply Nat.pow_le_mono_r; lia).
  rewrite Nat.pow_succ_r' in Hge. lia.
Qed.

Lemma stride_for_spec len :
  40 + len + 16 <= stride_for len /\ stride_for len `mod` 64 = 0 /\
  is_power_of_two (stride_for len) = false /\ stride_for len <= len + 312.
Proof.
  unfold stride_for, align_up, WIRE_OVERHEAD.
  destruct (div_ceil_spec (40 + len + 16) 64 ltac:(lia)) as [Hlo Hhi].
  set (q := div_ceil (40 + len + 16) 64) in *.
  replace (q * 64 + 128) with (64 * (q + 2)) by lia.
  destruct (is_power_of_two (64 * (q + 2))) eqn:Hp.
  - split_and!; [lia|lia|apply next_line_not_power; [lia|done]|lia].
  - split_and!; [lia|lia|done|lia].
Qed.

Lemma clamp_spec v lo hi : lo <= hi -> exists n, clamp v lo hi = Ret n /\ n = Nat.max lo (Nat.min v hi).
Proof. intros. unfold clamp. rewrite decide_True by done. eexists. split; [done|]. repeat case_decide; lia. Qed.

(** ** Slots *)

Lemma length_slot_at buf stride n i :
  i * stride + n <= length buf -> length (slot_at buf stride n i) = n.
Proof. intros. unfold slot_at. lens. Qed.

Lemma slot_bound i n stride k : i < n -> k <= stride -> i * stride + k <= n * stride.
Proof. intros. nia. Qed.

(** A write inside slot [j] leaves the other slots alone. *)
Lemma slot_at_splice_other buf stride n i j off src :
  i <> j -> n <= stride -> off + length src <= stride -> j * stride + off + length src <= length buf ->
  slot_at (splice buf (j * stride + off) src) stride n i = slot_at buf stride n i.
Proof.
  intros Hne Hn Hoff Hlen. unfold slot_at. destruct (decide (i < j)).
  - apply take_drop_splice_before; nia.
  - apply take_drop_splice_after; nia.
Qed.

Lemma slot_at_splice_same buf stride i src :
  i * stride + length src <= length buf -> slot_at (splice buf (i * stride) src) stride (length src) i = src.
Proof. intros. by apply take_drop_splice_same. Qed.

(** ** Building a pool *)

(** The filling loop writes the generator's stream, one payload per slot. *)
Lemma fill_slots_ret len stride slots seed :
  len <= stride ->
  exists plain rng,
    for_range slots (fill_slot len stride) (zeros (slots * stride), rng_new seed) = Ret (plain, rng) /\
    length plain = slots * stride /\
    (forall i, i < slots -> slot_at plain stride len i = slot_payload len seed i).
Proof.
  intros Hlen.
  destruct (for_range_inv (fun i '(plain, rng) =>
    length plain = slots * stride /\ rng = rng_skip (i * chunks len) (rng_new seed) /\
    (forall j, j < i -> slot_at plain stride len j = slot_payload len seed j))
    slots (fill_slot len stride) (zeros (slots * stride), rng_new seed)) as ([plain rng] & Hrun & Hp & _ & Hs).
  - split_and!; [lens|done|lia].
  - intros i [plain rng] Hi (Hp & -> & Hs). pose proof (slot_bound i slots stride len Hi Hlen).
    unfold fill_slot. rewrite slice_ret, bind_ret by lia.
    rewrite fill_loop_ret by lens. cbn [expect_some]. rewrite !bind_ret, Nat.sub_0_r, take_0, app_nil_l.
    rewrite copy_from_slice_ret, bind_ret by lens. eexists. split; [reflexivity|]. split_and!.
    + lens.
    + by rewrite <- rng_skip_add, Nat.add_comm.
    + intros j Hj. destruct (decide (j = i)) as [->|Hne].
      * unfold slot_at. rewrite take_drop_splice_same by lens. done.
      * pose proof (slot_at_splice_other plain stride len j i 0
          (payload len (rng_skip (i * chunks len) (rng_new seed)))) as Ho.
        rewrite Nat.add_0_r in Ho. rewrite Ho by lens. apply Hs. lia.
  - exists plain, rng. done.
Qed.

Section Build.
Context {W : Type} `{AntiReplay W} `{Aead} `{!AeadLaws} `{Providers} `{!ProviderLaws}.
Implicit Types (tx : ExpresslaneSession W aead_key).

Lemma length_slot_packet i p tag ct :
  length tag = 16 -> length (slot_packet i p tag ct) = 40 + length ct.
Proof. intros. unfold slot_packet, sealed_wire, encode_header. simpl. lens. Qed.

(** The packet in its wire fields. *)
Lemma slot_packet_fields i p tag ct :
  slot_packet i p tag ct =
  (be_bytes 8 (slot_counter i) ++ pool_iv (slot_counter i)) ++ tag ++
  (be_bytes 2 (Z.of_nat (length p)) ++ be_bytes 2 0) ++ ct.
Proof. unfold slot_packet, sealed_wire, encode_header. simpl. by rewrite <- !app_assoc. Qed.

(** The ChaCha half of the sealing loop, on a buffer cut into the slot's fields. *)
Lemma seal_cc_ret {B} (buf hd tag0 tl p : list byte) base (cc : cc_key) iv aad (kont : list byte -> outcome B) :
  length hd = 20 -> length tag0 = 16 -> length tl = 4 -> length iv = 12 ->
  (Z.of_nat (length p) <= 65535)%Z -> base + 40 + length p <= length buf ->
  exists tag ct, cc_seal cc iv aad p = (Some tag, ct) /\ length tag = 16 /\ length ct = length p /\
  (buf ← copy_from_slice buf base (base + 40) (hd ++ tag0 ++ tl);
   buf ← copy_from_slice buf (base + 40) (base + 40 + length p) p;
   b ← slice buf (base + 40) (base + 40 + length p);
   let '(sealed, b) := cc_seal cc iv aad b in
   buf ← copy_from_slice buf (base + 40) (base + 40 + length p) b;
   tag ← expect_some sealed;
   buf ← copy_from_slice buf (base + 20) (base + 36) tag;
   kont buf) = kont (splice buf base (hd ++ tag ++ tl ++ ct)).
Proof.
  intros Hhd Htag0 Htl Hiv Hp Hbuf.
  destruct (@seal_succeeds cc_aead _ cc iv aad p Hiv Hp) as (tag & Ht & Htag).
  pose proof (@seal_length cc_aead _ cc iv aad p) as Hct. unfold cc_seal.
  destruct (seal_in_place cc iv aad p) as [t ct] eqn:Hs. cbn [fst snd] in Ht, Hct. subst t.
  exists tag, ct. split; [done|]. split; [done|]. split; [done|].
  destruct (split_at buf base) as (a & b & -> & Ha); [lia|].
  destruct (split_at b 20) as (b1 & b' & -> & ?); [lens|].
  destruct (split_at b' 16) as (b2 & b & -> & ?); [lens|].
  destruct (split_at b 4) as (b3 & b' & -> & ?); [lens|].
  destruct (split_at b' (length p)) as (b4 & rest & -> & ?); [lens|].
  rewrite copy_from_slice_ret, bind_ret by lens.
  replace (a ++ b1 ++ b2 ++ b3 ++ b4 ++ rest) with (a ++ (b1 ++ b2 ++ b3) ++ b4 ++ rest) by (by rewrite <- !app_assoc).
  fields. rewrite copy_from_slice_ret, bind_ret by lens. fields.
  rewrite slice_ret, bind_ret by lens. fields. rewrite Hs.
  rewrite copy_from_slice_ret, bind_ret by lens. fields. cbn [expect_some]. rewrite bind_ret.
  rewrite copy_from_slice_ret, bind_ret by lens. rewrite <- !app_assoc. fields. f_equal.
  rewrite (app_assoc b3), (app_assoc b2), (app_assoc b1). fields. by rewrite <- !app_assoc.
Qed.

Lemma slot_counter_u64 i : (Z.of_nat i + 1 < 2 ^ 64)%Z -> is_u64 (slot_counter i).
Proof. unfold is_u64, slot_counter. lia. Qed.

(** A session that holds the pool's key. *)
Definition sends_with (c : Cipher aead_key) (n : nat) tx : Prop :=
  current_self tx = Some c /\ version tx = Version2 /\ packets_sent tx = wrap64 (Z.of_nat n).

(** What the loop reads back from the packet it has just written. *)
Lemma slot_reads wire base i p tag ct :
  length tag = 16 -> base + 40 + length ct <= length wire ->
  let wire' := splice wire base (slot_packet i p tag ct) in
  slice wire' (base + 38) (base + 40) = Ret (be_bytes 2 0) /\
  slice wire' base (base + 40) =
    Ret ((be_bytes 8 (slot_counter i) ++ pool_iv (slot_counter i)) ++ tag ++
         be_bytes 2 (Z.of_nat (length p)) ++ be_bytes 2 0).
Proof.
  intros Htag Hlen wire'. pose proof (length_slot_packet i p tag ct Htag) as Hpk.
  assert (Hw : length wire' = length wire) by (apply length_splice; lia).
  destruct (split_at wire base) as (a & w & -> & Ha); [lia|].
  destruct (split_at w (40 + length ct)) as (s & rest & -> & Hs); [lens|].
  assert (Hwire : wire' = a ++ slot_packet i p tag ct ++ rest) by (unfold wire'; by fields).
  clearbody wire'. subst wire'. rewrite !slice_ret by lens.
  rewrite slot_packet_fields, <- !app_assoc. fields. split; [done|]. f_equal.
  rewrite drop_0_eq by lens.
  match goal with |- _ = ?h => transitivity (take 40 (h ++ ct ++ rest)) end.
  - rewrite <- !app_assoc. f_equal. lia.
  - apply take_app_length'. lens.
Qed.

(** One iteration of the sealing loop overwrites the start of the slot in both
    buffers with the two packets. *)
Lemma seal_slot_ret len stride sid plain (cc : cc_key) i tx wire wire_cc c p :
  length sid = 8 -> (Z.of_nat len <= 65535)%Z -> (Z.of_nat i + 1 < 2 ^ 64)%Z ->
  40 + len <= stride -> i * stride + stride <= length plain ->
  i * stride + stride <= length wire -> i * stride + stride <= length wire_cc ->
  sends_with c i tx -> slot_at plain stride len i = p ->
  exists tag ct tag' ct' tx',
    slot_sealed (cipher_key c) sid i p = (Some tag, ct) /\ length tag = 16 /\ length ct = len /\
    slot_sealed_cc cc sid i p = (Some tag', ct') /\ length tag' = 16 /\ length ct' = len /\
    sends_with c (S i) tx' /\
    seal_slot len stride sid plain cc i (tx, wire, wire_cc) =
      Ret (tx', splice wire (i * stride) (slot_packet i p tag ct),
           splice wire_cc (i * stride) (slot_packet i p tag' ct')).
Proof.
  intros Hsid Hlen Hi Hstride Hpl Hw Hwc (Hself & Hver & Hsent) Hp.
  assert (Hlp : length p = len) by (rewrite <- Hp; apply length_slot_at; lia).
  pose proof (slot_counter_u64 i Hi) as Hc. unfold seal_slot, WIRE_OVERHEAD.
  change (Z.of_nat i + 1)%Z with (slot_counter i). rewrite (wrap64_small _ Hc), iv_for_ret, bind_ret.
  rewrite (slice_ret plain), bind_ret by lia. rewrite (Nat.add_comm (i * stride) len), Nat.add_sub.
  change (take len (drop (i * stride) plain)) with (slot_at plain stride len i). rewrite Hp.
  rewrite (slice_ret wire), bind_ret by lia.
  set (out := take _ (drop (i * stride) wire)).
  assert (Hout : length out = 40 + len) by (unfold out; lens).
  destruct (encrypt_success c (slot_counter i) sid p (pool_iv (slot_counter i)) false out tx)
    as (tag & ct & Hs & Htag & Hct & Henc); [done|lens|lia|lia|done|].
  rewrite Henc, bind_ret, drop_ge, app_nil_r by lia. fold (slot_packet i p tag ct).
  pose proof (length_slot_packet i p tag ct Htag) as Hpk.
  rewrite (copy_from_slice_ret wire), bind_ret by lia. cbn [expect]. rewrite bind_ret.
  destruct (slot_reads wire (i * stride) i p tag ct Htag) as [Hflags Hhead]; [lia|].
  rewrite Hflags, bind_ret, aad_v2_ret, bind_ret, Hhead, bind_ret by done.
  change (be_value (be_bytes 2 0)) with 0%Z. fold (slot_aad sid i). rewrite <- Hlp.
  destruct (seal_cc_ret wire_cc (be_bytes 8 (slot_counter i) ++ pool_iv (slot_counter i)) tag
    (be_bytes 2 (Z.of_nat (length p)) ++ be_bytes 2 0) p (i * stride) cc (pool_iv (slot_counter i)) (slot_aad sid i)
    (fun wire_cc => Ret (set_packets_sent (wrap64 (packets_sent tx + 1)) tx,
       splice wire (i * stride) (slot_packet i p tag ct), wire_cc)))
    as (tag' & ct' & Hs' & Htag' & Hct' & Hcc); [lens|lens|lens|lens|lia|lia|].
  exists tag, ct, tag', ct', (set_packets_sent (wrap64 (packets_sent tx + 1)) tx).
  split_and!; try done.
  - unfold seals, slot_sealed in *. rewrite Hver in Hs. revert Hs. unfold cipher_encrypt.
    unfold slot_aad. simpl. destruct (seal_in_place _ _ _ _) as [[t|] b]; [|done].
    case_decide; intros; by simplify_eq.
  - split_and!; [done..|]. cbn [set_packets_sent packets_sent]. by rewrite Hsent, wrap64_add_l, Nat2Z.inj_succ.
  - rewrite (slot_packet_fields i p tag' ct'). exact Hcc.
Qed.

(** Slot [i] of a buffer holds the packet of [p i] under a sealing function. *)
Definition slot_holds (buf : list byte) (stride : nat) (sealed : nat -> option (list byte) * list byte)
    (p : nat -> list byte) (i : nat) : Prop :=
  exists tag ct, sealed i = (Some tag, ct) /\ length tag = 16 /\ length ct = length (p i) /\
    slot_at buf stride (40 + length (p i)) i = slot_packet i (p i) tag ct.

(** Writing a packet establishes its slot and keeps those before. *)
Lemma slot_holds_step buf stride sealed (p : nat -> list byte) i n tag ct :
  (forall j, length (p j) = n) -> 40 + n <= stride -> i * stride + stride <= length buf ->
  sealed i = (Some tag, ct) -> length tag = 16 -> length ct = n ->
  (forall j, j < i -> slot_holds buf stride sealed p j) ->
  forall j, j < S i -> slot_holds (splice buf (i * stride) (slot_packet i (p i) tag ct)) stride sealed p j.
Proof.
  intros Hp Hstride Hlen Hs Htag Hct Hold j Hj. pose proof (length_slot_packet i (p i) tag ct Htag) as Hpk.
  destruct (decide (j = i)) as [->|Hne].
  - exists tag, ct. rewrite Hp. split_and!; try done. unfold slot_at. apply take_drop_splice_same; lia.
  - destruct (Hold j) as (tag' & ct' & Hs' & Htag' & Hct' & Hslot); [lia|]. exists tag', ct'.
    split_and!; try done. rewrite <- Hslot.
    pose proof (slot_at_splice_other buf stride (40 + length (p j)) j i 0 (slot_packet i (p i) tag ct)) as Ho.
    rewrite Nat.add_0_r in Ho. apply Ho; rewrite ?Hp; lia.
Qed.

(** The sealing loop fills every slot of both buffers. *)
Lemma seal_slots_ret len stride slots sid plain (cc : cc_key) tx c seed :
  length sid = 8 -> (Z.of_nat len <= 65535)%Z -> (Z.of_nat slots < 2 ^ 64)%Z -> 40 + len <= stride ->
  length plain = slots * stride ->
  (forall i, i < slots -> slot_at plain stride len i = slot_payload len seed i) ->
  sends_with c 0 tx ->
  exists tx' wire wire_cc,
    for_range slots (seal_slot len stride sid plain cc) (tx, zeros (slots * stride), zeros (slots * stride)) =
      Ret (tx', wire, wire_cc) /\
    length wire = slots * stride /\ length wire_cc = slots * stride /\ sends_with c slots tx' /\
    (forall i, i < slots -> slot_holds wire stride
       (fun i => slot_sealed (cipher_key c) sid i (slot_payload len seed i)) (slot_payload len seed) i) /\
    (forall i, i < slots -> slot_holds wire_cc stride
       (fun i => slot_sealed_cc cc sid i (slot_payload len seed i)) (slot_payload len seed) i).
Proof.
  intros Hsid Hlen Hn Hstride Hplain Hpay Htx.
  destruct (for_range_inv (fun i '(tx, wire, wire_cc) =>
    length wire = slots * stride /\ length wire_cc = slots * stride /\ sends_with c i tx /\
    (forall j, j < i -> slot_holds wire stride
       (fun i => slot_sealed (cipher_key c) sid i (slot_payload len seed i)) (slot_payload len seed) j) /\
    (forall j, j < i -> slot_holds wire_cc stride
       (fun i => slot_sealed_cc cc sid i (slot_payload len seed i)) (slot_payload len seed) j))
    slots (seal_slot len stride sid plain cc) (tx, zeros (slots * stride), zeros (slots * stride)))
    as ([[tx' wire] wire_cc] & Hrun & Hinv).
  - split_and!; [lens|lens|done|lia|lia].
  - intros i [[txi wire] wire_cc] Hi (Hw & Hwc & Htxi & Haes & Hcc).
    pose proof (slot_bound i slots stride stride Hi ltac:(lia)).
    destruct (seal_slot_ret len stride sid plain cc i txi wire wire_cc c (slot_payload len seed i))
      as (tag & ct & tag' & ct' & tx' & Hs & Htag & Hct & Hs' & Htag' & Hct' & Htx' & Hrun);
      [done|done|lia|done|lia..|done|by apply Hpay|].
    assert (Hl : forall j, length (slot_payload len seed j) = len) by (intros; apply length_payload).
    eexists. split; [exact Hrun|]. cbv beta iota. rewrite !length_splice by (rewrite length_slot_packet; lia).
    split_and!; try done; apply (slot_holds_step _ _ _ (slot_payload len seed) i len); first [done|lia].
  - exists tx', wire, wire_cc. done.
Qed.

(** The hashing loop is FNV-1a over the packets one after another. *)
Lemma hash_slots_ret wire len stride slots :
  40 + len <= stride -> length wire = slots * stride ->
  for_range slots (hash_slot wire len stride) FNV_OFFSET =
    Ret (foldl fnv_byte FNV_OFFSET (concat (map (slot_at wire stride (40 + len)) (seq 0 slots)))).
Proof.
  intros Hstride Hlen.
  destruct (for_range_inv (fun i h =>
    h = foldl fnv_byte FNV_OFFSET (concat (map (slot_at wire stride (40 + len)) (seq 0 i))))
    slots (hash_slot wire len stride) FNV_OFFSET) as (h & -> & ->); [done| |done].
  intros i h Hi ->. pose proof (slot_bound i slots stride (40 + len) Hi Hstride).
  unfold hash_slot, WIRE_OVERHEAD. rewrite slice_ret, bind_ret by lia. eexists. split; [reflexivity|].
  rewrite seq_S, map_app, concat_app, foldl_app. f_equal. simpl. rewrite app_nil_r. unfold slot_at. f_equal. lia.
Qed.

(** A new sending session with the key staged and promoted. *)
Lemma tx_ready key k :
  is_invalid key = false -> unbound_key_new (key_bytes key) = Some k ->
  exists tx, update_next_self_key key (new Version2) = (Ok tt, tx) /\ sends_with (mkCipher k) 0 (promote_self_key tx).
Proof.
  intros Hinv Hk. unfold update_next_self_key, cipher_new. rewrite Hinv, Hk.
  eexists. split; [reflexivity|]. done.
Qed.

(** [Src::build] returns a well-formed pool. *)
Lemma build_ret len target max_slots key sid seed :
  key_wf key -> is_invalid key = false -> length sid = 8 -> (Z.of_nat len <= 65535)%Z ->
  (Z.of_nat max_slots < 2 ^ 64)%Z ->
  exists src, build (W := W) len target max_slots key sid seed = Ret src /\ src_wf key seed src /\
    Pool.len src = len /\ session_id src = sid /\
    slots src = Nat.max 64 (Nat.min (target / stride_for len) (Nat.max max_slots 64)).
Proof.
  intros Hkey Hinv Hsid Hlen Hmax. destruct (stride_for_spec len) as (Hstride & _ & _ & _).
  destruct (clamp_spec (target / stride_for len) 64 (Nat.max max_slots 64)) as (n & Hclamp & Hn); [lia|].
  destruct (fill_slots_ret len (stride_for len) n seed) as (plain & rng & Hfill & Hplain & Hpay); [lia|].
  destruct (proj2 (aead_key_len (key_bytes key)) Hkey) as [k Hk].
  destruct (proj2 (@aead_key_len cc_aead _ (key_bytes key)) Hkey) as [cc Hcc].
  destruct (tx_ready key k Hinv Hk) as (tx & Hstage & Hready).
  destruct (seal_slots_ret len (stride_for len) n sid plain cc (promote_self_key tx) (mkCipher k) seed)
    as (tx' & wire & wire_cc & Hseal & Hw & Hwc & _ & Haes & Hchacha); [done|done|lia|lia|done|done|done|].
  unfold build. rewrite Hclamp, bind_ret, Hfill, bind_ret, Hstage. cbn [expect]. rewrite bind_ret.
  unfold cc_new. rewrite Hcc. cbn [expect_some]. rewrite bind_ret, Hseal, bind_ret, hash_slots_ret by (done || lia).
  eexists. split; [reflexivity|]. split; [|by rewrite <- Hn]. unfold slot_holds in *.
  assert (Hl : forall j, length (slot_payload len seed j) = len) by (intros; apply length_payload).
  split; cbn [Pool.len session_id Pool.stride Pool.slots Pool.wire Pool.wire_cc Pool.plain pool_hash]; try done.
  - lia.
  - intros i k' Hi Hk'. rewrite Hk in Hk'. simplify_eq.
    destruct (Haes i Hi) as (tag & ct & ? & ? & ? & ?). rewrite Hl in *. eauto 10.
  - intros i k' Hi Hk'. unfold cc_new in Hk'. rewrite Hcc in Hk'. simplify_eq.
    destruct (Hchacha i Hi) as (tag & ct & ? & ? & ? & ?). rewrite Hl in *. eauto 10.
Qed.

End Build.

(** ** The schedule *)

(** The entries of a schedule: slots by [hot], offsets by the generator. *)
Definition sched_spec (hot : bool) (span : Z) (n : nat) (r : Rng) : list Z * list Z :=
  (map (fun i => if hot then 0%Z else Z.of_nat i) (seq 0 n),
   map (fun i => wrap32 ((rng_next (rng_skip i r)).1 `mod` span)) (seq 0 n)).

Lemma rng_skip_S i : forall r, rng_skip (S i) r = (rng_next (rng_skip i r)).2.
Proof. induction i as [|i IH]; intros r; [done|]. change (rng_skip (S i) (rng_next r).2 = (rng_next (rng_skip i (rng_next r).2)).2). apply IH. Qed.

Lemma sched_loop_ret hot span n r :
  span <> 0%Z -> (Z.of_nat n <= 2 ^ 32)%Z ->
  for_range n (sched_step hot span) ([], [], r) =
    Ret ((sched_spec hot span n r).1, (sched_spec hot span n r).2, rng_skip n r).
Proof.
  intros Hspan Hn.
  destruct (for_range_inv (fun i st =>
    st = ((sched_spec hot span i r).1, (sched_spec hot span i r).2, rng_skip i r))
    n (sched_step hot span) ([], [], r)) as (st & -> & ->); [done| |done].
  intros i st Hi ->. unfold sched_step. rewrite rng_skip_S.
  destruct (rng_next (rng_skip i r)) as [x r'] eqn:Hx.
  unfold rem. rewrite decide_False, bind_ret by done. eexists. split; [reflexivity|].
  unfold sched_spec. cbn [fst snd]. rewrite !seq_S, !map_app. cbn [map Nat.add]. rewrite Hx.
  do 4 f_equal. destruct hot; [done|]. unfold wrap32. by rewrite Z.mod_small by lia.
Qed.

Lemma sched_new_ret src hot seed :
  8 <= len src -> (Z.of_nat (len src) <= 2 ^ 32)%Z -> (Z.of_nat (slots src) <= 2 ^ 32)%Z ->
  let spec := sched_spec hot (Z.of_nat (len src) - 7) (slots src) (rng_new seed) in
  sched_new src hot seed = Ret (mkSched spec.1 spec.2 (slots src)) /\
  sched_wf src (mkSched spec.1 spec.2 (slots src)).
Proof.
  intros Hlen Hmax Hslots spec. split.
  - unfold sched_new. rewrite (wrap64_small (Z.of_nat (len src) - 8)) by (unfold is_u64; lia).
    rewrite wrap64_small by (unfold is_u64; lia).
    replace (Z.of_nat (len src) - 8 + 1)%Z with (Z.of_nat (len src) - 7)%Z by lia.
    by rewrite sched_loop_ret, bind_ret by lia.
  - unfold spec. split; cbn [sched_slot sched_fold sched_n sched_spec fst snd].
    1,2: by rewrite length_map, length_seq.
    + intros i z (j & -> & Hj)%list_lookup_fmap_Some. apply lookup_seq in Hj as [-> Hj]. destruct hot; lia.
    + intros i z (j & -> & Hj)%list_lookup_fmap_Some. unfold wrap32.
      pose proof (Z.mod_pos_bound (rng_next (rng_skip j (rng_new seed))).1 (Z.of_nat (len src) - 7)).
      rewrite Z.mod_small by lia. lia.
Qed.

End PoolFacts.
Import PoolFacts.

(** ** Properties *)

Module PoolProperties.

(** C40: the state of the generator is a non-zero [u64] from any [u64] seed on
    and after every draw, and every draw is a [u64]: the xorshift never reaches
    its absorbing zero state. *)
Theorem rng_state_type seed k :
  is_u64 seed ->
  let r := rng_skip k (rng_new seed) in
  is_u64 (rng_state r) /\ rng_state r <> 0%Z /\ is_u64 (rng_next r).1 /\ rng_state (rng_next r).2 <> 0%Z.
Proof.
  intros Hs r. assert (Hr : rng_wf r) by by apply rng_skip_wf, rng_new_wf.
  destruct (rng_next_wf r Hr) as [[_ Hnext] Hout]. destruct Hr. done.
Qed.

Lemma rng_state_type_witness : rng_state (rng_skip 3 (rng_new 0xC0FFEE015EED1350)) <> 0%Z.
Proof. apply (rng_state_type 0xC0FFEE015EED1350 3). unfold is_u64. lia. Defined.

(** C39: the loop that fills a slot terminates without panicking from every
    offset: [len - w] iterations are always enough, and more change nothing.  It
    leaves what is before [w] alone and writes the next [len - w] bytes of the
    generator's little-endian stream, drawing [ceil ((len - w) / 8)] values. *)
Theorem fill_loop_terminates fuel len w p rng :
  w <= len -> length p = len -> len - w <= fuel ->
  fill_loop fuel len w p rng =
    Some (Ret (take w p ++ payload (len - w) rng, rng_skip (chunks (len - w)) rng)).
Proof. apply fill_loop_ret. Qed.

Lemma fill_loop_terminates_witness :
  fill_loop 11 11 3 (zeros 11) (rng_new 7) =
    Some (Ret (zeros 3 ++ payload 8 (rng_new 7), rng_skip 1 (rng_new 7))).
Proof. apply (fill_loop_terminates 11 11 3); [lia|reflexivity|lia]. Defined.

(** the benchmark rebuilds the associated data of the session.  [aad_v2]
    returns exactly what a Version2 session authenticates, and the ivs derived
    from counters are 12 bytes and distinct for distinct counters, so no
    [(key, iv)] pair repeats within a pool. *)
Theorem bench_aad_and_iv sid c c' f :
  length sid = 8 -> is_u64 c -> is_u64 c' ->
  (exists buf, build_aad Version2 sid c f = Ret (buf, 18) /\ aad_v2 sid c f = Ret buf /\ length buf = 18) /\
  (exists iv, iv_for c = Ret iv /\ length iv = 12) /\
  (iv_for c = iv_for c' -> c = c').
Proof.
  intros Hsid Hc Hc'. split_and!.
  - unfold build_aad, aad_v2. change (version_ge Version2 Version2) with true. cbn iota.
    do 3 (rewrite copy_from_slice_ret by lens; rewrite ?bind_ret). eexists. split_and!; [done|done|]. lens.
  - exists (pool_iv c). by rewrite iv_for_ret, length_pool_iv.
  - rewrite !iv_for_ret. intros Heq. apply (inj Ret) in Heq. by apply pool_iv_inj.
Qed.

Lemma bench_aad_and_iv_witness : iv_for 1 = iv_for 2 -> 1%Z = 2%Z.
Proof. apply (bench_aad_and_iv (zeros 8) 1 2 0); [reflexivity|unfold is_u64; lia..]. Defined.

Section Build.
Context {W : Type} `{AntiReplay W} `{Aead} `{!AeadLaws} `{Providers} `{!ProviderLaws}.

(** the layout of a pool.  Building returns 64-byte aligned slots at a
    stride that is no power of two and leaves room for the packet and 16 bytes,
    at least 64 slots and otherwise no more than asked for, even when fewer than
    64 are asked for, and buffers no larger than the target unless 64 slots need
    more. *)
Theorem pool_layout len target max_slots key sid seed :
  key_wf key -> is_invalid key = false -> length sid = 8 -> (Z.of_nat len <= 65535)%Z ->
  (Z.of_nat max_slots < 2 ^ 64)%Z ->
  exists src, build (W := W) len target max_slots key sid seed = Ret src /\
    stride src `mod` 64 = 0 /\ (forall k, stride src <> 2 ^ k) /\ WIRE_OVERHEAD + len + 16 <= stride src /\
    64 <= slots src <= Nat.max max_slots 64 /\
    slots src * stride src <= Nat.max target (64 * stride src) /\
    working_set_bytes src <= 2 * Nat.max target (64 * stride src).
Proof.
  intros Hkey Hinv Hsid Hlen Hmax.
  destruct (build_ret (W := W) len target max_slots key sid seed) as (src & Hbuild & Hwf & Hl & _ & Hn); [done..|].
  exists src. split; [done|]. unfold working_set_bytes. rewrite (sw_stride _ _ _ Hwf), Hl.
  destruct (stride_for_spec len) as (Hstride & Hmod & Hpow & _).
  assert (Hbytes : slots src * stride_for len <= Nat.max target (64 * stride_for len)).
  { pose proof (Nat.Div0.mul_div_le target (stride_for len)). nia. }
  split_and!; try (unfold WIRE_OVERHEAD; done || lia).
  intros k Hk. assert (Ht : is_power_of_two (stride_for len) = true) by (apply is_power_of_two_spec; eauto).
  congruence.
Qed.


End Build.

(** schedules stay in bounds.  For payloads of at least eight bytes a
    schedule has one entry per slot, every offset leaves eight payload bytes to
    read, the cold schedule visits the slots in order and the hot one only slot
    0, and both read at the same offsets.  Seven bytes, where the span wraps to
    zero, panic on the division. *)
Theorem schedule_in_bounds src seed :
  8 <= len src -> (Z.of_nat (len src) <= 2 ^ 32)%Z -> (Z.of_nat (slots src) <= 2 ^ 32)%Z ->
  exists cold hot,
    sched_new src false seed = Ret cold /\ sched_new src true seed = Ret hot /\
    sched_wf src cold /\ sched_wf src hot /\ sched_n cold = slots src /\ sched_n hot = slots src /\
    sched_fold cold = sched_fold hot /\
    (forall i, i < slots src -> sched_slot cold !! i = Some (Z.of_nat i) /\ sched_slot hot !! i = Some 0%Z) /\
    (forall src7 b, len src7 = 7 -> slots src7 <> 0 -> sched_new src7 b seed = Panic).
Proof.
  intros Hlen Hmax Hslots.
  destruct (sched_new_ret src false seed) as [Hc Hcwf]; [done..|].
  destruct (sched_new_ret src true seed) as [Hh Hhwf]; [done..|].
  eexists _, _. split; [exact Hc|]. split; [exact Hh|]. split_and!; try done.
  - intros i Hi. cbn [sched_slot sched_spec fst]. rewrite !list_lookup_fmap, !lookup_seq_lt by done. done.
  - intros src7 b H7 Hn. unfold sched_new. rewrite H7.
    replace (wrap64 (wrap64 (Z.of_nat 7 - 8) + 1)) with 0%Z by reflexivity.
    destruct (slots src7); [done|reflexivity].
Qed.

End PoolProperties.

(** ** Witnesses

    The toy cipher stands for all three providers. *)

#[global] Instance toy_providers : Providers := {| rc_aead := ToyAead.toy_aead; cc_aead := ToyAead.toy_aead |}.

#[global] Instance toy_provider_laws : ProviderLaws.
Proof.
  split; [apply ToyAead.toy_aead_laws..|]. intros bs k k' n a p Hk Hk' _ _.
  unfold rc_new in Hk'. simpl in *. case_decide; simplify_eq. done.
Qed.

Module PoolWitnesses.
Import PoolProperties.

Definition toy_key : ExpresslaneKey := mkKey (replicate 32 x2b).

Lemma pool_layout_witness :
  exists src, build (W := Ring.ReplayWindow) 64 4096 32 toy_key (zeros 8) 5 = Ret src /\
    stride src `mod` 64 = 0 /\ 64 <= slots src <= 64.
Proof.
  destruct (pool_layout (W := Ring.ReplayWindow) 64 4096 32 toy_key (zeros 8) 5)
    as (src & Hb & Hs & _ & _ & Hn & _); [reflexivity|reflexivity|reflexivity|lia|lia|].
  exists src. split; [exact Hb|]. split; [exact Hs|exact Hn].
Defined.


Lemma schedule_in_bounds_witness :
  exists cold hot,
    let src := mkSrc [] [] [] 64 1350 1536 [] 0 in
    sched_new src false 5 = Ret cold /\ sched_new src true 5 = Ret hot /\ sched_fold cold = sched_fold hot.
Proof.
  destruct (schedule_in_bounds (mkSrc [] [] [] 64 1350 1536 [] 0) 5)
    as (cold & hot & Hc & Hh & _ & _ & _ & _ & Hf & _); [simpl; lia..|].
  exists cold, hot. split; [exact Hc|]. split; [exact Hh|exact Hf].
Defined.

End PoolWitnesses.
