(* ===== verification/Arms.v ===== *)
(** * The timed loops of the AEAD benchmark

    Models [lightway-expresslane-bench/src/arms.rs]: one definition per arm, each
    the whole loop over a schedule.  An arm reads the pool, writes the output
    buffer [dst] and, through the shared references of [Ctx], the two sessions;
    all of that is its state.  The decrypt arms of the three providers are one
    loop body over the call that opens, the encrypt arms one over the call that
    seals, as the source's copies differ in nothing else; [black_box] is the
    identity. *)

From stdpp Require Import base numbers list list_numbers option.
From Stdlib Require Import Strings.Byte.
From S2P Require Import Prelude ReplayWindow ReplayReference AntiReplay Cipher Session Pool.
Import Pool.

Module Arms.

(** [u64::rotate_left(1)]. *)
Definition rotate_left1 (x : Z) : Z := Z.lor (wrap64 (Z.shiftl x 1)) (Z.shiftr x 63).

Definition fold (acc : Z) (buf : list byte) (off : nat) : outcome Z :=
  bytes ← slice buf off (off + 8);
  Ret (Z.lxor (rotate_left1 acc) (le_value bytes)).

(** The schedule's entries at an iteration, as [usize]. *)
Definition slot_of (sch : Sched) (i : nat) : outcome nat :=
  slot ← vec_index (sched_slot sch) i; Ret (Z.to_nat slot).

Definition fold_of (sch : Sched) (i : nat) : outcome nat :=
  off ← vec_index (sched_fold sch) i; Ret (Z.to_nat off).

Section Arms.
Context {W : Type} `{AntiReplay W} `{Aead} `{Providers}.

Record Ctx : Type := mkCtx {
  ctx_rc : rc_key;
  ctx_ring : aead_key;
  ctx_cc : cc_key;
  ctx_rx : ExpresslaneSession W aead_key;
  ctx_tx : ExpresslaneSession W aead_key;
  ctx_sid : list byte;
}.

Definition with_rx (rx : ExpresslaneSession W aead_key) (c : Ctx) : Ctx :=
  mkCtx (ctx_rc c) (ctx_ring c) (ctx_cc c) rx (ctx_tx c) (ctx_sid c).

Definition with_tx (tx : ExpresslaneSession W aead_key) (c : Ctx) : Ctx :=
  mkCtx (ctx_rc c) (ctx_ring c) (ctx_cc c) (ctx_rx c) tx (ctx_sid c).

(** The loop's state: accumulator, successes, output buffer, context. *)
Definition arm_state : Type := Z * Z * list byte * Ctx.

(** An arm returns the folded checksum and the number of successful operations,
    and leaves the buffer and the sessions it worked on. *)
Definition ArmFn : Type := Ctx -> Src -> list byte -> Sched -> outcome arm_state.

Definition null_body (s : Src) (sch : Sched) (i : nat) (st : arm_state) : outcome arm_state :=
  let '(acc, ok, dst, c) := st in
  slot ← slot_of sch i;
  let base := slot * stride s in
  out ← slice dst base (base + len s);
  off ← fold_of sch i;
  acc ← fold acc out off;
  Ret (acc, (ok + 1)%Z, dst, c).

Definition arm_null : ArmFn := fun c s dst sch => for_range (sched_n sch) (null_body s sch) (0%Z, 0%Z, dst, c).

Definition copy_body (s : Src) (sch : Sched) (i : nat) (st : arm_state) : outcome arm_state :=
  let '(acc, ok, dst, c) := st in
  slot ← slot_of sch i;
  let base := slot * stride s in
  w ← slice (wire s) base (base + WIRE_OVERHEAD + len s);
  out ← slice dst base (base + len s);
  payload ← slice w WIRE_OVERHEAD (WIRE_OVERHEAD + len s);
  out ← copy_from_slice out 0 (length out) payload;
  dst ← copy_from_slice dst base (base + len s) out;
  off ← fold_of sch i;
  acc ← fold acc out off;
  Ret (acc, (ok + 1)%Z, dst, c).

Definition arm_copy : ArmFn := fun c s dst sch => for_range (sched_n sch) (copy_body s sch) (0%Z, 0%Z, dst, c).

(** The decrypt arms on the raw primitive: header fields, associated data, the
    payload copy, then [open] in place on the copy. *)
Definition dec_body (open : Ctx -> list byte -> list byte -> list byte -> list byte -> bool * list byte)
    (wire : list byte) (s : Src) (sch : Sched) (i : nat) (st : arm_state) : outcome arm_state :=
  let '(acc, ok, dst, c) := st in
  slot ← slot_of sch i;
  let base := slot * stride s in
  w ← slice wire base (base + WIRE_OVERHEAD + len s);
  counter_bytes ← slice w 0 8;
  flag_bytes ← slice w 38 40;
  aad ← aad_v2 (ctx_sid c) (be_value counter_bytes) (be_value flag_bytes);
  out ← slice dst base (base + len s);
  payload ← slice w WIRE_OVERHEAD (WIRE_OVERHEAD + len s);
  out ← copy_from_slice out 0 (length out) payload;
  iv ← slice w 8 20;
  tag ← slice w 20 36;
  let '(r, out) := open c iv aad tag out in
  dst ← copy_from_slice dst base (base + len s) out;
  let ok := (ok + (if r : bool then 1 else 0))%Z in
  off ← fold_of sch i;
  acc ← fold acc out off;
  Ret (acc, ok, dst, c).

Definition arm_rc_aesgcm_dec : ArmFn := fun c s dst sch =>
  for_range (sched_n sch) (dec_body (fun c => rc_open (ctx_rc c)) (wire s) s sch) (0%Z, 0%Z, dst, c).

Definition arm_ring_aesgcm_dec : ArmFn := fun c s dst sch =>
  for_range (sched_n sch) (dec_body (fun c => open_in_place (ctx_ring c)) (wire s) s sch) (0%Z, 0%Z, dst, c).

Definition arm_rc_chacha_dec : ArmFn := fun c s dst sch =>
  for_range (sched_n sch) (dec_body (fun c => cc_open (ctx_cc c)) (wire_cc s) s sch) (0%Z, 0%Z, dst, c).

(** The encrypt arms on the raw primitive. *)
Definition enc_body (seal : Ctx -> list byte -> list byte -> list byte -> option (list byte) * list byte)
    (s : Src) (sch : Sched) (i : nat) (st : arm_state) : outcome arm_state :=
  let '(acc, ok, dst, c) := st in
  slot ← slot_of sch i;
  let base := slot * stride s in
  let counter := wrap64 (Z.of_nat slot + 1) in
  iv ← iv_for counter;
  aad ← aad_v2 (ctx_sid c) counter 0;
  out ← slice dst base (base + len s);
  p ← slice (plain s) base (base + len s);
  out ← copy_from_slice out 0 (length out) p;
  let '(sealed, out) := seal c iv aad out in
  dst ← copy_from_slice dst base (base + len s) out;
  '(acc, ok) ←
    match sealed with
    | Some tag => acc ← fold acc tag 0; Ret (acc, (ok + 1)%Z)
    | None => Ret (rotate_left1 acc, ok)
    end;
  off ← fold_of sch i;
  acc ← fold acc out off;
  Ret (acc, ok, dst, c).

Definition arm_rc_aesgcm_enc : ArmFn := fun c s dst sch =>
  for_range (sched_n sch) (enc_body (fun c => rc_seal (ctx_rc c)) s sch) (0%Z, 0%Z, dst, c).

Definition arm_ring_aesgcm_enc : ArmFn := fun c s dst sch =>
  for_range (sched_n sch) (enc_body (fun c => seal_in_place (ctx_ring c)) s sch) (0%Z, 0%Z, dst, c).

Definition arm_rc_chacha_enc : ArmFn := fun c s dst sch =>
  for_range (sched_n sch) (enc_body (fun c => cc_seal (ctx_cc c)) s sch) (0%Z, 0%Z, dst, c).

(** The arms on the shipping session. *)
Definition session_dec_body (s : Src) (sch : Sched) (i : nat) (st : arm_state) : outcome arm_state :=
  let '(acc, ok, dst, c) := st in
  slot ← slot_of sch i;
  let base := slot * stride s in
  w ← slice (wire s) base (base + WIRE_OVERHEAD + len s);
  out ← slice dst base (base + len s);
  '(r, out, rx) ← decrypt (ctx_sid c) w out (ctx_rx c);
  dst ← copy_from_slice dst base (base + len s) out;
  let ok := (ok + (if is_ok r then 1 else 0))%Z in
  off ← fold_of sch i;
  acc ← fold acc out off;
  Ret (acc, ok, dst, with_rx rx c).

Definition arm_session_dec : ArmFn := fun c s dst sch =>
  for_range (sched_n sch) (session_dec_body s sch) (0%Z, 0%Z, dst, c).

Definition session_enc_body (s : Src) (sch : Sched) (i : nat) (st : arm_state) : outcome arm_state :=
  let '(acc, ok, dst, c) := st in
  slot ← slot_of sch i;
  let base := slot * stride s in
  let counter := wrap64 (Z.of_nat slot + 1) in
  iv ← iv_for counter;
  out ← slice dst base (base + WIRE_OVERHEAD + len s);
  p ← slice (plain s) base (base + len s);
  '(r, out, tx) ← encrypt counter (ctx_sid c) p iv false out (ctx_tx c);
  dst ← copy_from_slice dst base (base + WIRE_OVERHEAD + len s) out;
  let ok := (ok + (if is_ok r then 1 else 0))%Z in
  acc ← fold acc out 20;
  off ← fold_of sch i;
  acc ← fold acc out (WIRE_OVERHEAD + off);
  Ret (acc, ok, dst, with_tx tx c).

Definition arm_session_enc : ArmFn := fun c s dst sch =>
  for_range (sched_n sch) (session_enc_body s sch) (0%Z, 0%Z, dst, c).

End Arms.
End Arms.
