(* ===== verification/ArmsFacts.v ===== *)
(** * Correctness of the benchmark's arms

    Every arm returns, succeeds on every packet of its schedule, and folds bytes
    that only depend on the pool: the decrypt arms the plaintexts, the AES
    encrypt arms the ciphertexts and tags that sealing gives.  This is what makes
    the benchmark's comparison of accumulators across arms meaningful. *)

From stdpp Require Import base numbers list list_numbers option.
From Stdlib Require Import Strings.Byte.
From S2P Require Import Prelude ReplayWindow ReplayReference AntiReplay Cipher Session SessionFacts SessionProperties.
From S2P Require Import Pool PoolFacts Arms.
Import SessionSpec SessionFacts SessionProperties Pool PoolSpec PoolFacts Arms.

Module ArmsSpec.

(** Folding eight bytes of a buffer, and the schedule's entries. *)
Definition fold_val (acc : Z) (buf : list byte) (off : nat) : Z :=
  Z.lxor (rotate_left1 acc) (le_value (take 8 (drop off buf))).

Definition slot_nat (sch : Sched) (i : nat) : nat := Z.to_nat (sched_slot sch !!! i).
Definition fold_nat (sch : Sched) (i : nat) : nat := Z.to_nat (sched_fold sch !!! i).

(** The accumulator after a pass whose iteration [i] updates it by [F i]. *)
Definition acc_after (F : nat -> Z -> Z) (n : nat) : Z := foldl (fun acc i => F i acc) 0%Z (seq 0 n).

(** What the families of arms fold at an iteration: bytes of [dst], of the
    packet's ciphertext, of the plaintext; or of a seal's tag and ciphertext. *)
Definition null_step (src : Src) (sch : Sched) (dst : list byte) (i : nat) (acc : Z) : Z :=
  fold_val acc (slot_at dst (stride src) (len src) (slot_nat sch i)) (fold_nat sch i).

Definition copy_step (src : Src) (sch : Sched) (i : nat) (acc : Z) : Z :=
  fold_val acc (drop 40 (slot_at (wire src) (stride src) (40 + len src) (slot_nat sch i))) (fold_nat sch i).

Definition dec_step (len : nat) (seed : Z) (sch : Sched) (i : nat) (acc : Z) : Z :=
  fold_val acc (slot_payload len seed (slot_nat sch i)) (fold_nat sch i).

Definition enc_step (sealed : nat -> option (list byte) * list byte) (sch : Sched) (i : nat) (acc : Z) : Z :=
  match sealed (slot_nat sch i) with
  | (Some tag, ct) => fold_val (fold_val acc tag 0) ct (fold_nat sch i)
  | (None, ct) => fold_val (rotate_left1 acc) ct (fold_nat sch i)
  end.

Section ArmsSpec.
Context {W : Type} `{AntiReplay W} `{Aead} `{Providers}.

(** The keys of a context are those of [key], its sessions send and receive
    with it, and it has the pool's session id. *)
Record ctx_wf (key : ExpresslaneKey) (src : Src) (c : Ctx (W := W)) : Prop := {
  cw_rc : rc_new (key_bytes key) = Some (ctx_rc c);
  cw_ring : unbound_key_new (key_bytes key) = Some (ctx_ring c);
  cw_cc : cc_new (key_bytes key) = Some (ctx_cc c);
  cw_tx : current_self (ctx_tx c) = Some (mkCipher (ctx_ring c)) /\ version (ctx_tx c) = Version2;
  cw_rx : peer_keys (ctx_rx c) = [mkCipher (ctx_ring c)] /\ version (ctx_rx c) = Version2;
  cw_sid : ctx_sid c = session_id src;
}.

End ArmsSpec.
End ArmsSpec.
Import ArmsSpec.

Module ArmsFacts.

Lemma fold_ret acc buf off : off + 8 <= length buf -> fold acc buf off = Ret (fold_val acc buf off).
Proof.
  intros. unfold fold, fold_val. rewrite slice_ret, bind_ret by lia. by replace (off + 8 - off) with 8 by lia.
Qed.

Lemma lookup_entry (l : list Z) i n : length l = n -> i < n -> l !! i = Some (l !!! i).
Proof. intros <- Hi. apply list_lookup_lookup_total_lt. done. Qed.

Lemma slot_of_ret src sch i :
  sched_wf src sch -> i < sched_n sch -> slot_of sch i = Ret (slot_nat sch i) /\ slot_nat sch i < slots src.
Proof.
  intros Hs Hi. pose proof (lookup_entry _ i _ (sc_slot_length _ _ Hs) Hi) as Hl.
  pose proof (sc_slot _ _ Hs _ _ Hl). unfold slot_of. rewrite (vec_index_ret _ _ _ Hl), bind_ret.
  unfold slot_nat. split; [done|lia].
Qed.

Lemma fold_of_ret src sch i :
  sched_wf src sch -> i < sched_n sch -> fold_of sch i = Ret (fold_nat sch i) /\ fold_nat sch i + 8 <= len src.
Proof.
  intros Hs Hi. pose proof (lookup_entry _ i _ (sc_fold_length _ _ Hs) Hi) as Hl.
  pose proof (sc_fold _ _ Hs _ _ Hl). unfold fold_of. rewrite (vec_index_ret _ _ _ Hl), bind_ret.
  unfold fold_nat. split; [done|lia].
Qed.

(** Overwriting a whole buffer. *)
Lemma overwrite out src : length src = length out -> copy_from_slice out 0 (length out) src = Ret src.
Proof.
  intros Hlen. rewrite copy_from_slice_ret by lia. unfold splice. simpl.
  by rewrite drop_ge, app_nil_r by lia.
Qed.

(** What the arms read of a packet. *)
Lemma packet_reads i p tag ct :
  length tag = 16 ->
  let w := slot_packet i p tag ct in
  slice w 0 8 = Ret (be_bytes 8 (slot_counter i)) /\ slice w 38 40 = Ret (be_bytes 2 0) /\
  slice w 8 20 = Ret (pool_iv (slot_counter i)) /\ slice w 20 36 = Ret tag /\
  slice w 40 (40 + length ct) = Ret ct.
Proof.
  intros Htag w. unfold w. rewrite slot_packet_fields, <- !app_assoc. rewrite !slice_ret by lens.
  fields. split_and!; try done. by rewrite drop_0_eq, take_ge by lens.
Qed.

Section Loop.
Context {W : Type} `{AntiReplay W} `{Aead} `{Providers}.

(** The rule of the arms: iterations that succeed and update the accumulator by
    [F] under an invariant on the buffer and the context. *)
Lemma arm_loop_ret (Q : nat -> list byte -> Ctx (W := W) -> Prop) F body n dst c :
  Q 0 dst c ->
  (forall i acc ok dst c, i < n -> Q i dst c ->
     exists dst' c', body i (acc, ok, dst, c) = Ret (F i acc, (ok + 1)%Z, dst', c') /\ Q (S i) dst' c') ->
  exists dst' c', for_range n body (0%Z, 0%Z, dst, c) = Ret (acc_after F n, Z.of_nat n, dst', c') /\ Q n dst' c'.
Proof.
  intros HQ Hbody.
  destruct (for_range_inv (fun i '(acc, ok, dst, c) => acc = acc_after F i /\ ok = Z.of_nat i /\ Q i dst c)
    n body (0%Z, 0%Z, dst, c)) as ([[[acc ok] dst'] c'] & Hrun & -> & -> & HQ').
  - done.
  - intros i [[[acc ok] dsti] ci] Hi (-> & -> & HQi).
    destruct (Hbody i (acc_after F i) (Z.of_nat i) dsti ci Hi HQi) as (dst' & c' & Hrun & HQ').
    eexists. split; [exact Hrun|]. cbv beta iota. split_and!; [|lia|done].
    unfold acc_after. by rewrite seq_S, foldl_app.
  - eauto.
Qed.

Lemma acc_after_ext F G n : (forall i acc, i < n -> F i acc = G i acc) -> acc_after F n = acc_after G n.
Proof.
  intros HFG. unfold acc_after. induction n as [|n IH]; [done|].
  rewrite seq_S, !foldl_app, IH by (intros; apply HFG; lia). simpl. apply HFG. lia.
Qed.

(** Counters above everything accepted so far are accepted. *)
Lemma ar_next_accepted w h i :
  ar_models w h -> (Z.of_nat i + 1 < 2 ^ 64)%Z -> Forall (fun d => (d <= Z.of_nat i)%Z) h ->
  ar_would_reject w (slot_counter i) = false.
Proof.
  intros Hm Hi Hh. rewrite (ar_would_reject_models w h) by (try done; unfold is_u64, slot_counter; lia).
  apply negb_false_iff, Properties.acceptable_iff; [by eapply ar_u64|]. rewrite List.Forall_forall in Hh.
  unfold slot_counter, Spec.window. split; [|intros d Hd]; [intros Hd|]; apply list_elem_of_In, Hh in Hd; lia.
Qed.

End Loop.

Section Bodies.
Context {W : Type} `{AntiReplay W} `{Aead} `{!AeadLaws} `{Providers} `{!ProviderLaws}.
Context (key : ExpresslaneKey) (seed : Z) (src : Src) (sch : Sched).
Context (Hsrc : src_wf key seed src) (Hsch : sched_wf src sch) (Hmax : (Z.of_nat (slots src) <= 2 ^ 32)%Z).
Implicit Types (c : Ctx (W := W)) (dst : list byte).

Abbreviation pay i := (slot_payload (len src) seed i).

Lemma length_pay i : length (pay i) = len src.
Proof. apply length_payload. Qed.

Lemma stride_room : 56 + len src <= stride src.
Proof. rewrite (sw_stride _ _ _ Hsrc). pose proof (stride_for_spec (len src)). lia. Qed.

Lemma slot_room i k : i < slots src -> k <= 40 + len src -> i * stride src + k <= slots src * stride src.
Proof. intros. pose proof stride_room. apply slot_bound; [done|lia]. Qed.

(** Reading [k] bytes of a slot. *)
Lemma slice_slot buf i k hi :
  length buf = slots src * stride src -> i < slots src -> k <= 40 + len src -> hi = i * stride src + k ->
  slice buf (i * stride src) hi = Ret (slot_at buf (stride src) k i).
Proof.
  intros Hb Hi Hk ->. pose proof (slot_room i k Hi Hk). rewrite slice_ret by lia. unfold slot_at. do 3 f_equal. lia.
Qed.

(** Writing a slot back keeps the buffer's length. *)
Lemma write_slot buf i b hi :
  length buf = slots src * stride src -> i < slots src -> length b <= 40 + len src -> hi = i * stride src + length b ->
  exists buf', copy_from_slice buf (i * stride src) hi b = Ret buf' /\ length buf' = slots src * stride src.
Proof.
  intros Hb Hi Hk ->. pose proof (slot_room i _ Hi Hk). rewrite copy_from_slice_ret by lia.
  eexists. split; [done|]. rewrite length_splice; lia.
Qed.

Lemma length_slot buf i k :
  length buf = slots src * stride src -> i < slots src -> k <= 40 + len src ->
  length (slot_at buf (stride src) k i) = k.
Proof. intros Hb Hi Hk. apply length_slot_at. rewrite Hb. by apply slot_room. Qed.

Lemma slot_u64 i : i < slots src -> wrap64 (Z.of_nat i + 1) = slot_counter i.
Proof. intros. apply wrap64_small. unfold is_u64, slot_counter. lia. Qed.

(** [packet_of buf sealed i]: slot [i] of [buf] is the packet of its payload
    under [sealed]. *)
Definition packet_of (buf : list byte) (sealed : nat -> option (list byte) * list byte) (i : nat) : Prop :=
  exists tag ct, sealed i = (Some tag, ct) /\ length tag = 16 /\ length ct = len src /\
    slot_at buf (stride src) (40 + len src) i = slot_packet i (pay i) tag ct.

Lemma null_body_ret i acc ok dst c :
  i < sched_n sch -> length dst = slots src * stride src ->
  null_body src sch i (acc, ok, dst, c) = Ret (null_step src sch dst i acc, (ok + 1)%Z, dst, c).
Proof.
  intros Hi Hdst. unfold null_body.
  destruct (slot_of_ret src sch i Hsch Hi) as [-> Hslot]. destruct (fold_of_ret src sch i Hsch Hi) as [-> Hoff].
  rewrite !bind_ret, (slice_slot dst _ (len src)), bind_ret by (done || lia).
  by rewrite bind_ret, fold_ret, bind_ret by (rewrite length_slot; (done || lia)).
Qed.

Lemma copy_body_ret i acc ok dst c :
  i < sched_n sch -> length dst = slots src * stride src ->
  exists dst', copy_body src sch i (acc, ok, dst, c) = Ret (copy_step src sch i acc, (ok + 1)%Z, dst', c) /\
    length dst' = slots src * stride src.
Proof.
  intros Hi Hdst. unfold copy_body, WIRE_OVERHEAD, copy_step.
  destruct (slot_of_ret src sch i Hsch Hi) as [-> Hslot]. destruct (fold_of_ret src sch i Hsch Hi) as [-> Hoff].
  set (j := slot_nat sch i) in *. pose proof (sw_wire_length _ _ _ Hsrc) as Hw.
  rewrite bind_ret, (slice_slot (wire src) j (40 + len src)), bind_ret by (done || lia).
  rewrite (slice_slot dst j (len src)), bind_ret by (done || lia).
  set (w := slot_at (wire src) (stride src) (40 + len src) j).
  assert (Hlw : length w = 40 + len src) by (apply length_slot; (done || lia)).
  rewrite slice_ret, bind_ret by lia. replace (40 + len src - 40) with (len src) by lia.
  rewrite take_ge by lens.
  assert (Hpl : length (drop 40 w) = len src) by lens.
  rewrite overwrite, bind_ret by (rewrite length_slot; (done || lia)).
  destruct (write_slot dst j (drop 40 w) (j * stride src + len src)) as (dst' & -> & Hdst'); [done|done|lia|lia|].
  rewrite !bind_ret, fold_ret, bind_ret by lia. eauto.
Qed.

Lemma dec_body_ret open buf sealed i acc ok dst c :
  i < sched_n sch -> length dst = slots src * stride src -> length buf = slots src * stride src ->
  (forall j, j < slots src -> packet_of buf sealed j) -> ctx_sid c = session_id src ->
  (forall j tag ct, sealed j = (Some tag, ct) ->
     open c (pool_iv (slot_counter j)) (slot_aad (session_id src) j) tag ct = (true, pay j)) ->
  exists dst', dec_body open buf src sch i (acc, ok, dst, c) =
      Ret (dec_step (len src) seed sch i acc, (ok + 1)%Z, dst', c) /\
    length dst' = slots src * stride src.
Proof.
  intros Hi Hdst Hbuf Hpk Hsid Hopen. unfold dec_body, WIRE_OVERHEAD, dec_step.
  destruct (slot_of_ret src sch i Hsch Hi) as [-> Hslot]. destruct (fold_of_ret src sch i Hsch Hi) as [-> Hoff].
  set (j := slot_nat sch i) in *. destruct (Hpk j Hslot) as (tag & ct & Hs & Htag & Hct & Hw).
  destruct (packet_reads j (pay j) tag ct Htag) as (Hr1 & Hr2 & Hr3 & Hr4 & Hr5). rewrite Hct in Hr5.
  rewrite bind_ret, (slice_slot buf j (40 + len src)), bind_ret, Hw by (done || lia).
  rewrite Hr1, Hr2, !bind_ret, be_value_be_bytes_u64 by (unfold is_u64, slot_counter; lia).
  change (be_value (be_bytes 2 0)) with 0%Z.
  rewrite aad_v2_ret, bind_ret by (rewrite Hsid; apply Hsrc).
  rewrite (slice_slot dst j (len src)), bind_ret, Hr5, bind_ret by (done || lia).
  rewrite overwrite, bind_ret, Hr3, Hr4, !bind_ret by (rewrite length_slot; (done || lia)).
  rewrite Hsid. fold (slot_aad (session_id src) j). rewrite (Hopen j tag ct Hs).
  pose proof (length_pay j) as Hl.
  destruct (write_slot dst j (pay j) (j * stride src + len src)) as (dst' & -> & Hdst'); [done|done|lia|lia|].
  rewrite !bind_ret, fold_ret, bind_ret by lia. eauto.
Qed.

Lemma enc_body_ret seal sealed i acc ok dst c :
  i < sched_n sch -> length dst = slots src * stride src -> ctx_sid c = session_id src ->
  (forall j, j < slots src ->
     seal c (pool_iv (slot_counter j)) (slot_aad (session_id src) j) (pay j) = sealed j /\
     exists tag ct, sealed j = (Some tag, ct) /\ length tag = 16 /\ length ct = len src) ->
  exists dst', enc_body seal src sch i (acc, ok, dst, c) =
      Ret (enc_step sealed sch i acc, (ok + 1)%Z, dst', c) /\
    length dst' = slots src * stride src.
Proof.
  intros Hi Hdst Hsid Hseal. unfold enc_body, enc_step.
  destruct (slot_of_ret src sch i Hsch Hi) as [-> Hslot]. destruct (fold_of_ret src sch i Hsch Hi) as [-> Hoff].
  set (j := slot_nat sch i) in *. destruct (Hseal j Hslot) as (Hs & tag & ct & Hs' & Htag & Hct).
  rewrite bind_ret, slot_u64, iv_for_ret, bind_ret by done.
  rewrite aad_v2_ret, bind_ret by (rewrite Hsid; apply Hsrc).
  rewrite (slice_slot dst j (len src)), bind_ret by (done || lia).
  rewrite (slice_slot (plain src) j (len src)), bind_ret by (done || lia || apply Hsrc).
  rewrite (sw_plain _ _ _ Hsrc) by done. pose proof (length_pay j) as Hl.
  rewrite overwrite, bind_ret by (rewrite length_slot; (done || lia)).
  rewrite Hsid. fold (slot_aad (session_id src) j). rewrite Hs, Hs'.
  destruct (write_slot dst j ct (j * stride src + len src)) as (dst' & -> & Hdst'); [done|done|lia|lia|].
  rewrite bind_ret, fold_ret, !bind_ret by lia. rewrite fold_ret, bind_ret by lia. eauto.
Qed.

(** ** The session's arms *)

Lemma fold_val_packet acc i p tag ct off :
  length tag = 16 -> length ct = len src -> off + 8 <= len src ->
  fold_val acc (slot_packet i p tag ct) 20 = fold_val acc tag 0 /\
  fold_val acc (slot_packet i p tag ct) (40 + off) = fold_val acc ct off.
Proof.
  intros Htag Hct Hoff. unfold fold_val. rewrite slot_packet_fields. split; do 2 f_equal.
  - rewrite (drop_app_length' (_ ++ _)) by lens. rewrite take_app_le by lens. by rewrite drop_0.
  - rewrite !app_assoc. rewrite drop_app_ge by lens. do 2 f_equal. lens.
Qed.

(** Sealing succeeds on the pool's payloads. *)
Lemma slot_sealed_some (k : aead_key) j :
  exists tag ct, slot_sealed k (session_id src) j (pay j) = (Some tag, ct) /\ length tag = 16 /\ length ct = len src.
Proof.
  unfold slot_sealed. pose proof (length_pay j) as Hl.
  destruct (seal_succeeds k (pool_iv (slot_counter j)) (slot_aad (session_id src) j) (pay j)) as (t & Ht & Hlt);
    [apply length_pool_iv|rewrite Hl; apply Hsrc|].
  pose proof (seal_length k (pool_iv (slot_counter j)) (slot_aad (session_id src) j) (pay j)) as Hc.
  destruct (seal_in_place _ _ _ _) as [t' ct]. simpl in *. subst. eauto with lia.
Qed.

Lemma slot_seals (k : aead_key) j tag ct :
  slot_sealed k (session_id src) j (pay j) = (Some tag, ct) -> length tag = 16 ->
  seals (mkCipher k) Version2 (session_id src) (slot_counter j) (pool_iv (slot_counter j)) false (pay j) tag ct.
Proof.
  unfold slot_sealed, slot_aad, seals, cipher_encrypt. intros Hs Htag. simpl. rewrite Hs. by rewrite decide_True.
Qed.

Lemma session_enc_body_ret i acc ok dst c :
  i < sched_n sch -> length dst = slots src * stride src -> ctx_wf key src c ->
  exists dst' tx', session_enc_body src sch i (acc, ok, dst, c) =
      Ret (enc_step (fun j => slot_sealed (ctx_ring c) (session_id src) j (pay j)) sch i acc, (ok + 1)%Z, dst',
           with_tx tx' c) /\
    length dst' = slots src * stride src /\ tx' = set_packets_sent (wrap64 (packets_sent (ctx_tx c) + 1)) (ctx_tx c).
Proof.
  intros Hi Hdst Hc. unfold session_enc_body, enc_step, WIRE_OVERHEAD.
  destruct (slot_of_ret src sch i Hsch Hi) as [-> Hslot]. destruct (fold_of_ret src sch i Hsch Hi) as [-> Hoff].
  set (j := slot_nat sch i) in *.
  rewrite bind_ret, slot_u64, iv_for_ret, bind_ret by done.
  rewrite (slice_slot dst j (40 + len src)), bind_ret by (done || lia).
  rewrite (slice_slot (plain src) j (len src)), bind_ret by (done || lia || apply Hsrc).
  rewrite (sw_plain _ _ _ Hsrc), (cw_sid _ _ _ Hc) by done. pose proof (length_pay j) as Hl.
  set (out := slot_at dst (stride src) (40 + len src) j).
  assert (Hout : length out = 40 + len src) by (apply length_slot; (done || lia)).
  destruct (cw_tx _ _ _ Hc) as [Hself Hver]. pose proof (sw_len _ _ _ Hsrc).
  destruct (encrypt_success (mkCipher (ctx_ring c)) (slot_counter j) (session_id src) (pay j) (pool_iv (slot_counter j))
    false out (ctx_tx c)) as (tag & ct & Hs & Htag & Hct & ->);
    [apply Hsrc|apply length_pool_iv|lia|lia|done|].
  rewrite bind_ret, drop_ge, app_nil_r by lia. fold (slot_packet j (pay j) tag ct).
  pose proof (length_slot_packet j (pay j) tag ct Htag) as Hpk.
  destruct (write_slot dst j (slot_packet j (pay j) tag ct) (j * stride src + 40 + len src))
    as (dst' & -> & Hdst'); [done|done|lia|lia|].
  destruct (slot_sealed_some (ctx_ring c) j) as (tag' & ct' & Hs' & Htag' & Hct').
  pose proof (slot_seals _ _ _ _ Hs' Htag') as Hs2. unfold seals in Hs, Hs2. rewrite Hver, Hs2 in Hs. simplify_eq.
  rewrite Hs', bind_ret, fold_ret, !bind_ret by lia. rewrite fold_ret, bind_ret by lia.
  destruct (fold_val_packet acc j (pay j) tag ct (fold_nat sch i)) as [-> _]; [done|done|lia|].
  destruct (fold_val_packet (fold_val acc tag 0) j (pay j) tag ct (fold_nat sch i)) as [_ ->]; [done|done|lia|].
  eauto.
Qed.

(** One packet through the receiving session: a counter the window takes is
    delivered and recorded. *)
Lemma session_dec_body_ok i acc ok dst c :
  i < sched_n sch -> length dst = slots src * stride src -> ctx_wf key src c ->
  ar_would_reject (replay_window (rx (ctx_rx c))) (slot_counter (slot_nat sch i)) = false ->
  exists dst', session_dec_body src sch i (acc, ok, dst, c) =
      Ret (dec_step (len src) seed sch i acc, (ok + 1)%Z, dst',
           with_rx (accept_counter (slot_counter (slot_nat sch i)) (ctx_rx c)) c) /\
    length dst' = slots src * stride src.
Proof.
  intros Hi Hdst Hc Hrej. unfold session_dec_body, dec_step, WIRE_OVERHEAD.
  destruct (slot_of_ret src sch i Hsch Hi) as [-> Hslot]. destruct (fold_of_ret src sch i Hsch Hi) as [-> Hoff].
  set (j := slot_nat sch i) in *.
  destruct (sw_wire _ _ _ Hsrc j (ctx_ring c) Hslot (cw_ring _ _ _ Hc)) as (tag & ct & Hs & Htag & Hct & Hw).
  rewrite bind_ret, (slice_slot (wire src) j (40 + len src)), bind_ret, Hw by (done || lia || apply Hsrc).
  rewrite (slice_slot dst j (len src)), bind_ret by (done || lia).
  pose proof (length_pay j) as Hl. pose proof (sw_len _ _ _ Hsrc). destruct (cw_rx _ _ _ Hc) as [Hpeer Hver].
  assert (Hout : length (slot_at dst (stride src) (len src) j) = len src) by (apply length_slot; (done || lia)).
  unfold slot_packet. rewrite decrypt_sealed.
  all: try (done || lia || apply length_pool_iv || (unfold is_u64, slot_counter; lia)).
  - rewrite bind_ret, drop_ge, app_nil_r by lia.
    destruct (write_slot dst j (pay j) (j * stride src + len src)) as (dst' & -> & Hdst'); [done|done|lia|lia|].
    rewrite !bind_ret, fold_ret, bind_ret by lia. eauto.
  - rewrite (cw_sid _ _ _ Hc). apply Hsrc.
  - rewrite Hpeer, Hver, (cw_sid _ _ _ Hc). simpl.
    by rewrite (open_sealed_with _ _ _ _ _ _ _ _ _ _ _ (slot_seals _ _ _ _ Hs Htag) Htag eq_refl eq_refl).
Qed.

(** A packet whose counter the window refuses is counted as a failure and
    changes neither buffer nor session. *)
Lemma session_dec_body_replayed i acc ok dst c :
  i < sched_n sch -> length dst = slots src * stride src -> ctx_wf key src c ->
  ar_would_reject (replay_window (rx (ctx_rx c))) (slot_counter (slot_nat sch i)) = true ->
  exists dst', session_dec_body src sch i (acc, ok, dst, c) =
      Ret (null_step src sch dst i acc, ok, dst', with_rx (ctx_rx c) c) /\
    length dst' = slots src * stride src.
Proof.
  intros Hi Hdst Hc Hrej. unfold session_dec_body, null_step, WIRE_OVERHEAD.
  destruct (slot_of_ret src sch i Hsch Hi) as [-> Hslot]. destruct (fold_of_ret src sch i Hsch Hi) as [-> Hoff].
  set (j := slot_nat sch i) in *.
  destruct (sw_wire _ _ _ Hsrc j (ctx_ring c) Hslot (cw_ring _ _ _ Hc)) as (tag & ct & Hs & Htag & Hct & Hw).
  rewrite bind_ret, (slice_slot (wire src) j (40 + len src)), bind_ret, Hw by (done || lia || apply Hsrc).
  rewrite (slice_slot dst j (len src)), bind_ret by (done || lia).
  assert (Hout : length (slot_at dst (stride src) (len src) j) = len src) by (apply length_slot; (done || lia)).
  rewrite decrypt_meets_spec by (rewrite (cw_sid _ _ _ Hc); apply Hsrc).
  pose proof (length_slot_packet j (pay j) tag ct Htag) as Hpk.
  assert (Hctr : h_counter (decode_header (slot_packet j (pay j) tag ct)) = slot_counter j).
  { destruct (packet_reads j (pay j) tag ct Htag) as (Hr & _). rewrite slice_ret in Hr by lia.
    apply (inj Ret) in Hr. rewrite drop_0, Nat.sub_0_r in Hr. cbn [decode_header h_counter]. rewrite Hr. apply be_value_be_bytes_u64. unfold is_u64, slot_counter. lia. }
  unfold decrypt_spec. rewrite Hctr, Hrej, decide_False by lia. rewrite bind_ret.
  destruct (write_slot dst j (slot_at dst (stride src) (len src) j) (j * stride src + len src))
    as (dst' & -> & Hdst'); [done|done|lia|lia|].
  rewrite !bind_ret, fold_ret, bind_ret by lia. simpl. rewrite Z.add_0_r. eauto.
Qed.

End Bodies.

(** ** Whole arms *)

Section WholeArms.
Context {W : Type} `{AntiReplay W} `{Aead} `{!AeadLaws} `{Providers} `{!ProviderLaws}.
Context (key : ExpresslaneKey) (seed : Z) (src : Src) (sch : Sched).
Context (Hsrc : src_wf key seed src) (Hsch : sched_wf src sch) (Hmax : (Z.of_nat (slots src) <= 2 ^ 32)%Z).
Context (c : Ctx (W := W)) (dst : list byte).
Context (Hc : ctx_wf key src c) (Hdst : length dst = slots src * stride src).

Abbreviation pay i := (slot_payload (len src) seed i).
Abbreviation n := (sched_n sch).

(** An arm that folds by [F]: it returns, every operation succeeds, the output
    buffer keeps its size, and the context it leaves satisfies [Q]. *)
Definition folds (f : ArmFn (W := W)) (F : nat -> Z -> Z) (Q : Ctx (W := W) -> Prop) : Prop :=
  exists dst' c', f c src dst sch = Ret (acc_after F n, Z.of_nat n, dst', c') /\
    length dst' = slots src * stride src /\ Q c'.

(** Arms that leave the context alone. *)
Lemma folds_loop (body : Src -> Sched -> nat -> arm_state (W := W) -> outcome arm_state) F f :
  f c src dst sch = for_range n (body src sch) (0%Z, 0%Z, dst, c) ->
  (forall i acc ok dst, i < n -> length dst = slots src * stride src ->
     exists dst', body src sch i (acc, ok, dst, c) = Ret (F i acc, (ok + 1)%Z, dst', c) /\
       length dst' = slots src * stride src) ->
  folds f F (fun c' => c' = c).
Proof.
  intros Hf Hbody. unfold folds. rewrite Hf.
  destruct (arm_loop_ret (fun _ dst' c' => length dst' = slots src * stride src /\ c' = c) F (body src sch) n dst c)
    as (dst' & c' & Hrun & Hd & ->); [done| |by eauto].
  intros i acc ok dsti ci Hi [Hd ->]. destruct (Hbody i acc ok dsti Hi Hd) as (dst' & Hrun & Hd'). eauto.
Qed.

Lemma arm_null_ret : arm_null c src dst sch = Ret (acc_after (null_step src sch dst) n, Z.of_nat n, dst, c).
Proof.
  destruct (arm_loop_ret (fun _ dst' c' => dst' = dst /\ c' = c) (null_step src sch dst) (null_body src sch) n dst c)
    as (dst' & c' & Hrun & -> & ->); [done| |done].
  intros i acc ok dsti ci Hi [-> ->]. eexists _, _. by rewrite (null_body_ret key seed).
Qed.

Lemma arm_copy_folds : folds arm_copy (copy_step src sch) (fun c' => c' = c).
Proof. apply (folds_loop copy_body); [done|]. intros. by apply (copy_body_ret key seed). Qed.

(** The packets of the two wire buffers, under the context's keys. *)
Lemma wire_packets j :
  j < slots src ->
  packet_of seed src (wire src) (fun j => slot_sealed (ctx_ring c) (session_id src) j (pay j)) j.
Proof. intros Hj. apply (sw_wire _ _ _ Hsrc j _ Hj), Hc. Qed.

Lemma wire_cc_packets j :
  j < slots src ->
  packet_of seed src (wire_cc src) (fun j => slot_sealed_cc (ctx_cc c) (session_id src) j (pay j)) j.
Proof. intros Hj. apply (sw_wire_cc _ _ _ Hsrc j _ Hj), Hc. Qed.

(** RustCrypto seals as [ring] does. *)
Lemma rc_slot_sealed j :
  rc_seal (ctx_rc c) (pool_iv (slot_counter j)) (slot_aad (session_id src) j) (pay j) =
  slot_sealed (ctx_ring c) (session_id src) j (pay j).
Proof.
  apply (rc_is_aes256gcm (key_bytes key)); [apply Hc..|apply length_pool_iv|].
  rewrite length_pay. apply Hsrc.
Qed.

Lemma arm_rc_dec_folds : folds arm_rc_aesgcm_dec (dec_step (len src) seed sch) (fun c' => c' = c).
Proof.
  apply (folds_loop (dec_body (fun c => rc_open (ctx_rc c)) (wire src))); [done|]. intros i acc ok dst' Hi Hd.
  eapply (dec_body_ret key seed); try done; [apply Hsrc|apply wire_packets|apply Hc|].
  intros j tag ct Hs. simpl in Hs. rewrite <- rc_slot_sealed in Hs. by apply (@open_sealed rc_aead _).
Qed.

Lemma arm_ring_dec_folds : folds arm_ring_aesgcm_dec (dec_step (len src) seed sch) (fun c' => c' = c).
Proof.
  apply (folds_loop (dec_body (fun c => open_in_place (ctx_ring c)) (wire src))); [done|]. intros i acc ok dst' Hi Hd.
  eapply (dec_body_ret key seed); try done; [apply Hsrc|apply wire_packets|apply Hc|].
  intros j tag ct Hs. by apply open_sealed.
Qed.

Lemma arm_chacha_dec_folds : folds arm_rc_chacha_dec (dec_step (len src) seed sch) (fun c' => c' = c).
Proof.
  apply (folds_loop (dec_body (fun c => cc_open (ctx_cc c)) (wire_cc src))); [done|]. intros i acc ok dst' Hi Hd.
  eapply (dec_body_ret key seed); try done; [apply Hsrc|apply wire_cc_packets|apply Hc|].
  intros j tag ct Hs. by apply (@open_sealed cc_aead _).
Qed.

Abbreviation enc_ring_step :=
  (enc_step (fun j => slot_sealed (ctx_ring c) (session_id src) j (pay j)) sch).

Lemma arm_rc_enc_folds : folds arm_rc_aesgcm_enc enc_ring_step (fun c' => c' = c).
Proof.
  apply (folds_loop (enc_body (fun c => rc_seal (ctx_rc c)))); [done|]. intros i acc ok dst' Hi Hd.
  apply (enc_body_ret key seed); try done; [apply Hc|]. intros j Hj. split; [apply rc_slot_sealed|].
  by apply (slot_sealed_some key).
Qed.

Lemma arm_ring_enc_folds : folds arm_ring_aesgcm_enc enc_ring_step (fun c' => c' = c).
Proof.
  apply (folds_loop (enc_body (fun c => seal_in_place (ctx_ring c)))); [done|]. intros i acc ok dst' Hi Hd.
  apply (enc_body_ret key seed); try done; [apply Hc|]. intros j Hj. split; [done|].
  by apply (slot_sealed_some key).
Qed.

Lemma arm_chacha_enc_folds :
  folds arm_rc_chacha_enc (enc_step (fun j => slot_sealed_cc (ctx_cc c) (session_id src) j (pay j)) sch)
    (fun c' => c' = c).
Proof.
  apply (folds_loop (enc_body (fun c => cc_seal (ctx_cc c)))); [done|]. intros i acc ok dst' Hi Hd.
  apply (enc_body_ret key seed); try done; [apply Hc|]. intros j Hj. split; [done|].
  destruct (wire_cc_packets j Hj) as (tag & ct & ? & ? & ? & _). eauto.
Qed.

(** The sending session only counts. *)
Lemma arm_session_enc_folds :
  folds arm_session_enc enc_ring_step
    (fun c' => c' = with_tx (set_packets_sent (packets_sent (ctx_tx c')) (ctx_tx c)) c /\
       (is_u64 (packets_sent (ctx_tx c)) -> packets_sent (ctx_tx c') = wrap64 (packets_sent (ctx_tx c) + Z.of_nat n))).
Proof.
  destruct (arm_loop_ret (fun i dst' c' => length dst' = slots src * stride src /\
      c' = with_tx (set_packets_sent (packets_sent (ctx_tx c')) (ctx_tx c)) c /\
      (is_u64 (packets_sent (ctx_tx c)) -> packets_sent (ctx_tx c') = wrap64 (packets_sent (ctx_tx c) + Z.of_nat i)))
    enc_ring_step (session_enc_body src sch) n dst c) as (dst' & c' & Hrun & Hd & Hc'); [| |by exists dst', c'].
  - split_and!; [done|by destruct c as [? ? ? ? []]|]. intros. rewrite wrap64_small; rewrite Z.add_0_r; done.
  - intros i acc ok dsti ci Hi (Hd & Hci & Hsent).
    assert (Hwf : ctx_wf key src ci) by (rewrite Hci; destruct Hc; by split).
    destruct (session_enc_body_ret key seed src sch Hsrc Hsch Hmax i acc ok dsti ci Hi Hd Hwf)
      as (dst' & tx' & Hrun & Hd' & ->).
    assert (Hring : ctx_ring ci = ctx_ring c) by (by rewrite Hci). rewrite Hring in Hrun.
    eexists _, _. split; [exact Hrun|]. split_and!; [done|by rewrite Hci|]. intros Hu.
    cbn [with_tx ctx_tx set_packets_sent packets_sent]. rewrite Hsent, wrap64_add_l by done. f_equal. lia.
Qed.

(** On the cold schedule a receiving session that has accepted nothing delivers
    every packet and has counted them all. *)
Lemma arm_session_dec_folds :
  (forall i, i < n -> slot_nat sch i = i) -> (n <= slots src) ->
  ar_models (replay_window (rx (ctx_rx c))) [] ->
  folds arm_session_dec (dec_step (len src) seed sch)
    (fun c' => packets_received (ctx_rx c') = Z.of_nat n /\ ctx_tx c' = ctx_tx c).
Proof.
  intros Hcold Hle Hfresh.
  destruct (arm_loop_ret (fun i dst' c' => length dst' = slots src * stride src /\ ctx_wf key src c' /\
      ctx_tx c' = ctx_tx c /\
      exists h, ar_models (replay_window (rx (ctx_rx c'))) h /\ length h = i /\ Forall (fun d => (d <= Z.of_nat i)%Z) h)
    (dec_step (len src) seed sch) (session_dec_body src sch) n dst c)
    as (dst' & c' & Hrun & Hd & _ & Htx & h & Hm & Hl & _); [by eauto 10| |].
  - intros i acc ok dsti ci Hi (Hd & Hwf & Htx & h & Hm & Hl & Hh).
    pose proof (ar_next_accepted _ h i Hm ltac:(lia) Hh) as Hrej.
    destruct (session_dec_body_ok key seed src sch Hsrc Hsch Hmax i acc ok dsti ci Hi Hd Hwf) as (dst' & Hrun & Hd');
      [by rewrite Hcold|].
    eexists _, _. split; [exact Hrun|]. rewrite Hcold by done. split_and!; [done|destruct Hwf; by split|done|].
    exists (slot_counter i :: h). split_and!.
    + apply ar_commit_models; try done. unfold is_u64, slot_counter. lia.
    + simpl. by rewrite Hl.
    + constructor; [unfold slot_counter; lia|]. eapply List.Forall_impl; [|exact Hh]. simpl. lia.
  - exists dst', c'. split_and!; try done. unfold packets_received. rewrite (ar_count _ _ Hm), Hl.
    apply wrap64_small. unfold is_u64. lia.
Qed.

End WholeArms.
End ArmsFacts.
