(* ===== verification/ArmsProperties.v ===== *)
(** * What the benchmark's arms guarantee

    The decrypt arms are interchangeable and so are the AES encrypt arms: same
    accumulator, every operation a success.  A receiving session needs a fresh
    window and a cold schedule to be measured at all. *)

From stdpp Require Import base numbers list list_numbers option.
From Stdlib Require Import Strings.Byte.
From S2P Require Import Prelude ReplayWindow ReplayReference AntiReplay Cipher Session SessionFacts SessionProperties.
From S2P Require Import Pool PoolFacts Arms ArmsFacts.
Import SessionSpec SessionFacts SessionProperties Pool PoolSpec PoolFacts Arms ArmsSpec ArmsFacts.

Module ArmsProperties.

Section ArmsProperties.
Context {W : Type} `{AntiReplay W} `{Aead} `{!AeadLaws} `{Providers} `{!ProviderLaws}.
Implicit Types (c : Ctx (W := W)) (src : Src) (sch : Sched).

(** The result of an arm without what it leaves behind: checksum and successes. *)
Definition arm_result (o : outcome (arm_state (W := W))) : option (Z * Z) :=
  match o with Ret (acc, ok, _, _) => Some (acc, ok) | Panic => None end.

Lemma folds_result src sch c dst f F Q :
  folds src sch c dst f F Q -> arm_result (f c src dst sch) = Some (acc_after F (sched_n sch), Z.of_nat (sched_n sch)).
Proof. intros (dst' & c' & -> & _ & _). done. Qed.

(** C37: the decrypt arms are interchangeable.  On a pool, a schedule and a
    context for its key, RustCrypto's AES-GCM, [ring]'s AES-GCM and
    ChaCha20-Poly1305 never panic, succeed on every packet and fold the same
    accumulator, that of the plaintexts, whatever the output buffers hold; on
    the cold schedule so does [ExpresslaneSession::decrypt] with a window that
    has accepted nothing. *)
Theorem decrypt_arms_agree key seed src sch c dst1 dst2 dst3 dst4 :
  src_wf key seed src -> sched_wf src sch -> (Z.of_nat (slots src) <= 2 ^ 32)%Z -> ctx_wf key src c ->
  length dst1 = slots src * stride src -> length dst2 = slots src * stride src ->
  length dst3 = slots src * stride src -> length dst4 = slots src * stride src ->
  let expected := Some (acc_after (dec_step (len src) seed sch) (sched_n sch), Z.of_nat (sched_n sch)) in
  arm_result (arm_rc_aesgcm_dec c src dst1 sch) = expected /\
  arm_result (arm_ring_aesgcm_dec c src dst2 sch) = expected /\
  arm_result (arm_rc_chacha_dec c src dst3 sch) = expected /\
  ((forall i, i < sched_n sch -> slot_nat sch i = i) -> sched_n sch <= slots src ->
   ar_models (replay_window (rx (ctx_rx c))) [] ->
   arm_result (arm_session_dec c src dst4 sch) = expected).
Proof.
  intros Hsrc Hsch Hmax Hc Hd1 Hd2 Hd3 Hd4 expected. split_and!.
  - by eapply folds_result, (arm_rc_dec_folds key).
  - by eapply folds_result, (arm_ring_dec_folds key).
  - by eapply folds_result, (arm_chacha_dec_folds key).
  - intros. by eapply folds_result, (arm_session_dec_folds key).
Qed.

(** C12: the AES encrypt arms are interchangeable.  On a well-formed pool of at
    most [2^32] packets, RustCrypto, [ring] and
    [ExpresslaneSession::encrypt] never panic, succeed on every packet and fold
    the same accumulator, that of the tags and ciphertexts sealing gives, though
    the session's arm reads them back from a wire packet. *)
Theorem encrypt_arms_agree key seed src sch c dst1 dst2 dst3 :
  src_wf key seed src -> sched_wf src sch -> (Z.of_nat (slots src) <= 2 ^ 32)%Z -> ctx_wf key src c ->
  length dst1 = slots src * stride src -> length dst2 = slots src * stride src ->
  length dst3 = slots src * stride src ->
  let sealed j := slot_sealed (ctx_ring c) (session_id src) j (slot_payload (len src) seed j) in
  let expected := Some (acc_after (enc_step sealed sch) (sched_n sch), Z.of_nat (sched_n sch)) in
  arm_result (arm_rc_aesgcm_enc c src dst1 sch) = expected /\
  arm_result (arm_ring_aesgcm_enc c src dst2 sch) = expected /\
  arm_result (arm_session_enc c src dst3 sch) = expected.
Proof.
  intros Hsrc Hsch Hmax Hc Hd1 Hd2 Hd3 sealed expected. split_and!.
  - by eapply folds_result, (arm_rc_enc_folds key).
  - by eapply folds_result, (arm_ring_enc_folds key).
  - by eapply folds_result, (arm_session_enc_folds key).
Qed.

(** why the receiving session's arm has no hot variant and gets a fresh
    session per sample.  With a window that has accepted nothing, the cold
    schedule delivers and counts every packet; a schedule that stays on one slot
    delivers and counts one, all others being refused by the window without
    touching the session. *)
Theorem session_arm_needs_fresh_window key seed src cold hot c dst :
  src_wf key seed src -> (Z.of_nat (slots src) <= 2 ^ 32)%Z -> ctx_wf key src c ->
  length dst = slots src * stride src -> ar_models (replay_window (rx (ctx_rx c))) [] ->
  sched_wf src cold -> sched_n cold = slots src -> (forall i, i < slots src -> slot_nat cold i = i) ->
  sched_wf src hot -> sched_n hot = slots src -> (forall i, i < slots src -> slot_nat hot i = 0) ->
  (exists acc dst' c', arm_session_dec c src dst cold = Ret (acc, Z.of_nat (slots src), dst', c') /\
     packets_received (ctx_rx c') = Z.of_nat (slots src)) /\
  (exists acc dst' c', arm_session_dec c src dst hot = Ret (acc, 1%Z, dst', c') /\
     packets_received (ctx_rx c') = 1%Z).
Proof.
  intros Hsrc Hmax Hc Hdst Hfresh Hcold Hn Hslots Hhot Hn' Hslots'. split.
  { destruct (arm_session_dec_folds key seed src cold Hsrc Hcold Hmax c dst Hc Hdst)
      as (dst' & c' & Hrun & _ & Hrecv & _); [by rewrite Hn|lia|done|].
    rewrite Hn in Hrun, Hrecv. eauto. }
  pose proof (sw_slots _ _ _ Hsrc).
  destruct (for_range_inv (fun i '(acc, ok, dst, c) =>
      length dst = slots src * stride src /\ ctx_wf key src c /\ ok = Z.of_nat (Nat.min i 1) /\
      ar_models (replay_window (rx (ctx_rx c))) (replicate (Nat.min i 1) 1%Z))
    (sched_n hot) (session_dec_body src hot) (0%Z, 0%Z, dst, c))
    as ([[[acc ok] dst'] c'] & Hrun & _ & _ & -> & Hm); [done| |].
  - intros i [[[acc ok] dsti] ci] Hi (Hd & Hwf & -> & Hm).
    assert (Hctr : slot_counter (slot_nat hot i) = 1%Z) by (rewrite Hslots' by lia; done).
    destruct i as [|i].
    + destruct (session_dec_body_ok key seed src hot Hsrc Hhot Hmax 0 acc 0 dsti ci Hi Hd Hwf) as (dst' & Hrun & Hd').
      { rewrite Hctr. by apply (ar_next_accepted _ [] 0). }
      eexists. split; [exact Hrun|]. rewrite Hctr. split_and!; [done|destruct Hwf; by split|done|].
      apply (ar_commit_models _ [] 1); [done|done|]. by apply (ar_next_accepted _ [] 0).
    + rewrite (Nat.min_r (S i)) in * by lia. destruct (session_dec_body_replayed key seed src hot Hsrc Hhot Hmax (S i) acc 1 dsti ci Hi Hd Hwf)
        as (dst' & Hrun & Hd').
      { rewrite Hctr, (ar_would_reject_models _ [1%Z]) by done. reflexivity. }
      eexists. split; [exact Hrun|]. rewrite (Nat.min_r (S (S i))) by lia.
      split_and!; [done|destruct Hwf; by split|done|done].
  - rewrite Nat.min_r in Hrun, Hm by lia. exists acc, dst', c'. split; [exact Hrun|].
    unfold packets_received. by rewrite (ar_count _ _ Hm).
Qed.

End ArmsProperties.
End ArmsProperties.

(** ** Witnesses *)

Module ArmsWitnesses.
Import PoolWitnesses ArmsProperties ToyAead.

Definition toy_rx : ExpresslaneSession Ring.ReplayWindow aead_key := (update_peer_key toy_key (new Version2)).2.
Definition toy_tx : ExpresslaneSession Ring.ReplayWindow aead_key :=
  promote_self_key (update_next_self_key toy_key (new Version2)).2.
Definition toy_ctx (sid : list byte) : Ctx (W := Ring.ReplayWindow) :=
  mkCtx (key_bytes toy_key) (key_bytes toy_key) (key_bytes toy_key) toy_rx toy_tx sid.

Lemma toy_ctx_wf src : ctx_wf toy_key src (toy_ctx (session_id src)).
Proof. by split. Qed.

(** A pool of 64 packets of 64 bytes, and its two schedules. *)
Lemma toy_pool :
  exists src cold hot, src_wf toy_key 5 src /\ (Z.of_nat (slots src) <= 2 ^ 32)%Z /\
    sched_wf src cold /\ sched_n cold = slots src /\ (forall i, i < slots src -> slot_nat cold i = i) /\
    sched_wf src hot /\ sched_n hot = slots src /\ (forall i, i < slots src -> slot_nat hot i = 0).
Proof.
  destruct (build_ret (W := Ring.ReplayWindow) 64 0 0 toy_key (zeros 8) 5) as (src & _ & Hwf & Hl & _ & Hn);
    [reflexivity|reflexivity|reflexivity|lia|lia|].
  assert (Hs : slots src = 64) by (rewrite Hn, Nat.Div0.div_0_l; reflexivity). clear Hn.
  destruct (sched_new_ret src false 7) as [_ Hc]; [lia|lia|lia|].
  destruct (sched_new_ret src true 7) as [_ Hh]; [lia|lia|lia|].
  eexists src, _, _. split; [exact Hwf|]. split; [lia|]. split; [exact Hc|]. split; [done|].
  split; [|split; [exact Hh|split; [done|]]].
  all: intros i Hi; unfold slot_nat; cbn [sched_slot sched_spec fst].
  - rewrite (list_lookup_total_correct _ _ (Z.of_nat i)); [lia|]. by rewrite list_lookup_fmap, lookup_seq_lt.
  - rewrite (list_lookup_total_correct _ _ 0%Z); [lia|]. by rewrite list_lookup_fmap, lookup_seq_lt.
Qed.

Lemma decrypt_arms_agree_witness :
  exists src sch, let dst := zeros (slots src * stride src) in
    arm_result (arm_rc_aesgcm_dec (toy_ctx (session_id src)) src dst sch) =
    arm_result (arm_ring_aesgcm_dec (toy_ctx (session_id src)) src dst sch).
Proof.
  destruct toy_pool as (src & cold & _ & Hwf & Hs & Hc & _). exists src, cold. intros dst.
  destruct (decrypt_arms_agree toy_key 5 src cold (toy_ctx (session_id src)) dst dst dst dst) as (H1 & H2 & _);
    [exact Hwf|exact Hc|exact Hs|apply toy_ctx_wf|apply length_zeros..|]. congruence.
Defined.

Lemma encrypt_arms_agree_witness :
  exists src sch, let dst := zeros (slots src * stride src) in
    arm_result (arm_rc_aesgcm_enc (toy_ctx (session_id src)) src dst sch) =
    arm_result (arm_session_enc (toy_ctx (session_id src)) src dst sch).
Proof.
  destruct toy_pool as (src & cold & _ & Hwf & Hs & Hc & _). exists src, cold. intros dst.
  destruct (encrypt_arms_agree toy_key 5 src cold (toy_ctx (session_id src)) dst dst dst) as (H1 & _ & H3);
    [exact Hwf|exact Hc|exact Hs|apply toy_ctx_wf|apply length_zeros..|]. congruence.
Defined.

Lemma session_arm_needs_fresh_window_witness :
  exists src hot acc dst' c',
    arm_session_dec (toy_ctx (session_id src)) src (zeros (slots src * stride src)) hot = Ret (acc, 1%Z, dst', c').
Proof.
  destruct toy_pool as (src & cold & hot & Hwf & Hs & Hc & Hcn & Hci & Hh & Hhn & Hhi). exists src, hot.
  destruct (session_arm_needs_fresh_window toy_key 5 src cold hot (toy_ctx (session_id src)) (zeros (slots src * stride src)))
    as [_ (acc & dst' & c' & Hrun & _)];
    [exact Hwf|exact Hs|apply toy_ctx_wf|apply length_zeros|apply ar_models_default|
     exact Hc|exact Hcn|exact Hci|exact Hh|exact Hhn|exact Hhi|].
  exists acc, dst', c'. exact Hrun.
Defined.

End ArmsWitnesses.
