(* ===== verification/F64.v ===== *)
(** * Double-precision floats

    The [f64] arithmetic the benchmark uses, on the Standard Library's IEEE 754
    specification floats at 53 bits of precision: conversions from integers,
    the four operations, comparison, [max], [min], [abs], [ceil], [round], the
    saturating cast to [usize], and [sort_by] with [partial_cmp().unwrap()]. *)

From stdpp Require Import base numbers list sorting option.
From Stdlib Require Import Floats.SpecFloat.
From S2P Require Import Prelude.

Module F64.

Definition f64 : Set := spec_float.
Definition prec : Z := 53.
Definition emax : Z := 1024.

(** [z as f64], round to nearest even. *)
Definition of_Z (z : Z) : f64 := binary_normalize prec emax z 0 false.

Definition add : f64 -> f64 -> f64 := SFadd prec emax.
Definition sub : f64 -> f64 -> f64 := SFsub prec emax.
Definition mul : f64 -> f64 -> f64 := SFmul prec emax.
Definition div : f64 -> f64 -> f64 := SFdiv prec emax.
Definition abs : f64 -> f64 := SFabs.

(** A decimal literal [a / b]: for integers below [2^53] the division rounds to
    the nearest float, as the literal does. *)
Definition lit (a b : Z) : f64 := div (of_Z a) (of_Z b).

Definition NAN : f64 := S754_nan.
Definition INFINITY : f64 := S754_infinity false.
(** [f64::MIN_POSITIVE], the least positive normal number. *)
Definition MIN_POSITIVE : f64 := S754_finite false (2 ^ 52)%positive (-1074).

Definition is_nan (x : f64) : bool := match x with S754_nan => true | _ => false end.
Definition is_finite (x : f64) : bool := match x with S754_zero _ | S754_finite _ _ _ => true | _ => false end.

(** [partial_cmp]: [None] when one side is NaN. *)
Definition partial_cmp (x y : f64) : option comparison := SFcompare x y.

Definition lt (x y : f64) : bool := SFltb x y.
Definition le (x y : f64) : bool := SFleb x y.
Definition gt (x y : f64) : bool := SFltb y x.
Definition ge (x y : f64) : bool := SFleb y x.

(** [f64::max] and [f64::min] return the other operand when one is NaN. *)
Definition max (x y : f64) : f64 := if is_nan x then y else if is_nan y then x else if lt x y then y else x.
Definition min (x y : f64) : f64 := if is_nan x then y else if is_nan y then x else if lt y x then y else x.

(** [ceil] and [round] (half away from zero) of [m * 2^e] for [e < 0]. *)
Definition ceil (x : f64) : f64 :=
  match x with
  | S754_finite s m e =>
      if (0 <=? e)%Z then x
      else
        let d := (2 ^ (- e))%Z in
        let q := if s then (- (Z.pos m / d))%Z else (- (- Z.pos m / d))%Z in
        binary_normalize prec emax q 0 s
  | _ => x
  end.

Definition round (x : f64) : f64 :=
  match x with
  | S754_finite s m e =>
      if (0 <=? e)%Z then x
      else
        let d := (2 ^ (- e))%Z in
        let q := (Z.pos m / d)%Z in
        let q := if (d <=? 2 * (Z.pos m mod d))%Z then (q + 1)%Z else q in
        binary_normalize prec emax (if s then - q else q)%Z 0 s
  | _ => x
  end.

(** [x as usize]: towards zero, saturating, NaN to zero. *)
Definition as_usize (x : f64) : Z :=
  match x with
  | S754_nan | S754_zero _ | S754_infinity true | S754_finite true _ _ => 0
  | S754_infinity false => u64_MAX
  | S754_finite false m e =>
      Z.min u64_MAX (if (0 <=? e)%Z then Z.pos m * 2 ^ e else Z.pos m / 2 ^ (- e))
  end.

(** ** Sorting

    [sort_by(|a, b| a.partial_cmp(b).unwrap())], a stable sort: here by
    insertion.  Every element of a slice of two or more is compared, so a NaN
    in one panics. *)

Fixpoint insert (x : f64) (l : list f64) : outcome (list f64) :=
  match l with
  | [] => Ret [x]
  | y :: l' =>
      match partial_cmp x y with
      | None => Panic
      | Some Gt => l'' ← insert x l'; Ret (y :: l'')
      | Some _ => Ret (x :: y :: l')
      end
  end.

Fixpoint sort (l : list f64) : outcome (list f64) :=
  match l with
  | [] => Ret []
  | x :: l => l' ← sort l; insert x l'
  end.

(** The order the comparison decides. *)
Definition f64_le (x y : f64) : Prop := le x y = true.

(** ** Facts *)

Lemma SFcompare_nan x y : SFcompare x y = None <-> is_nan x = true \/ is_nan y = true.
Proof. destruct x, y; simpl; split; try done; auto; intros [?|?]; done. Qed.

Lemma SFcompare_antisym x y : SFcompare y x = CompOpp <$> SFcompare x y.
Proof.
  destruct x as [[]|[]| |[] m e], y as [[]|[]| |[] m' e']; try done; cbn [SFcompare fmap option_fmap option_map]; f_equal.
  all: rewrite (Z.compare_antisym e e'); destruct (e ?= e')%Z; try done.
  all: rewrite ?CompOpp_involutive; change (PosDef.Pos.compare_cont Eq) with Pos.compare; by rewrite <- Pos.compare_antisym.
Qed.

(** [x <= y] or [y <= x], unless one is NaN. *)
Lemma f64_le_total x y : is_nan x = false -> is_nan y = false -> f64_le x y \/ f64_le y x.
Proof.
  intros Hx Hy. unfold f64_le, le, SFleb. rewrite (SFcompare_antisym x y).
  destruct (SFcompare x y) as [[]|] eqn:E; simpl; auto.
  apply SFcompare_nan in E. destruct E; congruence.
Qed.

Lemma pos_compare_cont m m' : PosDef.Pos.compare_cont Eq m m' = Pos.compare m m'.
Proof. done. Qed.

#[global] Instance f64_le_trans : Transitive f64_le.
Proof.
  intros x y z. unfold f64_le, le, SFleb.
  destruct x as [[]|[]| |[] m e], y as [[]|[]| |[] m' e'], z as [[]|[]| |[] m'' e'']; try done; cbn [SFcompare].
  all: rewrite ?(pos_compare_cont m m'), ?(pos_compare_cont m' m''), ?(pos_compare_cont m m'').
  all: destruct (Z.compare_spec e e'), (Z.compare_spec e' e''), (Z.compare_spec e e''); try done; try lia.
  all: destruct (Pos.compare_spec m m'), (Pos.compare_spec m' m''), (Pos.compare_spec m m''); simpl; try done; lia.
Qed.

(** Inserting into a sorted list of numbers. *)
Lemma insert_ret x l :
  is_nan x = false -> Forall (fun y => is_nan y = false) l -> StronglySorted f64_le l ->
  exists l', insert x l = Ret l' /\ l' ≡ₚ x :: l /\ StronglySorted f64_le l'.
Proof.
  intros Hx. induction l as [|y l IH]; intros Hl Hs; cbn [insert].
  { eexists. split; [done|]. split; [done|]. repeat constructor. }
  apply Forall_cons_1 in Hl as [Hy Hl]. inversion Hs as [|? ? Hs' Hall]; subst. clear Hs. rename Hs' into Hs.
  unfold partial_cmp.
  pose proof (f64_le_total y x Hy Hx) as Htot. unfold f64_le, le, SFleb in Htot. rewrite (SFcompare_antisym x y) in Htot.
  assert (Hle : forall cmp, SFcompare x y = Some cmp -> cmp <> Gt -> StronglySorted f64_le (x :: y :: l)).
  { intros cmp Hcmp Hne. assert (Hxy : f64_le x y) by (unfold f64_le, le, SFleb; rewrite Hcmp; by destruct cmp).
    constructor; [by constructor|]. constructor; [done|]. eapply List.Forall_impl; [|exact Hall].
    intros z Hz. by trans y. }
  destruct (SFcompare x y) as [[]|] eqn:E.
  - eexists. split; [done|]. split; [done|]. by apply (Hle Eq).
  - eexists. split; [done|]. split; [done|]. by apply (Hle Lt).
  - destruct (IH Hl Hs) as (l' & -> & Hp & Hs'). eexists. split; [done|]. split.
    + rewrite Hp. apply Permutation_swap.
    + constructor; [done|]. rewrite Hp. constructor; [|done].
      unfold f64_le, le, SFleb. by rewrite (SFcompare_antisym x y), E.
  - apply SFcompare_nan in E. destruct E; congruence.
Qed.

(** Sorting numbers: a sorted permutation. *)
Lemma sort_ret l :
  Forall (fun y => is_nan y = false) l ->
  exists l', sort l = Ret l' /\ l' ≡ₚ l /\ StronglySorted f64_le l'.
Proof.
  induction l as [|x l IH]; intros Hl; cbn [sort].
  { exists []. split; [done|]. split; [done|constructor]. }
  apply Forall_cons_1 in Hl as [Hx Hl]. destruct (IH Hl) as (l' & -> & Hp & Hs). rewrite bind_ret.
  destruct (insert_ret x l') as (l'' & -> & Hp' & Hs''); [done| |done|].
  - by rewrite Hp.
  - exists l''. split; [done|]. split; [|done]. by rewrite Hp', Hp.
Qed.

Lemma insert_length x : forall l l', insert x l = Ret l' -> length l' = S (length l).
Proof.
  induction l as [|y l IH]; intros l'; cbn [insert]; [by intros [= <-]|].
  destruct (partial_cmp x y) as [[]|]; [by intros [= <-]|by intros [= <-]| |done].
  destruct (insert x l) as [l0|] eqn:E; simpl; [|done]. intros [= <-]. simpl. by rewrite (IH l0).
Qed.

Lemma sort_length : forall l l', sort l = Ret l' -> length l' = length l.
Proof.
  induction l as [|x l IH]; intros l'; cbn [sort]; [by intros [= <-]|].
  destruct (sort l) as [l0|] eqn:E; simpl; [|done]. intros Hi. by rewrite (insert_length _ _ _ Hi), (IH l0).
Qed.

(** A NaN among two or more values panics. *)
Lemma sort_nan l : 2 <= length l -> Exists (fun y => is_nan y = true) l -> sort l = Panic.
Proof.
  assert (Hins : forall x y l, is_nan x = true \/ is_nan y = true -> insert x (y :: l) = Panic).
  { intros x y l0 Hn. cbn [insert]. unfold partial_cmp. by rewrite (proj2 (SFcompare_nan x y) Hn). }
  induction l as [|x l IH]; intros Hlen Hex; [by inversion Hex|]. cbn [sort]. simpl in Hlen.
  apply List.Exists_cons in Hex. destruct (decide (2 <= length l /\ Exists (fun y => is_nan y = true) l)) as [[H2 He]|Hn].
  { by rewrite IH. }
  destruct (sort l) as [l'|] eqn:E; simpl; [|done]. pose proof (sort_length _ _ E) as Hl.
  destruct l' as [|y l']; [simpl in Hl; lia|]. apply Hins. destruct Hex as [?|He]; [by left|].
  right. destruct l as [|z [|]]; [by inversion He| |].
  - simpl in E. simplify_eq. by apply Exists_cons in He as [?|He%Exists_nil].
  - destruct Hn. split; [simpl; lia|done].
Qed.

End F64.
