(* ===== verification/F64Facts.v ===== *)
(** * Which float operations can yield NaN

    Rounding a non-negative mantissa never gives NaN, and rounding a positive one
    of moderate exponent gives a finite non-zero number.  So integers convert to
    finite numbers, their products stay finite and quotients by them are never
    NaN: what the benchmark's sorting relies on. *)

From stdpp Require Import base numbers list option.
From Stdlib Require Import Floats.SpecFloat.
From S2P Require Import Prelude F64.

Ltac Zify.zify_post_hook ::= Z.div_mod_to_equations.

Module F64Facts.
Import F64.

(** ** Digits and shifts *)

Lemma digits2_size p : digits2_pos p = Pos.size p.
Proof. induction p; simpl; congruence. Qed.

Lemma Zdigits2_log2 p : Zdigits2 (Z.pos p) = (Z.log2 (Z.pos p) + 1)%Z.
Proof. simpl. rewrite digits2_size. destruct p; simpl; lia. Qed.

Lemma shr_1_half mrs : (0 <= shr_m mrs)%Z -> shr_m (shr_1 mrs) = (shr_m mrs / 2)%Z.
Proof. destruct mrs as [m r s]. destruct m as [|[p|p|]|p]; simpl; intros; try done; try lia. Qed.

Lemma iter_pos_shr n : forall mrs,
  (0 <= shr_m mrs)%Z -> shr_m (iter_pos shr_1 n mrs) = (shr_m mrs / 2 ^ Z.pos n)%Z /\ (0 <= shr_m (iter_pos shr_1 n mrs))%Z.
Proof.
  induction n as [n IH|n IH|]; intros mrs Hm; cbn [iter_pos].
  - pose proof (shr_1_half mrs Hm) as H1. assert (Hp1 : (0 <= shr_m (shr_1 mrs))%Z) by lia.
    destruct (IH _ Hp1) as [H2 Hp2]. destruct (IH _ Hp2) as [H3 Hp3]. split; [|done].
    rewrite H3, H2, H1, !Z.div_div by lia. f_equal.
    replace (Z.pos n~1) with (1 + Z.pos n + Z.pos n)%Z by lia. rewrite !Z.pow_add_r by lia. lia.
  - destruct (IH _ Hm) as [H2 Hp2]. destruct (IH _ Hp2) as [H3 Hp3]. split; [|done].
    rewrite H3, H2, !Z.div_div by lia. f_equal. rewrite (Pos2Z.inj_xO n), <- Z.pow_add_r by lia. f_equal. lia.
  - rewrite shr_1_half by done. split; [done|lia].
Qed.

(** A shift by [n], where a negative [n] is none. *)
Lemma shr_spec mrs e n :
  (0 <= shr_m mrs)%Z ->
  shr_m (shr mrs e n).1 = (shr_m mrs / 2 ^ Z.max 0 n)%Z /\ (shr mrs e n).2 = (e + Z.max 0 n)%Z.
Proof.
  intros Hm. unfold shr. destruct n as [|n|n]; cbn [fst snd].
  - by rewrite Z.div_1_r, Z.add_0_r.
  - split; [by apply iter_pos_shr|done].
  - replace (Z.max 0 (Z.neg n)) with 0%Z by lia. by rewrite Z.div_1_r, Z.add_0_r.
Qed.

Lemma shr_record_of_loc_m m l : shr_m (shr_record_of_loc m l) = m.
Proof. by destruct l as [|[]]. Qed.

Lemma shr_fexp_spec m e l :
  (0 <= m)%Z ->
  let n := Z.max 0 (fexp prec emax (Zdigits2 m + e) - e) in
  shr_m (shr_fexp prec emax m e l).1 = (m / 2 ^ n)%Z /\ (shr_fexp prec emax m e l).2 = (e + n)%Z.
Proof.
  intros Hm n. unfold shr_fexp. destruct (shr_spec (shr_record_of_loc m l) e (fexp prec emax (Zdigits2 m + e) - e)) as [H1 H2].
  - by rewrite shr_record_of_loc_m.
  - rewrite H1, H2, shr_record_of_loc_m. done.
Qed.

Lemma round_nearest_even_bound m l : (m <= round_nearest_even m l <= m + 1)%Z.
Proof. unfold round_nearest_even. destruct l as [|[]]; try lia. destruct (Z.even m); lia. Qed.

(** ** Rounding *)

Lemma round_aux_not_nan s m e l : (0 <= m)%Z -> is_nan (binary_round_aux prec emax s m e l) = false.
Proof.
  intros Hm. unfold binary_round_aux.
  destruct (shr_fexp_spec m e l Hm) as [H1 _]. destruct (shr_fexp prec emax m e l) as [mrs e'] eqn:E. cbn [fst snd] in *.
  pose proof (round_nearest_even_bound (shr_m mrs) (loc_of_shr_record mrs)) as Hr.
  set (m' := round_nearest_even _ _) in *. assert (Hpos : (0 <= shr_m mrs)%Z).
  { rewrite H1. apply Z.div_pos; [done|]. apply Z.pow_pos_nonneg; lia. }
  assert (Hm' : (0 <= m')%Z) by lia. destruct (shr_fexp_spec m' e' loc_Exact Hm') as [H2 _].
  destruct (shr_fexp prec emax m' e' loc_Exact) as [mrs' e'']. cbn [fst snd] in *.
  assert (Hpos' : (0 <= shr_m mrs')%Z).
  { rewrite H2. apply Z.div_pos; [done|]. apply Z.pow_pos_nonneg; lia. }
  destruct (shr_m mrs'); [done| |lia]. by destruct (_ <=? _)%Z.
Qed.

(** A shift to 53 digits keeps a positive mantissa positive. *)
Lemma shr_fexp_pos p e l :
  (-1000 <= e)%Z ->
  exists p' e', shr_m (shr_fexp prec emax (Z.pos p) e l).1 = Z.pos p' /\ (shr_fexp prec emax (Z.pos p) e l).2 = e' /\
    (e <= e' <= e + Z.max 0 (Z.log2 (Z.pos p) - 52))%Z /\ (Z.log2 (Z.pos p') <= 52)%Z.
Proof.
  intros He. destruct (shr_fexp_spec (Z.pos p) e l ltac:(lia)) as [H1 H2].
  rewrite Zdigits2_log2 in *. set (g := Z.log2 (Z.pos p)) in *.
  assert (Hg : (0 <= g)%Z) by apply Z.log2_nonneg.
  assert (Hn : Z.max 0 (fexp prec emax (g + 1 + e) - e) = Z.max 0 (g - 52)).
  { unfold fexp, emin, prec, emax. lia. }
  rewrite Hn in *. pose proof (Z.log2_spec (Z.pos p) ltac:(lia)) as Hl. fold g in Hl.
  assert (Hq : (1 <= Z.pos p / 2 ^ Z.max 0 (g - 52) < 2 ^ 53)%Z).
  { destruct (decide (52 <= g)%Z).
    - rewrite Z.max_r by lia. replace (2 ^ g)%Z with (2 ^ 52 * 2 ^ (g - 52))%Z in Hl by (rewrite <- Z.pow_add_r by lia; f_equal; lia).
      rewrite Z.pow_succ_r in Hl by lia. replace (2 ^ g)%Z with (2 ^ 52 * 2 ^ (g - 52))%Z in Hl by (rewrite <- Z.pow_add_r by lia; f_equal; lia).
      pose proof (pow2_pos (g - 52) ltac:(lia)). split; [apply Z.div_le_lower_bound; lia|apply Z.div_lt_upper_bound; lia].
    - rewrite Z.max_l, Z.div_1_r by lia. assert (2 ^ Z.succ g <= 2 ^ 53)%Z by (apply Z.pow_le_mono_r; lia). lia. }
  destruct (Z.pos p / 2 ^ Z.max 0 (g - 52))%Z as [|p'|] eqn:Ep; [lia| |lia].
  exists p', (e + Z.max 0 (g - 52))%Z. split_and!; [done|done|lia|lia|].
  pose proof (Z.log2_lt_pow2 (Z.pos p') 53 ltac:(lia)). lia.
Qed.

Definition positive_finite (x : f64) : Prop := exists p e, x = S754_finite false p e.

(** The exponent and size of a positive result that cannot over- or underflow. *)
Lemma round_aux_pos p e l :
  (-1000 <= e <= 100)%Z -> (Z.log2 (Z.pos p) <= 200)%Z ->
  exists p' e', binary_round_aux prec emax false (Z.pos p) e l = S754_finite false p' e' /\
    (e <= e' <= e + Z.max 0 (Z.log2 (Z.pos p) - 52) + 1)%Z /\ (Z.log2 (Z.pos p') <= 52)%Z.
Proof.
  intros He Hp. unfold binary_round_aux.
  destruct (shr_fexp_pos p e l ltac:(lia)) as (p1 & e1 & Hm1 & He1 & Hb1 & Hl1).
  destruct (shr_fexp prec emax (Z.pos p) e l) as [mrs e1'] eqn:E. cbn [fst snd] in *. subst e1'.
  pose proof (round_nearest_even_bound (shr_m mrs) (loc_of_shr_record mrs)) as Hr. rewrite Hm1 in *.
  destruct (round_nearest_even (Z.pos p1) (loc_of_shr_record mrs)) as [|p2|]; [lia| |lia].
  destruct (shr_fexp_pos p2 e1 loc_Exact ltac:(lia)) as (p3 & e3 & Hm3 & He3 & Hb3 & Hl3).
  destruct (shr_fexp prec emax (Z.pos p2) e1 loc_Exact) as [mrs' e3'] eqn:E'. cbn [fst snd] in *. subst e3'. rewrite Hm3.
  assert (Hl2 : (Z.log2 (Z.pos p2) <= 53)%Z).
  { assert (Hlt : (Z.pos p1 < 2 ^ 53)%Z) by (apply Z.log2_lt_pow2; lia).
    transitivity (Z.log2 (2 ^ 53)); [apply Z.log2_le_mono; lia|done]. }
  assert (Hle : (e3 <=? emax - prec)%Z = true) by (apply Z.leb_le; unfold emax, prec; lia).
  rewrite Hle. exists p3, e3. split_and!; [done|lia|lia|done].
Qed.

(** ** Conversions, products and quotients *)

Lemma iter_xO m d : Z.pos (Pos.iter xO m d) = (Z.pos m * 2 ^ Z.pos d)%Z.
Proof.
  revert m. induction d as [|d IH] using Pos.peano_ind; intros m; [simpl; lia|].
  rewrite Pos.iter_succ, Pos2Z.inj_xO, IH, Pos2Z.inj_succ, Z.pow_succ_r by lia. lia.
Qed.

(** An integer is aligned to 53 digits, or left alone when it has more. *)
Lemma shl_align_integer m :
  exists m' e', shl_align m 0 (fexp prec emax (Z.pos (digits2_pos m) + 0)) = (m', e') /\
    (-52 <= e' <= 0)%Z /\ (Z.log2 (Z.pos m') <= Z.max 52 (Z.log2 (Z.pos m)))%Z.
Proof.
  change (Z.pos (digits2_pos m)) with (Zdigits2 (Z.pos m)). rewrite Zdigits2_log2.
  pose proof (Z.log2_nonneg (Z.pos m)) as Hg. set (g := Z.log2 (Z.pos m)) in *.
  assert (Hf : fexp prec emax (g + 1 + 0) = (g - 52)%Z) by (unfold fexp, emin, prec, emax; lia). rewrite Hf.
  unfold shl_align. destruct (g - 52 - 0)%Z as [|d|d] eqn:Ed.
  - exists m, 0%Z. split; [done|]. unfold g in *. lia.
  - exists m, 0%Z. split; [done|]. unfold g in *. lia.
  - exists (Pos.iter xO m d), (g - 52)%Z. split; [done|]. split; [lia|].
    rewrite iter_xO, Z.log2_mul_pow2 by lia. fold g. lia.
Qed.

Lemma of_Z_pos z :
  (0 < z < 2 ^ 64)%Z ->
  exists p e, of_Z z = S754_finite false p e /\ (-52 <= e <= 12)%Z /\ (Z.log2 (Z.pos p) <= 52)%Z.
Proof.
  intros Hz. destruct z as [|m|]; [lia| |lia]. unfold of_Z, binary_normalize, binary_round.
  destruct (shl_align_integer m) as (m' & e' & -> & He & Hl).
  assert (Hm : (Z.log2 (Z.pos m) < 64)%Z) by (apply Z.log2_lt_pow2; lia).
  destruct (round_aux_pos m' e' loc_Exact) as (p & e & -> & Hb & Hp); [lia|lia|].
  exists p, e. split; [done|]. lia.
Qed.

Lemma of_Z_not_nan z : is_nan (of_Z z) = false.
Proof.
  unfold of_Z, binary_normalize, binary_round. destruct z; [done| |].
  all: destruct (shl_align _ _ _) as [m' e']; by apply round_aux_not_nan.
Qed.

(** Positive numbers of moderate size. *)
Definition moderate (x : f64) : Prop :=
  exists p e, x = S754_finite false p e /\ (-100 <= e <= 20)%Z /\ (Z.log2 (Z.pos p) <= 52)%Z.

Lemma of_Z_moderate z : (0 < z < 2 ^ 64)%Z -> moderate (of_Z z).
Proof. intros Hz. destruct (of_Z_pos z Hz) as (p & e & ? & ? & ?). exists p, e. split_and!; (done || lia). Qed.

Lemma mul_moderate x y : moderate x -> moderate y -> positive_finite (mul x y).
Proof.
  intros (p & e & -> & He & Hp) (q & f & -> & Hf & Hq). unfold mul, SFmul. simpl xorb.
  assert (Hl : (Z.log2 (Z.pos p * Z.pos q) <= 200)%Z).
  { pose proof (Z.log2_mul_above (Z.pos p) (Z.pos q)). lia. }
  destruct (round_aux_pos (p * q) (e + f) loc_Exact) as (p' & e' & Hr & _); [lia|done|].
  exists p', e'. exact Hr.
Qed.

(** A quotient by a positive finite number is NaN only if the dividend is. *)
Lemma div_not_nan x y : is_nan x = false -> positive_finite y -> is_nan (div x y) = false.
Proof.
  intros Hx (p & e & ->). unfold div. destruct x as [s|s| |s m f]; simpl in Hx; try done. simpl SFdiv.
  unfold SFdiv_core_binary. set (e' := Z.min _ _).
  destruct (Z.div_eucl _ _) as [q r] eqn:E. apply round_aux_not_nan.
  pose proof (f_equal fst E) as Hq. simpl fst in Hq. subst q. change (fst (Z.div_eucl ?a ?b)) with (a / b)%Z.
  apply Z.div_pos; [|lia]. destruct (f - e - e')%Z; [lia| |lia]. apply Z.shiftl_nonneg. lia.
Qed.

End F64Facts.
