(* ===== verification/Platform.v ===== *)
(** * The benchmark's platform layer

    Models [lightway-expresslane-bench/src/win.rs] (timing and scheduling through
    kernel32) and [cpu.rs] (identity, extensions and cache geometry through
    CPUID).  The system itself is a parameter: class [Win32] has one operation
    per imported function on a state of its own, class [Cpuid] the instruction
    and the feature detection of the standard library.  A measurement primitive
    that fails panics ([win32_failed]). *)

From stdpp Require Import base numbers list option strings pretty.
From Stdlib Require Import Strings.Byte.
From S2P Require Import Prelude F64.

Module Win.

Record FileTime : Set := mkFileTime { lo : Z; hi : Z }.

Definition as_100ns (t : FileTime) : Z := Z.lor (wrap64 (Z.shiftl (hi t) 32)) (lo t).

(** kernel32: results and out-parameters as a function of the system's state. *)
Class Win32 : Type := {
  world : Type;
  QueryThreadCycleTime : world -> Z * Z * world;
  GetThreadTimes : world -> Z * (FileTime * FileTime * FileTime * FileTime) * world;
  GetSystemTimes : world -> Z * (FileTime * FileTime * FileTime) * world;
  SetThreadAffinityMask : Z -> world -> Z * world;
  SetThreadIdealProcessor : Z -> world -> Z * world;
  GetCurrentProcessorNumber : world -> Z * world;
  SetThreadPriority : Z -> world -> Z * world;
  SetPriorityClass : Z -> world -> Z * world;
  QueryPerformanceCounter : world -> Z * Z * world;
  QueryPerformanceFrequency : world -> Z * Z * world;
}.

Definition HIGH_PRIORITY_CLASS : Z := 0x80.
Definition THREAD_PRIORITY_HIGHEST : Z := 2.
Definition MAXIMUM_PROCESSORS : Z := 64.

Definition win32_failed {A : Type} : outcome A := Panic.

(** Two's complement [i64]. *)
Definition wrap_i64 (z : Z) : Z := ((z + 2 ^ 63) `mod` 2 ^ 64 - 2 ^ 63)%Z.

Section Win.
Context `{Win32}.

Definition cycles (w : world) : outcome (Z * world) :=
  let '(ok, c, w) := QueryThreadCycleTime w in
  if (ok =? 0)%Z then win32_failed else Ret (c, w).

Definition cpu_100ns (w : world) : outcome (Z * world) :=
  let '(ok, (_, _, k, u), w) := GetThreadTimes w in
  if (ok =? 0)%Z then win32_failed else Ret (wrap64 (as_100ns k + as_100ns u), w).

Definition qpc (w : world) : outcome (Z * world) :=
  let '(ok, v, w) := QueryPerformanceCounter w in
  if (ok =? 0)%Z then win32_failed else Ret (v, w).

Definition qpc_freq (w : world) : outcome (Z * world) :=
  let '(ok, v, w) := QueryPerformanceFrequency w in
  if (ok =? 0)%Z || (v <=? 0)%Z then win32_failed else Ret (v, w).

Definition system_times (w : world) : outcome (Z * Z * Z * world) :=
  let '(ok, (i, k, u), w) := GetSystemTimes w in
  if (ok =? 0)%Z then win32_failed else Ret (as_100ns i, as_100ns k, as_100ns u, w).

Definition current_cpu (w : world) : Z * world := GetCurrentProcessorNumber w.

Definition set_scheduling (pin : option Z) (w : world) : string * world :=
  let '(_, w) := SetPriorityClass HIGH_PRIORITY_CLASS w in
  let '(_, w) := SetThreadPriority THREAD_PRIORITY_HIGHEST w in
  match pin with
  | Some cpu =>
      if (cpu <? 64)%Z then
        let '(prev, w) := SetThreadAffinityMask (Z.shiftl 1 cpu) w in
        if (prev =? 0)%Z
        then ("process=HIGH thread=HIGHEST affinity=PIN " +:+ pretty cpu +:+ " FAILED", w)
        else ("process=HIGH thread=HIGHEST affinity=pinned to CPU " +:+ pretty cpu, w)
      else ("process=HIGH thread=HIGHEST affinity=PIN " +:+ pretty cpu +:+ " OUT OF RANGE", w)
  | None =>
      let '(_, w) := SetThreadIdealProcessor MAXIMUM_PROCESSORS w in
      ("process=HIGH thread=HIGHEST affinity=none (no ideal-processor preference, not pinned)", w)
  end.

Definition TIMER_N : nat := Z.to_nat 20000.

Definition timer_cost_ns (w : world) : outcome (F64.f64 * world) :=
  '(freq, w) ← qpc_freq w;
  '(t0, w) ← qpc w;
  '(_, w) ← for_range TIMER_N (fun _ '(sink, w) => '(c, w) ← cycles w; Ret (wrap64 (sink + c), w)) (0%Z, w);
  '(t1, w) ← qpc w;
  Ret (F64.div (F64.mul (F64.div (F64.of_Z (wrap_i64 (t1 - t0))) (F64.of_Z freq)) (F64.of_Z 1000000000)) (F64.of_Z 20000), w).

End Win.
End Win.

(** ** CPU identity *)

Module Cpu.

Record CpuidResult : Set := mkCpuid { eax : Z; ebx : Z; ecx : Z; edx : Z }.

Class Cpuid : Type := {
  (** [__cpuid_count(leaf, sub)]; [__cpuid(leaf)] is sub-leaf 0. *)
  cpuid_count : Z -> Z -> CpuidResult;
  (** [is_x86_feature_detected!]. *)
  feature_detected : string -> bool;
}.

(** A [String] as its list of code points. *)
Definition text : Set := list Z.
Definition text_of (s : string) : text := (fun a => Z.of_N (Ascii.N_of_ascii a)) <$> String.list_ascii_of_string s.

Record CpuInfo : Set := mkCpuInfo {
  brand : text;
  vendor : text;
  aes : bool;
  pclmulqdq : bool;
  avx : bool;
  avx2 : bool;
  avx512f : bool;
  vaes : bool;
  vpclmulqdq : bool;
  sse41 : bool;
  hypervisor : bool;
  l1d_kib : option Z;
  l2_kib : option Z;
  l3_kib : option Z;
}.

(** [String::from_utf8_lossy]: one step decodes a code point or replaces the
    longest prefix that could have started one by U+FFFD.  The result is the
    code point and how many further bytes it consumed. *)
Definition cont (b : Z) : bool := (0x80 <=? b)%Z && (b <=? 0xBF)%Z.
Definition tail6 (b : Z) : Z := Z.land b 0x3F.
Definition byte_at (l : list byte) (i : nat) : Z := match l !! i with Some b => Z_of_byte b | None => 0 end.

(** The second bytes a three- or four-byte lead accepts. *)
Definition second_ok (a b : Z) : bool :=
  if (a =? 0xE0)%Z then (0xA0 <=? b)%Z && (b <=? 0xBF)%Z
  else if (a =? 0xED)%Z then (0x80 <=? b)%Z && (b <=? 0x9F)%Z
  else if (a =? 0xF0)%Z then (0x90 <=? b)%Z && (b <=? 0xBF)%Z
  else if (a =? 0xF4)%Z then (0x80 <=? b)%Z && (b <=? 0x8F)%Z
  else cont b.

Definition REPLACEMENT : Z := 0xFFFD.

Definition decode_step (a : Z) (rest : list byte) : Z * nat :=
  let b := byte_at rest 0 in
  let c := byte_at rest 1 in
  let d := byte_at rest 2 in
  if (a <? 0x80)%Z then (a, 0)
  else if (0xC2 <=? a)%Z && (a <=? 0xDF)%Z then
    if cont b then (Z.lor (Z.shiftl (Z.land a 0x1F) 6) (tail6 b), 1) else (REPLACEMENT, 0)
  else if (0xE0 <=? a)%Z && (a <=? 0xEF)%Z then
    if negb (second_ok a b) then (REPLACEMENT, 0)
    else if negb (cont c) then (REPLACEMENT, 1)
    else (Z.lor (Z.shiftl (Z.land a 0x0F) 12) (Z.lor (Z.shiftl (tail6 b) 6) (tail6 c)), 2)
  else if (0xF0 <=? a)%Z && (a <=? 0xF4)%Z then
    if negb (second_ok a b) then (REPLACEMENT, 0)
    else if negb (cont c) then (REPLACEMENT, 1)
    else if negb (cont d) then (REPLACEMENT, 2)
    else (Z.lor (Z.shiftl (Z.land a 0x07) 18)
            (Z.lor (Z.shiftl (tail6 b) 12) (Z.lor (Z.shiftl (tail6 c) 6) (tail6 d))), 3)
  else (REPLACEMENT, 0).

Fixpoint lossy_loop (fuel : nat) (l : list byte) : text :=
  match fuel, l with
  | S fuel, a :: rest =>
      let '(cp, n) := decode_step (Z_of_byte a) rest in
      cp :: lossy_loop fuel (drop n rest)
  | _, _ => []
  end.

Definition from_utf8_lossy (l : list byte) : text := lossy_loop (length l) l.

(** [char::is_whitespace], [str::trim_end_matches('\0')], [str::trim]. *)
Definition is_whitespace (cp : Z) : bool :=
  ((9 <=? cp)%Z && (cp <=? 13)%Z) || (cp =? 0x20)%Z || (cp =? 0x85)%Z || (cp =? 0xA0)%Z || (cp =? 0x1680)%Z ||
  ((0x2000 <=? cp)%Z && (cp <=? 0x200A)%Z) || (cp =? 0x2028)%Z || (cp =? 0x2029)%Z || (cp =? 0x202F)%Z ||
  (cp =? 0x205F)%Z || (cp =? 0x3000)%Z.

Fixpoint trim_start (p : Z -> bool) (t : text) : text :=
  match t with
  | [] => []
  | cp :: t' => if p cp then trim_start p t' else t
  end.

Definition trim_end (p : Z -> bool) (t : text) : text := reverse (trim_start p (reverse t)).

Definition trim (t : text) : text := trim_start is_whitespace (trim_end is_whitespace t).

(** [u32::to_le_bytes]. *)
Definition le_bytes4 (z : Z) : list byte := reverse (be_bytes 4 z).

Definition regs_to_bytes (out : list byte) (r : list Z) : list byte := out ++ concat (le_bytes4 <$> r).

Section Cpu.
Context `{Cpuid}.

(** Line size, partitions, ways and sets, multiplied as [u64]s, in KiB as a [u32]. *)
Definition cache_line (r : CpuidResult) : Z := (Z.land (ebx r) 0xFFF + 1)%Z.
Definition cache_parts (r : CpuidResult) : Z := (Z.land (Z.shiftr (ebx r) 12) 0x3FF + 1)%Z.
Definition cache_ways (r : CpuidResult) : Z := (Z.land (Z.shiftr (ebx r) 22) 0x3FF + 1)%Z.
Definition cache_sets (r : CpuidResult) : Z := ((ecx r + 1) `mod` 2 ^ 32)%Z.

Definition cache_kib (r : CpuidResult) : Z :=
  ((wrap64 (wrap64 (wrap64 (cache_line r * cache_parts r) * cache_ways r) * cache_sets r) / 1024) `mod` 2 ^ 32)%Z.

(** One pass of the cache loop: [None] is the [break]. *)
Definition cache_step (leaf sub : Z) (st : option Z * option Z * option Z) : option (option Z * option Z * option Z) :=
  let '(l1d, l2, l3) := st in
  let r := cpuid_count leaf sub in
  let ctype := Z.land (eax r) 0x1F in
  if (ctype =? 0)%Z then None
  else
    let level := Z.land (Z.shiftr (eax r) 5) 0x7 in
    let kib := cache_kib r in
    Some (if (level =? 1)%Z && (ctype =? 1)%Z then (Some kib, l2, l3)
          else if (level =? 2)%Z then (l1d, Some kib, l3)
          else if (level =? 3)%Z then (l1d, l2, Some kib)
          else (l1d, l2, l3)).

Fixpoint cache_loop (n : nat) (leaf sub : Z) (st : option Z * option Z * option Z) : option Z * option Z * option Z :=
  match n with
  | O => st
  | S n =>
      match cache_step leaf sub st with
      | Some st => cache_loop n leaf (sub + 1) st
      | None => st
      end
  end.

(** [str::starts_with]. *)
Definition starts_with (t p : text) : bool := bool_decide (p `prefix_of` t).

Definition cache_sizes (max_leaf ext_max : Z) (vendor : text) : option Z * option Z * option Z :=
  if starts_with vendor (text_of "Auth") && (0x8000001D <=? ext_max)%Z
  then cache_loop 16 0x8000001D 0 (None, None, None)
  else if (4 <=? max_leaf)%Z then cache_loop 16 4 0 (None, None, None)
  else (None, None, None).

Definition detect : CpuInfo :=
  let cpuid leaf := cpuid_count leaf 0 in
  let leaf0 := cpuid 0%Z in
  let vendor := take 12 (regs_to_bytes [] [ebx leaf0; edx leaf0; ecx leaf0; 0%Z]) in
  let vendor := from_utf8_lossy vendor in
  let leaf1 := cpuid 1%Z in
  let hypervisor := negb (Z.land (ecx leaf1) (Z.shiftl 1 31) =? 0)%Z in
  let ext_max := eax (cpuid 0x80000000%Z) in
  let brand :=
    if (0x80000004 <=? ext_max)%Z then
      let b := foldl (fun b leaf => let r := cpuid leaf in regs_to_bytes b [eax r; ebx r; ecx r; edx r]) []
                 [0x80000002%Z; 0x80000003%Z; 0x80000004%Z] in
      trim (trim_end (fun cp => cp =? 0)%Z (from_utf8_lossy b))
    else text_of "unknown" in
  let '(vaes, vpclmulqdq) :=
    if (7 <=? eax leaf0)%Z then
      let l7 := cpuid_count 7 0 in
      (negb (Z.land (ecx l7) (Z.shiftl 1 9) =? 0)%Z, negb (Z.land (ecx l7) (Z.shiftl 1 10) =? 0)%Z)
    else (false, false) in
  let '(l1d_kib, l2_kib, l3_kib) := cache_sizes (eax leaf0) ext_max vendor in
  mkCpuInfo brand vendor
    (feature_detected "aes") (feature_detected "pclmulqdq") (feature_detected "avx") (feature_detected "avx2")
    (feature_detected "avx512f") vaes vpclmulqdq (feature_detected "sse4.1") hypervisor l1d_kib l2_kib l3_kib.

End Cpu.

Definition bit_digit (b : bool) : string := if b then "1" else "0".

Definition feature_line (i : CpuInfo) : string :=
  "aes=" +:+ bit_digit (aes i) +:+ " pclmulqdq=" +:+ bit_digit (pclmulqdq i) +:+
  " sse4.1=" +:+ bit_digit (sse41 i) +:+ " avx=" +:+ bit_digit (avx i) +:+ " avx2=" +:+ bit_digit (avx2 i) +:+
  " avx512f=" +:+ bit_digit (avx512f i) +:+ " vaes=" +:+ bit_digit (vaes i) +:+
  " vpclmulqdq=" +:+ bit_digit (vpclmulqdq i).

Definition ring_aes_path (i : CpuInfo) : string :=
  if vaes i && vpclmulqdq i && avx2 i then "VAES+VPCLMULQDQ+AVX2 (ring's fastest path)"
  else if aes i && pclmulqdq i && avx i then "AES-NI+CLMUL+AVX (ring's mid path - slower than VAES)"
  else if aes i && pclmulqdq i then "AES-NI+CLMUL (ring's baseline hardware path)"
  else "NO HARDWARE AES - result is meaningless for provider comparison".

End Cpu.
