(* ===== verification/Format.v ===== *)
(** * Formatted output

    What the benchmark uses of [std::fmt] and [println!]: numbers with a fixed
    number of decimals, padding, hexadecimal and [Debug] lists, and a monad of
    programs that print.  A fixed-point text is proved to read back as the decimal
    nearest to the printed double.

    Padding counts characters in Rust and bytes here; the texts that are padded
    are ASCII. *)

From stdpp Require Import base numbers list option strings pretty.
From Stdlib Require Import Ascii Floats.SpecFloat.
From S2P Require Import Prelude F64 Platform.

Module Fmt.

(** ** Numbers *)

(** The decimal digits of [q] from the [n]-th on: a zero-padded field. *)
Definition digit_char (d : Z) : ascii := pretty_N_char (Z.to_N d).

Fixpoint zero_padded (n : nat) (q : Z) : string :=
  match n with
  | O => EmptyString
  | S n => String (digit_char (q / 10 ^ Z.of_nat n mod 10)) (zero_padded n q)
  end.

(** [m * 2^e * 10^n] to the nearest integer, ties to even. *)
Definition scaled (n : nat) (m : positive) (e : Z) : Z :=
  let num := (Z.pos m * 10 ^ Z.of_nat n)%Z in
  if (0 <=? e)%Z then (num * 2 ^ e)%Z
  else
    let d := (2 ^ (- e))%Z in
    let q := (num / d)%Z in
    match (2 * (num mod d) ?= d)%Z with
    | Lt => q
    | Gt => q + 1
    | Eq => if Z.even q then q else q + 1
    end%Z.

Definition sign (s : bool) : string := if s then "-" else EmptyString.

Definition point (n : nat) (q : Z) : string :=
  pretty (Z.to_N (q / 10 ^ Z.of_nat n)) +:+ match n with O => EmptyString | S _ => "." +:+ zero_padded n q end.

(** [{:.n}] of an [f64]. *)
Definition fixed (n : nat) (x : F64.f64) : string :=
  match x with
  | S754_nan => "NaN"
  | S754_infinity s => sign s +:+ "inf"
  | S754_zero s => sign s +:+ point n 0
  | S754_finite s m e => sign s +:+ point n (scaled n m e)
  end.

Definition hex_char (d : Z) : ascii :=
  Ascii.ascii_of_N (Z.to_N (if (d <? 10)%Z then 48 + d else 87 + d)).

Fixpoint hex_padded (n : nat) (z : Z) : string :=
  match n with
  | O => EmptyString
  | S n => String (hex_char (z / 16 ^ Z.of_nat n mod 16)) (hex_padded n z)
  end.

(** [{:#018x}] of a [u64]. *)
Definition hex018 (z : Z) : string := "0x" +:+ hex_padded 16 z.

(** ** Padding *)

Fixpoint spaces (n : nat) : string :=
  match n with O => EmptyString | S n => String " " (spaces n) end.

(** [{:<w}] and [{:>w}]. *)
Definition left (w : nat) (s : string) : string := s +:+ spaces (w - String.length s).
Definition right (w : nat) (s : string) : string := spaces (w - String.length s) +:+ s.

(** ** [Debug] of lists *)

Definition QUOTE : ascii := "034".

(** [str::escape_debug] of an ASCII text. *)
Fixpoint escape_debug (s : string) : string :=
  match s with
  | EmptyString => EmptyString
  | String a s =>
      let n := Ascii.N_of_ascii a in
      (if (n =? 0)%N then "\0"
       else if (n =? 9)%N then "\t"
       else if (n =? 10)%N then "\n"
       else if (n =? 13)%N then "\r"
       else if (n =? 34)%N then String "\" (String QUOTE EmptyString)
       else if (n =? 92)%N then "\\"
       else if (n <? 16)%N then "\u{" +:+ hex_padded 1 (Z.of_N n) +:+ "}"
       else if (n <? 32)%N || (n =? 127)%N then "\u{" +:+ hex_padded 2 (Z.of_N n) +:+ "}"
       else String a EmptyString) +:+ escape_debug s
  end.

Definition quoted (s : string) : string := String QUOTE (escape_debug s +:+ String QUOTE EmptyString).

Fixpoint comma_separated (l : list string) : string :=
  match l with
  | [] => EmptyString
  | [s] => s
  | s :: l => s +:+ ", " +:+ comma_separated l
  end.

Definition debug_list (l : list string) : string := "[" +:+ comma_separated l +:+ "]".

(** ** Texts of code points, as UTF-8 *)

Definition utf8_byte (z : Z) : ascii := Ascii.ascii_of_N (Z.to_N z).

Definition encode_utf8 (cp : Z) : list ascii :=
  let tail k := utf8_byte (Z.lor 0x80 (Z.land (Z.shiftr cp k) 0x3F)) in
  if (cp <? 0x80)%Z then [utf8_byte cp]
  else if (cp <? 0x800)%Z then [utf8_byte (Z.lor 0xC0 (Z.shiftr cp 6)); tail 0%Z]
  else if (cp <? 0x10000)%Z then [utf8_byte (Z.lor 0xE0 (Z.shiftr cp 12)); tail 6%Z; tail 0%Z]
  else [utf8_byte (Z.lor 0xF0 (Z.shiftr cp 18)); tail 12%Z; tail 6%Z; tail 0%Z].

Definition string_of_text (t : Cpu.text) : string := String.string_of_list_ascii (concat (encode_utf8 <$> t)).

End Fmt.

(** ** Reading a fixed-point text back *)

Module FmtFacts.
Import Fmt.

Ltac Zify.zify_post_hook ::= Z.div_mod_to_equations.

Definition digit_value (a : ascii) : option Z :=
  let d := (Z.of_N (Ascii.N_of_ascii a) - 48)%Z in
  if (0 <=? d)%Z && (d <=? 9)%Z then Some d else None.

(** The leading digits behind the value [acc] of [n] digits, and the rest. *)
Fixpoint take_digits (acc : Z) (n : nat) (s : string) : Z * nat * string :=
  match s with
  | EmptyString => (acc, n, EmptyString)
  | String a s' =>
      match digit_value a with
      | Some d => take_digits (acc * 10 + d) (S n) s'
      | None => (acc, n, s)
      end
  end.

(** Sign, digits without the point, and the number of decimals. *)
Definition read_unsigned (s : string) : option (Z * nat) :=
  let '(i, k, rest) := take_digits 0 0 s in
  if decide (k = 0) then None
  else match rest with
  | EmptyString => Some (i, 0)
  | String "." frac =>
      let '(q, n, rest) := take_digits i 0 frac in
      if decide (n <> 0 /\ rest = EmptyString) then Some (q, n) else None
  | _ => None
  end.

Definition read_fixed (s : string) : option (bool * Z * nat) :=
  let '(neg, s) := match s with String "-" s => (true, s) | _ => (false, s) end in
  match read_unsigned s with Some (q, n) => Some (neg, q, n) | None => None end.

Lemma digit_value_char d : (0 <= d < 10)%Z -> digit_value (digit_char d) = Some d.
Proof.
  intros Hd. assert (d = 0 \/ d = 1 \/ d = 2 \/ d = 3 \/ d = 4 \/ d = 5 \/ d = 6 \/ d = 7 \/ d = 8 \/ d = 9)%Z as Hc by lia.
  destruct_or! Hc; subst d; reflexivity.
Qed.

Lemma take_digits_padded m : forall acc n q,
  take_digits acc n (zero_padded m q) = ((acc * 10 ^ Z.of_nat m + q mod 10 ^ Z.of_nat m)%Z, n + m, EmptyString).
Proof.
  induction m as [|m IH]; intros acc n q; cbn [zero_padded take_digits].
  { change (10 ^ Z.of_nat 0)%Z with 1%Z. by rewrite Z.mod_1_r, Z.mul_1_r, Z.add_0_r, Nat.add_0_r. }
  rewrite digit_value_char by (apply Z.mod_pos_bound; lia). rewrite IH. f_equal; [|lia..]. f_equal; [|lia].
  rewrite Nat2Z.inj_succ, Z.pow_succ_r by lia. assert (0 < 10 ^ Z.of_nat m)%Z as Hp by (apply Z.pow_pos_nonneg; lia).
  rewrite (Z.mul_comm 10), Z.rem_mul_r by lia. lia.
Qed.

Lemma pretty_go_app x : forall s t, pretty_N_go x s +:+ t = pretty_N_go x (s +:+ t).
Proof.
  induction (N.lt_wf_0 x) as [x _ IH]. intros s t. destruct (decide (x = 0)%N) as [->|Hne]; [by rewrite !pretty_N_go_0|].
  rewrite (pretty_N_go_step x s), (pretty_N_go_step x (s +:+ t)) by lia. rewrite IH; [done|]. apply N.div_lt; lia.
Qed.

Lemma take_digits_go x : forall s, exists k, (x <> 0%N -> k <> 0) /\
  take_digits 0 0 (pretty_N_go x s) = take_digits (Z.of_N x) k s.
Proof.
  induction (N.lt_wf_0 x) as [x _ IH]. intros s. destruct (decide (x = 0)%N) as [->|Hne].
  { exists 0. by rewrite pretty_N_go_0. }
  destruct (IH (x `div` 10)%N ltac:(apply N.div_lt; lia) (String (pretty_N_char (x `mod` 10)) s)) as (k & _ & Hk).
  exists (S k). split; [done|]. rewrite pretty_N_go_step by lia. rewrite Hk. cbn [take_digits].
  replace (x `mod` 10)%N with (Z.to_N (Z.of_N x mod 10)) by (rewrite <- (N2Z.id (x `mod` 10)), N2Z.inj_mod; done).
  change (pretty_N_char (Z.to_N ?z)) with (digit_char z). rewrite digit_value_char by lia. f_equal. lia.
Qed.

(** An integer in front of a text. *)
Lemma take_digits_pretty x t : exists k, k <> 0 /\ take_digits 0 0 (pretty x +:+ t) = take_digits (Z.of_N x) k t.
Proof.
  unfold pretty, pretty_N. case_decide as H0; [subst x; by exists 1|].
  rewrite pretty_go_app. destruct (take_digits_go x t) as (k & Hk & Ht). exists k. split; [by apply Hk|done].
Qed.

Lemma read_point n q : (0 <= q)%Z -> read_unsigned (point n q) = Some (q, n).
Proof.
  intros Hq. unfold read_unsigned, point. assert (0 < 10 ^ Z.of_nat n)%Z as Hp by (apply Z.pow_pos_nonneg; lia).
  assert (0 <= q / 10 ^ Z.of_nat n)%Z as Hi by (apply Z.div_pos; lia).
  destruct (take_digits_pretty (Z.to_N (q / 10 ^ Z.of_nat n))
    match n with O => EmptyString | S _ => "." +:+ zero_padded n q end) as (k & Hk & ->).
  rewrite Z2N.id by done. destruct n as [|n].
  - cbn [take_digits]. rewrite decide_False by done. change (10 ^ Z.of_nat 0)%Z with 1%Z. by rewrite Z.div_1_r.
  - change ("." +:+ ?x) with (String "." x). cbn [take_digits]. change (digit_value ".") with (@None Z). cbv beta iota.
    rewrite decide_False by done. rewrite take_digits_padded.
    rewrite decide_True by (split; [lia|done]). f_equal. f_equal. rewrite Z.mul_comm. symmetry. apply Z.div_mod. lia.
Qed.

(** An unsigned text has no minus sign in front. *)
Lemma read_signed s u q n : read_unsigned u = Some (q, n) -> read_fixed (sign s +:+ u) = Some (s, q, n).
Proof.
  intros Hu. unfold read_fixed. destruct s; [change (sign true +:+ u) with (String "-" u); cbv iota; by rewrite Hu|]. change (sign false +:+ u) with u.
  destruct u as [|a u]; [done|]. destruct (decide (a = "-"%char)) as [->|Hne]; [done|].
  destruct a as [[] [] [] [] [] [] [] []]; try (by rewrite Hu). done.
Qed.

Lemma scaled_nonneg n m e : (0 <= scaled n m e)%Z.
Proof.
  unfold scaled. assert (0 < 10 ^ Z.of_nat n)%Z by (apply Z.pow_pos_nonneg; lia).
  destruct (Z.leb_spec 0 e); [apply Z.mul_nonneg_nonneg; [lia|apply Z.pow_nonneg; lia]|].
  assert (0 <= Z.pos m * 10 ^ Z.of_nat n / 2 ^ (- e))%Z by (apply Z.div_pos; [lia|apply Z.pow_pos_nonneg; lia]).
  destruct (_ ?= _)%Z; [destruct (Z.even _)|..]; lia.
Qed.

(** The text of a finite double with [n] decimals reads back as its sign and the
    multiple of [10^-n] nearest to it, the even one between two: for [m * 2^e] the
    error is at most half of the last digit. *)
Theorem fixed_reads_nearest n s m e :
  read_fixed (fixed n (S754_finite s m e)) = Some (s, scaled n m e, n) /\
  ((0 <= e)%Z -> scaled n m e = (Z.pos m * 2 ^ e * 10 ^ Z.of_nat n)%Z) /\
  ((e < 0)%Z -> let err := (2 * Z.abs (scaled n m e * 2 ^ (- e) - Z.pos m * 10 ^ Z.of_nat n))%Z in
     (err <= 2 ^ (- e))%Z /\ (err = 2 ^ (- e) -> Z.even (scaled n m e) = true)%Z).
Proof.
  split; [apply read_signed, read_point, scaled_nonneg|]. unfold scaled. split.
  - intros He. rewrite (proj2 (Z.leb_le _ _) He). lia.
  - intros He. rewrite (proj2 (Z.leb_gt _ _) He). set (d := (2 ^ (- e))%Z). set (a := (Z.pos m * 10 ^ Z.of_nat n)%Z).
    assert (0 < d)%Z as Hd by (apply Z.pow_pos_nonneg; lia). clearbody d a.
    pose proof (Z.div_mod a d ltac:(lia)) as Ha. pose proof (Z.mod_pos_bound a d Hd) as Hr.
    destruct (Z.compare_spec (2 * (a mod d)) d) as [Heq|Hlt|Hgt].
    + destruct (Z.even (a / d)) eqn:Hev; (split; [nia|]); intros _; [done|]. by rewrite Z.even_add, Hev.
    + split; [nia|]. intros. exfalso. nia.
    + split; [nia|]. intros. exfalso. nia.
Qed.

Lemma fixed_reads_nearest_witness : fixed 2 (F64.lit 766 100) = "7.66" /\ read_fixed "-0.33" = Some (true, 33%Z, 2).
Proof.
  split; [vm_compute; reflexivity|].
  destruct (fixed_reads_nearest 2 true 6004799503160661 (-54)) as [H _]. exact H.
Defined.

End FmtFacts.

(** ** Programs that print

    A program prints lines to the standard output and then returns, panics, or
    does not end within its fuel; what it printed before that stays printed. *)

Module Output.

Inductive ending (A : Type) : Type :=
| Returns (a : A)
| Panics
| OutOfFuel.
Arguments Returns {A} a.
Arguments Panics {A}.
Arguments OutOfFuel {A}.

Record IO (A : Type) : Type := mkIO {
  stdout : list string;
  ended : ending A;
}.
Arguments mkIO {A}.
Arguments stdout {A}.
Arguments ended {A}.

#[global] Instance io_ret : MRet IO := fun A a => mkIO [] (Returns a).
#[global] Instance io_bind : MBind IO := fun A B f m =>
  match ended m with
  | Returns a => mkIO (stdout m ++ stdout (f a)) (ended (f a))
  | Panics => mkIO (stdout m) Panics
  | OutOfFuel => mkIO (stdout m) OutOfFuel
  end.

Definition println (s : string) : IO unit := mkIO [s] (Returns tt).

(** Consecutive [println!]s. *)
Definition printlns (l : list string) : IO unit := mkIO l (Returns tt).

Definition pure {A} (o : outcome A) : IO A := mkIO [] (match o with Ret a => Returns a | Panic => Panics end).
Definition fueled {A} (o : option (outcome A)) : IO A :=
  match o with Some o => pure o | None => mkIO [] OutOfFuel end.

(** [for a in l { body }]. *)
Fixpoint print_each {A} (body : A -> IO unit) (l : list A) : IO unit :=
  match l with
  | [] => mret tt
  | a :: l => _ ← body a; print_each body l
  end.

(** [m] prints the lines [l] and returns [a]. *)
Abbreviation prints m l a := (m = mkIO l (Returns a)).

Lemma prints_bind {A B} (m : IO A) (f : A -> IO B) l a l' b :
  prints m l a -> prints (f a) l' b -> prints (m ≫= f) (l ++ l') b.
Proof. intros -> Hf. unfold mbind, io_bind. simpl. by rewrite Hf. Qed.

(** What is printed first stays first, however the rest ends. *)
Lemma stdout_bind {A B} (m : IO A) (f : A -> IO B) : stdout m `prefix_of` stdout (m ≫= f).
Proof.
  unfold mbind, io_bind. destruct (ended m); simpl; [by apply prefix_app_r|done..].
Qed.

Lemma pure_bind {A B} (a : A) (f : A -> IO B) : pure (Ret a) ≫= f = f a.
Proof. unfold mbind, io_bind. simpl. by destruct (f a). Qed.

Lemma printlns_bind {B} (l : list string) (f : unit -> IO B) :
  printlns l ≫= f = mkIO (l ++ stdout (f tt)) (ended (f tt)).
Proof. done. Qed.

Lemma print_each_returns {A} (body : A -> IO unit) l :
  (forall a, a ∈ l -> exists ls, prints (body a) ls tt) -> exists ls, prints (print_each body l) ls tt.
Proof.
  induction l as [|a l IH]; intros Hb; [by exists []|]. simpl.
  destruct (Hb a (list_elem_of_here _ _)) as [ls Ha].
  destruct IH as [ls' Hl]; [intros b Hin; by apply Hb, list_elem_of_further|].
  exists (ls ++ ls'). by eapply prints_bind.
Qed.

End Output.
