(* ===== verification/Runner.v ===== *)
(** * The benchmark's runner

    Models [lightway-expresslane-bench/src/main.rs] up to its report: the arms'
    table, the command line, the keys and sessions, the startup self-test, one
    sample, the interleaved rounds of [run_all] and the warm-up.  The results are
    the records the report reads; progress output is not modelled. *)

From stdpp Require Import base numbers list list_numbers option strings sorting.
From Stdlib Require Import Strings.Byte.
From S2P Require Import Prelude ReplayWindow ReplayReference AntiReplay Cipher Session Pool Arms F64 Platform.
Import Pool Arms Win.

Module Runner.

Definition M1_CPB : F64.f64 := F64.lit 766 100.
Definition M1_GHZ : F64.f64 := F64.lit 402 100.
Definition M1_MEAN_PKT : nat := 1350.
Definition M1_GOODPUT_GBPS : F64.f64 := F64.of_Z 4.
Definition WIREGUARD_GBPS : F64.f64 := F64.lit 633 100.

Definition SEED : Z := 0xC0FFEE015EED1350.
Definition SESSION_ID : list byte := byte_of_Z <$> [0x11; 0x22; 0x33; 0x44; 0x55; 0x66; 0x77; 0x88]%Z.
Definition KEY_BYTES : list byte := byte_of_Z <$>
  [0x2b; 0x7e; 0x15; 0x16; 0x28; 0xae; 0xd2; 0xa6; 0xab; 0xf7; 0x15; 0x88; 0x09; 0xcf; 0x4f; 0x3c;
   0x76; 0x2e; 0x71; 0x60; 0xf3; 0x8b; 0x4d; 0xa5; 0x6a; 0x78; 0x4d; 0x90; 0x45; 0x19; 0x0c; 0xfe]%Z.

Inductive Family : Set := FNull | FCopy | FDec | FEnc | FEncChaCha.

#[global] Instance family_eq_dec : EqDecision Family.
Proof. solve_decision. Defined.

(** ** The command line *)

Record Cfg : Set := mkCfg {
  rounds : Z;
  pool_bytes : Z;
  max_slots : Z;
  pin : option Z;
  m1_rig : bool;
  sweep : bool;
  warmup_secs : F64.f64;
  target_ms_per_arm_round : F64.f64;
}.

Definition set_rounds (v : Z) (c : Cfg) : Cfg :=
  mkCfg v (pool_bytes c) (max_slots c) (pin c) (m1_rig c) (sweep c) (warmup_secs c) (target_ms_per_arm_round c).
Definition set_pool_bytes (v : Z) (c : Cfg) : Cfg :=
  mkCfg (rounds c) v (max_slots c) (pin c) (m1_rig c) (sweep c) (warmup_secs c) (target_ms_per_arm_round c).
Definition set_max_slots (v : Z) (c : Cfg) : Cfg :=
  mkCfg (rounds c) (pool_bytes c) v (pin c) (m1_rig c) (sweep c) (warmup_secs c) (target_ms_per_arm_round c).
Definition set_pin (v : option Z) (c : Cfg) : Cfg :=
  mkCfg (rounds c) (pool_bytes c) (max_slots c) v (m1_rig c) (sweep c) (warmup_secs c) (target_ms_per_arm_round c).
Definition set_m1_rig (c : Cfg) : Cfg :=
  mkCfg (rounds c) (pool_bytes c) (max_slots c) (pin c) true (sweep c) (warmup_secs c) (target_ms_per_arm_round c).
Definition clear_sweep (c : Cfg) : Cfg :=
  mkCfg (rounds c) (pool_bytes c) (max_slots c) (pin c) (m1_rig c) false (warmup_secs c) (target_ms_per_arm_round c).
Definition set_quick (c : Cfg) : Cfg :=
  mkCfg 1 (2 * 1024 * 1024) (max_slots c) (pin c) (m1_rig c) false (F64.lit 25 100) (F64.of_Z 40).

Definition default_cfg : Cfg :=
  mkCfg 5 (8 * 1024 * 1024) 16384 None false true (F64.of_Z 3) (F64.of_Z 250).

(** [str::parse] of an unsigned integer below [2^bits]: an optional plus sign,
    then one or more decimal digits; overflow is an error. *)
Definition digit_of (a : Ascii.ascii) : option Z :=
  let d := (Z.of_N (Ascii.N_of_ascii a) - 48)%Z in
  if (0 <=? d)%Z && (d <=? 9)%Z then Some d else None.

Fixpoint parse_digits (bits acc : Z) (s : string) : option Z :=
  match s with
  | "" => Some acc
  | String a s =>
      match digit_of a with
      | Some d => if (acc * 10 + d <? 2 ^ bits)%Z then parse_digits bits (acc * 10 + d) s else None
      | None => None
      end
  end.

Definition parse_uint (bits : Z) (s : string) : option Z :=
  match s with
  | "" => None
  | String a s' =>
      if (Ascii.N_of_ascii a =? 43)%N then (if bool_decide (s' = "") then None else parse_digits bits 0 s')
      else parse_digits bits 0 s
  end.

Inductive parsed : Set := Run (cfg : Cfg) | HelpExit.

(** [it.next().and_then(|v| v.parse().ok())]. *)
Definition next_arg (bits : Z) (args : list string) : option Z * list string :=
  match args with
  | [] => (None, [])
  | v :: args => (parse_uint bits v, args)
  end.

(** The arguments behind the program name. *)
Fixpoint parse_loop (fuel : nat) (args : list string) (cfg : Cfg) : parsed :=
  match fuel, args with
  | S fuel, a :: args =>
      if bool_decide (a = "--rounds") then
        let '(v, args) := next_arg 64 args in parse_loop fuel args (set_rounds (default 5%Z v) cfg)
      else if bool_decide (a = "--pool-mib") then
        let '(v, args) := next_arg 64 args in
        parse_loop fuel args (set_pool_bytes (wrap64 (default 8%Z v * 1024 * 1024)) cfg)
      else if bool_decide (a = "--max-slots") then
        let '(v, args) := next_arg 64 args in parse_loop fuel args (set_max_slots (default 16384%Z v) cfg)
      else if bool_decide (a = "--pin") then
        let '(v, args) := next_arg 32 args in parse_loop fuel args (set_pin v cfg)
      else if bool_decide (a = "--m1-rig") then parse_loop fuel args (set_m1_rig cfg)
      else if bool_decide (a = "--no-sweep") then parse_loop fuel args (clear_sweep cfg)
      else if bool_decide (a = "--quick") then parse_loop fuel args (set_quick cfg)
      else if bool_decide (a = "--help") || bool_decide (a = "-h") then HelpExit
      else parse_loop fuel args cfg
  | _, _ => Run cfg
  end.

Definition parse_args (args : list string) : parsed := parse_loop (length args) args default_cfg.

Section Runner.
Context {W : Type} `{AntiReplay W} `{Aead} `{Providers} `{Win32}.
Abbreviation Session := (ExpresslaneSession W aead_key).

(** ** The arms *)

Record Spec : Type := mkSpec {
  spec_name : string;
  spec_f : ArmFn (W := W);
  spec_family : Family;
  cold_only : bool;
  spec_is_aesgcm : bool;
  is_session_dec : bool;
}.

Definition specs : list Spec :=
  [ mkSpec "null" arm_null FNull false false false;
    mkSpec "copy_payload" arm_copy FCopy false false false;
    mkSpec "rc_aesgcm256_dec" arm_rc_aesgcm_dec FDec false true false;
    mkSpec "ring_aesgcm256_dec" arm_ring_aesgcm_dec FDec false true false;
    mkSpec "rc_chacha_dec *" arm_rc_chacha_dec FDec false false false;
    mkSpec "session_decrypt" arm_session_dec FDec true false true;
    mkSpec "rc_aesgcm256_enc" arm_rc_aesgcm_enc FEnc false true false;
    mkSpec "ring_aesgcm256_enc" arm_ring_aesgcm_enc FEnc false true false;
    mkSpec "rc_chacha_enc *" arm_rc_chacha_enc FEncChaCha false false false;
    mkSpec "session_encrypt" arm_session_enc FEnc false false false ].

(** ** Keys and sessions *)

Record Keys : Type := mkKeys {
  k_rc : rc_key;
  k_ring : aead_key;
  k_cc : cc_key;
  k_tx : Session;
  k_key : ExpresslaneKey;
}.

Definition build_keys : outcome Keys :=
  let key := mkKey KEY_BYTES in
  let tx := new Version2 in
  let '(staged, tx) := update_next_self_key key tx in
  _ ← expect staged;
  let tx := promote_self_key tx in
  rc ← expect_some (rc_new (key_bytes key));
  ring ← expect_some (unbound_key_new (key_bytes key));
  cc ← expect_some (cc_new (key_bytes key));
  Ret (mkKeys rc ring cc tx key).

Definition fresh_rx (keys : Keys) : outcome Session :=
  let '(installed, rx) := update_peer_key (k_key keys) (new Version2) in
  _ ← expect installed;
  Ret rx.

(** [Ctx { rc, ring, cc, rx, tx: &keys.tx, sid: src.session_id }]. *)
Definition make_ctx (keys : Keys) (rx : Session) (src : Src) : Ctx :=
  mkCtx (k_rc keys) (k_ring keys) (k_cc keys) rx (k_tx keys) (session_id src).

(** The sending session is shared: an arm's calls on it stay in [keys]. *)
Definition with_tx_of (keys : Keys) (c : Ctx (W := W)) : Keys :=
  mkKeys (k_rc keys) (k_ring keys) (k_cc keys) (ctx_tx c) (k_key keys).

(** ** The self-test *)

Record SelfTest : Set := mkSelfTest {
  rc_roundtrip : bool;
  ring_roundtrip : bool;
  cc_roundtrip : bool;
  session_roundtrip : bool;
  cross_provider_ct : bool;
}.

Definition self_test (keys : Keys) (src : Src) : outcome SelfTest :=
  let len := len src in
  w ← slice (wire src) 0 (WIRE_OVERHEAD + len);
  expected ← slice (plain src) 0 len;
  counter_bytes ← slice w 0 8;
  flag_bytes ← slice w 38 40;
  aad ← aad_v2 (session_id src) (be_value counter_bytes) (be_value flag_bytes);
  iv ← slice w 8 20;
  tag ← slice w 20 36;
  let buf := zeros len in
  payload ← slice w WIRE_OVERHEAD (WIRE_OVERHEAD + len);
  buf ← copy_from_slice buf 0 (length buf) payload;
  let '(r, buf) := rc_open (k_rc keys) iv aad tag buf in
  let rc_roundtrip := r && bool_decide (buf = expected) in
  buf ← copy_from_slice buf 0 (length buf) payload;
  let '(r, buf) := open_in_place (k_ring keys) iv aad tag buf in
  let ring_roundtrip := r && bool_decide (buf = expected) in
  wc ← slice (wire_cc src) 0 (WIRE_OVERHEAD + len);
  cc_tag ← slice wc 20 36;
  cc_payload ← slice wc WIRE_OVERHEAD (WIRE_OVERHEAD + len);
  buf ← copy_from_slice buf 0 (length buf) cc_payload;
  let '(r, buf) := cc_open (k_cc keys) iv aad cc_tag buf in
  let cc_roundtrip := r && bool_decide (buf = expected) in
  rx ← fresh_rx keys;
  '(r, buf, _) ← decrypt (session_id src) w buf rx;
  let session_roundtrip :=
    match r with
    | Ok (n, false) => bool_decide (n = len) && bool_decide (buf = expected)
    | _ => false
    end in
  let '(ta, a) := rc_seal (k_rc keys) iv aad expected in
  ta ← expect_some ta;
  let '(tb, b) := seal_in_place (k_ring keys) iv aad expected in
  tb ← expect_some tb;
  let cross_provider_ct := bool_decide (a = b) && bool_decide (ta = tb) in
  Ret (mkSelfTest rc_roundtrip ring_roundtrip cc_roundtrip session_roundtrip cross_provider_ct).

(** ** Samples and rounds *)

Record Res : Type := mkRes {
  r_name : string;
  r_hot : bool;
  r_family : Family;
  r_is_aesgcm : bool;
  cpb : list F64.f64;
  freq_cycles : Z;
  freq_cpu_100ns : Z;
  freq_qpc : Z;
  total_ops : Z;
  expected_ops : Z;
  r_acc : Z;
  acc_stable : bool;
  payload_len : nat;
}.

(** What a run changes: the keys' sending session, the output buffer, the system. *)
Record Env : Type := mkEnv { env_keys : Keys; env_dst : list byte; env_world : world }.

(** One sample: a fresh receiving session, the context, then the arm between two
    reads of the cycle counter.  Also returns the session the arm received on. *)
Definition take_sample (f : ArmFn) (src : Src) (sch : Sched) (e : Env) : outcome (Z * Z * Z * Session * Env) :=
  rx ← fresh_rx (env_keys e);
  let ctx := make_ctx (env_keys e) rx src in
  '(c0, w) ← cycles (env_world e);
  '(acc, ok, dst, ctx) ← f ctx src (env_dst e) sch;
  '(c1, w) ← cycles w;
  Ret (acc, ok, wrap64 (c1 - c0), ctx_rx ctx, mkEnv (with_tx_of (env_keys e) ctx) dst w).

(** The jobs: every arm cold, and hot unless it is [cold_only]. *)
Definition jobs_of (specs : list Spec) : list (nat * bool) :=
  concat (imap (fun i s => if cold_only s then [(i, false)] else [(i, true); (i, false)]) specs).

(** [Vec::<f64>::with_capacity]: panics when the bytes exceed [isize::MAX]. *)
Definition cpb_with_capacity (n : Z) : outcome (list F64.f64) :=
  if (n * 8 <=? 2 ^ 63 - 1)%Z then Ret [] else Panic.

Definition init_res (src : Src) (s : Spec) (hot : bool) (cpb : list F64.f64) : Res :=
  mkRes (spec_name s) hot (spec_family s) (spec_is_aesgcm s) cpb 0 0 0 0 0 0 true (len src).

(** The sample count of a job from its calibration cycles. *)
Definition samples_for (cfg : Cfg) (cyc : Z) : nat :=
  let est_ms := F64.mul (F64.div (F64.of_Z cyc) (F64.mul M1_GHZ (F64.of_Z 1000000000))) (F64.of_Z 1000) in
  let n := F64.as_usize (F64.ceil (F64.div (target_ms_per_arm_round cfg) (F64.max est_ms (F64.lit 1 10000)))) in
  Z.to_nat (Z.min 512 (Z.max 8 n)).

Record Scheds : Type := mkScheds { sched_cold : Sched; sched_hot : Sched }.

Definition pick (s : Scheds) (hot : bool) : Sched := if hot then sched_hot s else sched_cold s.

Definition calibrate_step (cfg : Cfg) (src : Src) (sp : list Spec) (scheds : Scheds) (jobs : list (nat * bool))
    (j : nat) (st : list nat * Env) : outcome (list nat * Env) :=
  let '(n_samples, e) := st in
  '(i, hot) ← vec_index jobs j;
  spec ← vec_index sp i;
  '(_, _, cyc, _, e) ← take_sample (spec_f spec) src (pick scheds hot) e;
  Ret (n_samples ++ [samples_for cfg cyc], e).

(** What a recorded sample does to the arm's result. *)
Definition record_sample (src : Src) (sch : Sched) (acc ok cyc : Z) (r : Res) : Res :=
  let '(acc', stable) :=
    if (total_ops r =? 0)%Z then (acc, acc_stable r)
    else if negb (r_acc r =? acc)%Z then (r_acc r, false) else (r_acc r, acc_stable r) in
  mkRes (r_name r) (r_hot r) (r_family r) (r_is_aesgcm r)
    (cpb r ++ [F64.div (F64.of_Z cyc) (F64.mul (F64.of_Z (Z.of_nat (sched_n sch))) (F64.of_Z (Z.of_nat (len src))))])
    (freq_cycles r) (freq_cpu_100ns r) (freq_qpc r)
    (wrap64 (total_ops r + ok)) (wrap64 (expected_ops r + Z.of_nat (sched_n sch))) acc' stable (payload_len r).

Definition record_freq (cyc cpu qpc : Z) (r : Res) : Res :=
  mkRes (r_name r) (r_hot r) (r_family r) (r_is_aesgcm r) (cpb r)
    (wrap64 (freq_cycles r + cyc)) (wrap64 (freq_cpu_100ns r + cpu)) (wrap_i64 (freq_qpc r + qpc))
    (total_ops r) (expected_ops r) (r_acc r) (acc_stable r) (payload_len r).

(** One recorded sample, with the assertion on the receiving session. *)
Definition sample_step (spec : Spec) (src : Src) (sch : Sched) (st : Res * Env) : outcome (Res * Env) :=
  let '(r, e) := st in
  '(acc, ok, cyc, rx, e) ← take_sample (spec_f spec) src sch e;
  let r := record_sample src sch acc ok cyc r in
  if is_session_dec spec && negb (packets_received rx =? Z.of_nat (sched_n sch))%Z then Panic
  else Ret (r, e).

Record RunState : Type := mkRunState { rs_results : list Res; rs_env : Env; rs_cpus : list Z }.

(** One job of a round: two discarded samples, then the recorded block between
    the reads of the frequency clocks. *)
Definition job_step (src : Src) (sp : list Spec) (scheds : Scheds) (jobs : list (nat * bool)) (n_samples : list nat)
    (j : nat) (st : RunState) : outcome RunState :=
  '(i, hot) ← vec_index jobs j;
  spec ← vec_index sp i;
  let sch := pick scheds hot in
  e ← for_range 2 (fun _ e => '(_, _, _, _, e) ← take_sample (spec_f spec) src sch e; Ret e) (rs_env st);
  let '(cpu, w) := current_cpu (env_world e) in
  let cpus := rs_cpus st ++ [cpu] in
  '(fc0, w) ← cycles w;
  '(ft0, w) ← cpu_100ns w;
  '(fq0, w) ← qpc w;
  n ← vec_index n_samples j;
  r ← vec_index (rs_results st) j;
  '(r, e) ← for_range n (fun _ => sample_step spec src sch) (r, mkEnv (env_keys e) (env_dst e) w);
  '(fq1, w) ← qpc (env_world e);
  '(ft1, w) ← cpu_100ns w;
  '(fc1, w) ← cycles w;
  let r := record_freq (wrap64 (fc1 - fc0)) (Z.max 0 (ft1 - ft0)) (wrap_i64 (fq1 - fq0)) r in
  Ret (mkRunState (<[j := r]> (rs_results st)) (mkEnv (env_keys e) (env_dst e) w) cpus).

(** [slice::rotate_left] for a distance within the slice. *)
Definition rotate_left (k : nat) (l : list nat) : list nat := drop k l ++ take k l.

Definition permute (round : nat) (order : list nat) : list nat :=
  let n_order := Nat.max (length order) 1 in
  let order := rotate_left (round mod n_order) order in
  if decide (round mod 2 = 1) then reverse order else order.

(** [for &j in &order]. *)
Fixpoint for_each {A St : Type} (body : A -> St -> outcome St) (l : list A) (st : St) : outcome St :=
  match l with
  | [] => Ret st
  | a :: l => st ← body a st; for_each body l st
  end.

Definition round_step (src : Src) (sp : list Spec) (scheds : Scheds) (jobs : list (nat * bool)) (n_samples : list nat)
    (round : nat) (st : list nat * RunState) : outcome (list nat * RunState) :=
  let '(order, rs) := st in
  let order := permute round order in
  rs ← for_each (job_step src sp scheds jobs n_samples) order rs;
  Ret (order, rs).

(** [Vec::dedup]. *)
Fixpoint dedup (l : list Z) : list Z :=
  match l with
  | [] => []
  | x :: l' => match l' with
               | [] => [x]
               | y :: _ => if (x =? y)%Z then dedup l' else x :: dedup l'
               end
  end.

Definition run_all (cfg : Cfg) (src : Src) (sp : list Spec) (e : Env) : outcome (list Res * list Z * Env) :=
  cold ← sched_new src false (Z.lxor SEED 0xABCD);
  hot ← sched_new src true (Z.lxor SEED 0xABCD);
  let scheds := mkScheds cold hot in
  let jobs := jobs_of sp in
  results ← for_each (fun '(i, hot) rs =>
               s ← vec_index sp i;
               cpb ← cpb_with_capacity (wrap64 (rounds cfg * 600));
               Ret (rs ++ [init_res src s hot cpb])) jobs [];
  '(n_samples, e) ← for_range (length jobs) (calibrate_step cfg src sp scheds jobs) ([], e);
  '(_, rs) ← for_range (Z.to_nat (rounds cfg)) (round_step src sp scheds jobs n_samples)
               (seq 0 (length jobs), mkRunState results e []);
  Ret (rs_results rs, dedup (merge_sort Z.le (rs_cpus rs)), rs_env rs).

(** ** The warm-up

    It runs until the clock passes; [None] is out of fuel. *)
Fixpoint warm_loop (fuel : nat) (cfg : Cfg) (f : F64.f64) (t0 : Z) (src : Src) (sch : Sched) (sink : Z) (e : Env)
    : option (outcome (Z * Env)) :=
  match qpc (env_world e) with
  | Panic => Some Panic
  | Ret (t, w) =>
      let e := mkEnv (env_keys e) (env_dst e) w in
      if F64.lt (F64.div (F64.of_Z (wrap_i64 (t - t0))) f) (warmup_secs cfg) then
        match fuel with
        | O => None
        | S fuel =>
            match
              (rx ← fresh_rx (env_keys e);
               arm_rc_aesgcm_dec (make_ctx (env_keys e) rx src) src (env_dst e) sch)
            with
            | Panic => Some Panic
            | Ret (acc, _, dst, ctx) =>
                warm_loop fuel cfg f t0 src sch (Z.lxor sink acc) (mkEnv (with_tx_of (env_keys e) ctx) dst w)
            end
        end
      else Some (Ret (sink, e))
  end.

Definition warm_up (fuel : nat) (cfg : Cfg) (src : Src) (e : Env) : option (outcome (Z * Env)) :=
  match (sch ← sched_new src false SEED; '(f, w) ← qpc_freq (env_world e); '(t0, w) ← qpc w; Ret (sch, f, t0, w)) with
  | Panic => Some Panic
  | Ret (sch, f, t0, w) => warm_loop fuel cfg (F64.of_Z f) t0 src sch 0 (mkEnv (env_keys e) (env_dst e) w)
  end.

End Runner.
End Runner.
