(* ===== verification/RunnerFacts.v ===== *)
(** * Correctness of the benchmark's runner

    On a system whose clocks work, a run over a well-formed pool returns: no
    assertion fails, every round runs every job once, and the recorded results
    satisfy [res_ok]. *)

From stdpp Require Import base numbers list list_numbers option strings sorting.
From Stdlib Require Import Strings.Byte.
From S2P Require Import Prelude ReplayWindow ReplayReference AntiReplay Cipher Session SessionFacts SessionProperties.
From S2P Require Import Pool PoolFacts Arms ArmsFacts F64 Platform Runner.
Import SessionSpec SessionFacts SessionProperties Pool PoolSpec PoolFacts Arms ArmsSpec ArmsFacts Win Runner.

(** The measurement primitives succeed, as they do on valid handles. *)
Class Win32Works `{Win32} : Prop := {
  cycle_time_works w : (QueryThreadCycleTime w).1.1 <> 0%Z;
  thread_times_work w : (GetThreadTimes w).1.1 <> 0%Z;
  counter_works w : (QueryPerformanceCounter w).1.1 <> 0%Z;
  frequency_works w : (QueryPerformanceFrequency w).1.1 <> 0%Z /\ (0 < (QueryPerformanceFrequency w).1.2)%Z;
  system_times_work w : (GetSystemTimes w).1.1 <> 0%Z;
}.

Module RunnerSpec.
Section RunnerSpec.
Context {W : Type} `{AntiReplay W} `{Aead} `{Providers} `{Win32}.
Context (key : ExpresslaneKey) (seed : Z) (src : Src) (k : aead_key) (cc : cc_key).

(** Keys of one key, with a sending session ready. *)
Record keys_ok (keys : Keys (W := W)) : Prop := {
  ko_key : k_key keys = key;
  ko_ring : k_ring keys = k;
  ko_cc : k_cc keys = cc;
  ko_rc : rc_new (key_bytes key) = Some (k_rc keys);
  ko_tx : current_self (k_tx keys) = Some (mkCipher k) /\ version (k_tx keys) = Version2;
}.

Record env_ok (e : Env (W := W)) : Prop := {
  eo_keys : keys_ok (env_keys e);
  eo_dst : length (env_dst e) = slots src * stride src;
}.

(** The two schedules of a run. *)
Record scheds_ok (s : Scheds) : Prop := {
  so_cold : sched_wf src (sched_cold s);
  so_hot : sched_wf src (sched_hot s);
  so_cold_n : sched_n (sched_cold s) = slots src;
  so_hot_n : sched_n (sched_hot s) = slots src;
  so_slots i : i < slots src -> slot_nat (sched_cold s) i = i;
}.

(** The accumulator a family of arms must fold over a schedule. *)
Definition family_acc (fam : Family) (sch : Sched) : Z :=
  let n := sched_n sch in
  let pay j := slot_payload (len src) seed j in
  match fam with
  | FNull => 0%Z
  | FCopy => acc_after (copy_step src sch) n
  | FDec => acc_after (dec_step (len src) seed sch) n
  | FEnc => acc_after (enc_step (fun j => slot_sealed k (session_id src) j (pay j)) sch) n
  | FEncChaCha => acc_after (enc_step (fun j => slot_sealed_cc cc (session_id src) j (pay j)) sch) n
  end.

(** A recorded sample: cycles of a pass over its plaintext bytes. *)
Definition sample_value (x : F64.f64) : Prop :=
  exists cyc, is_u64 cyc /\
    x = F64.div (F64.of_Z cyc) (F64.mul (F64.of_Z (Z.of_nat (slots src))) (F64.of_Z (Z.of_nat (len src)))).

(** The result of an arm after [m] recorded samples. *)
Record res_ok (s : Spec (W := W)) (hot : bool) (sch : Sched) (m : nat) (r : Res) : Prop := {
  ro_name : r_name r = spec_name s;
  ro_hot : r_hot r = hot;
  ro_family : r_family r = spec_family s;
  ro_aesgcm : r_is_aesgcm r = spec_is_aesgcm s;
  ro_len : payload_len r = len src;
  ro_cpb : length (cpb r) = m;
  ro_values : Forall sample_value (cpb r);
  ro_freq : is_u64 (freq_cpu_100ns r) /\ is_u64 (freq_cycles r);
  ro_ops : total_ops r = expected_ops r;
  ro_expected : expected_ops r = wrap64 (Z.of_nat (m * slots src));
  ro_acc : spec_family s <> FNull -> acc_stable r = true /\ (0 < m -> r_acc r = family_acc (spec_family s) sch);
}.

End RunnerSpec.
End RunnerSpec.
Import RunnerSpec.

Module RunnerFacts.

(** ** The order of the jobs *)

Lemma permute_perm round order : permute round order ≡ₚ order.
Proof.
  unfold permute, rotate_left. assert (Hrot : forall i, drop i order ++ take i order ≡ₚ order).
  { intros i. rewrite Permutation_app_comm. by rewrite take_drop. }
  case_decide; [rewrite reverse_Permutation|]; apply Hrot.
Qed.

(** ** Iterating over a list *)

Lemma for_each_inv {A St} (P : list A -> St -> Prop) (body : A -> St -> outcome St) l : forall done st,
  P done st ->
  (forall done a st, a ∈ l -> P done st -> exists st', body a st = Ret st' /\ P (done ++ [a]) st') ->
  exists st', for_each body l st = Ret st' /\ P (done ++ l) st'.
Proof.
  induction l as [|a l IH]; intros dn st HP Hbody; cbn [for_each].
  { exists st. by rewrite app_nil_r. }
  destruct (Hbody dn a st (list_elem_of_here _ _) HP) as (st' & -> & HP'). rewrite bind_ret.
  destruct (IH (dn ++ [a]) st' HP') as (st'' & Hrun & HP'').
  - intros d b sb Hb. apply Hbody. by apply list_elem_of_further.
  - exists st''. split; [done|]. by rewrite <- app_assoc in HP''.
Qed.

Section RunnerFacts.
Context {W : Type} `{AntiReplay W} `{Aead} `{!AeadLaws} `{Providers} `{!ProviderLaws} `{Win32} `{!Win32Works}.
Context (key : ExpresslaneKey) (seed : Z) (src : Src) (k : aead_key) (cc : cc_key).
Context (Hkey : is_invalid key = false) (Hk : unbound_key_new (key_bytes key) = Some k) (Hcc : cc_new (key_bytes key) = Some cc).
Context (Hsrc : src_wf key seed src) (Hmax : (Z.of_nat (slots src) <= 2 ^ 32)%Z).
Implicit Types (e : Env (W := W)) (s : Spec (W := W)).

Lemma cycles_ret w : exists c w', cycles w = Ret (c, w').
Proof.
  unfold cycles. pose proof (cycle_time_works w) as Hw. destruct (QueryThreadCycleTime w) as [[ok c] w'].
  simpl in Hw. apply Z.eqb_neq in Hw. rewrite Hw. eauto.
Qed.

Lemma cpu_100ns_ret w : exists c w', cpu_100ns w = Ret (c, w').
Proof.
  unfold cpu_100ns. pose proof (thread_times_work w) as Hw. destruct (GetThreadTimes w) as [[ok [[[? ?] ?] ?]] w'].
  simpl in Hw. apply Z.eqb_neq in Hw. rewrite Hw. eauto.
Qed.

Lemma qpc_ret w : exists c w', qpc w = Ret (c, w').
Proof.
  unfold qpc. pose proof (counter_works w) as Hw. destruct (QueryPerformanceCounter w) as [[ok c] w'].
  simpl in Hw. apply Z.eqb_neq in Hw. rewrite Hw. eauto.
Qed.

Lemma qpc_freq_ret w : exists w', qpc_freq w = Ret ((QueryPerformanceFrequency w).1.2, w').
Proof.
  unfold qpc_freq. destruct (frequency_works w) as [Hw Hv]. destruct (QueryPerformanceFrequency w) as [[ok c] w'].
  simpl in *. apply Z.eqb_neq in Hw. apply Z.leb_gt in Hv. rewrite Hw, Hv. simpl. eauto.
Qed.

Lemma system_times_ret w : exists i k u w', system_times w = Ret (i, k, u, w').
Proof.
  unfold system_times. pose proof (system_times_work w) as Hw. destruct (GetSystemTimes w) as [[ok [[? ?] ?]] w'].
  simpl in Hw. apply Z.eqb_neq in Hw. rewrite Hw. eauto.
Qed.

Lemma timer_cost_ns_ret w : exists c w', timer_cost_ns w = Ret (c, w').
Proof.
  unfold timer_cost_ns. destruct (qpc_freq_ret w) as [w1 ->]. rewrite bind_ret.
  destruct (qpc_ret w1) as (t0 & w2 & ->). rewrite bind_ret.
  destruct (for_range_inv (fun _ _ => True) TIMER_N (fun _ '(sink, w) => '(c, w) ← cycles w; Ret (wrap64 (sink + c), w)) (0%Z, w2))
    as ([sink w3] & -> & _); [done| |].
  { intros _ [sink w'] _ _. destruct (cycles_ret w') as (c & w'' & ->). rewrite bind_ret. eauto. }
  rewrite bind_ret. destruct (qpc_ret w3) as (t1 & w4 & ->). rewrite bind_ret. eauto.
Qed.

(** ** One sample *)

Lemma fresh_rx_ret (keys : Keys (W := W)) :
  keys_ok key k cc keys ->
  exists rx, fresh_rx keys = Ret rx /\ peer_keys rx = [mkCipher k] /\ version rx = Version2 /\
    ar_models (replay_window (Session.rx rx)) [].
Proof.
  intros Hko. unfold fresh_rx, update_peer_key, cipher_new. rewrite (ko_key _ _ _ _ Hko), Hkey, Hk.
  eexists. split; [reflexivity|]. split_and!; try done. apply ar_models_default.
Qed.

Lemma make_ctx_wf (keys : Keys (W := W)) rx :
  keys_ok key k cc keys -> peer_keys rx = [mkCipher k] -> version rx = Version2 -> ctx_wf key src (make_ctx keys rx src).
Proof.
  intros [Hko1 Hko2 Hko3 Hko4 Hko5] Hp Hv. split; simpl; try done; congruence || by rewrite ?Hko2.
Qed.

(** An arm that leaves the context alone. *)
Ltac pure_arm Hpure arm :=
  let Hrun := fresh "Hrun" in
  destruct (Hpure _ _ arm) as (? & ? & ? & Hrun & ? & ? & ? & ->); eexists _, _, _; split; [exact Hrun|].

(** What every arm of the table does on the schedules it is run with. *)
Lemma spec_returns s hot scheds (c : Ctx (W := W)) dst :
  s ∈ specs -> (hot = true -> cold_only s = false) -> scheds_ok src scheds ->
  ctx_wf key src c -> ctx_ring c = k -> ctx_cc c = cc -> ar_models (replay_window (rx (ctx_rx c))) [] ->
  length dst = slots src * stride src ->
  let sch := pick scheds hot in
  exists acc dst' c', spec_f s c src dst sch = Ret (acc, Z.of_nat (slots src), dst', c') /\
    length dst' = slots src * stride src /\
    current_self (ctx_tx c') = Some (mkCipher k) /\ version (ctx_tx c') = Version2 /\
    (is_session_dec s = true -> packets_received (ctx_rx c') = Z.of_nat (slots src)) /\
    (spec_family s <> FNull -> acc = family_acc seed src k cc (spec_family s) sch).
Proof.
  intros Hs Hhot Hsc Hc Hring Hcc' Hfresh Hdst sch.
  assert (Hsch : sched_wf src sch) by (unfold sch, pick; destruct hot; apply Hsc).
  assert (Hn : sched_n sch = slots src) by (unfold sch, pick; destruct hot; apply Hsc).
  destruct (cw_tx _ _ _ Hc) as [Htx Hv]. rewrite Hring in Htx.
  assert (Hpure : forall f F, folds src sch c dst f F (fun c' => c' = c) ->
    exists acc dst' c', f c src dst sch = Ret (acc, Z.of_nat (slots src), dst', c') /\
      length dst' = slots src * stride src /\ current_self (ctx_tx c') = Some (mkCipher k) /\
      version (ctx_tx c') = Version2 /\ acc = acc_after F (sched_n sch)).
  { intros f F (dst' & c' & Hrun & Hd & ->). rewrite Hn in Hrun. eexists _, dst', c. by rewrite Hn. }
  unfold specs in Hs. unfold family_acc. rewrite !elem_of_cons, elem_of_nil in Hs.
  destruct_or! Hs; subst s; cbn [spec_f spec_family is_session_dec cold_only] in *.
  - rewrite (arm_null_ret key seed src sch Hsrc Hsch c dst Hdst), Hn. eexists _, dst, c. split; [reflexivity|]. done.
  - pure_arm Hpure (arm_copy_folds key seed src sch Hsrc Hsch c dst Hdst). done.
  - pure_arm Hpure (arm_rc_dec_folds key seed src sch Hsrc Hsch Hmax c dst Hc Hdst). done.
  - pure_arm Hpure (arm_ring_dec_folds key seed src sch Hsrc Hsch Hmax c dst Hc Hdst). done.
  - pure_arm Hpure (arm_chacha_dec_folds key seed src sch Hsrc Hsch Hmax c dst Hc Hdst). done.
  - destruct hot; [by specialize (Hhot eq_refl)|].
    destruct (arm_session_dec_folds key seed src sch Hsrc Hsch Hmax c dst Hc Hdst) as (dst' & c' & Hrun & Hd & Hrecv & Htx');
      [rewrite Hn; apply Hsc|lia|done|].
    rewrite Hn in Hrun, Hrecv. eexists _, dst', c'. rewrite Hn, Htx'. split; [exact Hrun|]. done.
  - pure_arm Hpure (arm_rc_enc_folds key seed src sch Hsrc Hsch Hmax c dst Hc Hdst). rewrite Hring. done.
  - pure_arm Hpure (arm_ring_enc_folds key seed src sch Hsrc Hsch Hmax c dst Hc Hdst). rewrite Hring. done.
  - pure_arm Hpure (arm_chacha_enc_folds key seed src sch Hsrc Hsch Hmax c dst Hc Hdst). rewrite Hcc'. done.
  - destruct (arm_session_enc_folds key seed src sch Hsrc Hsch Hmax c dst Hc Hdst) as (dst' & c' & Hrun & Hd & Hc' & _).
    rewrite Hn in Hrun. eexists _, dst', c'. split; [exact Hrun|]. rewrite Hc', Hn, Hring. done.
Qed.

Lemma take_sample_ret s hot scheds e :
  s ∈ specs -> (hot = true -> cold_only s = false) -> scheds_ok src scheds -> env_ok key src k cc e ->
  let sch := pick scheds hot in
  exists acc cyc rx e', take_sample (spec_f s) src sch e = Ret (acc, Z.of_nat (slots src), cyc, rx, e') /\
    is_u64 cyc /\ env_ok key src k cc e' /\
    (is_session_dec s = true -> packets_received rx = Z.of_nat (slots src)) /\
    (spec_family s <> FNull -> acc = family_acc seed src k cc (spec_family s) sch).
Proof.
  intros Hs Hhot Hsc [Hko Hdst] sch. subst sch. unfold take_sample.
  destruct (fresh_rx_ret (env_keys e) Hko) as (rx & -> & Hp & Hv & Hm). rewrite bind_ret.
  destruct (cycles_ret (env_world e)) as (c0 & w0 & ->). rewrite bind_ret.
  destruct (spec_returns s hot scheds (make_ctx (env_keys e) rx src) (env_dst e))
    as (acc & dst' & c' & -> & Hd & Htx & Hver & Hrecv & Hacc); try done.
  1: by apply make_ctx_wf. 1: apply Hko. 1: apply Hko.
  rewrite bind_ret. destruct (cycles_ret w0) as (c1 & w1 & ->). rewrite bind_ret.
  eexists acc, _, _, _. split; [reflexivity|]. split_and!; [apply wrap64_range| |done|done].
  split; [|done]. destruct Hko as [? ? ? ? ?]. by split.
Qed.

(** ** Recording *)

Lemma init_res_ok s hot sch : res_ok seed src k cc s hot sch 0 (init_res src s hot []).
Proof. split; simpl; try done. intros _. split; [done|lia]. Qed.

Lemma record_sample_ok s hot sch m r acc cyc :
  sched_n sch = slots src -> is_u64 cyc -> (spec_family s <> FNull -> acc = family_acc seed src k cc (spec_family s) sch) ->
  res_ok seed src k cc s hot sch m r ->
  res_ok seed src k cc s hot sch (S m) (record_sample src sch acc (Z.of_nat (slots src)) cyc r).
Proof.
  intros Hn Hcyc Hacc [Hname Hhot Hfam Haes Hlen Hcpb Hvals Hfreq Hops Hexp Hst]. unfold record_sample.
  destruct (if (total_ops r =? 0)%Z then _ else _) as [acc' stable] eqn:E.
  split; cbn [r_name r_hot r_family r_is_aesgcm payload_len cpb total_ops expected_ops acc_stable r_acc freq_cpu_100ns freq_cycles]; try done.
  - rewrite length_app. simpl. lia.
  - apply Forall_app_2; [done|]. constructor; [|constructor]. exists cyc. by rewrite Hn.
  - by rewrite Hops, Hn.
  - rewrite Hexp, Hn, wrap64_add_l. f_equal. lia.
  - intros Hnn. destruct (Hst Hnn) as [Hstable Hold]. specialize (Hacc Hnn).
    destruct (decide (m = 0)) as [->|Hm].
    + rewrite Hops, Hexp in E. simpl in E. simplify_eq. done.
    + specialize (Hold ltac:(lia)). rewrite Hold, Hstable, <- Hacc, Z.eqb_refl in E. simpl in E.
      destruct (total_ops r =? 0)%Z; by simplify_eq.
Qed.

Lemma record_freq_ok s hot sch m r a b c :
  res_ok seed src k cc s hot sch m r -> res_ok seed src k cc s hot sch m (record_freq a b c r).
Proof. intros [? ? ? ? ? ? ? ? ? ? ?]. split; try done. split; apply wrap64_range. Qed.

(** A block of recorded samples. *)
Lemma sample_block_ret s hot scheds m n r e :
  s ∈ specs -> (hot = true -> cold_only s = false) -> scheds_ok src scheds -> env_ok key src k cc e ->
  let sch := pick scheds hot in
  res_ok seed src k cc s hot sch m r ->
  exists r' e', for_range n (fun _ => sample_step s src sch) (r, e) = Ret (r', e') /\
    res_ok seed src k cc s hot sch (m + n) r' /\ env_ok key src k cc e'.
Proof.
  intros Hs Hhot Hsc He sch Hr. subst sch.
  assert (Hn : sched_n (pick scheds hot) = slots src) by (unfold pick; destruct hot; apply Hsc).
  destruct (for_range_inv (fun i '(r, e) => res_ok seed src k cc s hot (pick scheds hot) (m + i) r /\ env_ok key src k cc e)
    n (fun _ => sample_step s src (pick scheds hot)) (r, e)) as ([r' e'] & Hrun & Hr' & He').
  - by rewrite Nat.add_0_r.
  - intros i [ri ei] _ [Hri Hei]. unfold sample_step.
    destruct (take_sample_ret s hot scheds ei Hs Hhot Hsc Hei) as (acc & cyc & rx & e' & -> & Hcyc & He' & Hrecv & Hacc).
    rewrite bind_ret. rewrite Hn.
    assert (Hassert : is_session_dec s && negb (packets_received rx =? Z.of_nat (slots src))%Z = false).
    { destruct (is_session_dec s); [|done]. by rewrite Hrecv, Z.eqb_refl. }
    rewrite Hassert. eexists. split; [reflexivity|]. split; [|done].
    rewrite Nat.add_succ_r. by apply record_sample_ok.
  - eauto.
Qed.

(** ** Jobs and rounds *)

Lemma jobs_of_lookup (sp : list (Spec (W := W))) j i hot :
  jobs_of sp !! j = Some (i, hot) -> exists s, sp !! i = Some s /\ (hot = true -> cold_only s = false).
Proof.
  intros Hj%list_elem_of_lookup_2. unfold jobs_of in Hj. apply list_elem_of_In, in_concat in Hj as (l & Hl & Hin).
  apply list_elem_of_In, list_elem_of_lookup in Hl as [i' Hi']. rewrite list_lookup_imap in Hi'.
  destruct (sp !! i') as [s|] eqn:Hs; [|done]. simpl in Hi'. simplify_eq. exists s.
  destruct (cold_only s); simpl in Hin; destruct_or? Hin; by simplify_eq.
Qed.

Context (sp : list (Spec (W := W))) (scheds : Scheds) (n_samples : list nat).
Context (Hsp : forall s, s ∈ sp -> s ∈ specs) (Hsc : scheds_ok src scheds).
Context (Hsamples : length n_samples = length (jobs_of sp)).

(** The state of a run in which job [j] has [m j] recorded samples. *)
Record run_ok (m : nat -> nat) (rs : RunState (W := W)) : Prop := {
  rn_env : env_ok key src k cc (rs_env rs);
  rn_length : length (rs_results rs) = length (jobs_of sp);
  rn_res j i hot s r : jobs_of sp !! j = Some (i, hot) -> sp !! i = Some s -> rs_results rs !! j = Some r ->
    res_ok seed src k cc s hot (pick scheds hot) (m j) r;
}.

Lemma run_ok_ext m m' rs : (forall j, j < length (jobs_of sp) -> m j = m' j) -> run_ok m rs -> run_ok m' rs.
Proof.
  intros Hm [He Hlen Hres]. split; [done|done|]. intros j i hot s r Hj Hs Hr.
  rewrite <- Hm by (by eapply lookup_lt_Some). by eapply Hres.
Qed.

(** One job of a round adds its samples to its own result. *)
Lemma job_step_ret m j rs :
  run_ok m rs -> j < length (jobs_of sp) ->
  exists rs', job_step src sp scheds (jobs_of sp) n_samples j rs = Ret rs' /\
    run_ok (fun j' => if decide (j' = j) then m j + n_samples !!! j else m j') rs'.
Proof.
  intros [He Hlen Hres] Hj. destruct (lookup_lt_is_Some_2 _ _ Hj) as [[i hot] Hjob].
  destruct (jobs_of_lookup sp j i hot Hjob) as (s & Hs & Hhot).
  assert (Hin : s ∈ specs) by (by eapply Hsp, list_elem_of_lookup_2).
  destruct (lookup_lt_is_Some_2 (rs_results rs) j) as [r Hr]; [lia|].
  destruct (lookup_lt_is_Some_2 n_samples j) as [n Hn]; [lia|].
  unfold job_step. rewrite (vec_index_ret _ _ _ Hjob), bind_ret, (vec_index_ret _ _ _ Hs), bind_ret.
  destruct (for_range_inv (fun _ e => env_ok key src k cc e) 2
    (fun _ e => '(_, _, _, _, e) ← take_sample (spec_f s) src (pick scheds hot) e; Ret e) (rs_env rs))
    as (e1 & -> & He1); [done| |].
  { intros _ e _ Hei. destruct (take_sample_ret s hot scheds e Hin Hhot Hsc Hei) as (? & ? & ? & e' & -> & _ & He' & _).
    rewrite bind_ret. eauto. }
  rewrite bind_ret. destruct (current_cpu (env_world e1)) as [cpu w0].
  destruct (cycles_ret w0) as (? & w1 & ->). rewrite bind_ret.
  destruct (cpu_100ns_ret w1) as (? & w2 & ->). rewrite bind_ret. destruct (qpc_ret w2) as (? & w3 & ->). rewrite bind_ret.
  rewrite (vec_index_ret _ _ _ Hn), bind_ret, (vec_index_ret _ _ _ Hr), bind_ret.
  destruct (sample_block_ret s hot scheds (m j) n r (mkEnv (env_keys e1) (env_dst e1) w3))
    as (r' & e2 & -> & Hr' & He2); [done|done|done|destruct He1; by split|by eapply Hres|]. rewrite bind_ret.
  destruct (qpc_ret (env_world e2)) as (? & w4 & ->). rewrite bind_ret.
  destruct (cpu_100ns_ret w4) as (? & w5 & ->). rewrite bind_ret. destruct (cycles_ret w5) as (? & w6 & ->). rewrite bind_ret. eexists. split; [reflexivity|].
  split; cbn [rs_env rs_results]; [destruct He2; by split|by rewrite length_insert|].
  intros j' i' hot' s' r0 Hjob' Hs' Hr0. destruct (decide (j' = j)) as [->|Hne].
  - rewrite list_lookup_insert_eq in Hr0 by lia. simplify_eq.
    rewrite (list_lookup_total_correct _ _ _ Hn). by apply record_freq_ok.
  - rewrite list_lookup_insert_ne in Hr0 by done. by eapply Hres.
Qed.

(** A round runs every job exactly once, in whatever order. *)
Lemma round_step_ret m round order rs :
  run_ok m rs -> order ≡ₚ seq 0 (length (jobs_of sp)) ->
  exists order' rs', round_step src sp scheds (jobs_of sp) n_samples round (order, rs) = Ret (order', rs') /\
    order' ≡ₚ seq 0 (length (jobs_of sp)) /\ run_ok (fun j => m j + n_samples !!! j) rs'.
Proof.
  intros Hrun Hperm. unfold round_step. set (order' := permute round order).
  assert (Hperm' : order' ≡ₚ seq 0 (length (jobs_of sp))) by (unfold order'; by rewrite permute_perm).
  destruct (for_each_inv (fun dn rs => run_ok (fun j => m j + n_samples !!! j * count_occ Nat.eq_dec dn j) rs)
    (job_step src sp scheds (jobs_of sp) n_samples) order' [] rs) as (rs' & -> & Hrs').
  - eapply run_ok_ext; [|exact Hrun]. intros j _. simpl. lia.
  - intros dn j rsi Hj Hi. rewrite Hperm', elem_of_seq in Hj.
    destruct (job_step_ret _ j rsi Hi) as (rs' & Hstep & Hrs'); [lia|].
    exists rs'. split; [done|]. eapply run_ok_ext; [|exact Hrs']. intros j' _. rewrite count_occ_app. simpl.
    destruct (decide (j' = j)) as [->|Hne]; [destruct (Nat.eq_dec j j); [lia|done]|].
    destruct (Nat.eq_dec j j'); [congruence|lia].
  - rewrite bind_ret. exists order', rs'. split; [done|]. split; [done|]. eapply run_ok_ext; [|exact Hrs'].
    intros j Hj. simpl. rewrite (proj1 (Permutation_count_occ Nat.eq_dec _ _) Hperm' j).
    rewrite (proj1 (NoDup_count_occ' Nat.eq_dec _)); [lia|apply seq_NoDup|apply in_seq; lia].
Qed.

End RunnerFacts.

(** ** The whole run *)

Lemma samples_for_range cfg cyc : 8 <= samples_for cfg cyc <= 512.
Proof. unfold samples_for. lia. Qed.

(** The capacity reserved per job is one a [Vec] can have. *)
Definition capacity_fits (cfg : Cfg) : Prop := (wrap64 (rounds cfg * 600) * 8 <= 2 ^ 63 - 1)%Z.

Lemma capacity_few cfg : (0 <= rounds cfg <= 2 ^ 50)%Z -> capacity_fits cfg.
Proof. intros Hr. unfold capacity_fits. rewrite wrap64_small; [lia|]. unfold is_u64. lia. Qed.

#[global] Instance capacity_fits_dec cfg : Decision (capacity_fits cfg).
Proof. unfold capacity_fits. apply _. Defined.

Lemma capacity_run cfg :
  cpb_with_capacity (wrap64 (rounds cfg * 600)) = if decide (capacity_fits cfg) then Ret [] else Panic.
Proof. unfold cpb_with_capacity, capacity_fits. case_decide; [by rewrite (proj2 (Z.leb_le _ _))|]. by rewrite (proj2 (Z.leb_gt _ _)) by lia. Qed.

Section RunAll.
Context {W : Type} `{AntiReplay W} `{Aead} `{!AeadLaws} `{Providers} `{!ProviderLaws} `{Win32} `{!Win32Works}.
Context (key : ExpresslaneKey) (seed : Z) (src : Src) (k : aead_key) (cc : cc_key).
Context (Hkey : is_invalid key = false) (Hk : unbound_key_new (key_bytes key) = Some k) (Hcc : cc_new (key_bytes key) = Some cc).
Context (Hsrc : src_wf key seed src) (Hmax : (Z.of_nat (slots src) <= 2 ^ 32)%Z) (Hlen : 8 <= len src).
Context (sp : list (Spec (W := W))) (Hsp : forall s, s ∈ sp -> s ∈ specs).
Implicit Types (e : Env (W := W)).

Lemma scheds_ret seed' :
  exists cold hot, sched_new src false seed' = Ret cold /\ sched_new src true seed' = Ret hot /\
    scheds_ok src (mkScheds cold hot).
Proof.
  pose proof (sw_len _ _ _ Hsrc).
  destruct (sched_new_ret src false seed') as [Hc Hcwf]; [done|lia|done|].
  destruct (sched_new_ret src true seed') as [Hh Hhwf]; [done|lia|done|].
  eexists _, _. split; [exact Hc|]. split; [exact Hh|]. split; try done.
  intros i Hi. unfold slot_nat. cbn [sched_cold sched_slot sched_spec fst].
  rewrite (list_lookup_total_correct _ _ (Z.of_nat i)); [lia|].
  by rewrite list_lookup_fmap, lookup_seq_lt.
Qed.

Abbreviation init_step cfg := (fun '(i, hot) rs =>
  s ← vec_index sp i; cpb ← cpb_with_capacity (wrap64 (rounds cfg * 600)); Ret (rs ++ [init_res src s hot cpb])).

(** The initial results, one per job. *)
Lemma init_results_ret cfg (l : list (nat * bool)) rs0 :
  capacity_fits cfg -> (forall i hot, (i, hot) ∈ l -> is_Some (sp !! i)) ->
  exists rs, for_each (init_step cfg) l rs0 = Ret (rs0 ++ rs) /\
    length rs = length l /\
    (forall j i hot s r, l !! j = Some (i, hot) -> sp !! i = Some s -> rs !! j = Some r -> r = init_res src s hot []).
Proof.
  intros Hfit. rewrite (capacity_run cfg), decide_True by done. revert rs0. induction l as [|[i hot] l IH]; intros rs0 Hin; cbn [for_each].
  { exists []. by rewrite app_nil_r. }
  destruct (Hin i hot (list_elem_of_here _ _)) as [s Hs]. rewrite (vec_index_ret _ _ _ Hs), !bind_ret.
  destruct (IH (rs0 ++ [init_res src s hot []])) as (rs & -> & Hl & Hrs).
  { intros i' hot' Hi'. eapply Hin. by apply list_elem_of_further. }
  exists (init_res src s hot [] :: rs). rewrite <- app_assoc. split; [done|]. split; [simpl; by rewrite Hl|].
  intros [|j] i' hot' s' r Hj Hs' Hr; simpl in *; [by simplify_eq|by eapply Hrs].
Qed.

(** A run with too many rounds panics at its first job. *)
Lemma run_all_panics cfg e : ~ capacity_fits cfg -> jobs_of sp <> [] -> run_all cfg src sp e = Panic.
Proof.
  intros Hfit Hjobs. unfold run_all. destruct (scheds_ret (Z.lxor SEED 0xABCD)) as (cold & hot & -> & -> & _).
  rewrite !bind_ret. destruct (jobs_of sp) as [|[i h] l] eqn:Hl; [done|].
  destruct (jobs_of_lookup sp 0 i h) as (s & Hs & _); [by rewrite Hl|]. cbn [for_each].
  rewrite (vec_index_ret _ _ _ Hs), bind_ret.
  by rewrite (capacity_run cfg), decide_False.
Qed.

Lemma calibrate_ret cfg scheds e :
  scheds_ok src scheds -> env_ok key src k cc e ->
  exists ns e', for_range (length (jobs_of sp)) (calibrate_step cfg src sp scheds (jobs_of sp)) ([], e) = Ret (ns, e') /\
    length ns = length (jobs_of sp) /\ Forall (fun n => 8 <= n <= 512) ns /\ env_ok key src k cc e'.
Proof.
  intros Hsc He.
  destruct (for_range_inv (fun i '(ns, e) => length ns = i /\ Forall (fun n => 8 <= n <= 512) ns /\ env_ok key src k cc e)
    (length (jobs_of sp)) (calibrate_step cfg src sp scheds (jobs_of sp)) ([], e)) as ([ns e'] & Hrun & ? & ? & ?);
    [done| |by eauto 10].
  intros j [ns ej] Hj (Hl & Hns & Hej). destruct (lookup_lt_is_Some_2 _ _ Hj) as [[i hot] Hjob].
  destruct (jobs_of_lookup sp j i hot Hjob) as (s & Hs & Hhot).
  unfold calibrate_step. rewrite (vec_index_ret _ _ _ Hjob), bind_ret, (vec_index_ret _ _ _ Hs), bind_ret.
  destruct (take_sample_ret key seed src k cc Hkey Hk Hcc Hsrc Hmax s hot scheds ej)
    as (? & cyc & ? & e' & -> & _ & He' & _); [by eapply Hsp, list_elem_of_lookup_2|done..|].
  rewrite bind_ret. eexists. split; [reflexivity|]. cbv beta iota. rewrite length_app. split_and!; [simpl; lia| |done].
  apply Forall_app_2; [done|]. constructor; [apply samples_for_range|constructor].
Qed.

(** A run returns, and every result is that of [rounds] blocks of samples. *)
Lemma run_all_ret cfg e :
  capacity_fits cfg -> env_ok key src k cc e ->
  exists results cpus e' ns scheds,
    run_all cfg src sp e = Ret (results, cpus, e') /\ env_ok key src k cc e' /\ scheds_ok src scheds /\
    length results = length (jobs_of sp) /\ length ns = length (jobs_of sp) /\ Forall (fun n => 8 <= n <= 512) ns /\
    (forall j i hot s r, jobs_of sp !! j = Some (i, hot) -> sp !! i = Some s -> results !! j = Some r ->
       res_ok seed src k cc s hot (pick scheds hot) (Z.to_nat (rounds cfg) * (ns !!! j)) r).
Proof.
  intros Hfit He. unfold run_all. destruct (scheds_ret (Z.lxor SEED 0xABCD)) as (cold & hot & -> & -> & Hsc).
  rewrite !bind_ret. set (scheds := mkScheds cold hot) in *.
  destruct (init_results_ret cfg (jobs_of sp) [] Hfit) as (rs0 & -> & Hl0 & Hinit).
  { intros i h [j Hj]%list_elem_of_lookup. destruct (jobs_of_lookup sp j i h Hj) as (s & Hs & _). eauto. }
  rewrite bind_ret, app_nil_l. destruct (calibrate_ret cfg scheds e Hsc He) as (ns & e1 & -> & Hns & Hrange & He1). rewrite bind_ret.
  destruct (for_range_inv (fun i '(order, rs) => order ≡ₚ seq 0 (length (jobs_of sp)) /\
      run_ok key seed src k cc sp scheds (fun j => i * (ns !!! j)) rs)
    (Z.to_nat (rounds cfg)) (round_step src sp scheds (jobs_of sp) ns) (seq 0 (length (jobs_of sp)), mkRunState rs0 e1 []))
    as ([order rs] & -> & _ & Hrun).
  - split; [done|]. split; [done|done|]. intros j i h s r Hj Hs Hr. simpl in Hr.
    rewrite (Hinit j i h s r) by done. apply init_res_ok.
  - intros i [order rs] _ [Hperm Hrun].
    destruct (round_step_ret key seed src k cc Hkey Hk Hcc Hsrc Hmax sp scheds ns Hsp Hsc Hns _ i order rs Hrun Hperm)
      as (order' & rs' & Hstep & Hperm' & Hrun').
    exists (order', rs'). split; [done|]. split; [done|]. eapply run_ok_ext; [|exact Hrun']. intros j _. simpl. lia.
  - rewrite bind_ret. destruct Hrun as [He' Hl Hres].
    eexists _, _, _, ns, scheds. split; [reflexivity|]. done.
Qed.

End RunAll.
End RunnerFacts.
