(* ===== verification/PlatformProperties.v ===== *)
(** * Properties of the benchmark's platform layer and command line *)

From stdpp Require Import base numbers list option strings pretty.
From Stdlib Require Import Strings.Byte ZifyN.
From S2P Require Import Prelude F64 Platform Runner.
Import Win Cpu Runner.

Ltac Zify.zify_post_hook ::= Z.div_mod_to_equations.

Module PlatformFacts.

Definition is_u32 (z : Z) : Prop := (0 <= z < 2 ^ 32)%Z.

Lemma land_ones_range x n : (0 <= n)%Z -> (0 <= Z.land x (Z.ones n) < 2 ^ n)%Z.
Proof. intros Hn. rewrite Z.land_ones by done. apply Z.mod_pos_bound. by apply pow2_pos. Qed.

(** The geometry fields are within their register bits. *)
Lemma geometry_range r :
  (1 <= cache_line r <= 2 ^ 12)%Z /\ (1 <= cache_parts r <= 2 ^ 10)%Z /\ (1 <= cache_ways r <= 2 ^ 10)%Z /\
  (0 <= cache_sets r < 2 ^ 32)%Z.
Proof.
  unfold cache_line, cache_parts, cache_ways, cache_sets.
  change 0xFFF%Z with (Z.ones 12). change 0x3FF%Z with (Z.ones 10).
  pose proof (land_ones_range (ebx r) 12). pose proof (land_ones_range (Z.shiftr (ebx r) 12) 10).
  pose proof (land_ones_range (Z.shiftr (ebx r) 22) 10). pose proof (Z.mod_pos_bound (ecx r + 1) (2 ^ 32)). lia.
Qed.

Lemma cache_kib_exact r :
  cache_kib r = ((cache_line r * cache_parts r * cache_ways r * cache_sets r / 1024) `mod` 2 ^ 32)%Z /\
  (cache_line r * cache_parts r * cache_ways r * cache_sets r < 2 ^ 64)%Z.
Proof.
  destruct (geometry_range r) as (Hl & Hp & Hw & Hs). unfold cache_kib.
  assert (Hmul : forall a b x y, (0 <= a <= x -> 0 <= b <= y -> 0 <= a * b <= x * y)%Z).
  { intros a b x y Ha Hb. split; [lia|]. apply Z.mul_le_mono_nonneg; lia. }
  pose proof (Hmul (cache_line r) (cache_parts r) (2 ^ 12) (2 ^ 10) ltac:(lia) ltac:(lia))%Z as H1.
  pose proof (Hmul _ (cache_ways r) _ (2 ^ 10) H1 ltac:(lia))%Z as H2.
  pose proof (Hmul _ (cache_sets r) _ (2 ^ 32 - 1) H2 ltac:(lia))%Z as H3.
  rewrite (wrap64_small (cache_line r * cache_parts r)) by (unfold is_u64; lia).
  rewrite (wrap64_small (_ * cache_ways r)) by (unfold is_u64; lia).
  rewrite (wrap64_small (_ * cache_sets r)) by (unfold is_u64; lia). split; [done|lia].
Qed.

Definition sizes_ok (st : option Z * option Z * option Z) : Prop :=
  let '(l1d, l2, l3) := st in
  (forall x, l1d = Some x -> is_u32 x) /\ (forall x, l2 = Some x -> is_u32 x) /\ (forall x, l3 = Some x -> is_u32 x).

Lemma cache_kib_u32 r : is_u32 (cache_kib r).
Proof. apply Z.mod_pos_bound. lia. Qed.

Section Cpu.
Context `{Cpuid}.

Lemma cache_step_ok leaf sub st st' : sizes_ok st -> cache_step leaf sub st = Some st' -> sizes_ok st'.
Proof.
  destruct st as [[l1 l2] l3]. intros (H1 & H2 & H3). unfold cache_step.
  destruct (_ =? 0)%Z; [done|]. intros [= <-]. pose proof (cache_kib_u32 (cpuid_count leaf sub)).
  repeat case_match; split_and!; intros; simplify_eq; auto.
Qed.

Lemma cache_loop_ok n leaf : forall sub st, sizes_ok st -> sizes_ok (cache_loop n leaf sub st).
Proof.
  induction n as [|n IH]; intros sub st Hst; [done|]. cbn [cache_loop].
  destruct (cache_step leaf sub st) eqn:E; [|done]. apply IH. by eapply cache_step_ok.
Qed.

End Cpu.

(** ** ASCII text *)

Definition ascii_byte (b : byte) : Prop := (Z_of_byte b < 0x80)%Z.

Lemma lossy_ascii fuel : forall l, length l <= fuel -> Forall ascii_byte l -> lossy_loop fuel l = Z_of_byte <$> l.
Proof.
  induction fuel as [|fuel IH]; intros [|b l] Hlen Hl; simpl in Hlen; try done; [lia|]. cbn [lossy_loop].
  apply Forall_cons_1 in Hl as [Hb Hl]. unfold ascii_byte in Hb. unfold decode_step.
  apply Z.ltb_lt in Hb. rewrite Hb. rewrite drop_0, IH by (done || lia). done.
Qed.

(** ** Decimal arguments *)

Lemma digit_of_char d : (d < 10)%N -> digit_of (pretty_N_char d) = Some (Z.of_N d).
Proof.
  intros Hd. assert (d = 0 \/ d = 1 \/ d = 2 \/ d = 3 \/ d = 4 \/ d = 5 \/ d = 6 \/ d = 7 \/ d = 8 \/ d = 9)%N as Hc by lia.
  destruct_or! Hc; subst d; reflexivity.
Qed.

(** Reading back the digits of [x] in front of [s]. *)
Lemma parse_pretty_go bits : forall x s,
  (Z.of_N x < 2 ^ bits)%Z -> parse_digits bits 0 (pretty_N_go x s) = parse_digits bits (Z.of_N x) s.
Proof.
  intros x. induction (N.lt_wf_0 x) as [x _ IH]. intros s Hx. destruct (decide (x = 0)%N) as [->|Hne].
  { by rewrite pretty_N_go_0. }
  rewrite pretty_N_go_step by lia. rewrite IH by (try apply N.div_lt; lia).
  cbn [parse_digits]. rewrite digit_of_char by (apply N.mod_lt; lia).
  replace (Z.of_N (x `div` 10) * 10 + Z.of_N (x `mod` 10))%Z with (Z.of_N x) by lia.
  by rewrite (proj2 (Z.ltb_lt _ _) Hx).
Qed.

Lemma parse_digits_uint bits s n : s <> "" -> parse_digits bits 0 s = Some n -> parse_uint bits s = Some n.
Proof.
  intros Hs Hp. destruct s as [|a s]; [done|]. unfold parse_uint. destruct (Ascii.N_of_ascii a =? 43)%N eqn:E; [|done].
  apply N.eqb_eq in E. cbn [parse_digits] in Hp. unfold digit_of in Hp. rewrite E in Hp. done.
Qed.

Lemma parse_uint_pretty bits (n : N) : (0 < bits)%Z -> (Z.of_N n < 2 ^ bits)%Z -> parse_uint bits (pretty n) = Some (Z.of_N n).
Proof.
  intros Hb Hn. unfold pretty, pretty_N. case_decide as H0.
  { subst n. change (parse_uint bits "0") with (if (0 <? 2 ^ bits)%Z then Some 0%Z else None). assert (Hlt : (0 <? 2 ^ bits)%Z = true) by (apply Z.ltb_lt, pow2_pos; lia).
    by rewrite Hlt. }
  apply parse_digits_uint; [|by rewrite parse_pretty_go].
  intros Hs. pose proof (parse_pretty_go bits n "" Hn) as Hp. rewrite Hs in Hp. simpl in Hp. simplify_eq. lia.
Qed.

(** One option of the command line. *)
Lemma parse_step_rounds n v args cfg :
  parse_loop (S n) ("--rounds" :: v :: args) cfg = parse_loop n args (set_rounds (default 5%Z (parse_uint 64 v)) cfg).
Proof. reflexivity. Qed.

Lemma parse_step_pool n v args cfg :
  parse_loop (S n) ("--pool-mib" :: v :: args) cfg =
  parse_loop n args (set_pool_bytes (wrap64 (default 8%Z (parse_uint 64 v) * 1024 * 1024)) cfg).
Proof. reflexivity. Qed.

Lemma parse_step_slots n v args cfg :
  parse_loop (S n) ("--max-slots" :: v :: args) cfg = parse_loop n args (set_max_slots (default 16384%Z (parse_uint 64 v)) cfg).
Proof. reflexivity. Qed.

Lemma parse_step_pin n v args cfg :
  parse_loop (S n) ("--pin" :: v :: args) cfg = parse_loop n args (set_pin (parse_uint 32 v) cfg).
Proof. reflexivity. Qed.

Lemma parse_step_unknown n args cfg : parse_loop (S n) ("--verbose" :: args) cfg = parse_loop n args cfg.
Proof. reflexivity. Qed.

End PlatformFacts.
Import PlatformFacts.

Module PlatformProperties.

(** numbers given on the command line are read back exactly: every [usize]
    for [--rounds], [--pool-mib] (in bytes, wrapping) and [--max-slots], every
    [u32] for [--pin]; what does not parse falls back to the default, unknown
    arguments are skipped, and [--help] exits from any option position. *)
Theorem command_line_round_trip (r p m : N) (c : N) :
  (Z.of_N r < 2 ^ 64)%Z -> (Z.of_N p < 2 ^ 64)%Z -> (Z.of_N m < 2 ^ 64)%Z -> (Z.of_N c < 2 ^ 32)%Z ->
  parse_args ["--rounds"; pretty r; "--pool-mib"; pretty p; "--verbose"; "--max-slots"; pretty m; "--pin"; pretty c; "--no-sweep"] =
    Run (mkCfg (Z.of_N r) (wrap64 (Z.of_N p * 1024 * 1024)) (Z.of_N m) (Some (Z.of_N c)) false false (F64.of_Z 3) (F64.of_Z 250)) /\
  parse_args ["--rounds"; "-1"; "--pool-mib"; "8k"; "--max-slots"; "18446744073709551616"; "--pin"; ""; "--rounds"] = Run default_cfg /\
  parse_args ["--rounds"; pretty r; "-h"; "--quick"] = HelpExit.
Proof.
  intros Hr Hp Hm Hc. split_and!; [|vm_compute; reflexivity|].
  - unfold parse_args. cbn [length].
    rewrite parse_step_rounds, parse_step_pool, parse_step_unknown, parse_step_slots, parse_step_pin.
    by rewrite !parse_uint_pretty by (done || lia).
  - unfold parse_args. cbn [length]. rewrite parse_step_rounds. reflexivity.
Qed.

Lemma command_line_round_trip_witness : parse_args ["--rounds"; "7"; "-h"; "--quick"] = HelpExit.
Proof. apply (command_line_round_trip 7 8 9 3); lia. Defined.

(** cache geometry from CPUID.  Whatever the instruction returns, the size
    of a cache is computed without overflowing [u64], so it is the exact product
    of line, partitions, ways and sets in KiB, reduced to [u32]; the loop makes
    at most 16 queries and every size it reports is a [u32]; and a vendor string
    of ASCII bytes is kept as it is, so that AMD parts are recognised. *)
Theorem cache_geometry `{Cpuid} max_leaf ext_max vendor r bytes :
  Forall ascii_byte bytes ->
  cache_kib r = ((cache_line r * cache_parts r * cache_ways r * cache_sets r / 1024) `mod` 2 ^ 32)%Z /\
  (cache_line r * cache_parts r * cache_ways r * cache_sets r < 2 ^ 64)%Z /\
  sizes_ok (cache_sizes max_leaf ext_max vendor) /\
  from_utf8_lossy bytes = Z_of_byte <$> bytes.
Proof.
  intros Hb. split_and!; [apply cache_kib_exact..| |by apply lossy_ascii].
  unfold cache_sizes. repeat case_match; try apply cache_loop_ok; done.
Qed.

Lemma cache_geometry_witness :
  from_utf8_lossy [x41; x75; x74; x68] = text_of "Auth".
Proof.
  pose (H := {| cpuid_count _ _ := mkCpuid 0 0 0 0; feature_detected _ := false |} : Cpuid).
  apply (@cache_geometry H 4 0 [] (mkCpuid 0 0 0 0) [x41; x75; x74; x68]).
  repeat constructor.
Defined.

(** file times survive their two halves: [as_100ns] of the halves of a
    64-bit time is that time, and a pin beyond the 64-bit mask changes neither
    affinity nor ideal processor. *)
Theorem file_time_round_trip `{Win32} t pin w :
  is_u64 t -> (64 <= pin)%Z ->
  as_100ns (mkFileTime (t `mod` 2 ^ 32) (t / 2 ^ 32)) = t /\
  (set_scheduling (Some pin) w).2 = (SetThreadPriority THREAD_PRIORITY_HIGHEST (SetPriorityClass HIGH_PRIORITY_CLASS w).2).2.
Proof.
  intros Ht Hpin. split.
  - unfold as_100ns. cbn [hi lo]. unfold is_u64 in Ht. rewrite <- Z.land_ones, <- Z.shiftr_div_pow2 by lia.
    apply Z.bits_inj'. intros i Hi. rewrite Z.lor_spec, Z.land_spec, Z.testbit_ones_nonneg by lia.
    destruct (decide (i < 64)%Z) as [Hi64|Hi64].
    + rewrite testbit_wrap64, Z.shiftl_spec by lia. destruct (decide (i < 32)%Z).
      * rewrite Z.testbit_neg_r, (proj2 (Z.ltb_lt i 32)) by lia. by rewrite andb_true_r.
      * rewrite Z.shiftr_spec, (proj2 (Z.ltb_ge i 32)) by lia. rewrite andb_false_r, orb_false_r. f_equal. lia.
    + rewrite (testbit_high t 64), (testbit_high (wrap64 _) 64) by (try apply wrap64_range; lia). done.
  - unfold set_scheduling. destruct (SetPriorityClass _ w) as [a w1]. simpl.
    destruct (SetThreadPriority _ w1) as [b w2]. simpl. by rewrite (proj2 (Z.ltb_ge pin 64)).
Qed.

Lemma file_time_round_trip_witness : as_100ns (mkFileTime 5 1) = 4294967301%Z.
Proof.
  pose (H := {| world := unit;
    QueryThreadCycleTime w := (1%Z, 0%Z, w);
    GetThreadTimes w := (1%Z, (mkFileTime 0 0, mkFileTime 0 0, mkFileTime 0 0, mkFileTime 0 0), w);
    GetSystemTimes w := (1%Z, (mkFileTime 0 0, mkFileTime 0 0, mkFileTime 0 0), w);
    SetThreadAffinityMask _ w := (1%Z, w);
    SetThreadIdealProcessor _ w := (1%Z, w);
    GetCurrentProcessorNumber w := (1%Z, w);
    SetThreadPriority _ w := (1%Z, w);
    SetPriorityClass _ w := (1%Z, w);
    QueryPerformanceCounter w := (1%Z, 0%Z, w);
    QueryPerformanceFrequency w := (1%Z, 1%Z, w) |} : Win32).
  apply (@file_time_round_trip H 4294967301 64 tt); [unfold is_u64; lia|lia].
Defined.

End PlatformProperties.
