(* ===== verification/Report.v ===== *)
(** * The benchmark's report

    The statistics of [Res] and the figures that [print_report] of
    [lightway-expresslane-bench/src/main.rs] computes from them: measured rows,
    gates, derived costs, projection and verdict.  [Printing] lays them out. *)

From stdpp Require Import base numbers list list_numbers option strings sorting.
From Stdlib Require Import Strings.Byte.
From S2P Require Import Prelude ReplayWindow ReplayReference AntiReplay Cipher Session Pool Arms F64 Platform Runner.
Import Pool Arms Win Cpu Runner.

Module Report.

Definition FREQ_MIN_100NS : Z := 5000000.

(** [100e-9] and the percentiles. *)
Definition HUNDRED_NS : F64.f64 := F64.lit 1 10000000.
Definition P10 : F64.f64 := F64.lit 1 10.
Definition P50 : F64.f64 := F64.lit 5 10.
Definition P90 : F64.f64 := F64.lit 9 10.

Definition sorted (v : list F64.f64) : outcome (list F64.f64) := F64.sort v.

Definition pct_index (n : nat) (p : F64.f64) : nat :=
  Z.to_nat (F64.as_usize (F64.round (F64.mul (F64.of_Z (Z.of_nat (n - 1))) p))).

Definition pct (sorted : list F64.f64) (p : F64.f64) : outcome F64.f64 :=
  if decide (sorted = []) then Ret F64.NAN
  else vec_index sorted (pct_index (length sorted) p).

(** ** Statistics of a result *)

Definition median (r : Res) : outcome F64.f64 := s ← sorted (cpb r); pct s P50.

Definition freq_measurable (r : Res) : bool := (FREQ_MIN_100NS <=? freq_cpu_100ns r)%Z.

Definition cpu_ms (r : Res) : F64.f64 := F64.mul (F64.of_Z (freq_cpu_100ns r)) (F64.lit 1 10000).

Definition eff_ghz (r : Res) : option F64.f64 :=
  if negb (freq_measurable r) then None
  else
    let cpu_s := F64.mul (F64.of_Z (freq_cpu_100ns r)) HUNDRED_NS in
    Some (F64.div (F64.div (F64.of_Z (freq_cycles r)) cpu_s) (F64.of_Z 1000000000)).

Definition preempt (qpc_freq : F64.f64) (r : Res) : option F64.f64 :=
  if negb (freq_measurable r) then None
  else
    let cpu_s := F64.mul (F64.of_Z (freq_cpu_100ns r)) HUNDRED_NS in
    let wall_s := F64.div (F64.of_Z (freq_qpc r)) qpc_freq in
    Some (F64.abs (F64.div (F64.sub wall_s cpu_s) cpu_s)).

Definition spread (r : Res) : outcome F64.f64 :=
  s ← sorted (cpb r);
  m ← pct s P50;
  if F64.le m (F64.of_Z 0) then Ret (F64.of_Z 0)
  else
    p90 ← pct s P90;
    p10 ← pct s P10;
    Ret (F64.div (F64.sub p90 p10) m).

Definition find (res : list Res) (name : string) (hot : bool) : option Res :=
  head (filter (fun r => r_name r = name /\ r_hot r = hot) res).

Definition med (res : list Res) (name : string) (hot : bool) : outcome F64.f64 :=
  match find res name hot with Some r => median r | None => Ret F64.NAN end.

Definition gbps (cpb : F64.f64) : F64.f64 := F64.div (F64.mul M1_GHZ (F64.of_Z 8)) cpb.

(** ** The measured rows *)

Definition row_state (qfreq spread : F64.f64) (r : Res) : string :=
  let state := if F64.le spread (F64.lit 5 100) then "stable" else "UNSTABLE" in
  let state := match preempt qfreq r with
               | Some p => if F64.gt p (F64.lit 2 100) then state +:+ " PREEMPTED" else state
               | None => state
               end in
  let state := if negb (total_ops r =? expected_ops r)%Z then state +:+ " OPS-MISMATCH" else state in
  if negb (acc_stable r) && bool_decide (r_family r <> FNull) then state +:+ " CHECKSUM-DRIFT" else state.

Record Row : Type := mkRow {
  row_name : string; row_hot : bool;
  row_median : F64.f64; row_cycles : F64.f64; row_p10 : F64.f64; row_p90 : F64.f64;
  row_spread : F64.f64; row_ghz : option F64.f64; row_cpu_ms : F64.f64; row_n : nat; row_status : string;
}.

Definition measured_row (qfreq : F64.f64) (r : Res) : outcome Row :=
  s ← sorted (cpb r);
  m ← pct s P50;
  sp ← spread r;
  p10 ← pct s P10;
  p90 ← pct s P90;
  Ret (mkRow (r_name r) (r_hot r) m (F64.mul m (F64.of_Z (Z.of_nat (payload_len r)))) p10 p90
         (F64.mul sp (F64.of_Z 100)) (eff_ghz r) (cpu_ms r) (length (cpb r)) (row_state qfreq sp r)).

(** [mapM] in the order of the list. *)
Fixpoint collect {A B : Type} (f : A -> outcome B) (l : list A) : outcome (list B) :=
  match l with
  | [] => Ret []
  | a :: l => b ← f a; bs ← collect f l; Ret (b :: bs)
  end.

(** ** The gates on checksums and operations *)

Definition all_ok (res : list Res) : bool := forallb (fun r => total_ops r =? expected_ops r)%Z res.

Definition all_acc (res : list Res) : bool :=
  forallb acc_stable (filter (fun r => r_family r <> FNull) res).

(** One residency of [family_ok]: the first accumulator against the others. *)
Fixpoint accs_agree (seen : option Z) (rs : list Res) : bool :=
  match rs with
  | [] => true
  | r :: rs =>
      match seen with
      | None => accs_agree (Some (r_acc r)) rs
      | Some v => if negb (v =? r_acc r)%Z then false else accs_agree seen rs
      end
  end.

Definition family_ok (res : list Res) (fam : Family) : bool :=
  forallb (fun hot => accs_agree None (filter (fun r => r_family r = fam /\ r_hot r = hot) res)) [true; false].

(** ** The gates on measurements *)

Definition worst_aesgcm (res : list Res) : outcome F64.f64 :=
  ms ← collect median (filter (fun r => r_is_aesgcm r = true) res);
  Ret (foldl F64.max (F64.of_Z 0) ms).

Record Ghz : Type := mkGhz { ghz_all : list F64.f64; ghz_lo : F64.f64; ghz_hi : F64.f64; ghz_med : F64.f64; ghz_spread : F64.f64 }.

Definition ghz_of (res : list Res) : outcome Ghz :=
  let ghz := omap eff_ghz res in
  let lo := foldl F64.min F64.INFINITY ghz in
  let hi := foldl F64.max (F64.of_Z 0) ghz in
  s ← sorted ghz;
  mid ← pct s P50;
  let spread := if F64.is_finite lo && F64.gt lo (F64.of_Z 0) then F64.div (F64.sub hi lo) lo else F64.of_Z 1 in
  Ret (mkGhz ghz lo hi mid spread).

(** Timer overhead per plaintext byte, and its share of the smallest cipher arm. *)
Definition timer_figures (src : Src) (res : list Res) (timer_ns : F64.f64) : outcome (F64.f64 * F64.f64) :=
  let bytes_per_sample := F64.of_Z (Z.of_nat (slots src * len src)) in
  let timer_cpb := F64.div (F64.mul (F64.mul (F64.of_Z 2) timer_ns) M1_GHZ) (F64.max bytes_per_sample (F64.of_Z 1)) in
  ms ← collect median (filter (fun r => r_name r <> "null" /\ r_name r <> "copy_payload") res);
  let smallest := foldl F64.min F64.INFINITY
                    (filter (fun v => F64.is_finite v = true /\ F64.gt v (F64.of_Z 0) = true) ms) in
  Ret (timer_cpb, F64.div timer_cpb (F64.max smallest F64.MIN_POSITIVE)).

(** A row of the payload sweep: length, then c/B and c/packet of the two arms. *)
Definition sweep_row : Type := nat * F64.f64 * F64.f64 * F64.f64 * F64.f64.
Definition rc_packet (w : sweep_row) : F64.f64 := w.1.1.2.
Definition ring_packet (w : sweep_row) : F64.f64 := w.2.

Fixpoint rises (f : sweep_row -> F64.f64) (l : list sweep_row) : bool :=
  match l with
  | w0 :: ((w1 :: _) as l') => F64.gt (f w1) (f w0) && rises f l'
  | _ => true
  end.

Definition linear (sweep : list sweep_row) : bool :=
  if decide (2 <= length sweep) then rises rc_packet sweep && rises ring_packet sweep else true.

Definition unstable_flag (r : Res) : outcome (bool * string) :=
  s ← spread r;
  Ret (F64.gt s (F64.lit 5 100), r_name r +:+ "/" +:+ (if r_hot r then "hot" else "cold")).

Definition unstable (res : list Res) : outcome (list string) :=
  flags ← collect unstable_flag res;
  Ret (omap (M := list) (fun x : bool * string => if x.1 then Some x.2 else None) flags).

(** G14's note: the [u32] comparison of the working set with L3. *)
Definition fits_l3_note (src : Src) (l3_kib : option Z) : bool :=
  match l3_kib with
  | Some l3 => (wrap32 (Z.of_nat (working_set_bytes src)) <? wrap32 (l3 * 1024))%Z
  | None => false
  end.

(** The text of a gate. *)
Definition g (ok : bool) : string := if ok then "PASS" else "**FAIL**".

(** ** The derived figures *)

Record Derived : Type := mkDerived {
  copy_hot : F64.f64; copy_cold : F64.f64; rc_hot : F64.f64; rc_cold : F64.f64;
  ring_hot : F64.f64; ring_cold : F64.f64; cc_hot : F64.f64; cc_cold : F64.f64; sess_overhead : F64.f64;
}.

Definition derive (res : list Res) : outcome Derived :=
  copy_hot ← med res "copy_payload" true;
  copy_cold ← med res "copy_payload" false;
  let aead name (hot : bool) := m ← med res name hot; Ret (F64.sub m (if hot then copy_hot else copy_cold)) in
  rc_hot ← aead "rc_aesgcm256_dec" true;
  rc_cold ← aead "rc_aesgcm256_dec" false;
  ring_hot ← aead "ring_aesgcm256_dec" true;
  ring_cold ← aead "ring_aesgcm256_dec" false;
  cc_hot ← aead "rc_chacha_dec *" true;
  cc_cold ← aead "rc_chacha_dec *" false;
  sess ← med res "session_decrypt" false;
  rc ← med res "rc_aesgcm256_dec" false;
  Ret (mkDerived copy_hot copy_cold rc_hot rc_cold ring_hot ring_cold cc_hot cc_cold (F64.sub sess rc)).

(** A projected row: shares of 7.66 and the end-to-end bracket, hot with hot and
    cold with cold. *)
Definition project (d : Derived) (c_hot c_cold : F64.f64) : F64.f64 * F64.f64 * F64.f64 * F64.f64 * F64.f64 * F64.f64 :=
  let e_hot := F64.add (F64.sub M1_CPB (rc_hot d)) c_hot in
  let e_cold := F64.add (F64.sub M1_CPB (rc_cold d)) c_cold in
  let e_lo := F64.min e_hot e_cold in
  let e_hi := F64.max e_hot e_cold in
  (F64.mul (F64.div (F64.min c_hot c_cold) M1_CPB) (F64.of_Z 100),
   F64.mul (F64.div (F64.max c_hot c_cold) M1_CPB) (F64.of_Z 100), e_lo, e_hi, gbps e_hi, gbps e_lo).

(** The incumbent's row and the row of a free cipher. *)
Definition current_row (d : Derived) : F64.f64 * F64.f64 * F64.f64 :=
  (F64.mul (F64.div (rc_hot d) M1_CPB) (F64.of_Z 100), F64.mul (F64.div (rc_cold d) M1_CPB) (F64.of_Z 100), gbps M1_CPB).

Definition zero_row (d : Derived) : F64.f64 * F64.f64 * F64.f64 * F64.f64 :=
  let e_cold := F64.sub M1_CPB (rc_cold d) in
  let e_hot := F64.sub M1_CPB (rc_hot d) in
  (F64.min e_cold e_hot, F64.max e_cold e_hot, gbps (F64.max e_cold e_hot), gbps (F64.min e_cold e_hot)).

(** The budgets that would match WireGuard, by ceiling and by measured goodput. *)
Definition target_ceiling : F64.f64 := F64.div (F64.mul M1_GHZ (F64.of_Z 8)) WIREGUARD_GBPS.
Definition target_measured : F64.f64 := F64.div (F64.mul M1_CPB M1_GOODPUT_GBPS) WIREGUARD_GBPS.

(** The speedup of [ring]: copy subtracted, hot and cold, then raw. *)
Definition speedups (res : list Res) (d : Derived) : outcome (F64.f64 * F64.f64 * F64.f64 * F64.f64) :=
  rh ← med res "rc_aesgcm256_dec" true;
  gh ← med res "ring_aesgcm256_dec" true;
  rc ← med res "rc_aesgcm256_dec" false;
  gc ← med res "ring_aesgcm256_dec" false;
  Ret (F64.div (rc_hot d) (ring_hot d), F64.div (rc_cold d) (ring_cold d), F64.div rh gh, F64.div rc gc).

(** The slope and the intercept of the sweep. *)
Definition marginal (sweep : list sweep_row) : option (F64.f64 * F64.f64 * F64.f64 * F64.f64) :=
  match sweep, last sweep with
  | (l0, _, p0, _, q0) :: _ :: _, Some (l1, _, p1, _, q1) =>
      let db := F64.of_Z (Z.of_nat (l1 - l0)) in
      Some (F64.div (F64.sub p1 p0) db, F64.div (F64.sub q1 q0) db,
            F64.sub p0 (F64.mul (F64.div (F64.sub p1 p0) db) (F64.of_Z (Z.of_nat l0))),
            F64.sub q0 (F64.mul (F64.div (F64.sub q1 q0) db) (F64.of_Z (Z.of_nat l0))))
  | _, _ => None
  end.

Definition verdict (d : Derived) : string :=
  if F64.le (F64.lit 31 10) (rc_cold d) && F64.le (rc_cold d) (F64.lit 37 10)
  then "CONFIRMED — dead centre of the off-rig 3.1-3.7 c/B estimate"
  else if F64.ge (rc_cold d) (F64.of_Z 3)
  then "CONFIRMED in magnitude (>= 3.0 c/B), outside the exact off-rig range"
  else if F64.ge (rc_cold d) (F64.lit 15 10)
  then "OVERSTATED — the cipher is real but smaller than the plan assumed"
  else "REFUTED — the cipher is NOT where the 7.66 lives".

(** Whether even a free cipher stays below WireGuard. *)
Definition below_wireguard (d : Derived) : bool := F64.lt (gbps (F64.sub M1_CPB (rc_cold d))) WIREGUARD_GBPS.

(** The next action of the decision table. *)
Inductive Action : Set := SwapProvider | ReRank | StopProviderWork.

Definition next_action (d : Derived) : Action :=
  if F64.ge (rc_cold d) (F64.of_Z 3) then SwapProvider
  else if F64.ge (rc_cold d) (F64.lit 15 10) then ReRank
  else StopProviderWork.

End Report.
