(* ===== verification/BenchProperties.v ===== *)
(** * What the benchmark's run and report guarantee

    The self-test passes, a run records nothing but complete passes with stable
    and agreeing accumulators, so the report's gates on checksums and operations
    pass; its percentiles are elements of the sample. *)

From stdpp Require Import base numbers list list_numbers option strings sorting.
From Stdlib Require Import Strings.Byte ZifyNat.
From S2P Require Import Prelude ReplayWindow ReplayReference AntiReplay Cipher Session SessionFacts SessionProperties.
From S2P Require Import Pool PoolFacts Arms ArmsFacts F64 F64Facts Platform Format Runner RunnerFacts Report Printing.
Import SessionSpec SessionFacts SessionProperties Pool PoolSpec PoolFacts Arms ArmsSpec ArmsFacts Win Cpu.
Import Runner RunnerSpec RunnerFacts Report Printing Output F64Facts.

Ltac Zify.zify_post_hook ::= Z.div_mod_to_equations.

Module BenchFacts.

(** ** Keys and self-test *)

Section Setup.
Context {W : Type} `{AntiReplay W} `{Aead} `{!AeadLaws} `{Providers} `{!ProviderLaws} `{Win32}.

Abbreviation bench_key := (mkKey KEY_BYTES).

Lemma build_keys_ret :
  exists (keys : Keys (W := W)) k cc, build_keys = Ret keys /\ keys_ok bench_key k cc keys /\
    unbound_key_new KEY_BYTES = Some k /\ cc_new KEY_BYTES = Some cc.
Proof.
  destruct (proj2 (aead_key_len KEY_BYTES) eq_refl) as [k Hk].
  destruct (proj2 (@aead_key_len rc_aead _ KEY_BYTES) eq_refl) as [rc Hrc].
  destruct (proj2 (@aead_key_len cc_aead _ KEY_BYTES) eq_refl) as [cc Hcc].
  destruct (tx_ready (W := W) bench_key k eq_refl Hk) as (tx & Hstage & Hself & Hver & _).
  unfold build_keys. rewrite Hstage. cbn [expect key_bytes]. rewrite bind_ret.
  unfold rc_new, cc_new. rewrite Hrc, Hk, Hcc. cbn [expect_some]. rewrite !bind_ret.
  eexists _, k, cc. split; [reflexivity|]. by split.
Qed.

(** A fresh receiving session delivers the packet of any slot. *)
Lemma fresh_rx_delivers key seed src k (rx : ExpresslaneSession W aead_key) j tag ct out :
  src_wf key seed src -> (Z.of_nat j + 1 < 2 ^ 64)%Z -> peer_keys rx = [mkCipher k] -> version rx = Version2 ->
  ar_models (replay_window (Session.rx rx)) [] ->
  let p := slot_payload (len src) seed j in
  slot_sealed k (session_id src) j p = (Some tag, ct) -> length tag = 16 -> length ct = len src ->
  length out = len src ->
  exists rx', decrypt (session_id src) (slot_packet j p tag ct) out rx = Ret (Ok (len src, false), p, rx').
Proof.
  intros Hsrc Hj Hp Hv Hm p Hs Htag Hct Hout. subst p. pose proof (sw_len _ _ _ Hsrc).
  pose proof (length_pay seed src j) as Hl. eexists. unfold slot_packet. rewrite decrypt_sealed.
  all: try (done || lia || apply length_pool_iv || apply Hsrc || (unfold is_u64, slot_counter; lia)).
  - rewrite Hl, drop_ge, app_nil_r by lia. reflexivity.
  - apply (ar_next_accepted _ []); [done|lia|constructor].
  - rewrite Hp, Hv. simpl.
    by rewrite (open_sealed_with _ _ _ _ _ _ _ _ _ _ _ (slot_seals seed src _ _ _ _ Hs Htag) Htag eq_refl eq_refl).
Qed.

(** The self-test on a pool's first packet. *)
Lemma self_test_ret key seed src k cc (keys : Keys (W := W)) :
  is_invalid key = false -> unbound_key_new (key_bytes key) = Some k -> cc_new (key_bytes key) = Some cc ->
  src_wf key seed src -> keys_ok key k cc keys ->
  self_test keys src = Ret (mkSelfTest true true true true true).
Proof.
  intros Hkey Hk Hcc Hsrc Hko. pose proof (sw_slots _ _ _ Hsrc) as Hn. pose proof (stride_room key seed src Hsrc).
  destruct (sw_wire _ _ _ Hsrc 0 k ltac:(lia) Hk) as (tag & ct & Hs & Htag & Hct & Hw).
  destruct (sw_wire_cc _ _ _ Hsrc 0 cc ltac:(lia) Hcc) as (tag' & ct' & Hs' & Htag' & Hct' & Hw').
  set (p := slot_payload (len src) seed 0) in *.
  assert (Hl : length p = len src) by apply length_payload.
  destruct (packet_reads 0 p tag ct Htag) as (Hr1 & Hr2 & Hr3 & Hr4 & Hr5). rewrite Hct in Hr5.
  destruct (packet_reads 0 p tag' ct' Htag') as (_ & _ & _ & Hc4 & Hc5). rewrite Hct' in Hc5.
  destruct (fresh_rx_ret key k cc Hkey Hk keys Hko) as (rx & Hrx & Hpk & Hv & Hm).
  pose proof (make_ctx_wf key src k cc Hk Hcc keys rx Hko Hpk Hv) as Hctx.
  pose proof (rc_slot_sealed key seed src Hsrc _ Hctx 0) as Hrc. cbn [make_ctx ctx_rc ctx_ring] in Hrc. fold p in Hrc.
  rewrite (ko_ring _ _ _ _ Hko), Hs in Hrc.
  assert (Hslice : forall buf n, length buf = slots src * stride src -> n <= 40 + len src ->
    slice buf 0 n = Ret (slot_at buf (stride src) n 0)) by
    (intros; apply (slice_slot key seed src Hsrc buf 0 n); (done || lia)).
  unfold self_test, WIRE_OVERHEAD.
  rewrite (Hslice (wire src)), bind_ret, Hw by (lia || apply Hsrc).
  rewrite (Hslice (plain src)), bind_ret, (sw_plain _ _ _ Hsrc) by (lia || apply Hsrc). fold p.
  rewrite Hr1, bind_ret, Hr2, bind_ret, be_value_be_bytes_u64 by done. change (be_value (be_bytes 2 0)) with 0%Z.
  rewrite aad_v2_ret, bind_ret, Hr3, bind_ret, Hr4, bind_ret, Hr5, bind_ret by apply Hsrc.
  change (aad_of Version2 (session_id src) (slot_counter 0) 0) with (slot_aad (session_id src) 0).
  rewrite overwrite, bind_ret by lens.
  change (rc_open (k_rc keys)) with (@open_in_place rc_aead (k_rc keys)).
  rewrite (@open_sealed rc_aead _ _ _ _ _ _ _ Hrc), overwrite, bind_ret by lia.
  rewrite (ko_ring _ _ _ _ Hko), (open_sealed _ _ _ _ _ _ Hs).
  rewrite (Hslice (wire_cc src)), bind_ret, Hw', Hc4, bind_ret, Hc5, bind_ret, overwrite, bind_ret by (lia || apply Hsrc).
  change (cc_open (k_cc keys)) with (@open_in_place cc_aead (k_cc keys)).
  rewrite (ko_cc _ _ _ _ Hko), (@open_sealed cc_aead _ _ _ _ _ _ _ Hs'), Hrx, bind_ret.
  destruct (fresh_rx_delivers key seed src k rx 0 tag ct p) as (rx' & Hdec); try done.
  fold p in Hdec. rewrite Hdec, bind_ret, Hrc. cbn [expect_some]. rewrite bind_ret.
  change (seal_in_place k (pool_iv (slot_counter 0)) (slot_aad (session_id src) 0) p) with (slot_sealed k (session_id src) 0 p).
  rewrite Hs. cbn [expect_some]. rewrite bind_ret. by rewrite !bool_decide_true.
Qed.

(** ** The gates *)

Lemma accs_agree_same v rs : Forall (fun r => r_acc r = v) rs -> forall seen, (seen = None \/ seen = Some v) -> accs_agree seen rs = true.
Proof.
  induction rs as [|r rs IH]; intros Hv seen Hseen; [by destruct seen|]. apply Forall_cons_1 in Hv as [Hr Hv].
  destruct Hseen as [->| ->]; cbn [accs_agree]; rewrite Hr; [by apply IH; auto|]. rewrite Z.eqb_refl. simpl. by apply IH; auto.
Qed.

(** Results of complete blocks of samples. *)
Definition recorded seed src k cc scheds (r : Res) : Prop :=
  exists (s : Spec (W := W)) hot m, 0 < m /\ res_ok seed src k cc s hot (pick scheds hot) m r.

Lemma gates_hold seed src k cc scheds res :
  Forall (recorded seed src k cc scheds) res ->
  all_ok res = true /\ all_acc res = true /\ (forall fam, fam <> FNull -> family_ok res fam = true).
Proof.
  intros Hres. rewrite List.Forall_forall in Hres. split_and!.
  - apply forallb_forall. intros r Hr. destruct (Hres r Hr) as (s & hot & m & _ & Hok).
    by rewrite (ro_ops _ _ _ _ _ _ _ _ _ Hok), Z.eqb_refl.
  - apply forallb_forall. intros r Hr. apply list_elem_of_In, list_elem_of_filter in Hr as [Hf Hr].
    apply list_elem_of_In in Hr. destruct (Hres r Hr) as (s & hot & m & _ & Hok).
    rewrite (ro_family _ _ _ _ _ _ _ _ _ Hok) in Hf. by apply (ro_acc _ _ _ _ _ _ _ _ _ Hok).
  - intros fam Hfam. unfold family_ok. apply forallb_forall. intros hot _.
    apply (accs_agree_same (family_acc seed src k cc fam (pick scheds hot))); [|by left].
    apply List.Forall_forall. intros r Hr. apply list_elem_of_In, list_elem_of_filter in Hr as [[Hf Hh] Hr].
    apply list_elem_of_In in Hr. destruct (Hres r Hr) as (s & hot' & m & Hm & Hok).
    rewrite (ro_family _ _ _ _ _ _ _ _ _ Hok) in Hf. rewrite (ro_hot _ _ _ _ _ _ _ _ _ Hok) in Hh. subst.
    by apply (ro_acc _ _ _ _ _ _ _ _ _ Hok).
Qed.

End Setup.

(** ** Percentiles *)

(** The indices of the three percentiles, for samples of up to [2^12] values: a
    run of eight rounds records at most [8 * 512].  The check runs over [Z]. *)
Definition MAX_SAMPLE : Z := 2 ^ 12.

Definition idx (m : Z) (p : F64.f64) : Z := F64.as_usize (F64.round (F64.mul (F64.of_Z m) p)).

Definition idx_ok (m : Z) : bool :=
  let i10 := idx m P10 in
  let i50 := idx m P50 in
  let i90 := idx m P90 in
  (i50 =? (m + 1) / 2)%Z && (0 <=? i10)%Z && (i10 <=? i50)%Z && (i50 <=? i90)%Z && (i90 <=? m)%Z.

Fixpoint all_idx_ok (fuel : nat) (m : Z) : bool :=
  match fuel with O => true | S fuel => idx_ok m && all_idx_ok fuel (m + 1) end.

Lemma all_idx_ok_spec fuel : forall m i, all_idx_ok fuel m = true -> (m <= i < m + Z.of_nat fuel)%Z -> idx_ok i = true.
Proof.
  induction fuel as [|fuel IH]; intros m i Hall Hi; [lia|]. cbn [all_idx_ok] in Hall.
  apply andb_true_iff in Hall as [Hm Hall]. destruct (decide (i = m)) as [->|]; [done|]. apply (IH (m + 1)%Z); [done|lia].
Qed.

Lemma all_idx_checked : all_idx_ok (Z.to_nat MAX_SAMPLE) 0 = true.
Proof. vm_compute. reflexivity. Qed.

Lemma pct_index_spec n :
  0 < n -> (Z.of_nat n <= MAX_SAMPLE)%Z ->
  pct_index n P50 = n / 2 /\ pct_index n P10 <= pct_index n P50 <= pct_index n P90 /\ pct_index n P90 < n.
Proof.
  intros Hn Hmax. pose proof (all_idx_ok_spec _ 0 (Z.of_nat (n - 1)) all_idx_checked) as Hok.
  assert (Hi : idx_ok (Z.of_nat (n - 1)) = true) by (apply Hok; rewrite Z2Nat.id; unfold MAX_SAMPLE in *; lia). clear Hok.
  unfold idx_ok in Hi. rewrite !andb_true_iff, !Z.leb_le, Z.eqb_eq in Hi. destruct Hi as [[[[H50 H10] H15] H59] H9].
  unfold pct_index. fold (idx (Z.of_nat (n - 1)) P50) (idx (Z.of_nat (n - 1)) P10) (idx (Z.of_nat (n - 1)) P90).
  revert H50 H10 H15 H59 H9. generalize (idx (Z.of_nat (n - 1)) P50), (idx (Z.of_nat (n - 1)) P10), (idx (Z.of_nat (n - 1)) P90).
  clear -Hn. intros. lia.
Qed.

(** ** The report returns *)

Definition number (x : F64.f64) : Prop := F64.is_nan x = false.

(** A result whose statistics can be taken. *)
Record good_res (r : Res) : Prop := {
  gr_numbers : Forall number (cpb r);
  gr_size : 0 < length (cpb r) /\ (Z.of_nat (length (cpb r)) <= MAX_SAMPLE)%Z;
  gr_freq : is_u64 (freq_cpu_100ns r) /\ is_u64 (freq_cycles r);
}.

Lemma sample_value_number src x :
  (0 < Z.of_nat (slots src) < 2 ^ 64)%Z -> (0 < Z.of_nat (len src) < 2 ^ 64)%Z -> sample_value src x -> number x.
Proof.
  intros Hs Hl (cyc & _ & ->). apply div_not_nan; [apply of_Z_not_nan|]. apply mul_moderate; by apply of_Z_moderate.
Qed.

(** The percentiles of a non-empty sample of numbers are elements of it. *)
Lemma sorted_pct l p n :
  Forall number l -> length l = n -> 0 < n -> pct_index n p < n ->
  exists s x, sorted l = Ret s /\ pct s p = Ret x /\ s ≡ₚ l /\ StronglySorted F64.f64_le s /\ s !! pct_index n p = Some x.
Proof.
  intros Hl Hn Hpos Hidx. destruct (F64.sort_ret l Hl) as (s & Hs & Hp & Hso).
  assert (Hlen : length s = n) by (by rewrite Hp).
  destruct (lookup_lt_is_Some_2 s (pct_index n p)) as [x Hx]; [lia|].
  exists s, x. split; [done|]. split; [|done]. unfold pct. rewrite decide_False by (intros ->; simpl in *; lia).
  rewrite Hlen. by apply vec_index_ret.
Qed.

(** The three percentiles a result is reported with. *)
Lemma stats_ret r :
  good_res r ->
  exists s m p10 p90, sorted (cpb r) = Ret s /\ pct s P50 = Ret m /\ pct s P10 = Ret p10 /\ pct s P90 = Ret p90 /\
    s ≡ₚ cpb r /\ StronglySorted F64.f64_le s /\ s !! (length s / 2) = Some m.
Proof.
  intros [Hn [Hpos Hmax] _]. destruct (pct_index_spec (length (cpb r)) Hpos Hmax) as (H50 & H15 & H90).
  destruct (sorted_pct (cpb r) P50 _ Hn eq_refl Hpos ltac:(lia)) as (s & m & Hs & Hm & Hp & Hso & Hx).
  destruct (sorted_pct (cpb r) P10 _ Hn eq_refl Hpos ltac:(lia)) as (s1 & p10 & Hs1 & Hp10 & _).
  destruct (sorted_pct (cpb r) P90 _ Hn eq_refl Hpos ltac:(lia)) as (s2 & p90 & Hs2 & Hp90 & _).
  rewrite Hs in Hs1, Hs2. apply (inj Ret) in Hs1 as <-, Hs2 as <-. exists s, m, p10, p90.
  rewrite H50 in Hx. rewrite (Permutation_length Hp). done.
Qed.

Lemma median_ret r : good_res r -> exists m, median r = Ret m.
Proof. intros Hr. destruct (stats_ret r Hr) as (s & m & ? & ? & Hs & Hm & _). unfold median. rewrite Hs, bind_ret. eauto. Qed.

Lemma spread_ret r : good_res r -> exists x, spread r = Ret x.
Proof.
  intros Hr. destruct (stats_ret r Hr) as (s & m & p10 & p90 & Hs & Hm & H10 & H90 & _).
  unfold spread. rewrite Hs, bind_ret, Hm, bind_ret, H90, H10. destruct (F64.le m _); [eauto|]. rewrite !bind_ret. eauto.
Qed.

Lemma measured_row_ret qfreq r : good_res r -> exists row, measured_row qfreq r = Ret row.
Proof.
  intros Hr. destruct (stats_ret r Hr) as (s & m & p10 & p90 & Hs & Hm & H10 & H90 & _).
  destruct (spread_ret r Hr) as [x Hx]. unfold measured_row. rewrite Hs, bind_ret, Hm, bind_ret, Hx, bind_ret, H10, bind_ret, H90, bind_ret. eauto.
Qed.

Lemma unstable_flag_ret r : good_res r -> exists x, unstable_flag r = Ret x.
Proof. intros Hr. destruct (spread_ret r Hr) as [x Hx]. unfold unstable_flag. rewrite Hx, bind_ret. eauto. Qed.

Lemma collect_ret {A B} (f : A -> outcome B) l : (forall a, a ∈ l -> exists b, f a = Ret b) -> exists bs, collect f l = Ret bs.
Proof.
  induction l as [|a l IH]; intros Hf; [by exists []|]. destruct (Hf a (list_elem_of_here _ _)) as [b Hb].
  destruct IH as [bs Hbs]; [intros; apply Hf; by apply list_elem_of_further|].
  exists (b :: bs). simpl. by rewrite Hb, bind_ret, Hbs.
Qed.

Lemma med_ret res name hot : (forall r, r ∈ res -> good_res r) -> exists m, med res name hot = Ret m.
Proof.
  intros Hres. unfold med. destruct (find res name hot) as [r|] eqn:Hf; [|eauto].
  apply median_ret, Hres. unfold find in Hf. apply head_Some_elem_of in Hf. by apply list_elem_of_filter in Hf as [_ Hf].
Qed.

(** Effective frequencies are numbers. *)
Lemma eff_ghz_number r x : good_res r -> eff_ghz r = Some x -> number x.
Proof.
  intros [_ _ [Hcpu Hcyc]]. unfold eff_ghz, freq_measurable. destruct (FREQ_MIN_100NS <=? freq_cpu_100ns r)%Z eqn:Hmin; [|done].
  zbool. intros [= <-]. unfold FREQ_MIN_100NS, is_u64 in *.
  apply div_not_nan; [apply div_not_nan; [apply of_Z_not_nan|]|by eexists _, _; vm_compute].
  apply mul_moderate; [apply of_Z_moderate; lia|]. eexists _, _. split; [vm_compute; reflexivity|]. by vm_compute.
Qed.

Lemma length_omap_le {A B} (f : A -> option B) (l : list A) : length (omap f l) <= length l.
Proof.
  induction l as [|a l IH]; [simpl; lia|].
  change (omap f (a :: l)) with (match f a with Some b => b :: omap f l | None => omap f l end).
  cbn [length]. destruct (f a); cbn [length]; lia.
Qed.

Lemma ghz_of_ret res :
  (forall r, r ∈ res -> good_res r) -> (Z.of_nat (length res) <= MAX_SAMPLE)%Z -> exists x, ghz_of res = Ret x.
Proof.
  intros Hres Hlen. unfold ghz_of. set (ghz := omap eff_ghz res).
  assert (Hn : Forall number ghz).
  { apply List.Forall_forall. intros x Hx. apply list_elem_of_In, list_elem_of_omap in Hx as (r & Hr & Hx).
    eapply eff_ghz_number; [by apply Hres|done]. }
  destruct (decide (length ghz = 0)) as [H0|H0].
  { apply nil_length_inv in H0. rewrite H0. eauto. }
  assert (Hle : length ghz <= length res) by apply length_omap_le.
  destruct (pct_index_spec (length ghz) ltac:(lia) ltac:(lia)) as (_ & ? & ?).
  destruct (sorted_pct ghz P50 _ Hn eq_refl ltac:(lia) ltac:(lia)) as (s & m & Hs & Hm & _).
  rewrite Hs, bind_ret, Hm, bind_ret. eauto.
Qed.

(** On such results no section of the report panics. *)
Definition returns (m : IO unit) : Prop := exists l, prints m l tt.

Lemma derive_ret res : (forall r, r ∈ res -> good_res r) -> exists d, derive res = Ret d.
Proof.
  intros Hres. unfold derive. repeat (match goal with |- context [med res ?n ?h] =>
    destruct (med_ret res n h Hres) as [? ->]; rewrite ?bind_ret end). eauto.
Qed.

Lemma speedups_ret res d : (forall r, r ∈ res -> good_res r) -> exists x, speedups res d = Ret x.
Proof.
  intros Hres. unfold speedups. repeat (match goal with |- context [med res ?n ?h] =>
    destruct (med_ret res n h Hres) as [? ->]; rewrite ?bind_ret end). eauto.
Qed.

Lemma medians_ret res P `{!forall r, Decision (P r)} :
  (forall r, r ∈ res -> good_res r) -> exists ms, collect median (filter P res) = Ret ms.
Proof.
  intros Hres. apply collect_ret. intros r Hr. apply list_elem_of_filter in Hr as [_ Hr]. by apply median_ret, Hres.
Qed.

Lemma print_measured_returns qfreq res : (forall r, r ∈ res -> good_res r) -> returns (print_measured qfreq res).
Proof.
  intros Hres. unfold print_measured.
  destruct (print_each_returns (fun r => row ← pure (measured_row qfreq r); println (row_line row)) res) as [l Hl].
  { intros r Hr. destruct (measured_row_ret qfreq r (Hres r Hr)) as [row ->]. rewrite pure_bind. by eexists. }
  rewrite Hl. by eexists.
Qed.

Lemma print_derived_returns d res : (forall r, r ∈ res -> good_res r) -> returns (print_derived d res).
Proof.
  intros Hres. unfold print_derived. destruct (speedups_ret res d Hres) as [[[[a b] c] e] ->]. by eexists.
Qed.

Lemma print_verdict_returns d res : (forall r, r ∈ res -> good_res r) -> returns (print_verdict d res).
Proof.
  intros Hres. unfold print_verdict. destruct (current_row d) as [[x y] z].
  destruct (speedups_ret res d Hres) as [[[[a b] c] e] ->]. by eexists.
Qed.

Lemma print_validity_ret info src res sweep st timer_ns busy :
  (forall r, r ∈ res -> good_res r) -> (Z.of_nat (length res) <= MAX_SAMPLE)%Z ->
  exists post, prints (print_validity info src res sweep st timer_ns busy)
    ("=== VALIDITY ===" ::
     checked_lines (family_ok res FDec) (family_ok res FEnc) (all_acc res) (all_ok res) st ++ post) tt.
Proof.
  intros Hres Hlen. unfold print_validity, worst_aesgcm, timer_figures, unstable.
  destruct (medians_ret res (fun r => r_is_aesgcm r = true) Hres) as [ms1 ->]. rewrite !bind_ret, pure_bind.
  destruct (ghz_of_ret res Hres Hlen) as [ghz ->]. rewrite pure_bind.
  destruct (medians_ret res (fun r => r_name r <> "null" /\ r_name r <> "copy_payload") Hres) as [ms2 ->].
  rewrite bind_ret, pure_bind.
  destruct (collect_ret unstable_flag res) as [flags ->]; [intros; by apply unstable_flag_ret, Hres|].
  rewrite bind_ret, pure_bind. by eexists.
Qed.

(** ** The whole program *)

Section Program.
Context {W : Type} `{AntiReplay W} `{Aead} `{!AeadLaws} `{Providers} `{!ProviderLaws} `{Win32} `{!Win32Works} `{Cpuid}.
Implicit Types (e : Env (W := W)) (keys : Keys (W := W)).

Abbreviation bench_key := (mkKey KEY_BYTES).

(** The clock between two readings of the warm-up: the state after a reading,
    and whether the reading ends the loop. *)
Definition tick (w : world) : world := (QueryPerformanceCounter w).2.
Definition reading (w : world) : Z := (QueryPerformanceCounter w).1.2.
Definition expired (cfg : Cfg) (f : F64.f64) (t0 : Z) (w : world) : Prop :=
  F64.lt (F64.div (F64.of_Z (wrap_i64 (reading w - t0))) f) (warmup_secs cfg) = false.

(** Within [fuel] readings after any point, the warm-up time has passed. *)
Definition clock_passes (fuel : nat) (cfg : Cfg) : Prop :=
  forall w w', exists n, n <= fuel /\
    expired cfg (F64.of_Z (QueryPerformanceFrequency w').1.2) (reading w) (Nat.iter n tick (tick w)).

Lemma qpc_tick w : qpc w = Ret (reading w, tick w).
Proof.
  unfold qpc, reading, tick. pose proof (counter_works w) as Hw. destruct (QueryPerformanceCounter w) as [[ok c] w'].
  simpl in *. apply Z.eqb_neq in Hw. by rewrite Hw.
Qed.

Section Pool.
Context (key : ExpresslaneKey) (seed : Z) (src : Src) (k : aead_key) (cc : cc_key).
Context (Hkey : is_invalid key = false) (Hk : unbound_key_new (key_bytes key) = Some k) (Hcc : cc_new (key_bytes key) = Some cc).
Context (Hsrc : src_wf key seed src) (Hmax : (Z.of_nat (slots src) <= 2 ^ 32)%Z) (Hlen : 8 <= len src).

Lemma warm_loop_ret cfg f t0 sch fuel : forall sink e,
  sched_wf src sch -> env_ok key src k cc e ->
  (exists n, n <= fuel /\ expired cfg f t0 (Nat.iter n tick (env_world e))) ->
  exists sink' e', warm_loop fuel cfg f t0 src sch sink e = Some (Ret (sink', e')) /\ env_ok key src k cc e'.
Proof.
  induction fuel as [|fuel IH]; intros sink e Hsch [Hko Hdst] (n & Hn & Hexp); cbn [warm_loop]; rewrite qpc_tick.
  all: destruct (F64.lt _ _) eqn:E; [|eexists _, _; split; [reflexivity|by split]].
  { replace n with 0 in Hexp by lia. unfold expired in Hexp. simpl in Hexp. congruence. }
  destruct n as [|n]; [unfold expired in Hexp; simpl in Hexp; congruence|]. rewrite Nat.iter_succ_r in Hexp.
  cbn [env_keys env_dst env_world].
  destruct (fresh_rx_ret key k cc Hkey Hk (env_keys e) Hko) as (rx & -> & Hp & Hv & Hm). rewrite bind_ret.
  destruct (arm_rc_dec_folds key seed src sch Hsrc Hsch Hmax (make_ctx (env_keys e) rx src) (env_dst e))
    as (dst' & c' & -> & Hd & ->); [by apply (make_ctx_wf key src k cc)|done|].
  apply IH; [done| |].
  - split; [|done]. destruct Hko as [? ? ? ? ?]. by split.
  - exists n. split; [lia|done].
Qed.

Lemma warm_up_ret fuel cfg e :
  env_ok key src k cc e -> clock_passes fuel cfg ->
  exists sink e', warm_up fuel cfg src e = Some (Ret (sink, e')) /\ env_ok key src k cc e'.
Proof.
  intros [Hko Hdst] Hclock. unfold warm_up.
  destruct (scheds_ret key seed src Hsrc Hmax Hlen SEED) as (cold & hot & -> & _ & Hsc). rewrite bind_ret.
  destruct (qpc_freq_ret (env_world e)) as [w1 ->]. rewrite bind_ret, qpc_tick, bind_ret.
  apply warm_loop_ret; [apply Hsc|by split|]. apply Hclock.
Qed.

(** A run of one to eight rounds: good results whose gates hold. *)
Lemma run_results cfg sp e :
  (forall s, s ∈ sp -> s ∈ specs) -> (1 <= rounds cfg <= 8)%Z -> env_ok key src k cc e ->
  exists res cpus e', run_all cfg src sp e = Ret (res, cpus, e') /\ env_ok key src k cc e' /\
    length res = length (jobs_of sp) /\ (forall r, r ∈ res -> good_res r) /\
    all_ok res = true /\ all_acc res = true /\ (forall fam, fam <> FNull -> family_ok res fam = true).
Proof.
  intros Hsp Hr He.
  destruct (run_all_ret key seed src k cc Hkey Hk Hcc Hsrc Hmax Hlen sp Hsp cfg e)
    as (res & cpus & e' & ns & scheds & Hrun & He' & Hsc & Hl & Hns & Hrange & Hres);
    [apply capacity_few; lia|exact He|].
  assert (Hall : forall r, r ∈ res -> exists (s : Spec (W := W)) hot m, 0 < m /\ (Z.of_nat m <= MAX_SAMPLE)%Z /\
    res_ok seed src k cc s hot (pick scheds hot) m r).
  { intros r [j Hj]%list_elem_of_lookup. pose proof (lookup_lt_Some _ _ _ Hj) as Hlt. rewrite Hl in Hlt.
    destruct (lookup_lt_is_Some_2 _ _ Hlt) as [[i hot] Hjob]. destruct (jobs_of_lookup sp j i hot Hjob) as (s & Hs & _).
    destruct (lookup_lt_is_Some_2 ns j) as [n Hn]; [lia|]. exists s, hot, (Z.to_nat (rounds cfg) * (ns !!! j)).
    rewrite List.Forall_forall in Hrange. pose proof (Hrange n (proj1 (list_elem_of_In _ _) (list_elem_of_lookup_2 _ _ _ Hn))).
    rewrite (list_lookup_total_correct _ _ _ Hn). unfold MAX_SAMPLE. split_and!; [nia|nia|].
    rewrite <- (list_lookup_total_correct _ _ _ Hn). by eapply Hres. }
  exists res, cpus, e'. split; [done|]. split; [done|]. split; [done|]. split.
  - intros r Hr'. destruct (Hall r Hr') as (s & hot & m & Hm & Hmm & Hok). pose proof (sw_slots _ _ _ Hsrc). pose proof (sw_len _ _ _ Hsrc).
    destruct Hok as [_ _ _ _ _ Hcpb Hvals Hfreq _ _ _]. split; [|lia|done].
    eapply List.Forall_impl; [|exact Hvals]. intros x. apply sample_value_number; lia.
  - apply (gates_hold (W := W) seed src k cc scheds). apply List.Forall_forall. intros r Hr'%list_elem_of_In.
    destruct (Hall r Hr') as (s & hot & m & Hm & _ & Hok). by exists s, hot, m.
Qed.

End Pool.

(** A pool for the benchmark's key, and the environment of a run on it. *)
Lemma bench_pool len target max_slots :
  8 <= len -> (Z.of_nat len <= 65535)%Z -> (Z.of_nat max_slots <= 2 ^ 32)%Z ->
  exists src, build (W := W) len target max_slots bench_key SESSION_ID SEED = Ret src /\ src_wf bench_key SEED src /\
    (Z.of_nat (slots src) <= 2 ^ 32)%Z /\ 8 <= Pool.len src.
Proof.
  intros H8 Hlen Hmax.
  destruct (build_ret (W := W) len target max_slots bench_key SESSION_ID SEED)
    as (src & Hb & Hwf & Hl & _ & Hn); [done|done|done|done|lia|].
  exists src. split; [done|]. split; [done|]. lia.
Qed.

Lemma sweep_step_ret cfg k cc len rows keys w :
  unbound_key_new KEY_BYTES = Some k -> cc_new KEY_BYTES = Some cc -> keys_ok bench_key k cc keys ->
  8 <= len -> (Z.of_nat len <= 65535)%Z -> (0 <= max_slots cfg <= 2 ^ 32)%Z ->
  exists rows' keys' w', sweep_step cfg len (rows, keys, w) = Ret (rows', keys', w') /\ keys_ok bench_key k cc keys'.
Proof.
  intros Hk Hcc Hko H8 Hlen Hmax. unfold sweep_step. rewrite (ko_key _ _ _ _ Hko).
  destruct (bench_pool len (Z.to_nat (pool_bytes cfg)) (Z.to_nat (max_slots cfg))) as (src & -> & Hwf & Hslots & Hl8);
    [done|done|lia|]. rewrite bind_ret.
  destruct (run_results bench_key SEED src k cc eq_refl Hk Hcc Hwf Hslots Hl8 (sub_cfg cfg) sweep_specs
    (mkEnv keys (zeros (slots src * stride src)) w)) as (res & cpus & e & -> & He & _ & Hgood & _).
  - intros s Hs. by apply list_elem_of_filter in Hs as [_ Hs].
  - simpl. lia.
  - split; [done|apply length_zeros].
  - rewrite bind_ret. destruct (med_ret res "rc_aesgcm256_dec" false Hgood) as [rc ->]. rewrite bind_ret.
    destruct (med_ret res "ring_aesgcm256_dec" false Hgood) as [ring ->]. rewrite bind_ret.
    eexists _, _, _. split; [reflexivity|]. apply He.
Qed.

Lemma payload_sweep_ret cfg k cc keys w :
  unbound_key_new KEY_BYTES = Some k -> cc_new KEY_BYTES = Some cc -> keys_ok bench_key k cc keys ->
  (0 <= max_slots cfg <= 2 ^ 32)%Z ->
  exists rows' keys' w', payload_sweep cfg keys w = Ret (rows', keys', w').
Proof.
  intros Hk Hcc Hko Hmax. unfold payload_sweep. destruct (sweep cfg); [|by eauto].
  destruct (for_each_inv (fun _ '(rows, keys, w) => keys_ok bench_key k cc keys) (sweep_step cfg) [64; 256; 576; M1_MEAN_PKT]
    [] ([], keys, w)) as ([[rows' keys'] w'] & Hrun & _); [done| |eauto].
  intros _ len [[rows ks] w0] Hlen Hks. unfold M1_MEAN_PKT in Hlen. rewrite !elem_of_cons, elem_of_nil in Hlen.
  destruct (sweep_step_ret cfg k cc len rows ks w0) as (rows' & keys' & w' & Hrun & Hko'); try done; [lia..|].
  exists (rows', keys', w'). done.
Qed.

(** The report is printed to its end, with the gates it computed. *)
Lemma print_report_ret cfg info src res sweep st timer_ns wall busy cpus w :
  (forall r, r ∈ res -> good_res r) -> (Z.of_nat (length res) <= MAX_SAMPLE)%Z ->
  exists pre post, prints (print_report cfg info src res sweep st timer_ns wall busy cpus w)
    (pre ++ checked_lines (family_ok res FDec) (family_ok res FEnc) (all_acc res) (all_ok res) st ++ post) tt.
Proof.
  intros Hres Hlen. unfold print_report. destruct (qpc_freq_ret w) as [w' ->]. rewrite pure_bind.
  destruct (print_measured_returns (F64.of_Z (QueryPerformanceFrequency w).1.2) res Hres) as [measured ->].
  destruct (derive_ret res Hres) as [d ->]. destruct (print_derived_returns d res Hres) as [derived Hd].
  destruct (print_validity_ret info src res sweep st timer_ns busy Hres Hlen) as [post ->].
  destruct (print_verdict_returns d res Hres) as [verdict Hv].
  rewrite !printlns_bind, pure_bind, Hd, Hv. cbn [mbind io_bind ended stdout printlns].
  eexists (_ :: _ :: measured ++ derived ++ sweep_lines sweep ++ projection_lines cfg info d ++ ["=== VALIDITY ==="]),
    (post ++ verdict ++ limits_lines).
  apply (f_equal (fun l => mkIO l _)). cbn [app]. do 2 f_equal. rewrite <- !app_assoc. cbn [app]. by rewrite <- ?app_assoc.
Qed.

(** The results of a passed self-test, and the header of a run. *)
Definition passed : SelfTest := mkSelfTest true true true true true.
Definition header stamps cfg src timer_ns w : list string :=
  header_lines stamps cfg detect src passed timer_ns (set_scheduling (pin cfg) w).1.

(** Up to the warm-up the program gets whatever the clocks do; behind it the
    clock must pass the warm-up time. *)
Lemma bench_main_ret stamps fuel cfg w :
  (0 <= max_slots cfg <= 2 ^ 32)%Z ->
  exists src timer_ns rest,
    build (W := W) M1_MEAN_PKT (Z.to_nat (pool_bytes cfg)) (Z.to_nat (max_slots cfg)) bench_key SESSION_ID SEED = Ret src /\
    stdout (bench_main (W := W) stamps fuel cfg w) = header stamps cfg src timer_ns w ++ rest /\
    ((1 <= rounds cfg <= 8)%Z -> clock_passes fuel cfg ->
     ended (bench_main (W := W) stamps fuel cfg w) = Returns tt /\
     exists pre post, rest = pre ++ checked_lines true true true true passed ++ post).
Proof.
  intros Hmax. unfold bench_main, header. destruct (set_scheduling (pin cfg) w) as [note w0].
  destruct (timer_cost_ns_ret w0) as (timer & w1 & ->). rewrite pure_bind.
  destruct (qpc_freq_ret w1) as [w2 ->]. rewrite pure_bind.
  destruct (system_times_ret w2) as (i0 & k0 & u0 & w3 & ->). rewrite pure_bind, qpc_tick, pure_bind.
  destruct (build_keys_ret (W := W)) as (keys & k & cc & -> & Hko & Hk & Hcc). rewrite pure_bind, (ko_key _ _ _ _ Hko).
  destruct (bench_pool M1_MEAN_PKT (Z.to_nat (pool_bytes cfg)) (Z.to_nat (max_slots cfg))) as (src & -> & Hwf & Hslots & Hl8);
    [unfold M1_MEAN_PKT; lia|unfold M1_MEAN_PKT; lia|lia|]. rewrite pure_bind.
  rewrite (self_test_ret bench_key SEED src k cc keys eq_refl Hk Hcc Hwf Hko), pure_bind.
  unfold print_header. rewrite printlns_bind. cbn [stdout ended].
  exists src, timer. eexists. split; [done|]. split; [reflexivity|]. intros Hr Hclock.
  destruct (warm_up_ret bench_key SEED src k cc eq_refl Hk Hcc Hwf Hslots Hl8 fuel cfg
    (mkEnv keys (zeros (slots src * stride src)) (tick w3))) as (sink & e1 & -> & He1); [split; [done|apply length_zeros]|done|].
  cbn [fueled]. rewrite pure_bind.
  destruct (run_results bench_key SEED src k cc eq_refl Hk Hcc Hwf Hslots Hl8 cfg specs e1)
    as (res & cpus & e2 & -> & He2 & Hlen & Hgood & Hok & Hacc & Hfam); [done|done|done|]. rewrite pure_bind.
  destruct (payload_sweep_ret cfg k cc (env_keys e2) (env_world e2)) as (rows & keys' & w5 & ->); [done|done|apply He2|done|].
  rewrite pure_bind, qpc_tick, pure_bind. destruct (system_times_ret (tick w5)) as (i1 & k1 & u1 & w6 & ->). rewrite pure_bind.
  match goal with |- context [print_report ?c ?info ?s ?r ?sw ?st ?t ?rw ?b ?cp ?w7] =>
    destruct (print_report_ret c info s r sw st t rw b cp w7 Hgood) as (pre & post & ->) end; [by rewrite Hlen|].
  split; [done|]. exists pre, post. cbn [stdout]. by rewrite !Hfam, Hok, Hacc.
Qed.

End Program.
End BenchFacts.
Import BenchFacts.

(** ** Properties *)

Module BenchProperties.

Section BenchProperties.
Context {W : Type} `{AntiReplay W} `{Aead} `{!AeadLaws} `{Providers} `{!ProviderLaws} `{Win32} `{!Win32Works} `{Cpuid}.


(** C36: a run records complete passes only.  On a pool of at most [2^32]
    packets of 8 bytes or more, with working clocks and a number of rounds whose
    sample vectors can be reserved, a run returns; every job has [rounds] blocks of
    8 to 512 samples, as many operations succeeded as were expected, and every
    arm that writes has a stable accumulator, the one its family must fold over
    its schedule.  With more rounds (600 samples of 8 bytes each, in wrapping
    arithmetic, past [isize::MAX]) a run that has a job panics. *)
Theorem run_records_complete_passes key seed src k cc cfg (sp : list (Spec (W := W))) e :
  is_invalid key = false -> unbound_key_new (key_bytes key) = Some k -> cc_new (key_bytes key) = Some cc ->
  src_wf key seed src -> (Z.of_nat (slots src) <= 2 ^ 32)%Z -> 8 <= len src ->
  (forall s, s ∈ sp -> s ∈ specs) -> env_ok key src k cc e ->
  ((wrap64 (rounds cfg * 600) * 8 < 2 ^ 63)%Z ->
   exists results cpus e' ns scheds,
     run_all cfg src sp e = Ret (results, cpus, e') /\ scheds_ok src scheds /\
     length results = length (jobs_of sp) /\ length ns = length (jobs_of sp) /\ Forall (fun n => 8 <= n <= 512) ns /\
     (forall j i hot s r, jobs_of sp !! j = Some (i, hot) -> sp !! i = Some s -> results !! j = Some r ->
        length (cpb r) = Z.to_nat (rounds cfg) * (ns !!! j) /\ total_ops r = expected_ops r /\
        expected_ops r = wrap64 (Z.of_nat (length (cpb r) * slots src)) /\
        (spec_family s <> FNull -> acc_stable r = true /\
           (length (cpb r) <> 0 -> r_acc r = family_acc seed src k cc (spec_family s) (pick scheds hot))))) /\
  ((2 ^ 63 <= wrap64 (rounds cfg * 600) * 8)%Z -> jobs_of sp <> [] -> run_all cfg src sp e = Panic).
Proof.
  intros Hkey Hk Hcc Hsrc Hmax Hlen Hsp He. split.
  2:{ intros Hbig. apply (run_all_panics key seed src Hsrc Hmax Hlen). unfold capacity_fits. lia. }
  intros Hfit. destruct (run_all_ret key seed src k cc Hkey Hk Hcc Hsrc Hmax Hlen sp Hsp cfg e)
    as (res & cpus & e' & ns & scheds & Hrun & _ & Hsc & Hl & Hns & Hrange & Hres); [unfold capacity_fits; lia|done|].
  exists res, cpus, e', ns, scheds. split_and!; try done. intros j i hot s r Hj Hs Hr.
  destruct (Hres j i hot s r Hj Hs Hr) as [_ _ _ _ _ Hcpb _ _ Hops Hexp Hacc]. rewrite Hcpb.
  split_and!; try done. intros Hf. destruct (Hacc Hf) as [Hst Hr']. split; [done|]. intros Hm. apply Hr'. lia.
Qed.

(** the startup self-test passes: keys are built, and on the first packet
    of a pool the three providers and a fresh session recover the plaintext and
    RustCrypto and [ring] seal to the same bytes. *)
Theorem self_test_passes target max_slots :
  (Z.of_nat max_slots < 2 ^ 64)%Z ->
  exists keys src, build_keys (W := W) = Ret keys /\
    build (W := W) M1_MEAN_PKT target max_slots (k_key keys) SESSION_ID SEED = Ret src /\
    self_test keys src = Ret (mkSelfTest true true true true true).
Proof.
  intros Hmax. destruct (build_keys_ret (W := W)) as (keys & k & cc & Hb & Hko & Hk & Hcc).
  destruct (build_ret (W := W) M1_MEAN_PKT target max_slots (mkKey KEY_BYTES) SESSION_ID SEED)
    as (src & Hs & Hwf & _); [done|done|done|unfold M1_MEAN_PKT; lia|done|].
  exists keys, src. rewrite (ko_key _ _ _ _ Hko). split; [done|]. split; [done|].
  by apply (self_test_ret (mkKey KEY_BYTES) SEED src k cc).
Qed.

End BenchProperties.

(** percentiles are sample elements.  For a sample of one to [2^12] numbers
    the reported median is the upper median of the sorted sample, the 10th and
    90th percentiles exist and sorting is a sorted permutation; a NaN among two
    or more values panics instead of being ordered. *)
Theorem median_is_upper_median r :
  Forall number (cpb r) -> 0 < length (cpb r) -> (Z.of_nat (length (cpb r)) <= MAX_SAMPLE)%Z ->
  (exists s m, sorted (cpb r) = Ret s /\ s ≡ₚ cpb r /\ StronglySorted F64.f64_le s /\
     median r = Ret m /\ s !! (length (cpb r) / 2) = Some m /\ (exists x, spread r = Ret x)) /\
  (forall l, 2 <= length l -> F64.NAN ∈ l -> sorted l = Panic).
Proof.
  intros Hn Hpos Hmax. split.
  - set (r' := mkRes "" false FNull false (cpb r) 0 0 0 0 0 0 true 0).
    assert (Hgood : good_res r') by (split; [done|done|split; unfold is_u64; simpl; lia]).
    destruct (stats_ret r' Hgood) as (s & m & p10 & p90 & Hs & Hm & H10 & H90 & Hp & Hso & Hx). simpl in Hs, Hp.
    exists s, m. rewrite (Permutation_length Hp) in Hx. split_and!; try done.
    + unfold median. by rewrite Hs, bind_ret.
    + exact (spread_ret r' Hgood).
  - intros l Hl Hin. apply F64.sort_nan; [done|]. apply List.Exists_exists. exists F64.NAN. split; [by apply list_elem_of_In|done].
Qed.

(** each round of a run is a permutation of the jobs: rotating by the round
    and reversing odd rounds runs every job exactly once per round. *)
Theorem rounds_permute_jobs n rounds :
  foldl (fun order round => permute round order) (seq 0 n) (seq 0 rounds) ≡ₚ seq 0 n /\
  (forall j, j < n -> count_occ Nat.eq_dec (permute rounds (seq 0 n)) j = 1).
Proof.
  split.
  - induction rounds as [|m IH]; [done|]. rewrite seq_S, foldl_app. simpl. by rewrite permute_perm.
  - intros j Hj. rewrite (proj1 (Permutation_count_occ Nat.eq_dec _ _) (permute_perm rounds (seq 0 n)) j).
    apply NoDup_count_occ'; [apply seq_NoDup|apply in_seq; lia].
Qed.

(** the note that the cold working set fits in L3 is exact below 4 GiB, but
    its comparison is on [u32]: the pool that [--pool-mib 2049 --max-slots
    1398102] asks for has a working set above 4 GiB and is reported to fit an
    8 MiB cache. *)
Theorem l3_note_truncates {W : Type} `{AntiReplay W} `{Aead} `{!AeadLaws} `{Providers} `{!ProviderLaws} :
  (forall src l3, (Z.of_nat (working_set_bytes src) < 2 ^ 32)%Z -> (0 <= l3 * 1024 < 2 ^ 32)%Z ->
     fits_l3_note src (Some l3) = (Z.of_nat (working_set_bytes src) <? l3 * 1024)%Z) /\
  (exists src, build (W := W) M1_MEAN_PKT (Z.to_nat (2049 * 1024 * 1024)) (Z.to_nat 1398102) (mkKey KEY_BYTES) SESSION_ID SEED = Ret src /\
     (2 ^ 32 < Z.of_nat (working_set_bytes src))%Z /\ fits_l3_note src (Some 8192%Z) = true).
Proof.
  unfold fits_l3_note, wrap32. split.
  - intros src l3 Hw Hl. by rewrite !Z.mod_small by lia.
  - destruct (build_ret (W := W) M1_MEAN_PKT (Z.to_nat (2049 * 1024 * 1024)) (Z.to_nat 1398102) (mkKey KEY_BYTES) SESSION_ID SEED)
      as (src & Hs & Hwf & Hl & _ & Hn); [done|done|done|unfold M1_MEAN_PKT; lia|lia|].
    assert (Hstride : stride src = 1536) by (rewrite (sw_stride _ _ _ Hwf), Hl; vm_compute; reflexivity).
    assert (Hslots : Z.of_nat (slots src) = 1398102%Z).
    { rewrite Hn, <- Hl, <- (sw_stride _ _ _ Hwf), Hstride. clear. lia. }
    assert (Hws : Z.of_nat (working_set_bytes src) = 4294969344%Z) by (clear -Hstride Hslots; unfold working_set_bytes; rewrite Hstride; lia).
    exists src. rewrite Hws. split; [exact Hs|]. clear. split; [lia|reflexivity].
Qed.

End BenchProperties.

(** ** Witnesses

    A system whose clocks advance, and a processor that reports nothing. *)

Module BenchWitnesses.
Import BenchProperties.

Definition zero_time : FileTime := mkFileTime 0 0.

#[local] Instance toy_win32 : Win32 := {|
  world := Z;
  QueryThreadCycleTime w := (1, w `mod` 2 ^ 64, w + 4000)%Z;
  GetThreadTimes w := (1%Z, (zero_time, zero_time, zero_time, zero_time), w);
  GetSystemTimes w := (1%Z, (zero_time, zero_time, zero_time), w);
  SetThreadAffinityMask _ w := (1%Z, w);
  SetThreadIdealProcessor _ w := (0%Z, w);
  GetCurrentProcessorNumber w := (0%Z, w);
  SetThreadPriority _ w := (1%Z, w);
  SetPriorityClass _ w := (1%Z, w);
  QueryPerformanceCounter w := (1, w, w + 10 ^ 9)%Z;
  QueryPerformanceFrequency w := (1%Z, (10 ^ 7)%Z, w);
|}.

#[local] Instance toy_win32_works : Win32Works.
Proof. by split. Qed.

#[local] Instance toy_cpuid : Cpuid := {| cpuid_count _ _ := mkCpuid 0 0 0 0; feature_detected _ := true |}.

Definition toy_stamps : Stamps := mkStamps "rustc" "x86_64-pc-windows-msvc" "release" "3" None.

Lemma toy_clock : clock_passes 1 default_cfg.
Proof.
  intros w w'. exists 0. split; [lia|]. unfold expired, reading, tick. simpl.
  replace (w + 10 ^ 9 - w)%Z with (10 ^ 9)%Z by lia. vm_compute. reflexivity.
Defined.


Lemma self_test_passes_witness :
  exists keys src, build_keys (W := Ring.ReplayWindow) = Ret keys /\
    self_test keys src = Ret (mkSelfTest true true true true true).
Proof.
  destruct (self_test_passes (W := Ring.ReplayWindow) 0 64) as (keys & src & Hk & _ & Hs); [lia|].
  exists keys, src. split; [exact Hk|exact Hs].
Defined.

Lemma run_records_complete_passes_witness :
  exists src e results cpus e', run_all (W := Ring.ReplayWindow) default_cfg src specs e = Ret (results, cpus, e') /\
    length results = 19.
Proof.
  destruct (build_keys_ret (W := Ring.ReplayWindow)) as (keys & k & cc & _ & Hko & Hk & Hcc).
  destruct (bench_pool (W := Ring.ReplayWindow) 64 0 64) as (src & _ & Hwf & Hs & Hl); [lia|lia|lia|].
  destruct (run_records_complete_passes (W := Ring.ReplayWindow) (mkKey KEY_BYTES) SEED src k cc default_cfg specs
    (mkEnv keys (zeros (slots src * stride src)) (0%Z : @world toy_win32)))
    as [(results & cpus & e' & ns & scheds & Hrun & _ & Hlen & _) _];
    [reflexivity|exact Hk|exact Hcc|exact Hwf|exact Hs|exact Hl|done|split; [exact Hko|apply length_zeros]|reflexivity|].
  eexists src, _, results, cpus, e'. split; [exact Hrun|]. rewrite Hlen. reflexivity.
Defined.

Lemma median_is_upper_median_witness :
  exists m, median (mkRes "" false FNull false [F64.of_Z 3; F64.of_Z 1; F64.of_Z 2] 0 0 0 0 0 0 true 0) = Ret m.
Proof.
  destruct (median_is_upper_median (mkRes "" false FNull false [F64.of_Z 3; F64.of_Z 1; F64.of_Z 2] 0 0 0 0 0 0 true 0))
    as [(s & m & _ & _ & _ & Hm & _) _].
  - repeat constructor.
  - simpl. lia.
  - simpl. unfold MAX_SAMPLE. lia.
  - exists m. exact Hm.
Defined.

End BenchWitnesses.
